(** * ExASPIM acquisition engine: a shallow embedding and its properties

    The development embeds [exaspim_control/exa_spim_acquisition.py]
    (class [ExASPIMAcquisition]) as functions in a small state-and-error
    monad.  The program talks to cameras, DAQs, stages, writers, analysis
    processes and transfers; every call into such a collaborator is an
    atomic action that is appended to a log together with a snapshot of
    the shared state at that moment.  The other parties (the writer and
    process consumers, a user pressing stop, stages that settle, transfers
    that finish, the capture threads of the other cameras working on the
    same DAQs) act between any two atomic actions of the program; what
    they do is given by a schedule, one burst of environment actions per
    atomic action of the program. *)

From Stdlib Require Import ZArith List String Bool Lia QArith DecimalString.
Import ListNotations.

#[local] Open Scope string_scope.
#[local] Open Scope list_scope.
#[local] Open Scope Z_scope.

(* ===================================================================== *)
(** ** Python values, dictionaries and exceptions *)
(* ===================================================================== *)

(** The exceptions the embedded code can raise. *)
Inductive exn : Type :=
| ValueError (msg : string)
| KeyError (key : string)
| AttributeError (name : string)
| TypeError
| ZeroDivisionError
| UnboundLocalError (var : string)
| CapacityError (buffer : string)
| RuntimeError.

(** Attribute values written by the engine. *)
Inductive pyval : Type :=
| VNone
| VInt (z : Z)
| VNum (q : Q)
| VStr (s : string).

(** A Python [dict] with string keys, in insertion order. *)
Definition dict (V : Type) : Type := list (string * V).

Fixpoint dict_get {V} (d : dict V) (k : string) : option V :=
  match d with
  | [] => None
  | (k', v) :: d' => if String.eqb k' k then Some v else dict_get d' k
  end.

(** [d[k] = v]: an existing key keeps its place, a new key goes last. *)
Fixpoint dict_set {V} (d : dict V) (k : string) (v : V) : dict V :=
  match d with
  | [] => [(k, v)]
  | (k', v') :: d' =>
      if String.eqb k' k then (k', v) :: d' else (k', v') :: dict_set d' k v
  end.

Definition keys {V} (d : dict V) : list string := map fst d.

(** [x in names]. *)
Definition mem (x : string) (names : list string) : bool :=
  existsb (String.eqb x) names.

(** [str(n)] for a Python int. *)
Definition str_of_Z (n : Z) : string := NilZero.string_of_int (Z.to_int n).

(** [math.ceil(a / b)] and [math.floor(a / b)] on ints.  Python divides in
    binary64 first; for operands below 2^53 in magnitude the rounded quotient
    has the same ceiling and floor as the exact one, and frame counts are far
    below that. *)
Definition ceil_div (a b : Z) : Z := - ((- a) / b).
Definition floor_div (a b : Z) : Z := a / b.

(* ===================================================================== *)
(** ** Configuration records *)
(* ===================================================================== *)

(** One entry of [config['acquisition']['tiles']] that has the keys
    ['tile_number'], ['channel'], ['prefix'], ['steps'], ['step_size'] and
    ['position_mm']; of these, only the axes of ['position_mm'] are looked
    up here (and can be missing). *)
Record Tile : Type := {
  tile_number : Z;
  channel : string;
  prefix : string;
  steps : Z;
  step_size : Q;
  position_mm : dict Q;
  (** [tile.get(device_name, {})]: per-device settings of the tile. *)
  device_settings : dict (dict string)
}.

Record Camera : Type := {
  height_px : Z;
  width_px : Z
}.

(** The attributes of a writer this program only reads. *)
Record Writer : Type := {
  chunk_count_px : Z;
  path : option string;
  data_type : string
}.

Record Process : Type := {
  process_data_type : string
}.

Inductive TaskKind : Type := AO | DO | CO.

(** A DAQ: [tasks] holds the keys of [daq.tasks] whose entry is not [None];
    [ao_task], [do_task], [co_task] tell whether the task attribute of that
    name is not [None]. *)
Record Daq : Type := {
  tasks : list string;
  ao_task : bool;
  do_task : bool;
  co_task : bool
}.

Record Stage : Type := {
  instrument_axis : string
}.

(** The parts of [self.instrument] the acquisition reads. *)
Record Instrument : Type := {
  (** [instrument.config['instrument']['devices']]: name -> type. *)
  devices : dict string;
  tiling_stages : dict Stage;
  scanning_stages : dict Stage;
  (** [instrument.channels]: channel -> device type -> device names. *)
  channels : dict (dict (list string));
  (** [getattr(instrument, device_type)]: the device collections. *)
  collections : dict (list string);
  daqs : dict Daq;
  cameras : dict Camera
}.

(** [self] after [__init__]: the operation collections are attributes that
    exist only when the configuration names that operation type. *)
Record Acquisition : Type := {
  instrument : Instrument;
  tiles : list Tile;
  writers : dict (dict Writer);
  processes : option (dict (dict Process));
  routines : option (dict (list string));
  transfers : option (dict (list string));
  self_chunk_count_px : option Z
}.

(* ===================================================================== *)
(** ** Shared state, events and the environment *)
(* ===================================================================== *)

(** Objects whose attributes the program assigns. *)
Inductive obj : Type :=
| WriterObj (name : string)
| ProcessObj (name : string)
| RoutineObj (device routine : string)
| TransferObj (device transfer : string)
| DeviceObj (name : string).

Definition obj_eqb (a b : obj) : bool :=
  match a, b with
  | WriterObj x, WriterObj y => String.eqb x y
  | ProcessObj x, ProcessObj y => String.eqb x y
  | RoutineObj d r, RoutineObj d' r' => String.eqb d d' && String.eqb r r'
  | TransferObj d t, TransferObj d' t' => String.eqb d d' && String.eqb t t'
  | DeviceObj x, DeviceObj y => String.eqb x y
  | _, _ => false
  end.

(** A [SharedDoubleBuffer]: [filled] frames sit in the write half, which
    holds [capacity] frames; [write_half] tells which half is written. *)
Record DoubleBuffer : Type := {
  capacity : Z;
  filled : Z;
  write_half : bool
}.

Inductive ThreadStatus : Type := Created | Started | Finished.

Record State : Type := {
  (** [self.stop_engine] *)
  stop_engine : bool;
  (** [writer.done_reading], by writer name *)
  done_reading : string -> bool;
  (** [process.new_image], by process name *)
  new_image : string -> bool;
  (** [img_buffers], by writer name *)
  img_buffers : string -> DoubleBuffer;
  (** DAQ tasks that were started and not stopped since *)
  running : list (string * TaskKind);
  (** attributes assigned on objects *)
  attrs : obj -> string -> pyval;
  (** [stage.is_axis_moving()], by stage id *)
  axis_moving : string -> bool;
  (** [transfer.is_alive()], by device and transfer name *)
  transfer_alive : string -> string -> bool;
  (** [self.acquisition_threads] *)
  acquisition_threads : dict ThreadStatus;
  (** [self.transfer_threads] *)
  transfer_threads : dict (list string)
}.

Inductive Event : Type :=
(* engine *)
| SetAttr (o : obj) (attr : string) (v : pyval)
| BufferCreate (writer : string) (cap : Z)
| ShmCreate (process : string)
| ProcessPrepare (process : string)
| CameraPrepare
| WriterPrepare (writer : string)
| WriterStart (writer : string)
| CameraStart
| ProcessStart (process : string)
| StopIsSet
| CfgImplicitTiming (daq : string) (samps_per_chan : Z)
| TaskStart (daq : string) (k : TaskKind)
| GrabFrame (frame : Z)
| SignalAcquisitionState
| AddImage (writer : string) (frame : Z)
| DaqStop (daq : string)
| DoneReadingIsSet (writer : string)
| Sleep
| LockAcquire (writer : string)
| ToggleBuffers (writer : string)
| DoneReadingClear (writer : string)
| LockRelease (writer : string)
| NewImageIsSet (process : string)
| BufferImageWrite (process : string) (frame : Z)
| NewImageSet (process : string)
| WriterWaitToFinish (writer : string)
| ProcessWaitToFinish (process : string)
| CameraStop
| BufferCloseAndUnlink (writer : string)
| ShmClose (process : string)
| ShmUnlink (process : string)
(* run *)
| MoveAbsolute (stage : string) (position : Q)
| IsAxisMoving (stage : string)
| DeviceEnable (device_type device : string)
| DaqAddTask (daq : string) (k : TaskKind) (pulse_count : option Z)
| DaqGenerateWaveforms (daq : string) (k : TaskKind) (channel : string)
| DaqWriteWaveforms (daq : string) (k : TaskKind)
| RoutineStart (device routine : string)
| ThreadCreate (camera : string)
| ThreadStart (camera : string)
| ThreadJoin (camera : string)
| TransferIsAlive (device transfer : string)
| TransferWaitUntilFinished (device transfer : string)
| TransferStart (device transfer : string)
(* stop_acquisition *)
| StopEngineSet.

(** What the other parties may do between two actions of the program.
    [run] starts one capture thread per camera (lines 139-160), and all of
    them work on the same [self.instrument.daqs]: another capture thread may
    start a DAQ task (line 273) or stop a DAQ (line 287) at any moment. *)
Inductive EnvAct : Type :=
| StopRequested                         (* someone sets [stop_engine] *)
| WriterDoneReading (writer : string)   (* a writer sets [done_reading] *)
| ProcessTookImage (process : string)   (* a process clears [new_image] *)
| AxisSettled (stage : string)
| TransferFinished (device transfer : string)
| OtherTaskStart (daq : string) (k : TaskKind)
                                        (* another capture thread: [task.start()] *)
| OtherDaqStop (daq : string).          (* another capture thread: [daq.stop()] *)

(** Function update on string keys. *)
Definition upd {V} (f : string -> V) (k : string) (v : V) : string -> V :=
  fun k' => if String.eqb k k' then v else f k'.

Definition upd2 {V} (f : string -> string -> V) (k1 k2 : string) (v : V)
  : string -> string -> V :=
  fun a b => if String.eqb k1 a && String.eqb k2 b then v else f a b.

Definition upd_attr (f : obj -> string -> pyval) (o : obj) (a : string)
  (v : pyval) : obj -> string -> pyval :=
  fun o' a' => if obj_eqb o o' && String.eqb a a' then v else f o' a'.

Definition set_stop_engine (b : bool) (s : State) : State :=
  {| stop_engine := b; done_reading := done_reading s;
     new_image := new_image s; img_buffers := img_buffers s;
     running := running s; attrs := attrs s; axis_moving := axis_moving s;
     transfer_alive := transfer_alive s;
     acquisition_threads := acquisition_threads s;
     transfer_threads := transfer_threads s |}.

Definition set_done_reading (w : string) (b : bool) (s : State) : State :=
  {| stop_engine := stop_engine s; done_reading := upd (done_reading s) w b;
     new_image := new_image s; img_buffers := img_buffers s;
     running := running s; attrs := attrs s; axis_moving := axis_moving s;
     transfer_alive := transfer_alive s;
     acquisition_threads := acquisition_threads s;
     transfer_threads := transfer_threads s |}.

Definition set_new_image (p : string) (b : bool) (s : State) : State :=
  {| stop_engine := stop_engine s; done_reading := done_reading s;
     new_image := upd (new_image s) p b; img_buffers := img_buffers s;
     running := running s; attrs := attrs s; axis_moving := axis_moving s;
     transfer_alive := transfer_alive s;
     acquisition_threads := acquisition_threads s;
     transfer_threads := transfer_threads s |}.

Definition set_img_buffer (w : string) (b : DoubleBuffer) (s : State) : State :=
  {| stop_engine := stop_engine s; done_reading := done_reading s;
     new_image := new_image s; img_buffers := upd (img_buffers s) w b;
     running := running s; attrs := attrs s; axis_moving := axis_moving s;
     transfer_alive := transfer_alive s;
     acquisition_threads := acquisition_threads s;
     transfer_threads := transfer_threads s |}.

Definition set_running (r : list (string * TaskKind)) (s : State) : State :=
  {| stop_engine := stop_engine s; done_reading := done_reading s;
     new_image := new_image s; img_buffers := img_buffers s;
     running := r; attrs := attrs s; axis_moving := axis_moving s;
     transfer_alive := transfer_alive s;
     acquisition_threads := acquisition_threads s;
     transfer_threads := transfer_threads s |}.

Definition set_attr (o : obj) (a : string) (v : pyval) (s : State) : State :=
  {| stop_engine := stop_engine s; done_reading := done_reading s;
     new_image := new_image s; img_buffers := img_buffers s;
     running := running s; attrs := upd_attr (attrs s) o a v;
     axis_moving := axis_moving s;
     transfer_alive := transfer_alive s;
     acquisition_threads := acquisition_threads s;
     transfer_threads := transfer_threads s |}.

Definition set_axis_moving (g : string) (b : bool) (s : State) : State :=
  {| stop_engine := stop_engine s; done_reading := done_reading s;
     new_image := new_image s; img_buffers := img_buffers s;
     running := running s; attrs := attrs s;
     axis_moving := upd (axis_moving s) g b;
     transfer_alive := transfer_alive s;
     acquisition_threads := acquisition_threads s;
     transfer_threads := transfer_threads s |}.

Definition set_transfer_alive (d t : string) (b : bool) (s : State) : State :=
  {| stop_engine := stop_engine s; done_reading := done_reading s;
     new_image := new_image s; img_buffers := img_buffers s;
     running := running s; attrs := attrs s; axis_moving := axis_moving s;
     transfer_alive := upd2 (transfer_alive s) d t b;
     acquisition_threads := acquisition_threads s;
     transfer_threads := transfer_threads s |}.

Definition set_acquisition_threads (th : dict ThreadStatus) (s : State) : State :=
  {| stop_engine := stop_engine s; done_reading := done_reading s;
     new_image := new_image s; img_buffers := img_buffers s;
     running := running s; attrs := attrs s; axis_moving := axis_moving s;
     transfer_alive := transfer_alive s;
     acquisition_threads := th;
     transfer_threads := transfer_threads s |}.

Definition set_transfer_threads (tt : dict (list string)) (s : State) : State :=
  {| stop_engine := stop_engine s; done_reading := done_reading s;
     new_image := new_image s; img_buffers := img_buffers s;
     running := running s; attrs := attrs s; axis_moving := axis_moving s;
     transfer_alive := transfer_alive s;
     acquisition_threads := acquisition_threads s;
     transfer_threads := tt |}.

Definition set_attr_all (v : pyval) (s : State) : State :=
  {| stop_engine := stop_engine s; done_reading := done_reading s;
     new_image := new_image s; img_buffers := img_buffers s;
     running := running s; attrs := fun _ _ => v;
     axis_moving := axis_moving s;
     transfer_alive := transfer_alive s;
     acquisition_threads := acquisition_threads s;
     transfer_threads := transfer_threads s |}.

(** What starting a task and stopping a DAQ do to the running tasks,
    whichever capture thread makes the call. *)
Definition task_started (daq_id : string) (k : TaskKind) (s : State) : State :=
  set_running (running s ++ [(daq_id, k)]) s.

Definition daq_stopped (daq_name : string) (s : State) : State :=
  set_running
    (filter (fun r => negb (String.eqb (fst r) daq_name)) (running s)) s.

(** One environment action on the shared state.  A consumer only ever sets
    its [done_reading] and only ever clears its [new_image]; the stop flag is
    only ever set. *)
Definition env_step (s : State) (a : EnvAct) : State :=
  match a with
  | StopRequested => set_stop_engine true s
  | WriterDoneReading w => set_done_reading w true s
  | ProcessTookImage p => set_new_image p false s
  | AxisSettled g => set_axis_moving g false s
  | TransferFinished d t => set_transfer_alive d t false s
  | OtherTaskStart d k => task_started d k s
  | OtherDaqStop d => daq_stopped d s
  end.

Definition env_burst (s : State) (b : list EnvAct) : State :=
  fold_left env_step b s.

(* ===================================================================== *)
(** ** The monad *)
(* ===================================================================== *)

Record World : Type := {
  st : State;
  (** what the environment does before each coming action of the program *)
  sched : list (list EnvAct);
  (** the actions of the program so far, oldest first, each with the shared
      state it met *)
  log : list (Event * State)
}.

(** [Stalled]: the schedule ended before the program did. *)
Inductive outcome (A : Type) : Type :=
| Ret (a : A)
| Raise (e : exn)
| Stalled.

Arguments Ret {A} a.
Arguments Raise {A} e.
Arguments Stalled {A}.

Definition M (A : Type) : Type := World -> outcome A * World.

Definition ret {A} (a : A) : M A := fun w => (Ret a, w).

Definition raise {A} (e : exn) : M A := fun w => (Raise e, w).

Definition bind {A B} (m : M A) (k : A -> M B) : M B :=
  fun w =>
    match m w with
    | (Ret a, w') => k a w'
    | (Raise e, w') => (Raise e, w')
    | (Stalled, w') => (Stalled, w')
    end.

Declare Scope monad_scope.
Delimit Scope monad_scope with monad.
Notation "x <- c1 ;; c2" := (bind c1 (fun x => c2))
  (at level 61, c1 at next level, right associativity) : monad_scope.
Notation "c1 ;; c2" := (bind c1 (fun _ => c2))
  (at level 61, right associativity) : monad_scope.
#[local] Open Scope monad_scope.

(** One atomic action of the program: the environment's next burst is applied
    first, the action is logged with the state it meets, returns [rd] of that
    state and leaves [eff] of it. *)
Definition atomic {A} (e : Event) (eff : State -> State) (rd : State -> A)
  : M A :=
  fun w =>
    match sched w with
    | [] => (Stalled, w)
    | b :: rest =>
        let s1 := env_burst (st w) b in
        (Ret (rd s1),
         {| st := eff s1; sched := rest; log := log w ++ [(e, s1)] |})
    end.

(** A call with no effect on the shared state. *)
Definition call (e : Event) : M unit := atomic e (fun s => s) (fun _ => tt).

(** A call with an effect. *)
Definition act (e : Event) (eff : State -> State) : M unit :=
  atomic e eff (fun _ => tt).

(** A read of the shared state. *)
Definition observe {A} (e : Event) (rd : State -> A) : M A :=
  atomic e (fun s => s) rd.

Fixpoint for_each {A} (l : list A) (body : A -> M unit) : M unit :=
  match l with
  | [] => ret tt
  | x :: xs => body x ;; for_each xs body
  end.

(** Polling loops get as much fuel as the schedule has bursts left, plus one;
    every round takes at least one burst, so the fuel cannot run out first. *)
Definition with_fuel {A} (k : nat -> M A) : M A :=
  fun w => k (S (List.length (sched w))) w.

Definition stalled {A} : M A := fun w => (Stalled, w).

(** The program reads or updates state that only it writes; no call is
    made, so the environment gets no turn. *)
Definition gets {A} (f : State -> A) : M A := fun w => (Ret (f (st w)), w).

Definition modify (f : State -> State) : M unit :=
  fun w => (Ret tt, {| st := f (st w); sched := sched w; log := log w |}).

(** [d[k]], raising [KeyError]. *)
Definition getitem {V} (d : dict V) (k : string) : M V :=
  match dict_get d k with
  | Some v => ret v
  | None => raise (KeyError k)
  end.

Definition setattr (o : obj) (a : string) (v : pyval) : M unit :=
  act (SetAttr o a v) (set_attr o a v).

(* ===================================================================== *)
(** ** [engine]: the per-camera capture loop *)
(* ===================================================================== *)

(** Lines 204-220: the attributes of one writer, its lock and its double
    buffer. *)
Definition setup_writer (tile : Tile) (filename : string) (camera : Camera)
  (writer_name : string) (writer : Writer) : M unit :=
  let o := WriterObj writer_name in
  setattr o "row_count_px" (VInt (height_px camera)) ;;
  setattr o "column_count_px" (VInt (width_px camera)) ;;
  setattr o "frame_count_px" (VInt (steps tile)) ;;
  x <- getitem (position_mm tile) "x" ;;
  setattr o "x_pos_mm" (VNum x) ;;
  y <- getitem (position_mm tile) "y" ;;
  setattr o "y_pos_mm" (VNum y) ;;
  z <- getitem (position_mm tile) "z" ;;
  setattr o "z_pos_mm" (VNum z) ;;
  setattr o "x_voxel_size_um" (VNum 0.748) ;;
  setattr o "y_voxel_size_um" (VNum 0.748) ;;
  setattr o "z_voxel_size_um" (VNum (step_size tile)) ;;
  setattr o "filename" (VStr filename) ;;
  setattr o "channel" (VStr (channel tile)) ;;
  act (BufferCreate writer_name (chunk_count_px writer))
      (set_img_buffer writer_name
         {| capacity := chunk_count_px writer; filled := 0;
            write_half := false |}).

(** Lines 224-235. *)
Definition setup_process (tile : Tile) (filename : string) (camera : Camera)
  (process_name : string) : M unit :=
  let o := ProcessObj process_name in
  setattr o "row_count_px" (VInt (height_px camera)) ;;
  setattr o "column_count_px" (VInt (width_px camera)) ;;
  setattr o "frame_count_px" (VInt (steps tile)) ;;
  setattr o "filename" (VStr filename) ;;
  call (ShmCreate process_name) ;;
  setattr o "buffer_image" (VStr process_name) ;;
  call (ProcessPrepare process_name).

Definition stop_engine_is_set : M bool := observe StopIsSet stop_engine.

Definition start_task (daq_id : string) (k : TaskKind) : M unit :=
  act (TaskStart daq_id k) (fun s => set_running (running s ++ [(daq_id, k)]) s).

(** Lines 271-273: [for task in [daq.ao_task, daq.do_task, daq.co_task]]. *)
Definition start_tasks (daq_id : string) (daq : Daq) : M unit :=
  for_each [(AO, ao_task daq); (DO, do_task daq); (CO, co_task daq)]
    (fun '(k, present) => if present : bool then start_task daq_id k else ret tt).

(** Lines 263-273: the pulse count is programmed on each DAQ's counter task
    and, inside that same loop, every task of every DAQ is started. *)
Definition start_pulses (daqs : dict Daq) (num_pulses : Z) : M unit :=
  for_each daqs (fun '(daq_name, daq) =>
    (if co_task daq
     then call (CfgImplicitTiming daq_name num_pulses)
     else raise (AttributeError "timing")) ;;
    for_each daqs (fun '(daq_id, daq') => start_tasks daq_id daq')).

Definition stop_daq (daq_name : string) : M unit :=
  act (DaqStop daq_name)
      (fun s => set_running
                  (filter (fun r => negb (String.eqb (fst r) daq_name)) (running s)) s).

(** [img_buffer.add_image(frame)]; the buffer rejects a frame once its write
    half is full (the collaborator's contract). *)
Definition add_image (writer_name : string) (frame : Z) : M unit :=
  ok <- atomic (AddImage writer_name frame)
          (fun s =>
             let b := img_buffers s writer_name in
             if filled b <? capacity b
             then set_img_buffer writer_name
                    {| capacity := capacity b; filled := filled b + 1;
                       write_half := write_half b |} s
             else s)
          (fun s => let b := img_buffers s writer_name in
                    filled b <? capacity b) ;;
  if ok : bool then ret tt else raise (CapacityError writer_name).

(** Line 288: [while not writer.done_reading.is_set() and not
    self.stop_engine.is_set(): time.sleep(0.001)]. *)
Fixpoint wait_done_reading (fuel : nat) (writer_name : string) : M unit :=
  match fuel with
  | O => stalled
  | S fuel' =>
      done <- observe (DoneReadingIsSet writer_name)
                (fun s => done_reading s writer_name) ;;
      if done : bool then ret tt
      else
        stop <- stop_engine_is_set ;;
        if stop : bool then ret tt
        else call Sleep ;; wait_done_reading fuel' writer_name
  end.

(** [img_buffers[writer_name].toggle_buffers()]; returns the half that has
    become the read side. *)
Definition toggle_buffers (writer_name : string) : M bool :=
  atomic (ToggleBuffers writer_name)
    (fun s =>
       let b := img_buffers s writer_name in
       set_img_buffer writer_name
         {| capacity := capacity b; filled := 0;
            write_half := negb (write_half b) |} s)
    (fun s => write_half (img_buffers s writer_name)).

Definition read_buf_mem_name (writer_name : string) (half : bool) : string :=
  (writer_name ++ (if half then ".1" else ".0"))%string.

(** Lines 298-303, for one writer. *)
Definition dispatch_to_writer (writer_name : string) (writer : Writer) : M unit :=
  call (LockAcquire writer_name) ;;
  half <- toggle_buffers writer_name ;;
  match path writer with
  | Some _ =>
      setattr (WriterObj writer_name) "shm_name"
        (VStr (read_buf_mem_name writer_name half)) ;;
      act (DoneReadingClear writer_name) (set_done_reading writer_name false)
  | None => ret tt
  end ;;
  call (LockRelease writer_name).

(** The local variable [writer] at line 288: what the last [for] loop over
    the writers left in it. *)
Definition leaked_writer (writers : dict Writer) : option string :=
  match rev writers with
  | [] => None
  | (writer_name, _) :: _ => Some writer_name
  end.

(** Lines 286-303: the chunk boundary. *)
Definition dispatch_chunk (daqs : dict Daq) (writers : dict Writer) : M unit :=
  for_each daqs (fun '(daq_name, _) => stop_daq daq_name) ;;
  match leaked_writer writers with
  | None => raise (UnboundLocalError "writer")
  | Some writer_name => with_fuel (fun fuel => wait_done_reading fuel writer_name)
  end ;;
  for_each writers (fun '(writer_name, writer) =>
    dispatch_to_writer writer_name writer).

(** Line 307: [while process.new_image.is_set(): time.sleep(0.1)]. *)
Fixpoint wait_new_image (fuel : nat) (process_name : string) : M unit :=
  match fuel with
  | O => stalled
  | S fuel' =>
      busy <- observe (NewImageIsSet process_name)
                (fun s => new_image s process_name) ;;
      if busy : bool then call Sleep ;; wait_new_image fuel' process_name
      else ret tt
  end.

(** Lines 306-310. *)
Definition feed_processes (processes : dict Process) (current_frame : Z) : M unit :=
  for_each processes (fun '(process_name, _) =>
    with_fuel (fun fuel => wait_new_image fuel process_name) ;;
    call (BufferImageWrite process_name current_frame) ;;
    act (NewImageSet process_name) (set_new_image process_name true)).

(** Lines 257-312: one pass of the [for stack_index in range(tile['steps'])]
    loop, after the stop check. *)
Definition capture_frame (daqs : dict Daq) (chunk_count_px_ : Z) (tile : Tile)
  (writers : dict Writer) (processes : dict Process) (stack_index : Z) : M unit :=
  let last_frame_index := steps tile - 1 in
  let chunk_count := ceil_div (steps tile) chunk_count_px_ in
  let remainder := steps tile mod chunk_count_px_ in
  let last_chunk_size := if remainder =? 0 then chunk_count_px_ else remainder in
  let chunk_index := stack_index mod chunk_count_px_ in
  (if chunk_index =? 0 then
     let chunks_filled := floor_div stack_index chunk_count_px_ in
     let remaining_chunks := chunk_count - chunks_filled in
     let num_pulses :=
       if remaining_chunks =? 1 then last_chunk_size else chunk_count_px_ in
     start_pulses daqs num_pulses
   else ret tt) ;;
  call (GrabFrame stack_index) ;;
  call SignalAcquisitionState ;;
  for_each writers (fun '(writer_name, _) => add_image writer_name stack_index) ;;
  (if (chunk_index + 1 =? chunk_count_px_) || (stack_index =? last_frame_index)
   then dispatch_chunk daqs writers
   else ret tt) ;;
  feed_processes processes stack_index.

(** Lines 254-256: the loop with its [break] on the stop flag; [n] passes are
    left, the next one has index [stack_index]. *)
Fixpoint capture_loop (daqs : dict Daq) (chunk_count_px_ : Z) (tile : Tile)
  (writers : dict Writer) (processes : dict Process)
  (n : nat) (stack_index : Z) : M unit :=
  match n with
  | O => ret tt
  | S n' =>
      stop <- stop_engine_is_set ;;
      if stop : bool then ret tt
      else
        capture_frame daqs chunk_count_px_ tile writers processes stack_index ;;
        capture_loop daqs chunk_count_px_ tile writers processes n'
          (stack_index + 1)
  end.

(** Lines 238-244. *)
Definition start_devices (writers : dict Writer) (processes : dict Process) : M unit :=
  call CameraPrepare ;;
  for_each writers (fun '(writer_name, _) =>
    call (WriterPrepare writer_name) ;; call (WriterStart writer_name)) ;;
  call CameraStart ;;
  for_each processes (fun '(process_name, _) => call (ProcessStart process_name)).

(** Lines 314-331. *)
Definition finish (writers : dict Writer) (processes : dict Process) : M unit :=
  for_each writers (fun '(writer_name, _) => call (WriterWaitToFinish writer_name)) ;;
  for_each processes (fun '(process_name, _) =>
    call (ProcessWaitToFinish process_name)) ;;
  call CameraStop ;;
  for_each writers (fun '(writer_name, _) =>
    call (BufferCloseAndUnlink writer_name)) ;;
  for_each processes (fun '(process_name, _) =>
    call (ShmClose process_name) ;; call (ShmUnlink process_name)).

(** [self.chunk_count_px] as a divisor at line 249. *)
Definition divisor (chunk : option Z) : M Z :=
  match chunk with
  | None => raise TypeError
  | Some c => if c =? 0 then raise ZeroDivisionError else ret c
  end.

Definition engine (self : Acquisition) (tile : Tile) (filename : string)
  (camera : Camera) (writers : dict Writer) (processes : dict Process) : M unit :=
  for_each writers (fun '(writer_name, writer) =>
    setup_writer tile filename camera writer_name writer) ;;
  for_each processes (fun '(process_name, _) =>
    setup_process tile filename camera process_name) ;;
  start_devices writers processes ;;
  c <- divisor (self_chunk_count_px self) ;;
  capture_loop (daqs (instrument self)) c tile writers processes
    (Z.to_nat (steps tile)) 0 ;;
  finish writers processes.

(* ===================================================================== *)
(** ** [_verify_acquisition], [run] and [stop_acquisition] *)
(* ===================================================================== *)

(** Lines 43-48, the inner loop: [chunk_size] is the size seen so far. *)
Fixpoint verify_writers (chunk_size : option Z) (ws : dict Writer)
  : outcome (option Z) :=
  match ws with
  | [] => Ret chunk_size
  | (_, writer) :: rest =>
      match chunk_size with
      | None => verify_writers (Some (chunk_count_px writer)) rest
      | Some size =>
          if negb (chunk_count_px writer =? size)
          then Raise (ValueError
                        ("Chunk sizes of writers must all be " ++ str_of_Z size)%string)
          else verify_writers (Some size) rest
      end
  end.

(** Lines 42-48, the outer loop over the devices. *)
Fixpoint verify_devices (chunk_size : option Z) (ds : dict (dict Writer))
  : outcome (option Z) :=
  match ds with
  | [] => Ret chunk_size
  | (_, device) :: rest =>
      match verify_writers chunk_size device with
      | Ret chunk_size' => verify_devices chunk_size' rest
      | other => other
      end
  end.

(** [_verify_acquisition]: [base] is the exception the base class's check
    raises, if any (that check belongs to the [voxel] library); the result is
    the value left in [self.chunk_count_px]. *)
Definition _verify_acquisition (base : option exn) (ws : dict (dict Writer))
  : outcome (option Z) :=
  match base with
  | None => verify_devices None ws
  | Some e => Raise e
  end.

(** [__init__], from the operations the configuration names: the object
    exists only when the checks pass. *)
Definition init (base : option exn) (i : Instrument) (ts : list Tile)
  (ws : dict (dict Writer)) (ps : option (dict (dict Process)))
  (rs : option (dict (list string))) (xs : option (dict (list string)))
  : outcome Acquisition :=
  match _verify_acquisition base ws with
  | Ret chunk_size =>
      Ret {| instrument := i; tiles := ts; writers := ws; processes := ps;
             routines := rs; transfers := xs;
             self_chunk_count_px := chunk_size |}
  | Raise e => Raise e
  | Stalled => Stalled
  end.

(** Lines 64-65. *)
Definition filename_of (tile : Tile) (device_type device_name : string) : string :=
  (prefix tile ++ "_" ++ str_of_Z (tile_number tile) ++ "_ch_" ++ channel tile
   ++ "_" ++ device_type ++ "_" ++ device_name)%string.

(** Lines 62-65: the [filenames] dictionary is kept from tile to tile and
    every device's entry is written anew. *)
Definition build_filenames (devs : dict string) (tile : Tile)
  (filenames : dict string) : dict string :=
  fold_left (fun fs d => dict_set fs (fst d) (filename_of tile (snd d) (fst d)))
    devs filenames.

(** The message of lines 72-73; the line continuation inside the literal
    keeps the indentation of line 73. *)
Definition too_short (tile_count_px chunk : Z) : string :=
  ("tile frame count " ++ str_of_Z tile_count_px
   ++ "                             is less than chunk size = "
   ++ str_of_Z chunk ++ " px")%string.

(** Lines 67-73. *)
Definition check_scan_length (self : Acquisition) (tile : Tile) : M unit :=
  for_each (writers self) (fun '(_, writer_dictionary) =>
    for_each writer_dictionary (fun '(_, writer) =>
      if steps tile <? chunk_count_px writer
      then raise (ValueError (too_short (steps tile) (chunk_count_px writer)))
      else ret tt)).

(** Lines 85-90: [while tiling_stage.is_axis_moving(): ... time.sleep(1.0)]. *)
Fixpoint wait_axis (fuel : nat) (tile : Tile) (stage_id : string) (stage : Stage)
  : M unit :=
  match fuel with
  | O => stalled
  | S fuel' =>
      moving <- observe (IsAxisMoving stage_id) (fun s => axis_moving s stage_id) ;;
      if moving : bool then
        _ <- getitem (position_mm tile) (instrument_axis stage) ;;
        call Sleep ;; wait_axis fuel' tile stage_id stage
      else ret tt
  end.

Definition move_stage (tile : Tile) (stage_id : string) (stage : Stage) : M unit :=
  tile_position <- getitem (position_mm tile) (instrument_axis stage) ;;
  act (MoveAbsolute stage_id tile_position) (set_axis_moving stage_id true).

(** Lines 76-99. *)
Definition position_stages (i : Instrument) (tile : Tile) : M unit :=
  for_each (tiling_stages i) (fun '(stage_id, stage) =>
    move_stage tile stage_id stage) ;;
  for_each (tiling_stages i) (fun '(stage_id, stage) =>
    with_fuel (fun fuel => wait_axis fuel tile stage_id stage)) ;;
  for_each (scanning_stages i) (fun '(stage_id, stage) =>
    move_stage tile stage_id stage).

(** [getattr(self.instrument, device_type)[device_name]]. *)
Definition device_object (i : Instrument) (device_type device_name : string)
  : M unit :=
  match dict_get (collections i) device_type with
  | None => raise (AttributeError device_type)
  | Some names =>
      if mem device_name names then ret tt else raise (KeyError device_name)
  end.

(** [tile.get(device_name, {})]. *)
Definition tile_settings (tile : Tile) (device_name : string) : dict string :=
  match dict_get (device_settings tile) device_name with
  | Some settings => settings
  | None => []
  end.

(** Lines 102-111. *)
Definition setup_channel (i : Instrument) (tile : Tile) : M unit :=
  channel_devices <- getitem (channels i) (channel tile) ;;
  for_each channel_devices (fun '(device_type, device_names) =>
    for_each device_names (fun device_name =>
      device_object i device_type device_name ;;
      (if mem device_type ["lasers"; "filters"]
       then call (DeviceEnable device_type device_name)
       else ret tt) ;;
      for_each (tile_settings tile device_name) (fun '(setting, value) =>
        setattr (DeviceObj device_name) setting (VStr value)))).

(** Lines 113-124. *)
Definition arm_daqs (self : Acquisition) (tile : Tile) : M unit :=
  for_each (daqs (instrument self)) (fun '(daq_name, daq) =>
    (if mem "ao_task" (tasks daq) then
       call (DaqAddTask daq_name AO None) ;;
       call (DaqGenerateWaveforms daq_name AO (channel tile)) ;;
       call (DaqWriteWaveforms daq_name AO)
     else ret tt) ;;
    (if mem "do_task" (tasks daq) then
       call (DaqAddTask daq_name DO None) ;;
       call (DaqGenerateWaveforms daq_name DO (channel tile)) ;;
       call (DaqWriteWaveforms daq_name DO)
     else ret tt) ;;
    (if mem "co_task" (tasks daq) then
       call (DaqAddTask daq_name CO (self_chunk_count_px self))
     else ret tt)).

Definition or_empty {V} (d : option (dict V)) : dict V :=
  match d with
  | Some d' => d'
  | None => []
  end.

(** Lines 127-136; [pluralize] is [inflection.pluralize]. *)
Definition start_routines (pluralize : string -> string) (self : Acquisition)
  (filenames : dict string) : M unit :=
  for_each (or_empty (routines self)) (fun '(device_name, routine_names) =>
    device_type <- getitem (devices (instrument self)) device_name ;;
    for_each routine_names (fun routine_name =>
      device_object (instrument self) (pluralize device_type) device_name ;;
      filename <- getitem filenames device_name ;;
      setattr (RoutineObj device_name routine_name) "filename"
        (VStr (filename ++ "_" ++ routine_name)%string) ;;
      call (RoutineStart device_name routine_name))).

Definition set_thread (camera_id : string) (status : ThreadStatus) (s : State)
  : State :=
  set_acquisition_threads (dict_set (acquisition_threads s) camera_id status) s.

(** Lines 139-155: one thread object per camera. *)
Definition create_threads (self : Acquisition) (filenames : dict string) : M unit :=
  for_each (cameras (instrument self)) (fun '(camera_id, _) =>
    _ <- getitem filenames camera_id ;;
    _ <- getitem (writers self) camera_id ;;
    _ <- match processes self with
         | None => ret []
         | Some ps => getitem ps camera_id
         end ;;
    act (ThreadCreate camera_id) (set_thread camera_id Created)).

(** [thread.start()]: a thread is started once. *)
Definition start_thread (camera_id : string) (status : ThreadStatus) : M unit :=
  match status with
  | Created => act (ThreadStart camera_id) (set_thread camera_id Started)
  | _ => raise RuntimeError
  end.

(** [thread.join()]: only a started thread can be joined; the call returns
    when the thread has finished. *)
Definition join_thread (camera_id : string) (status : ThreadStatus) : M unit :=
  match status with
  | Created => raise RuntimeError
  | _ => act (ThreadJoin camera_id) (set_thread camera_id Finished)
  end.

(** Lines 158-165. *)
Definition run_threads : M unit :=
  threads <- gets acquisition_threads ;;
  for_each threads (fun '(camera_id, status) => start_thread camera_id status) ;;
  threads <- gets acquisition_threads ;;
  for_each threads (fun '(camera_id, status) => join_thread camera_id status).

(** Lines 174-177 and 193-196. *)
Definition wait_if_alive (device_name transfer_id : string) : M unit :=
  alive <- observe (TransferIsAlive device_name transfer_id)
             (fun s => transfer_alive s device_name transfer_id) ;;
  if alive : bool
  then act (TransferWaitUntilFinished device_name transfer_id)
         (set_transfer_alive device_name transfer_id false)
  else ret tt.

Definition wait_for_transfers (ts : dict (list string)) : M unit :=
  for_each ts (fun '(device_name, transfer_dict) =>
    for_each transfer_dict (fun transfer_id =>
      wait_if_alive device_name transfer_id)).

(** [self.transfer_threads[device_name][transfer_name] = transfer]. *)
Definition record_transfer (device_name transfer_name : string) (s : State) : State :=
  let tt := transfer_threads s in
  let names := match dict_get tt device_name with Some l => l | None => [] end in
  set_transfer_threads
    (dict_set tt device_name
       (if mem transfer_name names then names else names ++ [transfer_name])) s.

(** Lines 181-187. *)
Definition start_transfers (self : Acquisition) (filenames : dict string) : M unit :=
  for_each (or_empty (transfers self)) (fun '(device_name, transfer_dict) =>
    modify (fun s =>
              set_transfer_threads (dict_set (transfer_threads s) device_name []) s) ;;
    for_each transfer_dict (fun transfer_name =>
      modify (record_transfer device_name transfer_name) ;;
      filename <- getitem filenames device_name ;;
      setattr (TransferObj device_name transfer_name) "filename" (VStr filename) ;;
      act (TransferStart device_name transfer_name)
        (set_transfer_alive device_name transfer_name true))).

(** Lines 173-187. *)
Definition reconcile_transfers (self : Acquisition) (filenames : dict string)
  : M unit :=
  outstanding <- gets transfer_threads ;;
  wait_for_transfers outstanding ;;
  modify (set_transfer_threads []) ;;
  start_transfers self filenames.

(** Lines 75-187: a tile that passed the check. *)
Definition acquire_tile (pluralize : string -> string) (self : Acquisition)
  (tile : Tile) (filenames : dict string) : M unit :=
  position_stages (instrument self) tile ;;
  setup_channel (instrument self) tile ;;
  arm_daqs self tile ;;
  start_routines pluralize self filenames ;;
  create_threads self filenames ;;
  run_threads ;;
  for_each (daqs (instrument self)) (fun '(daq_id, _) => stop_daq daq_id) ;;
  reconcile_transfers self filenames.

(** Lines 55-187: one pass of the loop over the tiles; returns [filenames]. *)
Definition run_tile (pluralize : string -> string) (self : Acquisition)
  (filenames : dict string) (tile : Tile) : M (dict string) :=
  let filenames := build_filenames (devices (instrument self)) tile filenames in
  check_scan_length self tile ;;
  acquire_tile pluralize self tile filenames ;;
  ret filenames.

Fixpoint run_tiles (pluralize : string -> string) (self : Acquisition)
  (filenames : dict string) (ts : list Tile) : M (dict string) :=
  match ts with
  | [] => ret filenames
  | tile :: rest =>
      filenames' <- run_tile pluralize self filenames tile ;;
      run_tiles pluralize self filenames' rest
  end.

Definition run (pluralize : string -> string) (self : Acquisition) : M unit :=
  _ <- run_tiles pluralize self [] (tiles self) ;;
  wait_for_transfers (or_empty (transfers self)).

(** Lines 333-342. *)
Definition stop_acquisition : M unit :=
  act StopEngineSet (set_stop_engine true) ;;
  threads <- gets acquisition_threads ;;
  for_each threads (fun '(camera_id, status) => join_thread camera_id status) ;;
  raise RuntimeError.

(* ===================================================================== *)
(** ** Program logic *)
(* ===================================================================== *)

(** [triple P m Q X]: from a world in [P], [m] ends in [Q] when it returns
    and in [X] when it raises or the schedule runs out. *)
Definition triple {A} (P : World -> Prop) (m : M A)
  (Q : A -> World -> Prop) (X : World -> Prop) : Prop :=
  forall w, P w ->
    match fst (m w) with
    | Ret a => Q a (snd (m w))
    | _ => X (snd (m w))
    end.

Lemma triple_ret {A} (P : World -> Prop) (a : A) (Q : A -> World -> Prop) X :
  (forall w, P w -> Q a w) -> triple P (ret a) Q X.
Proof. intros H w Hw. cbn. auto. Qed.

Lemma triple_raise {A} (P : World -> Prop) e (Q : A -> World -> Prop) (X : World -> Prop) :
  (forall w, P w -> X w) -> triple P (raise e) Q X.
Proof. intros H w Hw. cbn. auto. Qed.

Lemma triple_stalled {A} (P : World -> Prop) (Q : A -> World -> Prop) (X : World -> Prop) :
  (forall w, P w -> X w) -> triple P stalled Q X.
Proof. intros H w Hw. cbn. auto. Qed.

Lemma triple_bind {A B} P (m : M A) (k : A -> M B) R Q X :
  triple P m R X ->
  (forall a, triple (R a) (k a) Q X) ->
  triple P (bind m k) Q X.
Proof.
  intros Hm Hk w Hw. specialize (Hm w Hw). unfold bind.
  destruct (m w) as [[a | e |] w']; cbn in *; auto.
  apply Hk. exact Hm.
Qed.

Lemma triple_conseq {A} (P P' : World -> Prop) (m : M A)
  (Q Q' : A -> World -> Prop) (X X' : World -> Prop) :
  triple P' m Q' X' ->
  (forall w, P w -> P' w) ->
  (forall a w, Q' a w -> Q a w) ->
  (forall w, X' w -> X w) ->
  triple P m Q X.
Proof.
  intros H HP HQ HX w Hw. specialize (H w (HP w Hw)).
  destruct (fst (m w)); auto.
Qed.

Lemma triple_atomic {A} (P : World -> Prop) e eff (rd : State -> A)
  (Q : A -> World -> Prop) (X : World -> Prop) :
  (forall w b rest, P w -> sched w = b :: rest ->
     Q (rd (env_burst (st w) b))
       {| st := eff (env_burst (st w) b); sched := rest;
          log := log w ++ [(e, env_burst (st w) b)] |}) ->
  (forall w, P w -> X w) ->
  triple P (atomic e eff rd) Q X.
Proof.
  intros HQ HX w Hw. unfold atomic.
  destruct (sched w) as [| b rest] eqn:E; cbn; eauto.
Qed.

Lemma triple_with_fuel {A} P (k : nat -> M A) Q X :
  (forall n, triple P (k n) Q X) -> triple P (with_fuel k) Q X.
Proof. intros H w Hw. unfold with_fuel. apply H. exact Hw. Qed.

(** The loop rule: the invariant is indexed by the items already handled. *)
Lemma triple_for_each {A} (I : list A -> World -> Prop) (X : World -> Prop)
  (body : A -> M unit) (l : list A) :
  (forall done x rest, l = done ++ x :: rest ->
     triple (I done) (body x) (fun _ => I (done ++ [x])) X) ->
  triple (I []) (for_each l body) (fun _ => I l) X.
Proof.
  intros H.
  assert (G : forall rest done, l = done ++ rest ->
            triple (I done) (for_each rest body) (fun _ => I l) X).
  { induction rest as [| x rest IH]; intros done E.
    - rewrite app_nil_r in E. subst. apply triple_ret. auto.
    - cbn [for_each]. eapply triple_bind.
      + apply (H done x rest E).
      + intros ?. apply IH. rewrite <- app_assoc. exact E. }
  apply (G l []). reflexivity.
Qed.

Lemma triple_for_each_inv {A} (I : World -> Prop) (X : World -> Prop)
  (body : A -> M unit) (l : list A) :
  (forall x, In x l -> triple I (body x) (fun _ => I) X) ->
  triple I (for_each l body) (fun _ => I) X.
Proof.
  intros H. apply (triple_for_each (fun _ => I) X body l).
  intros done x rest E. apply H. subst. apply in_elt.
Qed.

(** *** Invariants over the log and the shared state *)

(** [stable J]: nothing the environment does breaks [J]. *)
Definition stable (J : State -> Prop) : Prop :=
  forall s a, J s -> J (env_step s a).

Lemma stable_burst J : stable J -> forall b s, J s -> J (env_burst s b).
Proof.
  intros HJ b. unfold env_burst.
  induction b as [| a b IH]; intros s Hs; cbn; auto.
Qed.

(** Every logged action met a state it accepts, and the state now is in [J]. *)
Definition Inv (ok : Event * State -> Prop) (J : State -> Prop) : World -> Prop :=
  fun w => Forall ok (log w) /\ J (st w).

Definition Safe (ok : Event * State -> Prop) : World -> Prop :=
  fun w => Forall ok (log w).

Lemma Inv_Safe ok J w : Inv ok J w -> Safe ok w.
Proof. intros [H _]. exact H. Qed.

Lemma hoare_atomic {A} ok (J : State -> Prop) e eff (rd : State -> A)
  (J' : A -> State -> Prop) :
  stable J ->
  (forall s, J s -> ok (e, s) /\ J' (rd s) (eff s)) ->
  triple (Inv ok J) (atomic e eff rd) (fun a => Inv ok (J' a)) (Safe ok).
Proof.
  intros HJ H. apply triple_atomic.
  - intros w b rest [Hl Hs] _. unfold Inv; cbn.
    destruct (H _ (stable_burst J HJ b _ Hs)) as [Hok HJ'].
    split; auto. apply Forall_app. split; auto.
  - apply Inv_Safe.
Qed.

Lemma hoare_ret {A} ok (J : State -> Prop) (a : A) (J' : A -> State -> Prop) :
  (forall s, J s -> J' a s) ->
  triple (Inv ok J) (ret a) (fun a => Inv ok (J' a)) (Safe ok).
Proof. intros H. apply triple_ret. intros w [Hl Hs]. split; auto. Qed.

Lemma hoare_raise {A} ok (J : State -> Prop) e (J' : A -> State -> Prop) :
  triple (Inv ok J) (raise e) (fun a => Inv ok (J' a)) (Safe ok).
Proof. apply triple_raise. apply Inv_Safe. Qed.

Lemma hoare_weaken {A} ok (J J0 : State -> Prop) (m : M A)
  (J' J0' : A -> State -> Prop) :
  triple (Inv ok J0) m (fun a => Inv ok (J0' a)) (Safe ok) ->
  (forall s, J s -> J0 s) ->
  (forall a s, J0' a s -> J' a s) ->
  triple (Inv ok J) m (fun a => Inv ok (J' a)) (Safe ok).
Proof.
  intros H H1 H2. eapply triple_conseq; [exact H | | | auto].
  - intros w [Hl Hs]. split; auto.
  - intros a w [Hl Hs]. split; auto.
Qed.

Lemma hoare_for_each {A} ok (J : State -> Prop) (body : A -> M unit) l :
  (forall x, In x l ->
     triple (Inv ok J) (body x) (fun _ => Inv ok J) (Safe ok)) ->
  triple (Inv ok J) (for_each l body) (fun _ => Inv ok J) (Safe ok).
Proof. apply triple_for_each_inv. Qed.

(** *** What the environment leaves alone *)

(** A schedule in which no other capture thread starts a DAQ task. *)
Definition other_start (a : EnvAct) : bool :=
  match a with
  | OtherTaskStart _ _ => true
  | _ => false
  end.

Definition no_other_start (schedule : list (list EnvAct)) : bool :=
  forallb (forallb (fun a => negb (other_start a))) schedule.

(** Without such a start the environment can only take tasks away. *)
Lemma env_burst_running s b :
  forallb (fun a => negb (other_start a)) b = true ->
  incl (running (env_burst s b)) (running s).
Proof.
  revert s. unfold env_burst.
  induction b as [| a b IH]; intros s Hb; cbn in *; [apply incl_refl |].
  apply andb_prop in Hb. destruct Hb as [Ha Hb].
  intros r Hr. apply (IH _ Hb) in Hr.
  destruct a; try exact Hr; [discriminate Ha |].
  cbn in Hr. apply filter_In in Hr. apply Hr.
Qed.

Lemma env_burst_img_buffers s b : img_buffers (env_burst s b) = img_buffers s.
Proof.
  revert s. unfold env_burst.
  induction b as [| a b IH]; intros s; cbn; auto.
  rewrite IH. destruct a; reflexivity.
Qed.

Lemma env_burst_attrs s b : attrs (env_burst s b) = attrs s.
Proof.
  revert s. unfold env_burst.
  induction b as [| a b IH]; intros s; cbn; auto.
  rewrite IH. destruct a; reflexivity.
Qed.

Lemma upd_same {V} (f : string -> V) k v : upd f k v k = v.
Proof. unfold upd. now rewrite String.eqb_refl. Qed.

Lemma upd_other {V} (f : string -> V) k k' v : k <> k' -> upd f k v k' = f k'.
Proof. intros H. unfold upd. destruct (String.eqb_spec k k'); congruence. Qed.

Lemma hoare_keep {A} ok (J : State -> Prop) e eff (rd : State -> A) :
  stable J ->
  (forall s, J s -> ok (e, s) /\ J (eff s)) ->
  triple (Inv ok J) (atomic e eff rd) (fun _ => Inv ok J) (Safe ok).
Proof. intros HJ H. apply (hoare_atomic ok J e eff rd (fun _ => J)); auto. Qed.

Lemma hoare_getitem {V} ok (J : State -> Prop) (d : dict V) k :
  triple (Inv ok J) (getitem d k) (fun _ => Inv ok J) (Safe ok).
Proof.
  unfold getitem. destruct (dict_get d k).
  - apply triple_ret. auto.
  - apply triple_raise. apply Inv_Safe.
Qed.

(** Splits a sequence of actions that all keep the same invariant. *)
Ltac hseq :=
  repeat lazymatch goal with
         | |- triple _ (bind _ _) _ _ => eapply triple_bind; [ | intros ? ]
         end.

(* ===================================================================== *)
(** ** Invariants of the engine, block by block *)
(* ===================================================================== *)

(** Calls into collaborators that neither read nor change the shared state
    of this model. *)
Definition plain_call (e : Event) : bool :=
  match e with
  | ShmCreate _ | ProcessPrepare _ | CameraPrepare | WriterPrepare _
  | WriterStart _ | CameraStart | ProcessStart _
  | GrabFrame _ | SignalAcquisitionState | Sleep | LockAcquire _
  | LockRelease _ | WriterWaitToFinish _ | ProcessWaitToFinish _
  | CameraStop | BufferCloseAndUnlink _ | ShmClose _ | ShmUnlink _ => true
  | _ => false
  end.

(** Calls that [run] makes and that leave the shared state of this model
    alone. *)
Definition run_call (e : Event) : bool :=
  match e with
  | Sleep | DeviceEnable _ _ | DaqAddTask _ _ _ | DaqGenerateWaveforms _ _ _
  | DaqWriteWaveforms _ _ | RoutineStart _ _ => true
  | _ => false
  end.

(** The attributes assigned after the writers have been set up: those of a
    process, and a writer's [shm_name]. *)
Definition late_attr (o : obj) (a : string) : bool :=
  match o with
  | ProcessObj _ => true
  | WriterObj _ => String.eqb a "shm_name"
  | _ => false
  end.

Section EngineInvariant.

(** An invariant [I] that every primitive of the engine keeps is kept by
    the blocks built from them and by the engine as a whole.  Each lemma
    below depends on the primitives its block uses only. *)
Variable I : World -> Prop.
Variable X : World -> Prop.
Hypothesis I_X : forall w, I w -> X w.

#[local] Abbreviation keeps m := (triple I m (fun _ => I) X).

Hypothesis I_call : forall e, plain_call e = true -> keeps (call e).
Hypothesis I_setattr :
  forall o a v, late_attr o a = true -> keeps (setattr o a v).
Hypothesis I_setattr_writer :
  forall wn a v, keeps (setattr (WriterObj wn) a v).
Hypothesis I_stop_is_set : keeps stop_engine_is_set.
Hypothesis I_done_is_set :
  forall wn, keeps (observe (DoneReadingIsSet wn) (fun s => done_reading s wn)).
Hypothesis I_new_is_set :
  forall pn, keeps (observe (NewImageIsSet pn) (fun s => new_image s pn)).
Hypothesis I_buffer_create :
  forall wn b, keeps (act (BufferCreate wn (capacity b)) (set_img_buffer wn b)).
Hypothesis I_cfg_timing : forall d n, keeps (call (CfgImplicitTiming d n)).
Hypothesis I_start_task : forall d k, keeps (start_task d k).
Hypothesis I_stop_daq : forall d, keeps (stop_daq d).
Hypothesis I_add_image : forall wn f, keeps (add_image wn f).
Hypothesis I_toggle : forall wn, keeps (toggle_buffers wn).
Hypothesis I_done_clear :
  forall wn, keeps (act (DoneReadingClear wn) (set_done_reading wn false)).
Hypothesis I_image_write : forall pn f, keeps (call (BufferImageWrite pn f)).
Hypothesis I_new_set :
  forall pn, keeps (act (NewImageSet pn) (set_new_image pn true)).

Lemma keeps_ret {A} (a : A) : triple I (ret a) (fun _ => I) X.
Proof. apply triple_ret. auto. Qed.

Lemma keeps_raise {A} e : triple I (@raise A e) (fun _ => I) X.
Proof. apply triple_raise. auto. Qed.

Lemma keeps_getitem {V} (d : dict V) k : triple I (getitem d k) (fun _ => I) X.
Proof.
  unfold getitem. destruct (dict_get d k);
    [apply keeps_ret | apply keeps_raise].
Qed.

Lemma keeps_divisor chunk : triple I (divisor chunk) (fun _ => I) X.
Proof.
  unfold divisor. destruct chunk as [c |]; [| apply keeps_raise].
  destruct (c =? 0); [apply keeps_raise | apply keeps_ret].
Qed.

Lemma keeps_for_each {A} (body : A -> M unit) l :
  (forall x, In x l -> keeps (body x)) -> keeps (for_each l body).
Proof. apply triple_for_each_inv. Qed.

Lemma keeps_setup_writer tile filename camera wn wr :
  keeps (setup_writer tile filename camera wn wr).
Proof.
  unfold setup_writer. hseq;
    first [ apply I_setattr_writer | apply keeps_getitem
          | apply (I_buffer_create wn
                     {| capacity := chunk_count_px wr; filled := 0;
                        write_half := false |}) ].
Qed.

Lemma keeps_setup_process tile filename camera pn :
  keeps (setup_process tile filename camera pn).
Proof.
  unfold setup_process. hseq;
    first [ apply I_setattr; reflexivity | apply I_call; reflexivity ].
Qed.

Lemma keeps_start_devices (writers : dict Writer) (processes : dict Process) :
  keeps (start_devices writers processes).
Proof.
  unfold start_devices. hseq;
    try (apply keeps_for_each; intros [? ?] _; hseq);
    apply I_call; reflexivity.
Qed.

Lemma keeps_finish (writers : dict Writer) (processes : dict Process) :
  keeps (finish writers processes).
Proof.
  unfold finish. hseq;
    try (apply keeps_for_each; intros [? ?] _; hseq);
    apply I_call; reflexivity.
Qed.

Lemma keeps_start_tasks d daq : keeps (start_tasks d daq).
Proof.
  unfold start_tasks. apply keeps_for_each. intros [k present] _.
  destruct present; [apply I_start_task | apply keeps_ret].
Qed.

Lemma keeps_start_pulses daqs n : keeps (start_pulses daqs n).
Proof.
  unfold start_pulses. apply keeps_for_each. intros [d daq] _.
  eapply triple_bind.
  - destruct (co_task daq); [apply I_cfg_timing | apply keeps_raise].
  - intros ?. apply keeps_for_each. intros [d' daq'] _.
    apply keeps_start_tasks.
Qed.

Lemma keeps_wait_done_reading fuel wn : keeps (wait_done_reading fuel wn).
Proof.
  induction fuel as [| fuel IH]; cbn [wait_done_reading].
  - apply triple_stalled. auto.
  - eapply triple_bind; [apply I_done_is_set |].
    intros [|]; [apply keeps_ret |].
    eapply triple_bind; [apply I_stop_is_set |].
    intros [|]; [apply keeps_ret |].
    eapply triple_bind; [apply I_call; reflexivity | intros ?; exact IH].
Qed.

Lemma keeps_dispatch_to_writer wn wr : keeps (dispatch_to_writer wn wr).
Proof.
  unfold dispatch_to_writer.
  eapply triple_bind; [apply I_call; reflexivity | intros ?].
  eapply triple_bind; [apply I_toggle | intros half].
  eapply triple_bind; [| intros ?; apply I_call; reflexivity].
  destruct (path wr); [| apply keeps_ret].
  eapply triple_bind;
    [apply I_setattr; reflexivity | intros ?; apply I_done_clear].
Qed.

Lemma keeps_dispatch_chunk daqs (writers : dict Writer) :
  keeps (dispatch_chunk daqs writers).
Proof.
  unfold dispatch_chunk.
  eapply triple_bind.
  { apply keeps_for_each. intros [d ?] _. apply I_stop_daq. }
  intros ?. eapply triple_bind.
  { destruct (leaked_writer writers); [| apply keeps_raise].
    apply triple_with_fuel. intros n. apply keeps_wait_done_reading. }
  intros ?. apply keeps_for_each. intros [wn wr] _.
  apply keeps_dispatch_to_writer.
Qed.

Lemma keeps_wait_new_image fuel pn : keeps (wait_new_image fuel pn).
Proof.
  induction fuel as [| fuel IH]; cbn [wait_new_image].
  - apply triple_stalled. auto.
  - eapply triple_bind; [apply I_new_is_set |].
    intros [|]; [| apply keeps_ret].
    eapply triple_bind; [apply I_call; reflexivity | intros ?; exact IH].
Qed.

Lemma keeps_feed_processes (processes : dict Process) f :
  keeps (feed_processes processes f).
Proof.
  unfold feed_processes. apply keeps_for_each. intros [pn ?] _.
  eapply triple_bind.
  { apply triple_with_fuel. intros n. apply keeps_wait_new_image. }
  intros ?. eapply triple_bind; [apply I_image_write | intros ?; apply I_new_set].
Qed.

(** The engine keeps [I] once its blocks do; the blocks a property cares
    about are proved by hand, the others come from the lemmas above. *)
Section Compose.

Variable self : Acquisition.
Variable tile : Tile.
Variable filename : string.
Variable camera : Camera.
Variable writers : dict Writer.
Variable processes : dict Process.

Hypothesis B_setup_writer :
  forall wn wr, In (wn, wr) writers ->
    keeps (setup_writer tile filename camera wn wr).
Hypothesis B_start_pulses :
  forall n, keeps (start_pulses (daqs (instrument self)) n).
Hypothesis B_dispatch_chunk :
  keeps (dispatch_chunk (daqs (instrument self)) writers).
Hypothesis B_feed_processes :
  forall f, keeps (feed_processes processes f).

Lemma keeps_capture_frame c i :
  keeps (capture_frame (daqs (instrument self)) c tile writers processes i).
Proof.
  unfold capture_frame. hseq.
  - destruct (_ =? 0); [apply B_start_pulses | apply keeps_ret].
  - apply I_call; reflexivity.
  - apply I_call; reflexivity.
  - apply keeps_for_each. intros [wn ?] _. apply I_add_image.
  - destruct (_ || _); [apply B_dispatch_chunk | apply keeps_ret].
  - apply B_feed_processes.
Qed.

Lemma keeps_capture_loop c n i :
  keeps (capture_loop (daqs (instrument self)) c tile writers processes n i).
Proof.
  revert i. induction n as [| n IH]; intros i; cbn [capture_loop].
  - apply keeps_ret.
  - eapply triple_bind; [apply I_stop_is_set |].
    intros [|]; [apply keeps_ret |].
    eapply triple_bind; [apply keeps_capture_frame | intros ?; apply IH].
Qed.

Lemma keeps_engine :
  keeps (engine self tile filename camera writers processes).
Proof.
  unfold engine. hseq.
  - apply keeps_for_each. intros [wn wr] Hin. apply B_setup_writer, Hin.
  - apply keeps_for_each. intros [pn ?] _. apply keeps_setup_process.
  - apply keeps_start_devices.
  - apply keeps_divisor.
  - apply keeps_capture_loop.
  - apply keeps_finish.
Qed.

End Compose.

End EngineInvariant.

(** *** Invariants of the form "every logged action met an acceptable state" *)

Section LogInvariant.

Variable ok : Event * State -> Prop.
Variable J : State -> Prop.
Hypothesis J_stable : stable J.

Lemma inv_atomic {A} e eff (rd : State -> A) :
  (forall s, J s -> ok (e, s)) ->
  (forall s, J s -> J (eff s)) ->
  triple (Inv ok J) (atomic e eff rd) (fun _ => Inv ok J) (Safe ok).
Proof. intros H1 H2. apply hoare_keep; auto. Qed.

Lemma inv_add_image wn f :
  (forall s, J s -> ok (AddImage wn f, s)) ->
  (forall s b, J s -> J (set_img_buffer wn b s)) ->
  triple (Inv ok J) (add_image wn f) (fun _ => Inv ok J) (Safe ok).
Proof.
  intros H1 H2. unfold add_image. eapply triple_bind.
  - apply inv_atomic; auto. intros s Hs. destruct (_ <? _); auto.
  - intros [|]; [apply triple_ret; auto | apply triple_raise, Inv_Safe].
Qed.

End LogInvariant.

(** Settles the premise of a block lemma for one primitive of the engine,
    for an invariant [Inv ok J]: [unf] unfolds [ok], [stab] proves [J]
    stable, [fin] closes what is left about the state. *)
Ltac inv_prim unf stab fin :=
  intros;
  lazymatch goal with
  | H : Inv _ _ ?w |- Safe _ ?w => exact (Inv_Safe _ _ _ H)
  | |- triple _ (add_image _ _) _ _ =>
      apply inv_add_image;
      [ stab | intros ? ?; unf; cbn; first [ exact Logic.I | fin ] | intros; fin ]
  | |- triple _ _ _ _ =>
      apply inv_atomic;
      [ stab
      | intros ? ?; unf; cbn;
        try lazymatch goal with
            | H : plain_call ?e = true |- _ =>
                destruct e; try discriminate H
            | H : run_call ?e = true |- _ =>
                destruct e; try discriminate H
            end;
        first [ exact Logic.I | fin ]
      | intros; fin ]
  end.

(* ===================================================================== *)
(** ** A small instrument to run the model on *)
(* ===================================================================== *)

Module Bench.

Definition quiet_state : State :=
  {| stop_engine := false;
     done_reading := fun _ => true;
     new_image := fun _ => false;
     img_buffers := fun _ => {| capacity := 0; filled := 0; write_half := false |};
     running := [];
     attrs := fun _ _ => VNone;
     axis_moving := fun _ => false;
     transfer_alive := fun _ _ => false;
     acquisition_threads := [];
     transfer_threads := [] |}.

(** Consumers that answer at once: before every action of the program the
    writers [names] have finished reading and the processes [procs] have
    taken their image. *)
Definition prompt (names procs : list string) : list EnvAct :=
  map WriterDoneReading names ++ map ProcessTookImage procs.

Definition world (s : State) (schedule : list (list EnvAct)) : World :=
  {| st := s; sched := schedule; log := [] |}.

Definition daq_full : Daq :=
  {| tasks := ["ao_task"; "do_task"; "co_task"];
     ao_task := true; do_task := true; co_task := true |}.

Definition one_daq : Instrument :=
  {| devices := [("cam0", "camera")];
     tiling_stages := []; scanning_stages := [];
     channels := [("488", [])]; collections := [];
     daqs := [("daq0", daq_full)];
     cameras := [("cam0", {| height_px := 2; width_px := 2 |})] |}.

Definition two_daqs : Instrument :=
  {| devices := [("cam0", "camera")];
     tiling_stages := []; scanning_stages := [];
     channels := [("488", [])]; collections := [];
     daqs := [("daq0", daq_full); ("daq1", daq_full)];
     cameras := [("cam0", {| height_px := 2; width_px := 2 |})] |}.

Definition tile_of (n : Z) : Tile :=
  {| tile_number := 0; channel := "488"; prefix := "tile";
     steps := n; step_size := 1.5;
     position_mm := [("x", 0%Q); ("y", 0%Q); ("z", 0%Q)];
     device_settings := [] |}.

Definition writer_of (c : Z) : Writer :=
  {| chunk_count_px := c; path := Some "out"; data_type := "uint16" |}.

Definition session (i : Instrument) (c : Z) (n : Z) : Acquisition :=
  {| instrument := i; tiles := [tile_of n];
     writers := [("cam0", [("w", writer_of c)])];
     processes := None; routines := None; transfers := None;
     self_chunk_count_px := Some c |}.

Definition camera0 : Camera := {| height_px := 2; width_px := 2 |}.

(** The engine on one writer ["w"], chunk size [c], [n] frames. *)
Definition capture (i : Instrument) (c n : Z) (schedule : list (list EnvAct))
  : outcome unit * World :=
  engine (session i c n) (tile_of n) "tile_0_ch_488_camera_cam0" camera0
    [("w", writer_of c)] [] (world quiet_state schedule).

(** The same with a dictionary of writers and one of processes. *)
Definition capture_with (i : Instrument) (c n : Z) (s : State)
  (writers : dict Writer) (processes : dict Process)
  (schedule : list (list EnvAct)) : outcome unit * World :=
  engine (session i c n) (tile_of n) "tile_0_ch_488_camera_cam0" camera0
    writers processes (world s schedule).

(** A state in which every attribute of every object holds 5. *)
Definition preset_state : State := set_attr_all (VNum 5) quiet_state.

Definition is_transfer_event (e : Event) : bool :=
  match e with
  | TransferIsAlive _ _ | TransferWaitUntilFinished _ _ | TransferStart _ _ => true
  | _ => false
  end.

(** Two tiles of one chunk each and one transfer for the camera. *)
Definition two_tiles : Acquisition :=
  {| instrument := one_daq; tiles := [tile_of 4; tile_of 4];
     writers := [("cam0", [("w", writer_of 4)])];
     processes := None; routines := None;
     transfers := Some [("cam0", ["robocopy"])];
     self_chunk_count_px := Some 4 |}.

Definition pluralize (s : string) : string := (s ++ "s")%string.

Definition is_toggle (x : Event * State) : bool :=
  match fst x with ToggleBuffers _ => true | _ => false end.

End Bench.

(* ===================================================================== *)
(** ** Trigger hardware and buffer toggles *)
(* ===================================================================== *)

Section TriggerStopped.

Variable the_daqs : dict Daq.

(** A toggle is accepted only in a state with no running DAQ task. *)
Definition ok_toggle_idle (x : Event * State) : Prop :=
  match fst x with
  | ToggleBuffers _ => running (snd x) = []
  | _ => True
  end.

(** Only tasks of the instrument's DAQs run, [stopped] ones excepted. *)
Definition running_among (stopped : list string) (s : State) : Prop :=
  forall r, In r (running s) ->
    In (fst r) (keys the_daqs) /\ ~ In (fst r) stopped.

Definition idle (s : State) : Prop := running s = [].

Lemma running_among_incl stopped s s' :
  incl (running s') (running s) ->
  running_among stopped s -> running_among stopped s'.
Proof. intros Hi H r Hr. apply H, Hi, Hr. Qed.

Lemma running_among_all s : running_among (keys the_daqs) s -> idle s.
Proof.
  unfold idle, running_among. intros H.
  destruct (running s) as [| r rs]; auto.
  destruct (H r (or_introl eq_refl)) as [H1 H2]. contradiction.
Qed.

Lemma running_among_fewer stopped s :
  running_among stopped s -> running_among [] s.
Proof. intros H r Hr. split; [apply (H r Hr) | intros []]. Qed.

(** Every toggle so far met no running task; the tasks running now are
    tasks of the DAQs not yet [stopped]; and no other capture thread starts
    a task from here on. *)
Definition Known (stopped : list string) (w : World) : Prop :=
  Forall ok_toggle_idle (log w) /\
  running_among stopped (st w) /\
  no_other_start (sched w) = true.

#[local] Abbreviation Bad := (Safe ok_toggle_idle).

Lemma Known_Bad stopped w : Known stopped w -> Bad w.
Proof. intros [H _]. exact H. Qed.

Lemma known_atomic {A} stopped stopped' e eff (rd : State -> A) :
  (forall s, running_among stopped s ->
     ok_toggle_idle (e, s) /\ running_among stopped' (eff s)) ->
  triple (Known stopped) (atomic e eff rd) (fun _ => Known stopped') Bad.
Proof.
  intros H. apply triple_atomic; [| apply Known_Bad].
  intros w b rest [Hl [Hs Hq]] E. rewrite E in Hq. cbn in Hq.
  apply andb_prop in Hq. destruct Hq as [Hb Hq].
  destruct (H (env_burst (st w) b)) as [Hok Hs'].
  { apply (running_among_incl stopped (st w)); [| exact Hs].
    apply env_burst_running, Hb. }
  split; [| split]; cbn [log st sched]; auto.
  apply Forall_app. split; auto.
Qed.

Lemma known_add_image stopped wn f :
  triple (Known stopped) (add_image wn f) (fun _ => Known stopped) Bad.
Proof.
  unfold add_image. eapply triple_bind.
  - apply known_atomic. intros s Hs. split; [exact Logic.I |].
    destruct (_ <? _); exact Hs.
  - intros [|]; [apply triple_ret; auto | apply triple_raise, Known_Bad].
Qed.

(** A primitive of the engine other than a toggle, a task start and a DAQ
    stop keeps [Known stopped]. *)
Ltac known_prim :=
  intros;
  lazymatch goal with
  | H : Known _ ?w |- Safe _ ?w => exact (Known_Bad _ _ H)
  | |- triple _ (add_image _ _) _ _ => apply known_add_image
  | |- triple _ _ _ _ =>
      apply known_atomic; intros ? ?;
      split;
      [ unfold ok_toggle_idle; cbn;
        try lazymatch goal with
            | H : plain_call ?e = true |- _ => destruct e; try discriminate H
            end;
        exact Logic.I
      | eassumption ]
  end.

Lemma known_toggle wn :
  triple (Known (keys the_daqs)) (toggle_buffers wn)
    (fun _ => Known (keys the_daqs)) Bad.
Proof.
  apply known_atomic. intros s Hs. split; [| exact Hs].
  apply running_among_all, Hs.
Qed.

Lemma known_start_pulses n :
  triple (Known []) (start_pulses the_daqs n) (fun _ => Known []) Bad.
Proof.
  unfold start_pulses. apply triple_for_each_inv. intros [d daq] _.
  eapply triple_bind.
  - destruct (co_task daq); [known_prim |].
    apply triple_raise, Known_Bad.
  - intros ?. apply triple_for_each_inv. intros [d' daq'] Hin.
    unfold start_tasks. apply triple_for_each_inv. intros [k present] _.
    destruct present; [| apply triple_ret; auto].
    apply known_atomic. intros s Hs. split; [exact Logic.I |].
    intros r Hr. cbn in Hr. apply in_app_or in Hr.
    destruct Hr as [Hr | [<- | []]]; [apply Hs, Hr |].
    split; [| intros []]. cbn. apply (in_map fst _ _ Hin).
Qed.

Lemma stop_all_daqs :
  triple (Known []) (for_each the_daqs (fun '(daq_name, _) => stop_daq daq_name))
    (fun _ => Known (keys the_daqs)) Bad.
Proof.
  apply (triple_for_each (fun done => Known (keys done)) Bad).
  intros done [d daq] rest E. apply known_atomic.
  intros s Hs. split; [exact Logic.I |].
  intros r Hr. cbn in Hr. apply filter_In in Hr. destruct Hr as [Hr Hd].
  destruct (Hs r Hr) as [H1 H2]. split; auto.
  unfold keys. rewrite map_app. intros Hin. apply in_app_or in Hin.
  destruct Hin as [Hin | [Hin | []]]; [contradiction |].
  cbn in Hin. subst d. rewrite String.eqb_refl in Hd. discriminate.
Qed.

Lemma known_dispatch_chunk (writers : dict Writer) :
  triple (Known []) (dispatch_chunk the_daqs writers) (fun _ => Known []) Bad.
Proof.
  unfold dispatch_chunk. eapply triple_bind; [apply stop_all_daqs |].
  intros ?.
  apply triple_conseq with
    (P' := Known (keys the_daqs)) (Q' := fun _ => Known (keys the_daqs))
    (X' := Bad); [| auto | | auto].
  2:{ intros ? w [Hl [Hs Hq]]. split; [| split]; auto.
      apply (running_among_fewer _ _ Hs). }
  eapply triple_bind.
  - destruct (leaked_writer writers); [| apply triple_raise, Known_Bad].
    apply triple_with_fuel. intros n.
    apply keeps_wait_done_reading; known_prim.
  - intros ?. apply triple_for_each_inv. intros [wn wr] _.
    apply keeps_dispatch_to_writer; first [apply known_toggle | known_prim].
Qed.

Lemma known_engine self tile filename camera writers processes :
  the_daqs = daqs (instrument self) ->
  triple (Known []) (engine self tile filename camera writers processes)
    (fun _ => Known []) Bad.
Proof.
  intros E. apply keeps_engine; try known_prim.
  - intros wn wr _. apply keeps_setup_writer; known_prim.
  - rewrite <- E. apply known_start_pulses.
  - rewrite <- E. apply known_dispatch_chunk.
  - intros f. apply keeps_feed_processes; known_prim.
Qed.

End TriggerStopped.

(** A toggle that meets a running task. *)
Definition toggle_while_running (x : Event * State) : bool :=
  match fst x, running (snd x) with
  | ToggleBuffers _, _ :: _ => true
  | _, _ => false
  end.

(** The claim as the specification words it: no trigger task is running
    during a buffer toggle. *)
Definition toggles_with_triggers_stopped (l : list (Event * State)) : Prop :=
  forall writer_name s, In (ToggleBuffers writer_name, s) l -> running s = [].

Lemma toggle_while_running_refutes l :
  existsb toggle_while_running l = true -> ~ toggles_with_triggers_stopped l.
Proof.
  intros H Hc. apply existsb_exists in H. destruct H as [[e s] [Hin Hx]].
  unfold toggle_while_running in Hx. cbn in Hx. destruct e; try discriminate.
  rewrite (Hc _ _ Hin) in Hx. discriminate.
Qed.



(** Two cameras, one DAQ: while this capture thread waits at the end of its
    first chunk, the other camera's thread begins a chunk of its own and
    starts the tasks of the shared DAQ (lines 269-273). *)
Definition other_camera_starts : list (list EnvAct) :=
  repeat (Bench.prompt ["w"] []) 37
  ++ [[OtherTaskStart "daq0" AO; OtherTaskStart "daq0" DO;
       OtherTaskStart "daq0" CO]]
  ++ repeat (Bench.prompt ["w"] []) 40.


(* ===================================================================== *)
(** ** Buffer toggles and the "done reading" signal *)
(* ===================================================================== *)

Definition anything (s : State) : Prop := True.

Lemma stable_anything : stable anything.
Proof. intros s a _. exact Logic.I. Qed.

(** The claim as the specification words it: no toggle of a writer's buffer
    meets that writer's "done reading" signal unset. *)
Definition toggles_after_done_reading (l : list (Event * State)) : Prop :=
  forall writer_name s,
    In (ToggleBuffers writer_name, s) l -> done_reading s writer_name = true.

Definition toggle_before_done (x : Event * State) : bool :=
  match fst x with
  | ToggleBuffers writer_name => negb (done_reading (snd x) writer_name)
  | _ => false
  end.

Lemma toggle_before_done_refutes l :
  existsb toggle_before_done l = true -> ~ toggles_after_done_reading l.
Proof.
  intros H Hc. apply existsb_exists in H. destruct H as [[e s] [Hin Hx]].
  unfold toggle_before_done in Hx. cbn in Hx. destruct e; try discriminate.
  rewrite (Hc _ _ Hin) in Hx. discriminate.
Qed.

Section AwaitedWriter.

(** The writer whose signal the wait at the chunk boundary polls. *)
Variable awaited : string.

Definition ok_toggle_awaited (x : Event * State) : Prop :=
  match fst x with
  | ToggleBuffers writer_name =>
      writer_name = awaited ->
      done_reading (snd x) awaited = true \/ stop_engine (snd x) = true
  | _ => True
  end.

Definition drained_or_stopped (s : State) : Prop :=
  done_reading s awaited = true \/ stop_engine s = true.

Lemma stable_drained_or_stopped : stable drained_or_stopped.
Proof.
  intros s a [H | H]; unfold drained_or_stopped; destruct a; cbn; auto.
  left. unfold upd. destruct (String.eqb writer awaited); auto.
Qed.

#[local] Abbreviation Any := (Inv ok_toggle_awaited anything).
#[local] Abbreviation Drained := (Inv ok_toggle_awaited drained_or_stopped).
#[local] Abbreviation Bad := (Safe ok_toggle_awaited).

Ltac any_prim :=
  inv_prim ltac:(unfold ok_toggle_awaited) ltac:(apply stable_anything)
           ltac:(exact Logic.I).

Ltac drained_prim :=
  inv_prim ltac:(unfold ok_toggle_awaited)
           ltac:(apply stable_drained_or_stopped) ltac:(auto).

Lemma wait_then_drained fuel :
  triple Any (wait_done_reading fuel awaited) (fun _ => Drained) Bad.
Proof.
  induction fuel as [| fuel IH]; cbn [wait_done_reading].
  - apply triple_stalled, Inv_Safe.
  - eapply triple_bind.
    { apply (hoare_atomic ok_toggle_awaited anything _ _ _
               (fun d s => d = true -> done_reading s awaited = true)).
      - apply stable_anything.
      - intros s _. split; [exact Logic.I | auto]. }
    intros [|].
    { apply triple_ret. intros w [Hl Hs]. split; auto. left. auto. }
    eapply triple_bind.
    { apply (hoare_atomic ok_toggle_awaited _ _ _ _
               (fun b s => b = true -> stop_engine s = true)).
      - intros s a _ Hf. discriminate.
      - intros s _. split; [exact Logic.I | auto]. }
    intros [|].
    { apply triple_ret. intros w [Hl Hs]. split; auto. right. auto. }
    eapply triple_bind; [| intros ?; exact IH].
    apply (hoare_atomic ok_toggle_awaited _ _ _ _ (fun _ _ => True)).
    + intros s a _ Hf. discriminate.
    + intros s _. split; exact Logic.I.
Qed.

Lemma dispatch_other (J : State -> Prop) wn wr :
  wn <> awaited ->
  stable J ->
  (forall s, J s -> J (set_done_reading wn false s)) ->
  (forall s b, J s -> J (set_img_buffer wn b s)) ->
  (forall s o a v, J s -> J (set_attr o a v s)) ->
  triple (Inv ok_toggle_awaited J) (dispatch_to_writer wn wr)
    (fun _ => Inv ok_toggle_awaited J) Bad.
Proof.
  intros Hne HJ Hclear Hbuf Hattr. unfold dispatch_to_writer.
  eapply triple_bind;
    [inv_prim ltac:(unfold ok_toggle_awaited) ltac:(exact HJ) ltac:(auto)
    | intros ?].
  eapply triple_bind.
  { apply inv_atomic; auto. intros s' _ E. contradiction. }
  intros half. eapply triple_bind;
    [| intros ?;
       inv_prim ltac:(unfold ok_toggle_awaited) ltac:(exact HJ) ltac:(auto)].
  destruct (path wr); [| apply triple_ret; auto].
  eapply triple_bind;
    [inv_prim ltac:(unfold ok_toggle_awaited) ltac:(exact HJ) ltac:(auto)
    | intros ?].
  apply inv_atomic; auto. intros s' _. exact Logic.I.
Qed.

Lemma dispatch_awaited wr :
  triple Drained (dispatch_to_writer awaited wr) (fun _ => Any) Bad.
Proof.
  unfold dispatch_to_writer.
  eapply triple_bind.
  { drained_prim. }
  intros ?. eapply triple_bind.
  { apply (hoare_atomic ok_toggle_awaited drained_or_stopped _ _ _
             (fun _ => anything)).
    - apply stable_drained_or_stopped.
    - intros s Hs. split; [intros _; exact Hs | exact Logic.I]. }
  intros half. eapply triple_bind; [| intros ?; any_prim].
  destruct (path wr); [| apply triple_ret; auto].
  eapply triple_bind; [any_prim | intros ?; any_prim].
Qed.

Lemma any_dispatch_chunk the_daqs (writers : dict Writer) :
  NoDup (keys writers) ->
  leaked_writer writers = Some awaited ->
  triple Any (dispatch_chunk the_daqs writers) (fun _ => Any) Bad.
Proof.
  intros Hnd Hlast. unfold dispatch_chunk. rewrite Hlast.
  eapply triple_bind.
  { apply triple_for_each_inv. intros [d ?] _. any_prim. }
  intros ?. eapply triple_bind.
  { apply triple_with_fuel. intros n. apply wait_then_drained. }
  intros ?.
  apply triple_conseq with
    (P' := Inv ok_toggle_awaited
             (fun s => In awaited (keys (@nil (string * Writer))) \/ drained_or_stopped s))
    (Q' := fun _ => Inv ok_toggle_awaited
             (fun s => In awaited (keys writers) \/ drained_or_stopped s))
    (X' := Bad); auto.
  2:{ intros w [Hl Hs]. split; auto. }
  2:{ intros ? w [Hl Hs]. split; auto. exact Logic.I. }
  apply (triple_for_each
           (fun done => Inv ok_toggle_awaited
              (fun s => In awaited (keys done) \/ drained_or_stopped s)) Bad).
  intros done [wn wr] rest E.
  assert (Hfresh : ~ In wn (keys done)).
  { unfold keys in Hnd. rewrite E, map_app in Hnd. cbn in Hnd.
    apply NoDup_remove_2 in Hnd. intros Hin. apply Hnd.
    apply in_or_app. left. exact Hin. }
  destruct (String.eqb_spec wn awaited) as [-> | Hne].
  - apply triple_conseq with (P' := Drained) (Q' := fun _ => Any) (X' := Bad);
      auto.
    + apply dispatch_awaited.
    + intros w [Hl [Hs | Hs]]; [contradiction | split; auto].
    + intros ? w [Hl _]. split; auto. left.
      unfold keys. rewrite map_app. apply in_or_app. right. left. reflexivity.
  - eapply triple_conseq;
      [apply (dispatch_other
                (fun s => In awaited (keys done) \/ drained_or_stopped s)
                wn wr Hne)
      | auto | | auto].
    + intros s ea [H | H]; [left; exact H | right].
      apply stable_drained_or_stopped, H.
    + intros s [H | [H | H]]; [left; exact H | right; left | right; right; exact H].
      cbn. rewrite upd_other; auto.
    + intros s b H. exact H.
    + intros s o a1 v H. exact H.
    + intros ? w [Hl [Hs | Hs]]; (split; [exact Hl |]); [left | right; exact Hs].
      unfold keys. rewrite map_app. apply in_or_app. left. exact Hs.
Qed.

Lemma any_engine self tile filename camera writers processes :
  NoDup (keys writers) ->
  leaked_writer writers = Some awaited ->
  triple Any (engine self tile filename camera writers processes)
    (fun _ => Any) Bad.
Proof.
  intros Hnd Hlast. apply keeps_engine; try any_prim.
  - intros wn wr _. apply keeps_setup_writer; any_prim.
  - intros n. apply keeps_start_pulses; any_prim.
  - apply any_dispatch_chunk; assumption.
  - intros f. apply keeps_feed_processes; any_prim.
Qed.

End AwaitedWriter.

(** C2, as amended.  For the writer whose "done reading" signal the wait at
    the chunk boundary polls (the last writer of the camera, its only writer
    when it has one), every toggle of that writer's buffer meets a state in
    which its "done reading" signal is set or the stop flag is set: once a
    stop has been requested the wait is given up and the toggle goes ahead
    whatever the signal says.  This holds under every behaviour of the
    consumers and wherever the run ends. *)
Theorem awaited_toggle_drained_or_stopped
  self tile filename camera writers processes w awaited :
  NoDup (keys writers) ->
  leaked_writer writers = Some awaited ->
  log w = [] ->
  forall s,
    In (ToggleBuffers awaited, s)
       (log (snd (engine self tile filename camera writers processes w))) ->
    done_reading s awaited = true \/ stop_engine s = true.
Proof.
  intros Hnd Hlast Hlog s Hin.
  pose proof (any_engine awaited self tile filename camera writers processes
                Hnd Hlast w) as H.
  assert (Hw : Inv (ok_toggle_awaited awaited) anything w).
  { split; [rewrite Hlog; constructor | exact Logic.I]. }
  specialize (H Hw).
  assert (Hsafe : Safe (ok_toggle_awaited awaited)
                    (snd (engine self tile filename camera writers processes w))).
  { destruct (fst (engine self tile filename camera writers processes w));
      auto. apply (Inv_Safe _ _ _ H). }
  unfold Safe in Hsafe. rewrite Forall_forall in Hsafe.
  apply (Hsafe _ Hin). reflexivity.
Qed.

Lemma awaited_toggle_drained_or_stopped_witness :
  let r := Bench.capture Bench.one_daq 4 10 (repeat (Bench.prompt ["w"] []) 200) in
  NoDup (keys [("w", Bench.writer_of 4)]) /\
  leaked_writer [("w", Bench.writer_of 4)] = Some "w" /\
  List.length (filter Bench.is_toggle (log (snd r))) = 3%nat /\
  forall s,
    In (ToggleBuffers "w", s) (log (snd r)) ->
    done_reading s "w" = true \/ stop_engine s = true.
Proof.
  assert (Hnd : NoDup (keys [("w", Bench.writer_of 4)])).
  { constructor; [intros [] | constructor]. }
  split; [exact Hnd |].
  split; [reflexivity |].
  split; [vm_compute; reflexivity |].
  apply awaited_toggle_drained_or_stopped; [exact Hnd | reflexivity | reflexivity].
Defined.

(** A stop request that arrives in the middle of the second chunk: two
    frames, chunks of one frame, one writer that persists data.  The first
    toggle clears the writer's signal, the writer never sets it again, and
    the second toggle goes ahead because the stop flag ends the wait. *)
Definition stop_mid_chunk : list (list EnvAct) :=
  repeat [] 36 ++ [[StopRequested]] ++ repeat [] 40.

(** C2, as stated, fails: in this run a buffer is toggled while its writer's
    "done reading" signal is unset. *)
Lemma toggle_without_done_reading :
  ~ toggles_after_done_reading
      (log (snd (Bench.capture Bench.one_daq 1 2 stop_mid_chunk))).
Proof. apply toggle_before_done_refutes. vm_compute. reflexivity. Qed.

(* ===================================================================== *)
(** ** The one-slot hand-off to analysis processes *)
(* ===================================================================== *)

(** What an action may follow: [prev] is the program's previous action. *)
Definition ok_after (prev : option (Event * State)) (x : Event * State) : Prop :=
  match fst x with
  | BufferImageWrite p _ =>
      new_image (snd x) p = false /\
      exists s0, prev = Some (NewImageIsSet p, s0) /\ new_image s0 p = false
  | NewImageSet p =>
      exists f s0, prev = Some (BufferImageWrite p f, s0)
  | _ => True
  end.

Fixpoint chain_from (prev : option (Event * State)) (l : list (Event * State))
  : Prop :=
  match l with
  | [] => True
  | x :: l' => ok_after prev x /\ chain_from (Some x) l'
  end.

Definition last_entry (prev : option (Event * State)) (l : list (Event * State))
  : option (Event * State) :=
  last (map Some l) prev.

Lemma last_entry_snoc prev l x : last_entry prev (l ++ [x]) = Some x.
Proof. unfold last_entry. rewrite map_app. cbn. apply last_last. Qed.

Lemma last_entry_cons prev x l : last_entry prev (x :: l) = last_entry (Some x) l.
Proof.
  unfold last_entry. cbn [map]. destruct l as [| y l]; [reflexivity |].
  cbn [map]. revert y. induction l as [| z l IH]; intros y; [reflexivity |].
  cbn [map] in *. change (last (Some x :: Some y :: Some z :: map Some l) prev)
    with (last (Some y :: Some z :: map Some l) prev).
  change (last (Some y :: Some z :: map Some l) (Some x))
    with (last (Some z :: map Some l) (Some x)).
  rewrite <- (IH z). reflexivity.
Qed.

Lemma chain_snoc prev l x :
  chain_from prev l -> ok_after (last_entry prev l) x -> chain_from prev (l ++ [x]).
Proof.
  revert prev. induction l as [| y l IH]; intros prev Hc Hx.
  - cbn. split; auto.
  - rewrite last_entry_cons in Hx. cbn [app chain_from] in *.
    destruct Hc as [Hy Hc]. split; auto.
Qed.

Lemma chain_split prev l1 x l2 :
  chain_from prev (l1 ++ x :: l2) -> ok_after (last_entry prev l1) x.
Proof.
  revert prev. induction l1 as [| y l1 IH]; intros prev Hc;
    cbn [app chain_from] in Hc.
  - destruct Hc as [Hx _]. exact Hx.
  - destruct Hc as [_ Hc]. rewrite last_entry_cons. apply IH, Hc.
Qed.

Lemma last_entry_inv l x : last_entry None l = Some x -> exists l0, l = l0 ++ [x].
Proof.
  destruct l as [| y l] using rev_ind; intros H.
  - discriminate.
  - rewrite last_entry_snoc in H. injection H as ->. eauto.
Qed.

Lemma env_burst_new_image_false s b p :
  new_image s p = false -> new_image (env_burst s b) p = false.
Proof.
  revert s. unfold env_burst.
  induction b as [| a b IH]; intros s H; cbn; auto.
  apply IH. destruct a; cbn; auto.
  unfold upd. destruct (String.eqb process p); auto.
Qed.

Section SlotHandOff.

Definition Fed (w : World) : Prop := chain_from None (log w).

(** The wait has just seen the slot of [p] free. *)
Definition SlotFree (p : string) (w : World) : Prop :=
  Fed w /\
  new_image (st w) p = false /\
  exists s0, last_entry None (log w) = Some (NewImageIsSet p, s0) /\
             new_image s0 p = false.

Definition SlotWritten (p : string) (w : World) : Prop :=
  Fed w /\ exists f s0, last_entry None (log w) = Some (BufferImageWrite p f, s0).

Lemma fed_atomic {A} e eff (rd : State -> A) :
  match e with BufferImageWrite _ _ | NewImageSet _ => False | _ => True end ->
  triple Fed (atomic e eff rd) (fun _ => Fed) Fed.
Proof.
  intros He. apply triple_atomic; auto.
  intros w b rest Hw _. unfold Fed; cbn. apply chain_snoc; auto.
  unfold ok_after; cbn. destruct e; auto; contradiction.
Qed.

Ltac fed_prim :=
  intros;
  lazymatch goal with
  | H : Fed ?w |- Fed ?w => exact H
  | |- triple _ (add_image _ _) _ _ =>
      unfold add_image; eapply triple_bind;
      [ apply fed_atomic; exact Logic.I
      | intros [|]; [apply triple_ret | apply triple_raise]; auto ]
  | H : plain_call ?e = true |- triple _ (call ?e) _ _ =>
      apply fed_atomic; destruct e; try discriminate H; exact Logic.I
  | |- triple _ _ _ _ => apply fed_atomic; exact Logic.I
  end.

Lemma wait_then_free fuel p :
  triple Fed (wait_new_image fuel p) (fun _ => SlotFree p) Fed.
Proof.
  induction fuel as [| fuel IH]; cbn [wait_new_image].
  - apply triple_stalled. auto.
  - eapply triple_bind with
      (R := fun busy w => Fed w /\ (busy = false -> SlotFree p w)).
    + apply triple_atomic; auto.
      intros w b rest Hw _.
      assert (Hf : Fed {| st := env_burst (st w) b; sched := rest;
                          log := log w ++ [(NewImageIsSet p, env_burst (st w) b)] |}).
      { unfold Fed; cbn. apply chain_snoc; auto. exact Logic.I. }
      split; [exact Hf |]. intros Hbusy. split; [exact Hf |]. cbn [st log].
      split; [exact Hbusy |]. eexists. rewrite last_entry_snoc. split; eauto.
    + intros [|].
      * eapply triple_bind with (R := fun _ => Fed).
        -- apply triple_conseq with (P' := Fed) (Q' := fun _ => Fed) (X' := Fed);
             [fed_prim | intros w [H _]; exact H | auto | auto].
        -- intros ?. exact IH.
      * apply triple_ret. intros w [_ H]. apply H. reflexivity.
Qed.

Lemma fed_feed_processes (processes : dict Process) f :
  triple Fed (feed_processes processes f) (fun _ => Fed) Fed.
Proof.
  unfold feed_processes. apply triple_for_each_inv. intros [p ?] _.
  eapply triple_bind.
  { apply triple_with_fuel. intros n. apply wait_then_free. }
  intros ?. eapply triple_bind with (R := fun _ => SlotWritten p).
  - apply triple_atomic; [| intros w [H _]; exact H].
    intros w b rest (Hw & Hfree & s0 & Hlast & Hs0) _.
    split.
    + unfold Fed; cbn. apply chain_snoc; auto. unfold ok_after; cbn.
      split; [apply env_burst_new_image_false, Hfree | eauto].
    + cbn [st log]. do 2 eexists. apply last_entry_snoc.
  - intros ?. apply triple_atomic; [| intros w [H _]; exact H].
    intros w b rest (Hw & f' & s0 & Hlast) _.
    unfold Fed; cbn. apply chain_snoc; auto. unfold ok_after; cbn. eauto.
Qed.

Lemma fed_engine self tile filename camera writers processes :
  triple Fed (engine self tile filename camera writers processes)
    (fun _ => Fed) Fed.
Proof.
  apply keeps_engine; try fed_prim.
  - intros wn wr _. apply keeps_setup_writer; fed_prim.
  - intros n. apply keeps_start_pulses; fed_prim.
  - apply keeps_dispatch_chunk; fed_prim.
  - intros f. apply fed_feed_processes.
Qed.

End SlotHandOff.

(** C9.  In every run of the capture loop, whatever the processes and the
    other parties do and wherever the run ends: a frame is written into a
    process's slot only directly after a poll of that process's "new image"
    signal that found it cleared, and the slot's signal is still cleared at
    the moment of the write; the signal is set only directly after a write
    into that process's slot. *)
Theorem slot_written_only_when_free
  self tile filename camera writers processes w :
  log w = [] ->
  forall before e s after,
    log (snd (engine self tile filename camera writers processes w))
      = before ++ (e, s) :: after ->
    (forall p f, e = BufferImageWrite p f ->
       new_image s p = false /\
       exists earlier s0,
         before = earlier ++ [(NewImageIsSet p, s0)] /\ new_image s0 p = false) /\
    (forall p, e = NewImageSet p ->
       exists earlier f s0, before = earlier ++ [(BufferImageWrite p f, s0)]).
Proof.
  intros Hlog before e s after E.
  pose proof (fed_engine self tile filename camera writers processes w) as H.
  assert (Hw : Fed w) by (unfold Fed; rewrite Hlog; exact Logic.I).
  specialize (H Hw).
  assert (Hfed : Fed (snd (engine self tile filename camera writers processes w))).
  { destruct (fst (engine self tile filename camera writers processes w)); auto. }
  unfold Fed in Hfed. rewrite E in Hfed. apply chain_split in Hfed.
  unfold ok_after in Hfed. cbn in Hfed.
  split.
  - intros p f ->. destruct Hfed as [Hs (s0 & Hlast & Hs0)].
    split; auto. apply last_entry_inv in Hlast. destruct Hlast as [l0 ->]. eauto.
  - intros p ->. destruct Hfed as (f & s0 & Hlast).
    apply last_entry_inv in Hlast. destruct Hlast as [l0 ->]. eauto.
Qed.

Lemma slot_written_only_when_free_witness :
  let l := log (snd (engine (Bench.session Bench.one_daq 2 2) (Bench.tile_of 2)
                       "tile_0_ch_488_camera_cam0" Bench.camera0
                       [("w", Bench.writer_of 2)]
                       [("p", {| process_data_type := "uint16" |})]
                       (Bench.world Bench.quiet_state
                          (repeat (Bench.prompt ["w"] ["p"]) 100)))) in
  exists before s after,
    log (snd (engine (Bench.session Bench.one_daq 2 2) (Bench.tile_of 2)
                "tile_0_ch_488_camera_cam0" Bench.camera0
                [("w", Bench.writer_of 2)]
                [("p", {| process_data_type := "uint16" |})]
                (Bench.world Bench.quiet_state
                   (repeat (Bench.prompt ["w"] ["p"]) 100))))
      = before ++ (BufferImageWrite "p" 0, s) :: after /\
    new_image s "p" = false /\
    exists earlier s0,
      before = earlier ++ [(NewImageIsSet "p", s0)] /\ new_image s0 "p" = false.
Proof.
  intros l.
  exists (firstn 33 l), (snd (nth 33 l (Sleep, Bench.quiet_state))), (skipn 34 l).
  assert (E : log (snd (engine (Bench.session Bench.one_daq 2 2) (Bench.tile_of 2)
                          "tile_0_ch_488_camera_cam0" Bench.camera0
                          [("w", Bench.writer_of 2)]
                          [("p", {| process_data_type := "uint16" |})]
                          (Bench.world Bench.quiet_state
                             (repeat (Bench.prompt ["w"] ["p"]) 100))))
              = firstn 33 l
                  ++ (BufferImageWrite "p" 0,
                      snd (nth 33 l (Sleep, Bench.quiet_state))) :: skipn 34 l).
  { vm_compute. reflexivity. }
  split; [exact E |].
  refine (proj1 (slot_written_only_when_free _ _ _ _ _ _ _ _ _ _ _ _ E)
            "p" 0 eq_refl).
  reflexivity.
Defined.

(* ===================================================================== *)
(** ** Voxel sizes written on the writers *)
(* ===================================================================== *)

(** The actions with which capture begins and proceeds. *)
Definition capture_event (e : Event) : bool :=
  match e with
  | CameraPrepare | CameraStart | GrabFrame _ => true
  | _ => false
  end.

Section VoxelSize.

Variable tile : Tile.

(** The value lines 211-213 give to a voxel-size attribute. *)
Definition voxel_value (a : string) : option pyval :=
  if String.eqb a "x_voxel_size_um" then Some (VNum 0.748)
  else if String.eqb a "y_voxel_size_um" then Some (VNum 0.748)
  else if String.eqb a "z_voxel_size_um" then Some (VNum (step_size tile))
  else None.

(** Writer [wn] carries those values in the attributes listed in [names]. *)
Definition voxels_upto (names : list string) (wn : string) (s : State) : Prop :=
  forall a v, In a names -> voxel_value a = Some v ->
    attrs s (WriterObj wn) a = v.

Definition voxels_set (wn : string) (s : State) : Prop :=
  attrs s (WriterObj wn) "x_voxel_size_um" = VNum 0.748 /\
  attrs s (WriterObj wn) "y_voxel_size_um" = VNum 0.748 /\
  attrs s (WriterObj wn) "z_voxel_size_um" = VNum (step_size tile).

(** An assignment that does not spoil a voxel-size attribute. *)
Definition agrees (a : string) (v : pyval) : Prop :=
  match voxel_value a with
  | Some v' => v = v'
  | None => True
  end.

Lemma voxels_set_attr wn o a v s :
  (forall wn', o = WriterObj wn' -> agrees a v) ->
  voxels_set wn s -> voxels_set wn (set_attr o a v s).
Proof.
  intros Ha (Hx & Hy & Hz).
  assert (G : forall a' v', voxel_value a' = Some v' ->
                attrs s (WriterObj wn) a' = v' ->
                attrs (set_attr o a v s) (WriterObj wn) a' = v').
  { intros a' v' Hv H. cbn. unfold upd_attr.
    destruct (obj_eqb o (WriterObj wn) && String.eqb a a') eqn:E; auto.
    apply andb_true_iff in E. destruct E as [Eo Ea].
    apply String.eqb_eq in Ea. subst a'.
    destruct o; try discriminate. specialize (Ha _ eq_refl).
    unfold agrees in Ha. rewrite Hv in Ha. exact Ha. }
  repeat split; apply G; auto.
Qed.

Lemma voxels_upto_attr names wn a v s :
  agrees a v ->
  voxels_upto names wn s ->
  voxels_upto (a :: names) wn (set_attr (WriterObj wn) a v s).
Proof.
  intros Ha H a' v' Hin Hv. cbn. unfold upd_attr.
  destruct (obj_eqb (WriterObj wn) (WriterObj wn) && String.eqb a a') eqn:E.
  - apply andb_true_iff in E. destruct E as [_ Ea].
    apply String.eqb_eq in Ea. subst a'.
    unfold agrees in Ha. rewrite Hv in Ha. exact Ha.
  - destruct Hin as [-> | Hin]; [| apply H; auto].
    cbn [obj_eqb] in E. rewrite !String.eqb_refl in E. discriminate.
Qed.

Lemma voxels_upto_all names wn s :
  In "x_voxel_size_um" names -> In "y_voxel_size_um" names ->
  In "z_voxel_size_um" names ->
  voxels_upto names wn s -> voxels_set wn s.
Proof. intros Hx Hy Hz H. repeat split; apply H; auto. Qed.

Variable the_writers : dict Writer.

Definition ok_voxels (x : Event * State) : Prop :=
  capture_event (fst x) = true ->
  forall wn, In wn (keys the_writers) -> voxels_set wn (snd x).

(** The writers in [done] are set up, and so are the attributes [names] of
    writer [wn]. *)
Definition set_up (done : list string) (names : list string) (wn : string)
  (s : State) : Prop :=
  (forall wn', In wn' done -> voxels_set wn' s) /\ voxels_upto names wn s.

Lemma stable_set_up done names wn : stable (set_up done names wn).
Proof.
  intros s a H. unfold set_up, voxels_set, voxels_upto in *.
  destruct a; exact H.
Qed.

Lemma set_up_setattr done names wn a v :
  agrees a v ->
  triple (Inv ok_voxels (set_up done names wn))
    (setattr (WriterObj wn) a v)
    (fun _ => Inv ok_voxels (set_up done (a :: names) wn)) (Safe ok_voxels).
Proof.
  intros Ha. apply hoare_atomic; [apply stable_set_up |].
  intros s [H1 H2]. split; [intros Hc; discriminate |].
  split.
  - intros wn' Hin. apply voxels_set_attr; auto.
  - apply voxels_upto_attr; auto.
Qed.

Lemma set_up_getitem {V} done names wn (d : dict V) k :
  triple (Inv ok_voxels (set_up done names wn)) (getitem d k)
    (fun _ => Inv ok_voxels (set_up done names wn)) (Safe ok_voxels).
Proof. apply hoare_getitem. Qed.

Lemma set_up_writer filename camera done wn wr :
  triple (Inv ok_voxels (set_up done [] wn))
    (setup_writer tile filename camera wn wr)
    (fun _ => Inv ok_voxels (set_up (done ++ [wn]) [] wn)) (Safe ok_voxels).
Proof.
  unfold setup_writer.
  repeat (eapply triple_bind;
          [first [ apply set_up_setattr; unfold agrees, voxel_value; cbn;
                   first [exact Logic.I | reflexivity]
                 | apply set_up_getitem ]
          | intros ? ]).
  apply hoare_atomic; [apply stable_set_up |].
  intros s [H1 H2]. split; [intros Hc; discriminate |].
  split; [| intros a' v' []].
  intros wn' Hin. apply in_app_or in Hin. destruct Hin as [Hin | [<- | []]].
  - apply H1, Hin.
  - apply (voxels_upto_all _ wn s) in H2; cbn; auto 15.
Qed.

Definition all_set_up (s : State) : Prop :=
  forall wn, In wn (keys the_writers) -> voxels_set wn s.

Lemma stable_all_set_up : stable all_set_up.
Proof.
  intros s a H. unfold all_set_up, voxels_set in *. destruct a; exact H.
Qed.

Lemma set_up_writers filename camera :
  triple (Inv ok_voxels anything)
    (for_each the_writers (fun '(writer_name, writer) =>
       setup_writer tile filename camera writer_name writer))
    (fun _ => Inv ok_voxels all_set_up) (Safe ok_voxels).
Proof.
  apply triple_conseq with
    (P' := Inv ok_voxels (fun s => forall wn, In wn (keys (@nil (string * Writer))) ->
                                     voxels_set wn s))
    (Q' := fun _ => Inv ok_voxels (fun s => forall wn, In wn (keys the_writers) ->
                                     voxels_set wn s))
    (X' := Safe ok_voxels); auto.
  2:{ intros w [Hl _]. split; auto. intros wn []. }
  apply (triple_for_each
           (fun done => Inv ok_voxels
              (fun s => forall wn, In wn (keys done) -> voxels_set wn s))
           (Safe ok_voxels)).
  intros done [wn wr] rest E.
  eapply triple_conseq; [apply (set_up_writer filename camera (keys done) wn wr)
                        | | | auto].
  - intros w [Hl Hs]. split; auto. split; auto. intros a v [].
  - intros ? w [Hl [Hs _]]. split; auto.
    unfold keys. rewrite map_app. exact Hs.
Qed.

#[local] Abbreviation SetUp := (Inv ok_voxels all_set_up).

Ltac set_up_prim :=
  inv_prim ltac:(unfold ok_voxels) ltac:(apply stable_all_set_up)
           ltac:(first [ assumption | intros _; assumption ]).

Lemma set_up_late_attr o a v :
  late_attr o a = true ->
  triple SetUp (setattr o a v) (fun _ => SetUp) (Safe ok_voxels).
Proof.
  intros Hl. apply inv_atomic; [apply stable_all_set_up | |].
  - intros s Hs _. exact Hs.
  - intros s Hs wn Hin. apply voxels_set_attr; auto.
    intros wn' ->. cbn in Hl. apply String.eqb_eq in Hl. subst a.
    exact Logic.I.
Qed.

Lemma voxels_engine self filename camera processes :
  triple (Inv ok_voxels anything)
    (engine self tile filename camera the_writers processes)
    (fun _ => SetUp) (Safe ok_voxels).
Proof.
  unfold engine. eapply triple_bind; [apply set_up_writers | intros ?].
  hseq.
  - apply triple_for_each_inv. intros [pn ?] _.
    apply keeps_setup_process; first [apply set_up_late_attr | set_up_prim].
  - apply keeps_start_devices; set_up_prim.
  - apply keeps_divisor. apply Inv_Safe.
  - apply keeps_capture_loop; try set_up_prim.
    + intros n. apply keeps_start_pulses; set_up_prim.
    + apply keeps_dispatch_chunk;
        first [apply set_up_late_attr | set_up_prim].
    + intros f. apply keeps_feed_processes; set_up_prim.
  - apply keeps_finish; set_up_prim.
Qed.

End VoxelSize.

(** C10.  Whatever voxel sizes were on the writers before, by the time the
    camera is prepared, started or read, every writer of the camera has its
    x and y voxel size at 0.748 and its z voxel size at the tile's
    [step_size]; the engine assigns them while it sets the writers up, before
    anything else. *)
Theorem voxel_sizes_overwritten
  self tile filename camera writers processes w :
  log w = [] ->
  forall e s,
    In (e, s) (log (snd (engine self tile filename camera writers processes w))) ->
    capture_event e = true ->
    forall writer_name,
      In writer_name (keys writers) ->
      attrs s (WriterObj writer_name) "x_voxel_size_um" = VNum 0.748 /\
      attrs s (WriterObj writer_name) "y_voxel_size_um" = VNum 0.748 /\
      attrs s (WriterObj writer_name) "z_voxel_size_um" = VNum (step_size tile).
Proof.
  intros Hlog e s Hin He wn Hwn.
  pose proof (voxels_engine tile writers self filename camera processes w) as H.
  assert (Hw : Inv (ok_voxels tile writers) anything w).
  { split; [rewrite Hlog; constructor | exact Logic.I]. }
  specialize (H Hw).
  assert (Hsafe : Safe (ok_voxels tile writers)
                    (snd (engine self tile filename camera writers processes w))).
  { destruct (fst (engine self tile filename camera writers processes w));
      auto. apply (Inv_Safe _ _ _ H). }
  unfold Safe in Hsafe. rewrite Forall_forall in Hsafe.
  apply (Hsafe _ Hin He wn Hwn).
Qed.

Lemma voxel_sizes_overwritten_witness :
  let w := Bench.world Bench.preset_state (repeat [] 100) in
  let l := log (snd (engine (Bench.session Bench.one_daq 2 2) (Bench.tile_of 2)
                       "tile_0_ch_488_camera_cam0" Bench.camera0
                       [("w", Bench.writer_of 2)] [] w)) in
  let s := snd (nth 12 l (Sleep, Bench.quiet_state)) in
  attrs (st w) (WriterObj "w") "x_voxel_size_um" = VNum 5 /\
  In (CameraPrepare, s) l /\
  attrs s (WriterObj "w") "x_voxel_size_um" = VNum 0.748 /\
  attrs s (WriterObj "w") "y_voxel_size_um" = VNum 0.748 /\
  attrs s (WriterObj "w") "z_voxel_size_um" = VNum 1.5.
Proof.
  intros w l s.
  assert (Hin : In (CameraPrepare, s) l).
  { apply (nth_error_In l 12). vm_compute. reflexivity. }
  split; [reflexivity |].
  split; [exact Hin |].
  exact (voxel_sizes_overwritten
           (Bench.session Bench.one_daq 2 2) (Bench.tile_of 2)
           "tile_0_ch_488_camera_cam0" Bench.camera0
           [("w", Bench.writer_of 2)] [] w eq_refl CameraPrepare s Hin eq_refl
           "w" (or_introl eq_refl)).
Defined.

(* ===================================================================== *)
(** ** Chunks dispatched and pulses programmed *)
(* ===================================================================== *)

(** The chunks of a tile of [n] frames cut into chunks of [c]: the full
    chunks, then the remainder if there is one. *)
Definition chunk_plan (n c : Z) : list Z :=
  repeat c (Z.to_nat (n / c)) ++ (if n mod c =? 0 then [] else [n mod c]).

(** The frames handed over at each toggle of the buffer of writer [wn]: what
    the write half held when [toggle_buffers] was called. *)
Definition chunk_sizes (wn : string) (l : list (Event * State)) : list Z :=
  flat_map (fun x =>
              match fst x with
              | ToggleBuffers w' =>
                  if String.eqb w' wn then [filled (img_buffers (snd x) wn)]
                  else []
              | _ => []
              end) l.

(** The pulse counts programmed on counter tasks, in order. *)
Definition pulse_counts (l : list (Event * State)) : list Z :=
  flat_map (fun x =>
              match fst x with
              | CfgImplicitTiming _ n => [n]
              | _ => []
              end) l.

Definition sum_Z (l : list Z) : Z := fold_right Z.add 0 l.

Lemma sum_Z_app l1 l2 : sum_Z (l1 ++ l2) = sum_Z l1 + sum_Z l2.
Proof.
  unfold sum_Z. induction l1 as [| x l1 IH]; cbn; [reflexivity | rewrite IH; lia].
Qed.

Lemma sum_Z_repeat c n : sum_Z (repeat c n) = c * Z.of_nat n.
Proof.
  unfold sum_Z. induction n as [| n IH]; cbn [repeat fold_right]; lia.
Qed.

Lemma repeat_snoc {A} (x : A) n : repeat x n ++ [x] = repeat x (S n).
Proof. induction n as [| n IH]; cbn; [reflexivity | now rewrite IH]. Qed.

Section ChunkArithmetic.

Variables n c : Z.
Hypothesis c_pos : 0 < c.
Hypothesis n_nonneg : 0 <= n.

Lemma chunk_plan_length : Z.of_nat (List.length (chunk_plan n c)) = ceil_div n c.
Proof.
  unfold chunk_plan, ceil_div. rewrite length_app, repeat_length.
  assert (Hq : 0 <= n / c) by (Z.div_mod_to_equations; nia).
  rewrite Nat2Z.inj_add, Z2Nat.id by exact Hq.
  destruct (Z.eqb_spec (n mod c) 0) as [E | E]; cbn [List.length Z.of_nat];
    Z.div_mod_to_equations; nia.
Qed.

Lemma chunk_plan_sum : sum_Z (chunk_plan n c) = n.
Proof.
  unfold chunk_plan. rewrite sum_Z_app, sum_Z_repeat.
  assert (Hq : 0 <= n / c) by (Z.div_mod_to_equations; nia).
  rewrite Z2Nat.id by exact Hq.
  destruct (Z.eqb_spec (n mod c) 0) as [E | E]; unfold sum_Z; cbn [fold_right];
    Z.div_mod_to_equations; nia.
Qed.

Lemma chunk_plan_full k :
  (S k < List.length (chunk_plan n c))%nat -> nth k (chunk_plan n c) 0 = c.
Proof.
  unfold chunk_plan. rewrite length_app, repeat_length. intros H.
  assert (Hk : (k < Z.to_nat (n / c))%nat).
  { destruct (n mod c =? 0); cbn [List.length] in H; lia. }
  rewrite app_nth1 by (rewrite repeat_length; exact Hk).
  apply nth_repeat_lt; exact Hk.
Qed.

Lemma chunk_plan_last :
  0 < n ->
  last (chunk_plan n c) 0 = if n mod c =? 0 then c else n mod c.
Proof.
  intros Hn. unfold chunk_plan.
  destruct (Z.eqb_spec (n mod c) 0) as [E | E].
  - rewrite app_nil_r.
    assert (Hq : exists m, Z.to_nat (n / c) = S m).
    { exists (Nat.pred (Z.to_nat (n / c))).
      assert (0 < n / c) by (Z.div_mod_to_equations; nia). lia. }
    destruct Hq as [m ->]. rewrite <- repeat_snoc. apply last_last.
  - apply last_last.
Qed.

(** The size of chunk number [k] of the plan. *)
Definition cur (k : Z) : Z := if k <? n / c then c else n mod c.

(** Line 262, for the pass with index [i]. *)
Definition num_pulses_at (i : Z) : Z :=
  let chunk_count := ceil_div n c in
  let remainder := n mod c in
  let last_chunk_size := if remainder =? 0 then c else remainder in
  let chunks_filled := floor_div i c in
  let remaining_chunks := chunk_count - chunks_filled in
  if remaining_chunks =? 1 then last_chunk_size else c.

(** What the log shows once [i] frames have been taken. *)
Definition sizes_at (i : Z) : list Z :=
  if i =? n then chunk_plan n c else repeat c (Z.to_nat (i / c)).

Definition fill_at (i : Z) : Z := if i =? n then 0 else i mod c.

Definition pulses_at (i : Z) : list Z :=
  if i =? n then chunk_plan n c
  else repeat c (Z.to_nat (i / c))
         ++ (if i mod c =? 0 then [] else [cur (i / c)]).

Lemma num_pulses_cur i :
  0 <= i < n -> i mod c = 0 -> num_pulses_at i = cur (i / c).
Proof.
  intros Hi Hm. unfold num_pulses_at, cur, ceil_div, floor_div.
  destruct (Z.eqb_spec (- (- n / c) - i / c) 1) as [E | E];
    destruct (Z.ltb_spec (i / c) (n / c)) as [L | L];
    destruct (Z.eqb_spec (n mod c) 0) as [R | R];
    try reflexivity; exfalso; Z.div_mod_to_equations; nia.
Qed.

Lemma to_nat_succ z : 0 <= z -> Z.to_nat (z + 1) = S (Z.to_nat z).
Proof. intros H. lia. Qed.

Lemma after_boundary i :
  0 <= i < n ->
  (i mod c + 1 =? c) || (i =? n - 1) = true ->
  sizes_at (i + 1) = repeat c (Z.to_nat (i / c)) ++ [i mod c + 1] /\
  fill_at (i + 1) = 0 /\
  pulses_at (i + 1) = repeat c (Z.to_nat (i / c)) ++ [cur (i / c)].
Proof.
  intros Hi Hb. unfold sizes_at, fill_at, pulses_at, chunk_plan, cur.
  apply orb_true_iff in Hb.
  assert (Hq : 0 <= i / c) by (Z.div_mod_to_equations; nia).
  destruct (Z.eqb_spec (i + 1) n) as [En | En].
  - (* the tile's last frame *)
    destruct (Z.eqb_spec (n mod c) 0) as [R | R].
    + assert (E1 : n / c = i / c + 1) by (Z.div_mod_to_equations; nia).
      assert (E2 : i mod c + 1 = c) by (Z.div_mod_to_equations; nia).
      rewrite E1, to_nat_succ, <- repeat_snoc, app_nil_r, E2 by exact Hq.
      destruct (Z.ltb_spec (i / c) (i / c + 1)); [auto | lia].
    + assert (E1 : n / c = i / c) by (Z.div_mod_to_equations; nia).
      assert (E2 : n mod c = i mod c + 1) by (Z.div_mod_to_equations; nia).
      rewrite E1, E2.
      destruct (Z.ltb_spec (i / c) (i / c)); [lia | auto].
  - (* a full chunk inside the tile *)
    assert (E2 : i mod c + 1 = c).
    { destruct Hb as [Hb | Hb]; [apply Z.eqb_eq in Hb; exact Hb |].
      apply Z.eqb_eq in Hb. lia. }
    assert (E1 : (i + 1) / c = i / c + 1) by (Z.div_mod_to_equations; nia).
    assert (E3 : (i + 1) mod c = 0) by (Z.div_mod_to_equations; nia).
    rewrite E1, E3, to_nat_succ, <- repeat_snoc, E2 by exact Hq. cbn [Z.eqb].
    rewrite app_nil_r.
    destruct (Z.ltb_spec (i / c) (n / c)); [auto |].
    exfalso. Z.div_mod_to_equations; nia.
Qed.

Lemma inside_chunk i :
  0 <= i < n ->
  (i mod c + 1 =? c) || (i =? n - 1) = false ->
  sizes_at (i + 1) = repeat c (Z.to_nat (i / c)) /\
  fill_at (i + 1) = i mod c + 1 /\
  pulses_at (i + 1) = repeat c (Z.to_nat (i / c)) ++ [cur (i / c)].
Proof.
  intros Hi Hb. unfold sizes_at, fill_at, pulses_at.
  apply orb_false_iff in Hb. destruct Hb as [Hb1 Hb2].
  apply Z.eqb_neq in Hb1, Hb2.
  destruct (Z.eqb_spec (i + 1) n) as [En | En]; [lia |].
  assert (E1 : (i + 1) / c = i / c) by (Z.div_mod_to_equations; nia).
  assert (E3 : (i + 1) mod c = i mod c + 1) by (Z.div_mod_to_equations; nia).
  rewrite E1, E3.
  destruct (Z.eqb_spec (i mod c + 1) 0) as [Z0 | Z0];
    [exfalso; Z.div_mod_to_equations; nia | auto].
Qed.

Lemma pulses_started i :
  0 <= i < n ->
  pulses_at i ++ (if i mod c =? 0 then [num_pulses_at i] else [])
    = repeat c (Z.to_nat (i / c)) ++ [cur (i / c)].
Proof.
  intros Hi. unfold pulses_at.
  destruct (Z.eqb_spec i n) as [En | En]; [lia |].
  destruct (Z.eqb_spec (i mod c) 0) as [R | R].
  - rewrite app_nil_r, num_pulses_cur; auto.
  - rewrite app_nil_r. reflexivity.
Qed.

End ChunkArithmetic.

Lemma mem_In x names : mem x names = true <-> In x names.
Proof.
  unfold mem. rewrite existsb_exists. split.
  - intros [y [Hin Hy]]. apply String.eqb_eq in Hy. subst. exact Hin.
  - intros Hin. exists x. split; [exact Hin | apply String.eqb_refl].
Qed.

Lemma mem_snoc_same x names : mem x (names ++ [x]) = true.
Proof. apply mem_In, in_or_app. right. left. reflexivity. Qed.

Lemma mem_snoc_other x y names : y <> x -> mem x (names ++ [y]) = mem x names.
Proof.
  intros H. unfold mem. rewrite existsb_app. cbn.
  destruct (String.eqb_spec x y); [congruence |].
  now rewrite !orb_false_r.
Qed.

Lemma chunk_sizes_snoc wn l x :
  chunk_sizes wn (l ++ [x])
  = chunk_sizes wn l
    ++ match fst x with
       | ToggleBuffers w' =>
           if String.eqb w' wn then [filled (img_buffers (snd x) wn)] else []
       | _ => []
       end.
Proof. unfold chunk_sizes. rewrite flat_map_app. cbn. now rewrite app_nil_r. Qed.

Lemma pulse_counts_snoc l x :
  pulse_counts (l ++ [x])
  = pulse_counts l
    ++ match fst x with CfgImplicitTiming _ n => [n] | _ => [] end.
Proof. unfold pulse_counts. rewrite flat_map_app. cbn. now rewrite app_nil_r. Qed.

Lemma env_burst_stop s b :
  stop_engine s = true -> stop_engine (env_burst s b) = true.
Proof.
  revert s. unfold env_burst.
  induction b as [| a b IH]; intros s H; cbn; auto.
  apply IH. destruct a; cbn; auto.
Qed.

(** Either a stop has been requested, or the log and the buffers are in
    shape [S]. *)
Definition Prog (S : list (Event * State) -> (string -> DoubleBuffer) -> Prop)
  : World -> Prop :=
  fun w => stop_engine (st w) = true \/ S (log w) (img_buffers (st w)).

Definition whatever (w : World) : Prop := True.

Lemma prog_atomic {A} S (S' : A -> list (Event * State) -> (string -> DoubleBuffer) -> Prop)
  e eff (rd : State -> A) :
  (forall s, stop_engine (eff s) = stop_engine s) ->
  (forall l s, S l (img_buffers s) -> stop_engine s = false ->
     S' (rd s) (l ++ [(e, s)]) (img_buffers (eff s))) ->
  triple (Prog S) (atomic e eff rd) (fun a => Prog (S' a)) whatever.
Proof.
  intros Hstop Hstep. apply triple_atomic; [| intros; exact Logic.I].
  intros w b rest Hw _. unfold Prog; cbn.
  destruct (stop_engine (env_burst (st w) b)) eqn:E.
  - left. rewrite Hstop. exact E.
  - right. apply Hstep; auto. rewrite env_burst_img_buffers.
    destruct Hw as [Hw | Hw]; [| exact Hw].
    apply (env_burst_stop _ b) in Hw. congruence.
Qed.

Lemma prog_mono (S S' : list (Event * State) -> (string -> DoubleBuffer) -> Prop) w :
  (forall l bufs, S l bufs -> S' l bufs) -> Prog S w -> Prog S' w.
Proof. intros H [Hw | Hw]; [left | right]; auto. Qed.

Lemma prog_weaken {A} (S S0 : list (Event * State) -> (string -> DoubleBuffer) -> Prop)
  (m : M A) (S' S0' : A -> list (Event * State) -> (string -> DoubleBuffer) -> Prop) :
  triple (Prog S0) m (fun a => Prog (S0' a)) whatever ->
  (forall l bufs, S l bufs -> S0 l bufs) ->
  (forall a l bufs, S0' a l bufs -> S' a l bufs) ->
  triple (Prog S) m (fun a => Prog (S' a)) whatever.
Proof.
  intros H H1 H2. eapply triple_conseq; [exact H | | | auto].
  - intros w [Hw | Hw]; [left | right]; auto.
  - intros a w [Hw | Hw]; [left | right]; auto.
Qed.

Lemma triple_bind_ret {A B} P (a : A) (k : A -> M B) Q X :
  triple P (k a) Q X -> triple P (bind (ret a) k) Q X.
Proof. intros H w Hw. exact (H w Hw). Qed.

Section ChunksDispatched.

Variable the_writers : dict Writer.
Variable the_daqs : dict Daq.
Variables n c : Z.
Hypothesis c_pos : 0 < c.
Hypothesis n_nonneg : 0 <= n.
Hypothesis writers_nodup : NoDup (keys the_writers).

(** One pulse count per DAQ for every chunk. *)
Definition spread (sizes : list Z) : list Z :=
  flat_map (fun size => repeat size (List.length the_daqs)) sizes.

(** On the writers in [dom]: the chunks handed over so far, the frames in
    the write half; and the pulse counts programmed so far. *)
Definition Shape (dom : list string) (sz : string -> list Z) (fl : string -> Z)
  (p : list Z) (l : list (Event * State)) (bufs : string -> DoubleBuffer) : Prop :=
  (forall wn, In wn dom ->
     chunk_sizes wn l = sz wn /\ filled (bufs wn) = fl wn) /\
  pulse_counts l = p.

Definition neutral (e : Event) : Prop :=
  match e with
  | ToggleBuffers _ | CfgImplicitTiming _ _ => False
  | _ => True
  end.

Lemma shape_neutral dom sz fl p l bufs e s :
  neutral e -> Shape dom sz fl p l bufs -> Shape dom sz fl p (l ++ [(e, s)]) bufs.
Proof.
  intros He [H1 H2]. split.
  - intros wn Hin. rewrite chunk_sizes_snoc. cbn.
    destruct e; try contradiction; rewrite app_nil_r; auto.
  - rewrite pulse_counts_snoc. cbn.
    destruct e; try contradiction; rewrite app_nil_r; auto.
Qed.

Lemma shape_ext dom sz fl p sz' fl' p' l bufs :
  (forall wn, In wn dom -> sz wn = sz' wn /\ fl wn = fl' wn) ->
  p = p' ->
  Shape dom sz fl p l bufs -> Shape dom sz' fl' p' l bufs.
Proof.
  intros H -> [H1 H2]. split; auto.
  intros wn Hin. destruct (H wn Hin) as [<- <-]. auto.
Qed.

(** A primitive that neither toggles nor programs pulses, and leaves the
    buffers alone. *)
Lemma prog_neutral {A} dom sz fl p e eff (rd : State -> A) :
  neutral e ->
  (forall s, stop_engine (eff s) = stop_engine s) ->
  (forall s, img_buffers (eff s) = img_buffers s) ->
  triple (Prog (Shape dom sz fl p)) (atomic e eff rd)
    (fun _ => Prog (Shape dom sz fl p)) whatever.
Proof.
  intros He Hs Hb. apply prog_atomic; auto.
  intros l s H _. rewrite Hb. apply shape_neutral; auto.
Qed.

Ltac prog_prim :=
  intros;
  lazymatch goal with
  | |- whatever _ => exact Logic.I
  | H : plain_call ?e = true |- triple _ (call ?e) _ _ =>
      apply prog_neutral;
      [ destruct e; try discriminate H; exact Logic.I
      | reflexivity | reflexivity ]
  | |- triple _ _ _ _ =>
      apply prog_neutral; [ exact Logic.I | reflexivity | reflexivity ]
  end.

Lemma shape_start_pulses dom sz fl p num :
  triple (Prog (Shape dom sz fl p)) (start_pulses the_daqs num)
    (fun _ => Prog (Shape dom sz fl (p ++ repeat num (List.length the_daqs))))
    whatever.
Proof.
  unfold start_pulses.
  apply triple_conseq with
    (P' := Prog (Shape dom sz fl (p ++ repeat num (List.length (@nil (string * Daq))))))
    (Q' := fun _ => Prog (Shape dom sz fl (p ++ repeat num (List.length the_daqs))))
    (X' := whatever); auto.
  2:{ intros w Hw. cbn. rewrite app_nil_r. exact Hw. }
  apply (triple_for_each
           (fun done => Prog (Shape dom sz fl (p ++ repeat num (List.length done))))
           whatever).
  intros done [d daq] rest E.
  eapply triple_bind with
    (R := fun _ => Prog (Shape dom sz fl (p ++ repeat num (List.length (done ++ [(d, daq)]))))).
  - destruct (co_task daq); [| apply triple_raise; intros; exact Logic.I].
    apply prog_atomic; [reflexivity |].
    intros l s [H1 H2] _. split.
    + intros wn Hin. rewrite chunk_sizes_snoc. cbn. rewrite app_nil_r. auto.
    + rewrite pulse_counts_snoc. cbn. rewrite H2, length_app. cbn.
      rewrite Nat.add_1_r, <- repeat_snoc, app_assoc. reflexivity.
  - intros ?. apply keeps_for_each. intros [d' daq'] _.
    apply keeps_start_tasks; prog_prim.
Qed.

Lemma shape_add_images dom sz f p frame :
  dom = keys the_writers ->
  triple (Prog (Shape dom sz (fun _ => f) p))
    (for_each the_writers (fun '(writer_name, _) => add_image writer_name frame))
    (fun _ => Prog (Shape dom sz (fun _ => f + 1) p)) whatever.
Proof.
  intros ->.
  set (fl := fun (done : dict Writer) wn => if mem wn (keys done) then f + 1 else f).
  apply triple_conseq with
    (P' := Prog (Shape (keys the_writers) sz (fl []) p))
    (Q' := fun _ => Prog (Shape (keys the_writers) sz (fl the_writers) p))
    (X' := whatever); auto.
  2:{ intros ? w. apply prog_mono. intros l bufs. apply shape_ext; auto.
      intros wn Hin. unfold fl. apply mem_In in Hin. rewrite Hin. auto. }
  apply (triple_for_each
           (fun done => Prog (Shape (keys the_writers) sz (fl done) p)) whatever).
  intros done [wn wr] rest E.
  assert (Hfresh : mem wn (keys done) = false).
  { destruct (mem wn (keys done)) eqn:Hm; [| reflexivity].
    apply mem_In in Hm. exfalso.
    unfold keys in writers_nodup. rewrite E, map_app in writers_nodup.
    cbn in writers_nodup. apply NoDup_remove_2 in writers_nodup.
    apply writers_nodup, in_or_app. left. exact Hm. }
  unfold add_image.
  eapply triple_bind with
    (R := fun ok => Prog (fun l bufs =>
            ok = true -> Shape (keys the_writers) sz (fl (done ++ [(wn, wr)])) p l bufs)).
  - apply prog_atomic.
    + intros s. destruct (_ <? _); reflexivity.
    + intros l s [H1 H2] _ Hok. rewrite Hok. cbn. split.
      * intros wn' Hin. rewrite chunk_sizes_snoc. cbn. rewrite app_nil_r.
        destruct (H1 wn' Hin) as [Hsz Hfl]. split; [exact Hsz |].
        unfold fl, keys in *. rewrite map_app. cbn [map fst].
        destruct (String.eqb_spec wn wn') as [<- | Hne].
        -- rewrite upd_same, mem_snoc_same. cbn. rewrite Hfl, Hfresh.
           reflexivity.
        -- rewrite upd_other, mem_snoc_other by auto. exact Hfl.
      * rewrite pulse_counts_snoc. cbn. rewrite app_nil_r. exact H2.
  - intros [|]; [| apply triple_raise; intros; exact Logic.I].
    apply triple_ret. intros w [Hw | Hw]; [left | right]; auto.
Qed.

Lemma shape_dispatch_chunk sz f p :
  triple (Prog (Shape (keys the_writers) sz (fun _ => f) p))
    (dispatch_chunk the_daqs the_writers)
    (fun _ => Prog (Shape (keys the_writers) (fun wn => sz wn ++ [f]) (fun _ => 0) p))
    whatever.
Proof.
  unfold dispatch_chunk.
  eapply triple_bind with
    (R := fun _ => Prog (Shape (keys the_writers) sz (fun _ => f) p)).
  { apply keeps_for_each. intros [d ?] _. prog_prim. }
  intros ?. eapply triple_bind with
    (R := fun _ => Prog (Shape (keys the_writers) sz (fun _ => f) p)).
  { destruct (leaked_writer the_writers);
      [| apply triple_raise; intros; exact Logic.I].
    apply triple_with_fuel. intros k. apply keeps_wait_done_reading; prog_prim. }
  intros ?.
  set (szd := fun (done : dict Writer) wn =>
                if mem wn (keys done) then sz wn ++ [f] else sz wn).
  set (fld := fun (done : dict Writer) wn => if mem wn (keys done) then 0 else f).
  apply triple_conseq with
    (P' := Prog (Shape (keys the_writers) (szd []) (fld []) p))
    (Q' := fun _ => Prog (Shape (keys the_writers) (szd the_writers) (fld the_writers) p))
    (X' := whatever); auto.
  2:{ intros ? w. apply prog_mono. intros l bufs. apply shape_ext; auto.
      intros wn Hin. unfold szd, fld. apply mem_In in Hin. rewrite Hin. auto. }
  apply (triple_for_each
           (fun done => Prog (Shape (keys the_writers) (szd done) (fld done) p))
           whatever).
  intros done [wn wr] rest E.
  assert (Hfresh : mem wn (keys done) = false).
  { destruct (mem wn (keys done)) eqn:Hm; [| reflexivity].
    apply mem_In in Hm. exfalso.
    unfold keys in writers_nodup. rewrite E, map_app in writers_nodup.
    cbn in writers_nodup. apply NoDup_remove_2 in writers_nodup.
    apply writers_nodup, in_or_app. left. exact Hm. }
  unfold dispatch_to_writer.
  eapply triple_bind; [prog_prim | intros ?].
  eapply triple_bind with
    (R := fun _ => Prog (Shape (keys the_writers) (szd (done ++ [(wn, wr)]))
                           (fld (done ++ [(wn, wr)])) p)).
  { apply prog_atomic; [reflexivity |].
    intros l s [H1 H2] _. split.
    - intros wn' Hin. rewrite chunk_sizes_snoc. cbn.
      destruct (H1 wn' Hin) as [Hsz Hfl].
      unfold szd, fld, keys in *. rewrite map_app. cbn [map fst].
      destruct (String.eqb_spec wn wn') as [<- | Hne].
      + rewrite upd_same, mem_snoc_same. cbn. rewrite Hsz, Hfl, Hfresh. auto.
      + rewrite upd_other, mem_snoc_other, app_nil_r by auto. auto.
    - rewrite pulse_counts_snoc. cbn. rewrite app_nil_r. exact H2. }
  intros half. eapply triple_bind; [| intros ?; prog_prim].
  destruct (path wr); [| apply triple_ret; auto].
  eapply triple_bind; [prog_prim | intros ?; prog_prim].
Qed.

(** While the writers are set up nothing is toggled and no pulse count is
    programmed; the buffers of the writers in [done] are empty. *)
Definition Setup (done : list string) (l : list (Event * State))
  (bufs : string -> DoubleBuffer) : Prop :=
  (forall wn, chunk_sizes wn l = []) /\
  pulse_counts l = [] /\
  (forall wn, In wn done -> filled (bufs wn) = 0).

Lemma setup_neutral {A} done e eff (rd : State -> A) :
  neutral e ->
  (forall s, stop_engine (eff s) = stop_engine s) ->
  (forall s, img_buffers (eff s) = img_buffers s) ->
  triple (Prog (Setup done)) (atomic e eff rd) (fun _ => Prog (Setup done))
    whatever.
Proof.
  intros He Hs Hb. apply prog_atomic; auto.
  intros l s (H1 & H2 & H3) _. rewrite Hb. split; [| split; auto].
  - intros wn. rewrite chunk_sizes_snoc, H1. cbn.
    destruct e; try contradiction; reflexivity.
  - rewrite pulse_counts_snoc, H2. cbn.
    destruct e; try contradiction; reflexivity.
Qed.

Lemma setup_one_writer tile filename camera done wn wr :
  triple (Prog (Setup done)) (setup_writer tile filename camera wn wr)
    (fun _ => Prog (Setup (done ++ [wn]))) whatever.
Proof.
  unfold setup_writer.
  repeat (eapply triple_bind;
          [first [ apply setup_neutral; [exact Logic.I | reflexivity | reflexivity]
                 | apply keeps_getitem; intros; exact Logic.I ]
          | intros ? ]).
  apply prog_atomic; [reflexivity |].
  intros l s (H1 & H2 & H3) _. split; [| split].
  - intros wn'. rewrite chunk_sizes_snoc, H1. reflexivity.
  - rewrite pulse_counts_snoc, H2. reflexivity.
  - intros wn' Hin. cbn. apply in_app_or in Hin.
    destruct (String.eqb_spec wn wn') as [<- | Hne].
    + rewrite upd_same. reflexivity.
    + rewrite upd_other by auto. destruct Hin as [Hin | [Hin | []]]; [auto | congruence].
Qed.

(** The shape once [i] frames have been taken. *)
Definition At (i : Z) : list (Event * State) -> (string -> DoubleBuffer) -> Prop :=
  Shape (keys the_writers) (fun _ => sizes_at n c i) (fun _ => fill_at n c i)
    (spread (pulses_at n c i)).

Lemma setup_all_writers tile filename camera :
  triple (fun w => log w = [])
    (for_each the_writers (fun '(writer_name, writer) =>
       setup_writer tile filename camera writer_name writer))
    (fun _ => Prog (At 0)) whatever.
Proof.
  apply triple_conseq with
    (P' := Prog (Setup (keys (@nil (string * Writer)))))
    (Q' := fun _ => Prog (Setup (keys the_writers)))
    (X' := whatever); auto.
  - apply (triple_for_each (fun done => Prog (Setup (keys done))) whatever).
    intros done [wn wr] rest E. unfold keys. rewrite map_app.
    apply setup_one_writer.
  - intros w Hw. right. rewrite Hw. repeat split. intros wn [].
  - intros ? w. apply prog_mono. intros l bufs (H1 & H2 & H3).
    unfold At, sizes_at, fill_at, pulses_at, chunk_plan.
    destruct (Z.eqb_spec 0 n) as [<- | Hn]; cbn; (split; [| exact H2]);
      intros wn Hin; auto.
Qed.

Lemma at_inside i :
  0 <= i < n ->
  sizes_at n c i = repeat c (Z.to_nat (i / c)) /\ fill_at n c i = i mod c.
Proof.
  intros Hi. unfold sizes_at, fill_at.
  destruct (Z.eqb_spec i n); [lia | auto].
Qed.

Lemma spread_app l1 l2 : spread (l1 ++ l2) = spread l1 ++ spread l2.
Proof. unfold spread. apply flat_map_app. Qed.

Lemma spread_one x : spread [x] = repeat x (List.length the_daqs).
Proof. unfold spread. cbn. apply app_nil_r. Qed.

Lemma shape_capture_frame tile processes i :
  steps tile = n ->
  0 <= i < n ->
  triple (Prog (At i))
    (capture_frame the_daqs c tile the_writers processes i)
    (fun _ => Prog (At (i + 1))) whatever.
Proof.
  intros Hn Hi. unfold capture_frame. rewrite Hn. cbv zeta.
  destruct (at_inside i Hi) as [Hsz Hfl].
  pose proof (pulses_started n c c_pos i Hi) as Hp.
  eapply triple_bind with
    (R := fun _ => Prog (Shape (keys the_writers) (fun _ => sizes_at n c i)
                           (fun _ => fill_at n c i)
                           (spread (repeat c (Z.to_nat (i / c)) ++ [cur n c (i / c)])))).
  { destruct (i mod c =? 0).
    - eapply triple_conseq;
        [apply (shape_start_pulses (keys the_writers) (fun _ => sizes_at n c i)
                  (fun _ => fill_at n c i) (spread (pulses_at n c i))
                  (num_pulses_at n c i))
        | auto | | auto].
      intros ? w. cbv beta. apply prog_mono. intros l bufs. apply shape_ext; auto.
      rewrite <- Hp, spread_app, spread_one. reflexivity.
    - apply triple_ret. intros w. cbv beta. apply prog_mono. intros l bufs.
      apply shape_ext; auto. rewrite <- Hp, app_nil_r. reflexivity. }
  intros ?. eapply triple_bind; [prog_prim | intros ?].
  eapply triple_bind; [prog_prim | intros ?].
  eapply triple_bind; [apply shape_add_images; reflexivity | intros ?].
  eapply triple_bind with (R := fun _ => Prog (At (i + 1))).
  { destruct ((i mod c + 1 =? c) || (i =? n - 1)) eqn:B.
    - destruct (after_boundary n c c_pos n_nonneg i Hi B) as (E1 & E2 & E3).
      eapply triple_conseq;
        [apply (shape_dispatch_chunk (fun _ => sizes_at n c i) (fill_at n c i + 1)
                  (spread (repeat c (Z.to_nat (i / c)) ++ [cur n c (i / c)])))
        | auto | | auto].
      intros ? w. cbv beta. apply prog_mono. intros l bufs. unfold At.
      apply shape_ext; [| rewrite E3; reflexivity].
      intros wn _. rewrite E1, E2, Hsz, Hfl. auto.
    - destruct (inside_chunk n c c_pos i Hi B) as (E1 & E2 & E3).
      apply triple_ret. intros w. cbv beta. apply prog_mono. intros l bufs. unfold At.
      apply shape_ext; [| rewrite E3; reflexivity].
      intros wn _. rewrite E1, E2, Hsz, Hfl. auto. }
  intros ?. apply keeps_feed_processes; prog_prim.
Qed.

Lemma shape_capture_loop tile processes m i :
  steps tile = n ->
  0 <= i ->
  i + Z.of_nat m = n ->
  triple (Prog (At i))
    (capture_loop the_daqs c tile the_writers processes m i)
    (fun _ => Prog (At n)) whatever.
Proof.
  intros Hn. revert i. induction m as [| m IH]; intros i Hi Hm;
    cbn [capture_loop].
  - assert (i = n) by lia. subst i. apply triple_ret. auto.
  - eapply triple_bind with
      (R := fun stop => Prog (fun l bufs => stop = false /\ At i l bufs)).
    { apply prog_atomic; [reflexivity |].
      intros l s H Hs. split; [exact Hs |].
      apply shape_neutral; [exact Logic.I | exact H]. }
    intros [|].
    + apply triple_ret. intros w [Hw | [Hw _]]; [left; exact Hw | discriminate].
    + eapply triple_bind with (R := fun _ => Prog (At (i + 1))).
      * eapply triple_conseq;
          [apply (shape_capture_frame tile processes i Hn); lia | | auto | auto].
        intros w. cbv beta. apply prog_mono. intros l bufs [_ H]. exact H.
      * intros ?. apply IH; lia.
Qed.

Lemma shape_engine self tile filename camera processes :
  self_chunk_count_px self = Some c ->
  daqs (instrument self) = the_daqs ->
  steps tile = n ->
  triple (fun w => log w = [])
    (engine self tile filename camera the_writers processes)
    (fun _ => Prog (At n)) whatever.
Proof.
  intros Hc Hd Hn. unfold engine.
  eapply triple_bind; [apply setup_all_writers | intros ?].
  eapply triple_bind with (R := fun _ => Prog (At 0)).
  { apply keeps_for_each. intros [pn ?] _. apply keeps_setup_process; prog_prim. }
  intros ?. eapply triple_bind with (R := fun _ => Prog (At 0)).
  { apply keeps_start_devices; prog_prim. }
  intros ?. rewrite Hc, Hd, Hn. unfold divisor.
  destruct (Z.eqb_spec c 0) as [E | E]; [lia |].
  apply triple_bind_ret.
  eapply triple_bind; [apply (shape_capture_loop tile processes); auto; lia |].
  intros ?. apply keeps_finish; prog_prim.
Qed.

End ChunksDispatched.

(** C1.  When the capture loop of a tile returns and the stop flag is still
    unset (so it never was set), then for every writer the chunks handed
    over, counted by the frames in the write half at each toggle, are
    exactly the plan: [ceil(steps / chunk_count_px)] chunks whose sizes sum
    to [steps], every chunk but the last of [chunk_count_px] frames and the
    last of [steps mod chunk_count_px] frames, or [chunk_count_px] when that
    is zero; and the pulse counts programmed, one per DAQ and chunk, are the
    sizes of the chunks in order.  The chunk size is positive, the frame
    count is not negative, and the writers' names are the keys of a
    dictionary. *)
Theorem chunks_and_pulses
  self tile filename camera writers processes w c :
  self_chunk_count_px self = Some c ->
  0 < c ->
  0 <= steps tile ->
  NoDup (keys writers) ->
  log w = [] ->
  let r := engine self tile filename camera writers processes w in
  fst r = Ret tt ->
  stop_engine (st (snd r)) = false ->
  let plan := chunk_plan (steps tile) c in
  (forall writer_name, In writer_name (keys writers) ->
     chunk_sizes writer_name (log (snd r)) = plan) /\
  pulse_counts (log (snd r))
    = flat_map (fun size => repeat size (List.length (daqs (instrument self)))) plan /\
  Z.of_nat (List.length plan) = ceil_div (steps tile) c /\
  sum_Z plan = steps tile /\
  (forall k, (S k < List.length plan)%nat -> nth k plan 0 = c) /\
  (0 < steps tile ->
   last plan 0 = if steps tile mod c =? 0 then c else steps tile mod c).
Proof.
  intros Hc Hpos Hn Hnd Hlog r Hret Hstop plan.
  pose proof (shape_engine writers (daqs (instrument self)) (steps tile) c
                Hpos Hn Hnd self tile filename camera processes
                Hc eq_refl eq_refl w Hlog) as H.
  fold r in H. rewrite Hret in H.
  destruct H as [H | [H1 H2]]; [congruence |].
  unfold sizes_at, pulses_at in *. rewrite Z.eqb_refl in *.
  split; [intros wn Hin; apply (H1 wn Hin) |].
  split; [exact H2 |].
  split; [apply chunk_plan_length; assumption |].
  split; [apply chunk_plan_sum; assumption |].
  split; [intros k Hk; apply chunk_plan_full; assumption |].
  intros Hn'. apply chunk_plan_last; assumption.
Qed.

Lemma chunks_and_pulses_witness :
  let r := engine (Bench.session Bench.one_daq 4 10) (Bench.tile_of 10)
             "tile_0_ch_488_camera_cam0" Bench.camera0
             [("w", Bench.writer_of 4)] []
             (Bench.world Bench.quiet_state (repeat (Bench.prompt ["w"] []) 200)) in
  fst r = Ret tt /\
  stop_engine (st (snd r)) = false /\
  chunk_sizes "w" (log (snd r)) = [4; 4; 2] /\
  pulse_counts (log (snd r)) = [4; 4; 2].
Proof.
  intros r.
  assert (H1 : fst r = Ret tt) by (vm_compute; reflexivity).
  assert (H2 : stop_engine (st (snd r)) = false) by (vm_compute; reflexivity).
  assert (Hnd : NoDup (keys [("w", Bench.writer_of 4)])).
  { constructor; [intros [] | constructor]. }
  assert (Hn : 0 <= steps (Bench.tile_of 10)) by (cbn; lia).
  destruct (chunks_and_pulses
              (Bench.session Bench.one_daq 4 10) (Bench.tile_of 10)
              "tile_0_ch_488_camera_cam0" Bench.camera0
              [("w", Bench.writer_of 4)] []
              (Bench.world Bench.quiet_state (repeat (Bench.prompt ["w"] []) 200))
              4 eq_refl eq_refl Hn Hnd eq_refl H1 H2) as (Hs & Hp & _).
  split; [exact H1 |]. split; [exact H2 |].
  split; [exact (Hs "w" (or_introl eq_refl)) | exact Hp].
Defined.

(* ===================================================================== *)
(** ** Validation of the chunk size at start-up *)
(* ===================================================================== *)

(** Every writer of every device, in the order the loops meet them. *)
Definition all_writers (ws : dict (dict Writer)) : list Writer :=
  flat_map (fun device => map snd (snd device)) ws.

(** A session: the object is built, and if that succeeds it is run. *)
Definition session (pluralize : string -> string) (base : option exn)
  (i : Instrument) (ts : list Tile) (ws : dict (dict Writer))
  (ps : option (dict (dict Process))) (rs xs : option (dict (list string)))
  : M unit :=
  match init base i ts ws ps rs xs with
  | Ret self => run pluralize self
  | Raise e => raise e
  | Stalled => stalled
  end.

Definition agreed (chunk_size : option Z) (l : list Writer) (r : option Z) : Prop :=
  (forall w, In w l -> r = Some (chunk_count_px w)) /\
  (forall size, chunk_size = Some size -> r = Some size) /\
  (chunk_size = None -> l = [] -> r = None).

Lemma verify_writers_ret chunk_size ws r :
  verify_writers chunk_size ws = Ret r -> agreed chunk_size (map snd ws) r.
Proof.
  revert chunk_size. induction ws as [| [name w] ws IH]; intros chunk_size H;
    cbn in H.
  - injection H as <-. repeat split; auto. intros w [].
  - destruct chunk_size as [size |].
    + destruct (Z.eqb_spec (chunk_count_px w) size) as [E | E]; cbn in H;
        [| discriminate].
      destruct (IH _ H) as (H1 & H2 & H3). repeat split.
      * intros w' Hin. cbn in Hin. destruct Hin as [<- | Hin];
          [rewrite E; auto | auto].
      * intros size' [= <-]. auto.
      * discriminate.
    + destruct (IH _ H) as (H1 & H2 & H3). repeat split.
      * intros w' Hin. cbn in Hin. destruct Hin as [<- | Hin]; auto.
      * discriminate.
      * discriminate.
Qed.

Lemma verify_writers_total chunk_size ws : verify_writers chunk_size ws <> Stalled.
Proof.
  revert chunk_size. induction ws as [| [name w] ws IH]; intros chunk_size;
    cbn; [discriminate |].
  destruct chunk_size as [size |]; [| apply IH].
  destruct (negb _); [discriminate | apply IH].
Qed.

Lemma agreed_app chunk_size l1 r1 l2 r2 :
  agreed chunk_size l1 r1 -> agreed r1 l2 r2 -> agreed chunk_size (l1 ++ l2) r2.
Proof.
  intros (A1 & A2 & A3) (B1 & B2 & B3). repeat split.
  - intros w Hin. apply in_app_or in Hin. destruct Hin as [Hin | Hin]; auto.
  - intros size E. apply B2, A2, E.
  - intros E Hl. apply app_eq_nil in Hl. destruct Hl as [-> ->]. auto.
Qed.

Lemma verify_devices_ret chunk_size ws r :
  verify_devices chunk_size ws = Ret r -> agreed chunk_size (all_writers ws) r.
Proof.
  revert chunk_size. induction ws as [| [name device] ws IH]; intros chunk_size H;
    cbn in H.
  - injection H as <-. repeat split; auto. intros w [].
  - destruct (verify_writers chunk_size device) as [r1 | e |] eqn:E;
      try discriminate.
    unfold all_writers. cbn [flat_map snd].
    apply (agreed_app _ _ r1); [apply verify_writers_ret, E | apply IH, H].
Qed.

Lemma verify_devices_total chunk_size ws : verify_devices chunk_size ws <> Stalled.
Proof.
  revert chunk_size. induction ws as [| [name device] ws IH]; intros chunk_size;
    cbn; [discriminate |].
  destruct (verify_writers chunk_size device) eqn:E;
    [apply IH | discriminate | exfalso; exact (verify_writers_total _ _ E)].
Qed.

Lemma verify_writers_same size ws :
  (forall w, In w (map snd ws) -> chunk_count_px w = size) ->
  forall chunk_size, chunk_size = None \/ chunk_size = Some size ->
    verify_writers chunk_size ws
    = Ret (match ws with [] => chunk_size | _ => Some size end).
Proof.
  induction ws as [| [name w] ws IH]; intros Hall chunk_size Hc; cbn;
    [reflexivity |].
  assert (Hw : chunk_count_px w = size) by (apply Hall; left; reflexivity).
  assert (Hrest : forall w', In w' (map snd ws) -> chunk_count_px w' = size).
  { intros w' Hin. apply Hall. right. exact Hin. }
  destruct Hc as [-> | ->].
  - rewrite Hw, (IH Hrest (Some size)) by auto. destruct ws; reflexivity.
  - rewrite Hw, Z.eqb_refl. cbn. rewrite (IH Hrest (Some size)) by auto.
    destruct ws; reflexivity.
Qed.

Lemma verify_devices_same size ws :
  (forall w, In w (all_writers ws) -> chunk_count_px w = size) ->
  forall chunk_size, chunk_size = None \/ chunk_size = Some size ->
    verify_devices chunk_size ws
    = Ret (match all_writers ws with [] => chunk_size | _ => Some size end).
Proof.
  induction ws as [| [name device] ws IH]; intros Hall chunk_size Hc; cbn;
    [reflexivity |].
  unfold all_writers in Hall. cbn [flat_map snd] in Hall.
  rewrite (verify_writers_same size device) by
    (auto; intros w Hin; apply Hall, in_or_app; left; exact Hin).
  assert (Hrest : forall w, In w (all_writers ws) -> chunk_count_px w = size).
  { intros w Hin. apply Hall, in_or_app. right. exact Hin. }
  fold (all_writers ws).
  destruct device as [| [n0 w0] device]; cbn [map app].
  - apply IH; auto.
  - rewrite (IH Hrest (Some size)) by auto. destruct (all_writers ws); reflexivity.
Qed.

(** C4.  If two writers, of whatever cameras, have different
    [chunk_count_px], validation raises, no session object comes to exist
    and a session ends with that error in the world it started in: nothing
    was logged, no stage moved, no trigger task touched.  If there are
    writers, all with one [chunk_count_px], and the base class's check
    passes, validation succeeds and that value is the session's chunk
    size. *)
Theorem chunk_size_validated base ws :
  (forall w1 w2,
     In w1 (all_writers ws) -> In w2 (all_writers ws) ->
     chunk_count_px w1 <> chunk_count_px w2 ->
     exists e,
       _verify_acquisition base ws = Raise e /\
       forall pluralize i ts ps rs xs world,
         session pluralize base i ts ws ps rs xs world = (Raise e, world)) /\
  (forall size,
     base = None ->
     all_writers ws <> [] ->
     (forall w, In w (all_writers ws) -> chunk_count_px w = size) ->
     _verify_acquisition base ws = Ret (Some size) /\
     forall i ts ps rs xs,
       exists self,
         init base i ts ws ps rs xs = Ret self /\
         self_chunk_count_px self = Some size).
Proof.
  split.
  - intros w1 w2 H1 H2 Hne.
    assert (H : exists e, _verify_acquisition base ws = Raise e).
    { unfold _verify_acquisition. destruct base as [e |]; [eauto |].
      destruct (verify_devices None ws) as [r | e |] eqn:E.
      - apply verify_devices_ret in E. destruct E as (A & _).
        pose proof (A _ H1) as E1. pose proof (A _ H2) as E2. congruence.
      - eauto.
      - exfalso. exact (verify_devices_total _ _ E). }
    destruct H as [e He]. exists e. split; [exact He |].
    intros pluralize i ts ps rs xs world. unfold session, init.
    rewrite He. reflexivity.
  - intros size -> Hne Hall.
    assert (H : _verify_acquisition None ws = Ret (Some size)).
    { unfold _verify_acquisition.
      rewrite (verify_devices_same size ws Hall None) by auto.
      destruct (all_writers ws); [contradiction | reflexivity]. }
    split; [exact H |].
    intros i ts ps rs xs. unfold init. rewrite H. eexists. split; reflexivity.
Qed.

Lemma chunk_size_validated_witness :
  let w8 := Bench.writer_of 8 in
  let w16 := Bench.writer_of 16 in
  (exists e,
     _verify_acquisition None [("cam0", [("a", w8); ("b", w8)]); ("cam1", [("c", w16)])]
       = Raise e) /\
  _verify_acquisition None [("cam0", [("a", w8)]); ("cam1", [("b", w8)])]
    = Ret (Some 8).
Proof.
  intros w8 w16. split.
  - destruct (proj1 (chunk_size_validated None
                       [("cam0", [("a", w8); ("b", w8)]); ("cam1", [("c", w16)])])
                w8 w16) as [e [He _]].
    + left. reflexivity.
    + right. right. left. reflexivity.
    + cbn. lia.
    + exists e. exact He.
  - apply (proj2 (chunk_size_validated None
                    [("cam0", [("a", w8)]); ("cam1", [("b", w8)])]) 8).
    + reflexivity.
    + discriminate.
    + intros w [<- | [<- | []]]; reflexivity.
Defined.

(* ===================================================================== *)
(** ** Stopping an acquisition *)
(* ===================================================================== *)

Lemma env_burst_threads s b :
  acquisition_threads (env_burst s b) = acquisition_threads s.
Proof.
  revert s. unfold env_burst.
  induction b as [| a b IH]; intros s; cbn; auto.
  rewrite IH. destruct a; reflexivity.
Qed.

(** Joining threads that were all started: every one is joined, in order,
    unless the schedule ends first. *)
Lemma join_threads_run (ths : dict ThreadStatus) w :
  (forall id status, In (id, status) ths -> status <> Created) ->
  stop_engine (st w) = true ->
  let r := for_each ths (fun '(camera_id, status) => join_thread camera_id status) w in
  match fst r with
  | Ret _ =>
      map fst (log (snd r)) = map fst (log w) ++ map ThreadJoin (keys ths) /\
      stop_engine (st (snd r)) = true
  | Raise _ => False
  | Stalled => (List.length (sched w) < List.length ths)%nat
  end.
Proof.
  revert w. induction ths as [| [id status] ths IH]; intros w Hst Hstop.
  - cbn. rewrite app_nil_r. auto.
  - cbn [for_each]. unfold bind.
    assert (Hs : status <> Created) by (apply (Hst id); left; reflexivity).
    assert (Hj : join_thread id status
                 = act (ThreadJoin id) (set_thread id Finished)).
    { destruct status; [contradiction | reflexivity | reflexivity]. }
    rewrite Hj. unfold act, atomic.
    destruct (sched w) as [| b rest] eqn:E.
    + cbn. lia.
    + cbn [fst snd].
      set (w' := {| st := set_thread id Finished (env_burst (st w) b);
                    sched := rest;
                    log := log w ++ [(ThreadJoin id, env_burst (st w) b)] |}).
      specialize (IH w').
      assert (Hst' : forall id' status', In (id', status') ths -> status' <> Created).
      { intros id' status' Hin. apply (Hst id'). right. exact Hin. }
      assert (Hstop' : stop_engine (st w') = true).
      { cbn. apply env_burst_stop, Hstop. }
      specialize (IH Hst' Hstop'). cbv zeta in IH.
      destruct (for_each ths _ w') as [[[] | e |] w'']; cbn [fst snd] in *.
      * destruct IH as [IH1 IH2]. split; [| exact IH2].
        rewrite IH1. unfold w'. cbn [log]. rewrite map_app, <- app_assoc.
        reflexivity.
      * exact IH.
      * unfold w' in IH. cbn [sched] in IH. cbn. lia.
Qed.

(** C8, as amended.  When every thread in [self.acquisition_threads] has
    been started,
    [stop_acquisition] sets the stop flag and then joins every one of them,
    in order, before control goes back to the caller, which it does by
    raising [RuntimeError]; it gets that far whenever the schedule gives it
    a turn for the flag and for each join. *)
Theorem stop_joins_every_thread w :
  (forall id status,
     In (id, status) (acquisition_threads (st w)) -> status <> Created) ->
  let r := stop_acquisition w in
  (fst r = Raise RuntimeError \/ fst r = Stalled) /\
  ((List.length (acquisition_threads (st w)) < List.length (sched w))%nat ->
   fst r = Raise RuntimeError) /\
  (fst r = Raise RuntimeError ->
   map fst (log (snd r))
     = map fst (log w)
         ++ StopEngineSet :: map ThreadJoin (keys (acquisition_threads (st w))) /\
   stop_engine (st (snd r)) = true).
Proof.
  intros Hst r. unfold stop_acquisition, bind, act, atomic, gets, raise in r.
  destruct (sched w) as [| b rest] eqn:E.
  - subst r. cbn. split; [right; reflexivity |].
    split; [intros H; cbn in H; lia | discriminate].
  - cbn [fst snd st] in r.
    set (w' := {| st := set_stop_engine true (env_burst (st w) b);
                  sched := rest;
                  log := log w ++ [(StopEngineSet, env_burst (st w) b)] |}) in r.
    assert (Eths : acquisition_threads (set_stop_engine true (env_burst (st w) b))
                   = acquisition_threads (st w)).
    { cbn. apply env_burst_threads. }
    pose proof (join_threads_run (acquisition_threads (st w)) w' Hst eq_refl) as H.
    cbv zeta in H. subst r. rewrite Eths.
    destruct (for_each (acquisition_threads (st w)) _ w') as [[[] | e |] w''];
      cbn [fst snd] in *.
    + destruct H as [H1 H2].
      split; [left; reflexivity |]. split; [reflexivity |].
      intros _. split; [| exact H2].
      rewrite H1. unfold w'. cbn [log]. rewrite map_app, <- app_assoc.
      reflexivity.
    + contradiction.
    + split; [right; reflexivity |].
      split; [| discriminate].
      unfold w' in H. cbn [sched] in H. cbn [List.length]. lia.
Qed.

Lemma stop_joins_every_thread_witness :
  let s := set_acquisition_threads [("cam0", Started); ("cam1", Finished)]
             Bench.quiet_state in
  let r := stop_acquisition (Bench.world s (repeat [] 3)) in
  fst r = Raise RuntimeError /\
  map fst (log (snd r)) = [StopEngineSet; ThreadJoin "cam0"; ThreadJoin "cam1"].
Proof.
  intros s r.
  assert (Hst : forall id status,
            In (id, status) (acquisition_threads (st (Bench.world s (repeat [] 3)))) ->
            status <> Created).
  { intros id status [H | [H | []]]; injection H as _ <-; discriminate. }
  destruct (stop_joins_every_thread (Bench.world s (repeat [] 3)) Hst)
    as (_ & H2 & H3).
  assert (Hr : fst r = Raise RuntimeError) by (apply H2; cbn; lia).
  split; [exact Hr |]. exact (proj1 (H3 Hr)).
Defined.

(** The claim as the specification words it: when [stop_acquisition] gives
    control back to its caller, every capture thread registered in
    [self.acquisition_threads] has been joined. *)
Definition joined_before_return (w : World) : Prop :=
  let r := stop_acquisition w in
  fst r <> Stalled ->
  forall camera_id,
    In camera_id (keys (acquisition_threads (st w))) ->
    In (ThreadJoin camera_id) (map fst (log (snd r))).

(** [run] has created the threads of two cameras (line 155) and started the
    first one only (line 160) when the stop is requested. *)
Definition second_thread_not_started : World :=
  Bench.world
    (set_acquisition_threads [("cam0", Started); ("cam1", Created)]
       Bench.quiet_state)
    (repeat [] 5).

(** C8, as stated, fails: joining the thread that was not started raises,
    and control goes back to the caller with that thread not joined. *)
Lemma stop_returns_with_thread_not_joined :
  ~ joined_before_return second_thread_not_started.
Proof.
  intros H.
  assert (Hr : fst (stop_acquisition second_thread_not_started) <> Stalled)
    by (vm_compute; discriminate).
  specialize (H Hr "cam1" (or_intror (or_introl eq_refl))).
  vm_compute in H. destruct H as [H | [H | []]]; discriminate H.
Qed.

(* ===================================================================== *)
(** ** A tile shorter than a chunk *)
(* ===================================================================== *)

Lemma run_tiles_app pluralize self l1 l2 filenames w :
  run_tiles pluralize self filenames (l1 ++ l2) w
  = bind (run_tiles pluralize self filenames l1)
      (fun filenames' => run_tiles pluralize self filenames' l2) w.
Proof.
  revert filenames w. induction l1 as [| tile l1 IH]; intros filenames w.
  - reflexivity.
  - cbn [app run_tiles]. unfold bind.
    destruct (run_tile pluralize self filenames tile w) as [[fs | e |] w'];
      [rewrite IH; reflexivity | reflexivity | reflexivity].
Qed.

Lemma check_writers_short tile size (device : dict Writer) w :
  (forall x, In x (map snd device) -> chunk_count_px x = size) ->
  steps tile < size ->
  for_each device (fun '(_, writer) =>
    if steps tile <? chunk_count_px writer
    then raise (ValueError (too_short (steps tile) (chunk_count_px writer)))
    else ret tt) w
  = match device with
    | [] => (Ret tt, w)
    | _ => (Raise (ValueError (too_short (steps tile) size)), w)
    end.
Proof.
  intros Hall Hlt. destruct device as [| [name x] device]; [reflexivity |].
  cbn [for_each]. unfold bind.
  rewrite (Hall x) by (left; reflexivity).
  destruct (Z.ltb_spec (steps tile) size); [reflexivity | lia].
Qed.

Lemma check_scan_length_short self tile size w :
  (forall x, In x (all_writers (writers self)) -> chunk_count_px x = size) ->
  all_writers (writers self) <> [] ->
  steps tile < size ->
  check_scan_length self tile w
  = (Raise (ValueError (too_short (steps tile) size)), w).
Proof.
  unfold check_scan_length. generalize (writers self) as ws.
  induction ws as [| [name device] ws IH]; intros Hall Hne Hlt;
    [contradiction |].
  cbn [for_each]. unfold bind.
  unfold all_writers in Hall, Hne. cbn [flat_map snd] in Hall, Hne.
  rewrite (check_writers_short tile size device) by
    (auto; intros x Hin; apply Hall, in_or_app; left; exact Hin).
  destruct device as [| [n0 x0] device]; [| reflexivity].
  apply IH; auto.
Qed.

(** C3.  In a session built by [__init__] with session chunk size [c], take
    a scan plan with a tile of fewer than [c] frames.  The run is what
    processing the tiles before it is, and if that comes to its end the run
    raises the error for this tile in the very world those tiles left: for
    the short tile no thread is created, no DAQ armed, no stage moved,
    nothing is logged.  When the short tile is the first of the plan the run
    fails at once in the world it started in. *)
Theorem short_tile_rejected
  pluralize base i ts ws ps rs xs self c before tile after w :
  init base i ts ws ps rs xs = Ret self ->
  self_chunk_count_px self = Some c ->
  ts = before ++ tile :: after ->
  steps tile < c ->
  let r0 := run_tiles pluralize self [] before w in
  run pluralize self w
  = (match fst r0 with
     | Ret _ => Raise (ValueError (too_short (steps tile) c))
     | Raise e => Raise e
     | Stalled => Stalled
     end, snd r0).
Proof.
  intros Hinit Hc Hts Hlt r0. subst r0. unfold init in Hinit.
  destruct (_verify_acquisition base ws) as [r | e |] eqn:Hv; try discriminate.
  assert (E : self = {| instrument := i; tiles := ts; writers := ws;
                        processes := ps; routines := rs; transfers := xs;
                        self_chunk_count_px := r |}) by congruence.
  assert (Hw : writers self = ws) by (rewrite E; reflexivity).
  assert (Ht : tiles self = ts) by (rewrite E; reflexivity).
  assert (Hr : r = Some c) by (rewrite E in Hc; exact Hc).
  clear E Hinit. subst r.
  unfold _verify_acquisition in Hv. destruct base as [e |]; [discriminate |].
  apply verify_devices_ret in Hv. destruct Hv as (A1 & _ & A3).
  assert (Hall : forall x, In x (all_writers (writers self)) -> chunk_count_px x = c).
  { rewrite Hw. intros x Hin. specialize (A1 x Hin). congruence. }
  assert (Hne : all_writers (writers self) <> []).
  { rewrite Hw. intros E. specialize (A3 eq_refl E). discriminate. }
  unfold run. rewrite Ht, Hts. unfold bind at 1.
  rewrite run_tiles_app. unfold bind at 1.
  destruct (run_tiles pluralize self [] before w) as [[fs | e |] w'];
    cbn [fst snd]; try reflexivity.
  cbn [run_tiles]. unfold bind at 1. unfold run_tile. unfold bind at 1.
  rewrite (check_scan_length_short self tile c) by assumption.
  reflexivity.
Qed.

Lemma short_tile_rejected_witness :
  let pluralize := fun s => (s ++ "s")%string in
  let ws := [("cam0", [("w", Bench.writer_of 4)])] in
  let self := {| instrument := Bench.one_daq;
                 tiles := [Bench.tile_of 10; Bench.tile_of 1];
                 writers := ws; processes := None; routines := None;
                 transfers := None; self_chunk_count_px := Some 4 |} in
  let w := Bench.world Bench.quiet_state (repeat [] 100) in
  let r0 := run_tiles pluralize self [] [Bench.tile_of 10] w in
  fst r0 = Ret [("cam0", "tile_0_ch_488_camera_cam0")] /\
  run pluralize self w = (Raise (ValueError (too_short 1 4)), snd r0).
Proof.
  intros pluralize ws self w r0.
  assert (H0 : fst r0 = Ret [("cam0", "tile_0_ch_488_camera_cam0")])
    by (vm_compute; reflexivity).
  split; [exact H0 |].
  pose proof (short_tile_rejected pluralize None Bench.one_daq
                [Bench.tile_of 10; Bench.tile_of 1] ws None None None
                self 4 [Bench.tile_of 10] (Bench.tile_of 1) [] w
                eq_refl eq_refl eq_refl eq_refl) as H.
  cbv zeta in H. fold r0 in H. rewrite H0 in H. exact H.
Defined.

(* ===================================================================== *)
(** ** Invariants of [run], block by block *)
(* ===================================================================== *)

Lemma triple_gets {A} (P : World -> Prop) (f : State -> A)
  (Q : A -> World -> Prop) (X : World -> Prop) :
  (forall w, P w -> Q (f (st w)) w) -> triple P (gets f) Q X.
Proof. intros H w Hw. cbn. auto. Qed.

Lemma triple_modify (P : World -> Prop) (f : State -> State)
  (Q : unit -> World -> Prop) (X : World -> Prop) :
  (forall w, P w ->
     Q tt {| st := f (st w); sched := sched w; log := log w |}) ->
  triple P (modify f) Q X.
Proof. intros H w Hw. cbn. auto. Qed.

Lemma keeps_gets {A} (I X : World -> Prop) (f : State -> A) :
  triple I (gets f) (fun _ => I) X.
Proof. apply triple_gets. auto. Qed.

Definition plain_obj (o : obj) : bool :=
  match o with
  | DeviceObj _ | RoutineObj _ _ => true
  | _ => false
  end.

(** Walks through a block: sequences, loops over dictionaries, branches and
    look-ups; [prim] settles the primitives. *)
Ltac keeps_go prim :=
  cbv beta iota;
  lazymatch goal with
  | |- triple _ (bind _ _) _ _ =>
      eapply triple_bind; [ keeps_go prim | intros ?; keeps_go prim ]
  | |- triple _ (for_each _ _) _ _ =>
      apply keeps_for_each; intros ? _; keeps_go prim
  | |- triple _ (ret _) _ _ => apply keeps_ret
  | |- triple _ (raise _) _ _ => apply keeps_raise; prim
  | |- triple _ (getitem _ _) _ _ => apply keeps_getitem; prim
  | |- triple _ (gets _) _ _ => apply keeps_gets
  | |- triple _ (match ?x with _ => _ end) _ _ => destruct x; keeps_go prim
  | |- _ => prim
  end.

(** Walks through a block of the program for an invariant that each of its
    actions keeps: sequences, loops over dictionaries, polling loops,
    branches and look-ups; [prim] settles the single actions and the passage
    from the invariant to what holds after an exception. *)
Ltac walk prim :=
  cbv beta iota;
  lazymatch goal with
  | IH : triple ?P ?m _ _ |- triple ?P ?m _ _ => exact IH
  | |- triple _ (bind _ _) _ _ =>
      eapply triple_bind; [ walk prim | intros ?; walk prim ]
  | |- triple _ (for_each _ _) _ _ =>
      apply keeps_for_each; intros ? _; walk prim
  | |- triple _ (ret _) _ _ => apply keeps_ret
  | |- triple _ (raise _) _ _ => apply keeps_raise; prim
  | |- triple _ stalled _ _ => apply triple_stalled; prim
  | |- triple _ (getitem _ _) _ _ => apply keeps_getitem; prim
  | |- triple _ (gets _) _ _ => apply keeps_gets
  | |- triple ?P (with_fuel _) _ ?X =>
      refine (triple_with_fuel P _ (fun _ => P) X _);
      let n := fresh "fuel" in
      intros n; induction n;
      cbn [wait_done_reading wait_new_image wait_axis]; walk prim
  | |- triple _ (match ?x with _ => _ end) _ _ => destruct x; walk prim
  | |- _ => prim
  end.

Section RunInvariant.

Variable I : World -> Prop.
Variable X : World -> Prop.
Hypothesis I_X : forall w, I w -> X w.

#[local] Abbreviation keeps m := (triple I m (fun _ => I) X).

Hypothesis I_call : forall e, run_call e = true -> keeps (call e).
Hypothesis I_setattr : forall o a v, plain_obj o = true -> keeps (setattr o a v).
Hypothesis I_move :
  forall id position,
    keeps (act (MoveAbsolute id position) (set_axis_moving id true)).
Hypothesis I_is_moving :
  forall id, keeps (observe (IsAxisMoving id) (fun s => axis_moving s id)).
Hypothesis I_thread_create :
  forall id, keeps (act (ThreadCreate id) (set_thread id Created)).
Hypothesis I_thread_start :
  forall id, keeps (act (ThreadStart id) (set_thread id Started)).
Hypothesis I_thread_join :
  forall id, keeps (act (ThreadJoin id) (set_thread id Finished)).
Hypothesis I_daq_stop : forall d, keeps (stop_daq d).

Ltac run_prim :=
  first [ exact I_X
        | apply I_call; reflexivity
        | apply I_setattr; reflexivity
        | apply I_move | apply I_is_moving | apply I_thread_create
        | apply I_thread_start | apply I_thread_join | apply I_daq_stop ].

Lemma keeps_wait_axis fuel tile id stage : keeps (wait_axis fuel tile id stage).
Proof.
  induction fuel as [| fuel IH]; cbn [wait_axis].
  - apply triple_stalled. exact I_X.
  - eapply triple_bind; [apply I_is_moving |].
    intros [|]; [| apply keeps_ret].
    eapply triple_bind; [apply keeps_getitem; exact I_X | intros ?].
    eapply triple_bind; [apply I_call; reflexivity | intros ?; exact IH].
Qed.

Lemma keeps_position_stages i tile : keeps (position_stages i tile).
Proof.
  unfold position_stages, move_stage.
  eapply triple_bind; [keeps_go run_prim | intros ?].
  eapply triple_bind; [| intros ?; keeps_go run_prim].
  apply keeps_for_each. intros [id stage] _.
  apply triple_with_fuel. intros fuel. apply keeps_wait_axis.
Qed.

Lemma keeps_device_object i device_type device_name :
  keeps (device_object i device_type device_name).
Proof. unfold device_object. keeps_go run_prim. Qed.

Lemma keeps_setup_channel i tile : keeps (setup_channel i tile).
Proof.
  unfold setup_channel.
  eapply triple_bind; [apply keeps_getitem; exact I_X | intros channel_devices].
  apply keeps_for_each. intros [device_type names] _.
  apply keeps_for_each. intros device_name _.
  eapply triple_bind; [apply keeps_device_object | intros ?].
  keeps_go run_prim.
Qed.

Lemma keeps_arm_daqs self tile : keeps (arm_daqs self tile).
Proof. unfold arm_daqs. keeps_go run_prim. Qed.

Lemma keeps_start_routines pluralize self filenames :
  keeps (start_routines pluralize self filenames).
Proof.
  unfold start_routines.
  apply keeps_for_each. intros [device_name names] _.
  eapply triple_bind; [apply keeps_getitem; exact I_X | intros device_type].
  apply keeps_for_each. intros routine_name _.
  eapply triple_bind; [apply keeps_device_object | intros ?].
  keeps_go run_prim.
Qed.

Lemma keeps_create_threads self filenames : keeps (create_threads self filenames).
Proof. unfold create_threads. keeps_go run_prim. Qed.

Lemma keeps_run_threads : keeps run_threads.
Proof. unfold run_threads, start_thread, join_thread. keeps_go run_prim. Qed.

Lemma keeps_check_scan_length self tile : keeps (check_scan_length self tile).
Proof. unfold check_scan_length. keeps_go run_prim. Qed.

Hypothesis I_modify : forall f, keeps (modify f).
Hypothesis I_transfer_is_alive :
  forall d t,
    keeps (observe (TransferIsAlive d t) (fun s => transfer_alive s d t)).
Hypothesis I_transfer_wait :
  forall d t,
    keeps (act (TransferWaitUntilFinished d t) (set_transfer_alive d t false)).
Hypothesis I_transfer_filename :
  forall d t v, keeps (setattr (TransferObj d t) "filename" v).
Hypothesis I_transfer_start :
  forall d t, keeps (act (TransferStart d t) (set_transfer_alive d t true)).

Ltac transfer_prim :=
  first [ exact I_X | apply I_modify | apply I_transfer_is_alive
        | apply I_transfer_wait | apply I_transfer_filename
        | apply I_transfer_start ].

Lemma keeps_wait_for_transfers ts : keeps (wait_for_transfers ts).
Proof. unfold wait_for_transfers, wait_if_alive. keeps_go transfer_prim. Qed.

Lemma keeps_start_transfers self filenames : keeps (start_transfers self filenames).
Proof. unfold start_transfers. keeps_go transfer_prim. Qed.

Lemma keeps_reconcile_transfers self filenames :
  keeps (reconcile_transfers self filenames).
Proof.
  unfold reconcile_transfers.
  eapply triple_bind; [apply keeps_gets | intros outstanding].
  eapply triple_bind; [apply keeps_wait_for_transfers | intros ?].
  eapply triple_bind; [apply I_modify | intros ?].
  apply keeps_start_transfers.
Qed.

Section Compose.

Variable pluralize : string -> string.
Variable self : Acquisition.

Hypothesis B_reconcile :
  forall filenames, keeps (reconcile_transfers self filenames).

Lemma keeps_acquire_tile tile filenames :
  keeps (acquire_tile pluralize self tile filenames).
Proof.
  unfold acquire_tile.
  eapply triple_bind; [apply keeps_position_stages | intros ?].
  eapply triple_bind; [apply keeps_setup_channel | intros ?].
  eapply triple_bind; [apply keeps_arm_daqs | intros ?].
  eapply triple_bind; [apply keeps_start_routines | intros ?].
  eapply triple_bind; [apply keeps_create_threads | intros ?].
  eapply triple_bind; [apply keeps_run_threads | intros ?].
  eapply triple_bind; [keeps_go run_prim | intros ?].
  apply B_reconcile.
Qed.

Lemma keeps_run_tile filenames tile :
  triple I (run_tile pluralize self filenames tile) (fun _ => I) X.
Proof.
  unfold run_tile.
  eapply triple_bind; [apply keeps_check_scan_length | intros ?].
  eapply triple_bind; [apply keeps_acquire_tile | intros ?].
  apply keeps_ret.
Qed.

Lemma keeps_run_tiles ts filenames :
  triple I (run_tiles pluralize self filenames ts) (fun _ => I) X.
Proof.
  revert filenames. induction ts as [| tile ts IH]; intros filenames;
    cbn [run_tiles].
  - apply keeps_ret.
  - eapply triple_bind; [apply keeps_run_tile | intros filenames'; apply IH].
Qed.

End Compose.

End RunInvariant.

(* ===================================================================== *)
(** ** Transfers from tile to tile *)
(* ===================================================================== *)

(** The (device, transfer) pairs of a dictionary of transfers. *)
Definition pairs (ts : dict (list string)) : list (string * string) :=
  flat_map (fun x => map (pair (fst x)) (snd x)) ts.

Lemma pairs_app ts1 ts2 : pairs (ts1 ++ ts2) = pairs ts1 ++ pairs ts2.
Proof. unfold pairs. apply flat_map_app. Qed.

Lemma pairs_keys d t ts : In (d, t) (pairs ts) -> In d (keys ts).
Proof.
  unfold pairs, keys. intros H. apply in_flat_map in H.
  destruct H as [[d' names] [Hin Hp]]. cbn in Hp. apply in_map_iff in Hp.
  destruct Hp as [t' [[= <- <-] _]]. apply (in_map fst _ _ Hin).
Qed.

Definition names_of (tt : dict (list string)) (d : string) : list string :=
  match dict_get tt d with
  | Some l => l
  | None => []
  end.

Lemma pairs_dict_set_grow tt d v p :
  (forall t, In t (names_of tt d) -> In t v) ->
  In p (pairs tt) -> In p (pairs (dict_set tt d v)).
Proof.
  unfold names_of. induction tt as [| [k l] tt IH]; intros Hv Hin; [destruct Hin |].
  cbn [dict_set dict_get] in *. destruct (String.eqb_spec k d) as [-> | Hne].
  - unfold pairs in *. cbn [flat_map fst snd] in *.
    apply in_app_or in Hin. apply in_or_app.
    destruct Hin as [Hin | Hin]; [left | right; exact Hin].
    apply in_map_iff in Hin. destruct Hin as [t [<- Ht]].
    apply in_map, Hv, Ht.
  - unfold pairs in *. cbn [flat_map fst snd] in *.
    apply in_app_or in Hin. apply in_or_app.
    destruct Hin as [Hin | Hin]; [left; exact Hin | right].
    apply IH; auto.
Qed.

Lemma pairs_dict_set_other tt d v d' t' :
  d' <> d -> In (d', t') (pairs tt) -> In (d', t') (pairs (dict_set tt d v)).
Proof.
  intros Hne. induction tt as [| [k l] tt IH]; intros Hin; [destruct Hin |].
  cbn [dict_set]. unfold pairs in *. cbn [flat_map fst snd] in Hin.
  apply in_app_or in Hin.
  destruct (String.eqb_spec k d) as [-> | Hk]; cbn [flat_map fst snd];
    apply in_or_app.
  - destruct Hin as [Hin | Hin]; [| right; exact Hin].
    apply in_map_iff in Hin. destruct Hin as [t [[= E _] _]]. congruence.
  - destruct Hin as [Hin | Hin]; [left; exact Hin | right; apply IH, Hin].
Qed.

Lemma pairs_dict_set_in tt d v t :
  In t v -> In (d, t) (pairs (dict_set tt d v)).
Proof.
  intros Hv. induction tt as [| [k l] tt IH]; cbn [dict_set].
  - unfold pairs. cbn. apply in_or_app. left. apply in_map, Hv.
  - destruct (String.eqb_spec k d) as [-> | Hk]; unfold pairs in *;
      cbn [flat_map fst snd]; apply in_or_app.
    + left. apply in_map, Hv.
    + right. exact IH.
Qed.

Lemma env_step_alive s a d t :
  transfer_alive (env_step s a) d t = true -> transfer_alive s d t = true.
Proof.
  destruct a; cbn; auto. unfold upd2.
  destruct (_ && _); [discriminate | auto].
Qed.

Lemma env_step_transfer_threads s a :
  transfer_threads (env_step s a) = transfer_threads s.
Proof. destruct a; reflexivity. Qed.

Definition ok_start (x : Event * State) : Prop :=
  match fst x with
  | TransferStart d t => transfer_alive (snd x) d t = false
  | _ => True
  end.

(** Every transfer that is alive is in [self.transfer_threads]. *)
Definition Tracked (s : State) : Prop :=
  forall d t, transfer_alive s d t = true -> In (d, t) (pairs (transfer_threads s)).

(** Every transfer that is alive is among [L]. *)
Definition AliveAmong (L : list (string * string)) (s : State) : Prop :=
  forall d t, transfer_alive s d t = true -> In (d, t) L.

(** None of [L] is alive. *)
Definition Checked (L : list (string * string)) (s : State) : Prop :=
  forall d t, In (d, t) L -> transfer_alive s d t = false.

Lemma stable_Tracked : stable Tracked.
Proof.
  intros s a H d t Ha. rewrite env_step_transfer_threads.
  apply H, (env_step_alive _ a), Ha.
Qed.

Lemma stable_AliveAmong L : stable (AliveAmong L).
Proof. intros s a H d t Ha. apply H, (env_step_alive _ a), Ha. Qed.

Lemma stable_Checked L : stable (Checked L).
Proof.
  intros s a H d t Hin. specialize (H d t Hin).
  destruct (transfer_alive (env_step s a) d t) eqn:E; [| reflexivity].
  apply env_step_alive in E. congruence.
Qed.

Lemma stable_and (J1 J2 : State -> Prop) :
  stable J1 -> stable J2 -> stable (fun s => J1 s /\ J2 s).
Proof. intros H1 H2 s a [A B]. split; auto. Qed.

Lemma inv_modify ok (J J' : State -> Prop) f :
  (forall s, J s -> J' (f s)) ->
  triple (Inv ok J) (modify f) (fun _ => Inv ok J') (Safe ok).
Proof. intros H. apply triple_modify. intros w [Hl Hs]. split; cbn; auto. Qed.

Lemma inv_gets {A} ok (J : State -> Prop) (f : State -> A) (J' : A -> State -> Prop) :
  (forall s, J s -> J' (f s) s) ->
  triple (Inv ok J) (gets f) (fun a => Inv ok (J' a)) (Safe ok).
Proof. intros H. apply triple_gets. intros w [Hl Hs]. split; auto. Qed.

Lemma alive_after_finish s d t d' t' :
  transfer_alive (set_transfer_alive d t false s) d' t' = true ->
  transfer_alive s d' t' = true.
Proof. cbn. unfold upd2. destruct (_ && _); [discriminate | auto]. Qed.

Section Reconcile.

(** What the wait leaves alone. *)
Variable F : State -> Prop.
Hypothesis F_stable : stable F.
Hypothesis F_finish : forall s d t, F s -> F (set_transfer_alive d t false s).

Lemma wait_if_alive_checked L d t :
  triple (Inv ok_start (fun s => F s /\ Checked L s))
    (wait_if_alive d t)
    (fun _ => Inv ok_start (fun s => F s /\ Checked (L ++ [(d, t)]) s))
    (Safe ok_start).
Proof.
  unfold wait_if_alive. eapply triple_bind.
  - apply (hoare_atomic ok_start _ _ _ _
             (fun alive s => (F s /\ Checked L s) /\
                             (alive = false -> transfer_alive s d t = false))).
    + apply stable_and; [exact F_stable | apply stable_Checked].
    + intros s Hs. split; [exact Logic.I | split; auto].
  - intros [|].
    + apply hoare_atomic.
      * intros s a [[H1 H2] H3]. split; [split |].
        -- apply F_stable, H1.
        -- apply stable_Checked, H2.
        -- discriminate.
      * intros s [[H1 H2] _]. split; [exact Logic.I |]. split; [apply F_finish, H1 |].
        intros d' t' Hin. apply in_app_or in Hin.
        destruct (transfer_alive (set_transfer_alive d t false s) d' t') eqn:E;
          [| reflexivity].
        destruct Hin as [Hin | [[= <- <-] | []]].
        -- apply alive_after_finish in E. rewrite (H2 _ _ Hin) in E. discriminate.
        -- cbn in E. unfold upd2 in E. rewrite !String.eqb_refl in E. discriminate.
    + apply triple_ret. intros w [Hl [[H1 H2] H3]]. split; [exact Hl |].
      split; [exact H1 |]. intros d' t' Hin. apply in_app_or in Hin.
      destruct Hin as [Hin | [[= <- <-] | []]]; auto.
Qed.

Lemma wait_for_transfers_checked ts :
  triple (Inv ok_start F) (wait_for_transfers ts)
    (fun _ => Inv ok_start (fun s => F s /\ Checked (pairs ts) s))
    (Safe ok_start).
Proof.
  unfold wait_for_transfers.
  apply triple_conseq with
    (P' := Inv ok_start (fun s => F s /\ Checked (pairs []) s))
    (Q' := fun _ => Inv ok_start (fun s => F s /\ Checked (pairs ts) s))
    (X' := Safe ok_start); auto.
  2:{ intros w [Hl Hs]. split; auto. split; auto. intros d t []. }
  apply (triple_for_each
           (fun done => Inv ok_start (fun s => F s /\ Checked (pairs done) s))
           (Safe ok_start)).
  intros done [d names] rest E.
  apply triple_conseq with
    (P' := Inv ok_start (fun s => F s /\ Checked (pairs done ++ map (pair d) []) s))
    (Q' := fun _ => Inv ok_start
                      (fun s => F s /\ Checked (pairs done ++ map (pair d) names) s))
    (X' := Safe ok_start); auto.
  - apply (triple_for_each
             (fun dn => Inv ok_start
                (fun s => F s /\ Checked (pairs done ++ map (pair d) dn) s))
             (Safe ok_start)).
    intros dn t rest' E'. rewrite map_app, app_assoc. cbn [map].
    apply wait_if_alive_checked.
  - intros w. cbn [map]. rewrite app_nil_r. auto.
  - intros ? w. rewrite pairs_app. unfold pairs at 3. cbn [flat_map fst snd].
    rewrite app_nil_r. auto.
Qed.

End Reconcile.

Section TransfersOfRun.

Variable self : Acquisition.
Hypothesis devices_nodup : NoDup (keys (or_empty (transfers self))).
Hypothesis names_nodup :
  forall d names, In (d, names) (or_empty (transfers self)) -> NoDup names.

(** Every transfer that is alive is among [L] and is recorded. *)
Definition AliveIn (L : list (string * string)) (s : State) : Prop :=
  forall d t, transfer_alive s d t = true ->
    In (d, t) L /\ In (d, t) (pairs (transfer_threads s)).

Lemma stable_AliveIn L : stable (AliveIn L).
Proof.
  intros s a H d t Ha. rewrite env_step_transfer_threads.
  apply H, (env_step_alive _ a), Ha.
Qed.

Lemma start_one_transfer filenames L d t :
  ~ In (d, t) L ->
  triple (Inv ok_start (AliveIn L))
    (modify (record_transfer d t) ;;
     filename <- getitem filenames d ;;
     setattr (TransferObj d t) "filename" (VStr filename) ;;
     act (TransferStart d t) (set_transfer_alive d t true))
    (fun _ => Inv ok_start (AliveIn (L ++ [(d, t)]))) (Safe ok_start).
Proof.
  intros Hfresh.
  set (J1 := fun s => AliveIn L s /\ In (d, t) (pairs (transfer_threads s))).
  assert (HJ1 : stable J1).
  { intros s a [H1 H2]. split; [apply stable_AliveIn, H1 |].
    rewrite env_step_transfer_threads. exact H2. }
  eapply triple_bind with (R := fun _ => Inv ok_start J1).
  { apply inv_modify. intros s H. split.
    - intros d' t' Ha. destruct (H d' t' Ha) as [H1 H2]. split; [exact H1 |].
      unfold record_transfer. cbn [transfer_threads set_transfer_threads].
      apply pairs_dict_set_grow; [| exact H2].
      fold (names_of (transfer_threads s) d). intros t0 Ht0.
      destruct (mem t _); [exact Ht0 | apply in_or_app; left; exact Ht0].
    - unfold record_transfer. cbn [transfer_threads set_transfer_threads].
      apply pairs_dict_set_in. fold (names_of (transfer_threads s) d).
      destruct (mem t (names_of (transfer_threads s) d)) eqn:Em.
      + apply mem_In, Em.
      + apply in_or_app. right. left. reflexivity. }
  intros ?. eapply triple_bind; [apply hoare_getitem | intros filename].
  eapply triple_bind with (R := fun _ => Inv ok_start J1).
  { apply inv_atomic; auto. intros s' _. exact Logic.I. }
  intros ?. apply hoare_atomic; [exact HJ1 |].
  intros s [H1 H2]. split.
  - unfold ok_start. cbn.
    destruct (transfer_alive s d t) eqn:E; [| reflexivity].
    exfalso. apply Hfresh, (H1 d t E).
  - intros d' t' Ha. cbn in Ha. unfold upd2 in Ha.
    cbn [transfer_threads set_transfer_alive].
    destruct (String.eqb_spec d d') as [Ed | Hd];
      [destruct (String.eqb_spec t t') as [Et | Ht] |]; cbn in Ha.
    + subst d' t'. split; [apply in_or_app; right; left; reflexivity | exact H2].
    + destruct (H1 _ _ Ha) as [A B]. split; [apply in_or_app; left |]; auto.
    + destruct (H1 _ _ Ha) as [A B]. split; [apply in_or_app; left |]; auto.
Qed.

Lemma start_transfers_tracked filenames :
  triple (Inv ok_start (AliveIn [])) (start_transfers self filenames)
    (fun _ => Inv ok_start Tracked) (Safe ok_start).
Proof.
  unfold start_transfers.
  apply triple_conseq with
    (P' := Inv ok_start (AliveIn (pairs [])))
    (Q' := fun _ => Inv ok_start (AliveIn (pairs (or_empty (transfers self)))))
    (X' := Safe ok_start); auto.
  2:{ intros ? w [Hl Hs]. split; auto. intros d t Ha. apply (Hs d t Ha). }
  apply (triple_for_each
           (fun done => Inv ok_start (AliveIn (pairs done))) (Safe ok_start)).
  intros done [d names] rest E.
  assert (Hd : ~ In d (keys done)).
  { unfold keys in devices_nodup. rewrite E, map_app in devices_nodup.
    cbn in devices_nodup. apply NoDup_remove_2 in devices_nodup.
    intros Hin. apply devices_nodup, in_or_app. left. exact Hin. }
  assert (Hn : NoDup names).
  { apply (names_nodup d). rewrite E. apply in_elt. }
  eapply triple_bind with (R := fun _ => Inv ok_start (AliveIn (pairs done))).
  { apply inv_modify. intros s H d' t' Ha. destruct (H d' t' Ha) as [H1 H2].
    split; [exact H1 |]. cbn [transfer_threads set_transfer_threads].
    apply pairs_dict_set_other; [| exact H2].
    intros ->. apply Hd, (pairs_keys _ _ _ H1). }
  intros ?.
  apply triple_conseq with
    (P' := Inv ok_start (AliveIn (pairs done ++ map (pair d) [])))
    (Q' := fun _ => Inv ok_start (AliveIn (pairs done ++ map (pair d) names)))
    (X' := Safe ok_start); auto.
  - apply (triple_for_each
             (fun dn => Inv ok_start (AliveIn (pairs done ++ map (pair d) dn)))
             (Safe ok_start)).
    intros dn t rest' E'. rewrite map_app, app_assoc. cbn [map].
    apply start_one_transfer.
    intros Hin. apply in_app_or in Hin. destruct Hin as [Hin | Hin].
    + apply Hd, (pairs_keys _ _ _ Hin).
    + apply in_map_iff in Hin. destruct Hin as [t0 [[= ->] Hin]].
      rewrite E' in Hn. apply NoDup_remove_2 in Hn.
      apply Hn, in_or_app. left. exact Hin.
  - intros w. cbn [map]. rewrite app_nil_r. auto.
  - intros ? w. rewrite pairs_app. unfold pairs at 3. cbn [flat_map fst snd].
    rewrite app_nil_r. auto.
Qed.

Lemma tracked_reconcile filenames :
  triple (Inv ok_start Tracked) (reconcile_transfers self filenames)
    (fun _ => Inv ok_start Tracked) (Safe ok_start).
Proof.
  unfold reconcile_transfers.
  eapply triple_bind.
  { apply (inv_gets ok_start Tracked transfer_threads
             (fun outstanding => AliveAmong (pairs outstanding))).
    intros s H. exact H. }
  intros outstanding. eapply triple_bind.
  { apply (wait_for_transfers_checked (AliveAmong (pairs outstanding))).
    - apply stable_AliveAmong.
    - intros s d t H d' t' Ha. apply H, (alive_after_finish _ _ _ _ _ Ha). }
  intros ?. eapply triple_bind with (R := fun _ => Inv ok_start (AliveIn [])).
  { apply inv_modify. intros s [H1 H2] d t Ha. exfalso.
    cbn in Ha. rewrite (H2 d t (H1 d t Ha)) in Ha. discriminate. }
  intros ?. apply start_transfers_tracked.
Qed.

Ltac tracked_prim :=
  inv_prim ltac:(unfold ok_start) ltac:(apply stable_Tracked) ltac:(assumption).

Lemma tracked_run pluralize :
  triple (Inv ok_start Tracked) (run pluralize self)
    (fun _ => Inv ok_start
                (fun s => Checked (pairs (or_empty (transfers self))) s))
    (Safe ok_start).
Proof.
  unfold run. eapply triple_bind.
  - apply keeps_run_tiles; try tracked_prim. apply tracked_reconcile.
  - intros ?. eapply triple_conseq;
      [apply (wait_for_transfers_checked Tracked) | auto | | auto].
    + apply stable_Tracked.
    + intros s d t H d' t' Ha. apply H, (alive_after_finish _ _ _ _ _ Ha).
    + intros ? w [Hl [_ Hs]]. split; auto.
Qed.

End TransfersOfRun.

Section TransferNames.

(** The file name a transfer is started with. *)
Variable self : Acquisition.
Variable filenames : dict string.

(** A transfer of a device is started with the [filename] attribute that
    [filenames] holds for the device. *)
Definition ok_named (x : Event * State) : Prop :=
  match fst x with
  | TransferStart d t =>
      exists f, dict_get filenames d = Some f /\
                attrs (snd x) (TransferObj d t) "filename" = VStr f
  | _ => True
  end.

Definition named (d t f : string) (s : State) : Prop :=
  attrs s (TransferObj d t) "filename" = VStr f.

Lemma stable_named d t f : stable (named d t f).
Proof. intros s a H. unfold named. destruct a; exact H. Qed.

Ltac named_prim :=
  inv_prim ltac:(unfold ok_named) ltac:(apply stable_anything)
           ltac:(exact Logic.I).

#[local] Abbreviation Named := (Inv ok_named anything).

Lemma named_start d t :
  triple Named
    (filename <- getitem filenames d ;;
     setattr (TransferObj d t) "filename" (VStr filename) ;;
     act (TransferStart d t) (set_transfer_alive d t true))
    (fun _ => Named) (Safe ok_named).
Proof.
  unfold getitem. destruct (dict_get filenames d) as [f |] eqn:E.
  - apply triple_bind_ret.
    eapply triple_bind with (R := fun _ => Inv ok_named (named d t f)).
    + apply (hoare_atomic ok_named anything _ _ _ (fun _ => named d t f)).
      * apply stable_anything.
      * intros s' _. split; [exact Logic.I |].
        unfold named. cbn. unfold upd_attr. cbn.
        rewrite !String.eqb_refl. reflexivity.
    + intros ?.
      apply (hoare_atomic ok_named (named d t f) _ _ _ (fun _ => anything)).
      * apply stable_named.
      * intros s' Hs. split; [| exact Logic.I].
        exists f. split; [exact E | exact Hs].
  - intros w Hw. cbn. exact (Inv_Safe _ _ _ Hw).
Qed.

Lemma named_start_transfers :
  triple Named (start_transfers self filenames) (fun _ => Named) (Safe ok_named).
Proof.
  unfold start_transfers.
  apply keeps_for_each. intros [d names] _.
  eapply triple_bind; [apply (inv_modify ok_named anything anything); intros; exact Logic.I | intros ?].
  apply keeps_for_each. intros t _.
  eapply triple_bind; [apply (inv_modify ok_named anything anything); intros; exact Logic.I | intros ?].
  apply named_start.
Qed.

Lemma named_reconcile :
  triple Named (reconcile_transfers self filenames) (fun _ => Named)
    (Safe ok_named).
Proof.
  unfold reconcile_transfers.
  eapply triple_bind; [apply keeps_gets | intros outstanding].
  eapply triple_bind; [apply keeps_wait_for_transfers; named_prim | intros ?].
  eapply triple_bind; [apply (inv_modify ok_named anything anything); intros; exact Logic.I | intros ?].
  apply named_start_transfers.
Qed.

Lemma named_acquire_tile pluralize tile :
  triple Named (acquire_tile pluralize self tile filenames) (fun _ => Named)
    (Safe ok_named).
Proof.
  unfold acquire_tile.
  eapply triple_bind; [apply keeps_position_stages; named_prim | intros ?].
  eapply triple_bind; [apply keeps_setup_channel; named_prim | intros ?].
  eapply triple_bind; [apply keeps_arm_daqs; named_prim | intros ?].
  eapply triple_bind; [apply keeps_start_routines; named_prim | intros ?].
  eapply triple_bind; [apply keeps_create_threads; named_prim | intros ?].
  eapply triple_bind; [apply keeps_run_threads; named_prim | intros ?].
  eapply triple_bind.
  { apply keeps_for_each. intros [daq_id ?] _. named_prim. }
  intros ?. apply named_reconcile.
Qed.

End TransferNames.

Lemma named_run_tile pluralize self filenames tile :
  let fs := build_filenames (devices (instrument self)) tile filenames in
  triple (Inv (ok_named fs) anything) (run_tile pluralize self filenames tile)
    (fun _ => Inv (ok_named fs) anything) (Safe (ok_named fs)).
Proof.
  intros fs. unfold run_tile. cbv zeta. fold fs.
  eapply triple_bind.
  { apply keeps_check_scan_length. apply Inv_Safe. }
  intros ?. eapply triple_bind; [apply named_acquire_tile | intros ?].
  apply triple_ret. auto.
Qed.

(** C7.  A transfer is never started while it is still alive: whatever run
    of it a previous tile started has finished, or has been waited for in
    the loop of lines 173-177, before the loop of lines 181-187 starts it
    again for the tile just acquired (all the waits of a tile come before
    all its starts).  When [run] returns, none of the session's transfers is
    alive: those still outstanding after the last tile were waited for.  And
    in the pass over a tile every transfer is started with the file name
    built for its device and that tile.  The transfers form a dictionary (no
    device and no transfer name twice) and none is alive when the run
    begins. *)
Theorem transfers_waited_before_restart pluralize self w :
  NoDup (keys (or_empty (transfers self))) ->
  (forall d names, In (d, names) (or_empty (transfers self)) -> NoDup names) ->
  log w = [] ->
  (forall d t, transfer_alive (st w) d t = false) ->
  let r := run pluralize self w in
  (forall d t s,
     In (TransferStart d t, s) (log (snd r)) -> transfer_alive s d t = false) /\
  (fst r = Ret tt ->
   forall d names t,
     In (d, names) (or_empty (transfers self)) -> In t names ->
     transfer_alive (st (snd r)) d t = false) /\
  (forall filenames tile w0 d t s,
     log w0 = [] ->
     In (TransferStart d t, s)
        (log (snd (run_tile pluralize self filenames tile w0))) ->
     exists f,
       dict_get (build_filenames (devices (instrument self)) tile filenames) d
         = Some f /\
       attrs s (TransferObj d t) "filename" = VStr f).
Proof.
  intros Hd Hn Hlog Hdead r.
  pose proof (tracked_run self Hd Hn pluralize w) as H.
  assert (Hw : Inv ok_start Tracked w).
  { split; [rewrite Hlog; constructor |].
    intros d t Ha. rewrite Hdead in Ha. discriminate. }
  specialize (H Hw). fold r in H.
  split; [| split].
  - intros d t s Hin.
    assert (Hsafe : Safe ok_start (snd r)).
    { destruct (fst r); auto. apply (Inv_Safe _ _ _ H). }
    unfold Safe in Hsafe. rewrite Forall_forall in Hsafe.
    apply (Hsafe _ Hin).
  - intros Hret d names t Hin Ht. rewrite Hret in H. destruct H as [_ H].
    apply H. unfold pairs. apply in_flat_map. exists (d, names).
    split; [exact Hin | cbn; apply in_map, Ht].
  - intros filenames tile w0 d t s Hlog0 Hin.
    pose proof (named_run_tile pluralize self filenames tile w0) as H0.
    cbv zeta in H0.
    assert (Hw0 : Inv (ok_named (build_filenames (devices (instrument self))
                                   tile filenames)) anything w0).
    { split; [rewrite Hlog0; constructor | exact Logic.I]. }
    specialize (H0 Hw0).
    assert (Hsafe : Safe (ok_named (build_filenames (devices (instrument self))
                                      tile filenames))
                      (snd (run_tile pluralize self filenames tile w0))).
    { destruct (fst (run_tile pluralize self filenames tile w0)); auto.
      apply (Inv_Safe _ _ _ H0). }
    unfold Safe in Hsafe. rewrite Forall_forall in Hsafe.
    apply (Hsafe _ Hin).
Qed.

Lemma transfers_waited_before_restart_witness :
  let r := run Bench.pluralize Bench.two_tiles
             (Bench.world Bench.quiet_state (repeat [] 200)) in
  fst r = Ret tt /\
  filter Bench.is_transfer_event (map fst (log (snd r)))
    = [TransferStart "cam0" "robocopy";
       TransferIsAlive "cam0" "robocopy";
       TransferWaitUntilFinished "cam0" "robocopy";
       TransferStart "cam0" "robocopy";
       TransferIsAlive "cam0" "robocopy";
       TransferWaitUntilFinished "cam0" "robocopy"] /\
  (forall d t s,
     In (TransferStart d t, s) (log (snd r)) -> transfer_alive s d t = false) /\
  transfer_alive (st (snd r)) "cam0" "robocopy" = false.
Proof.
  intros r.
  assert (Hret : fst r = Ret tt) by (vm_compute; reflexivity).
  assert (Hd : NoDup (keys (or_empty (transfers Bench.two_tiles)))).
  { constructor; [intros [] | constructor]. }
  assert (Hn : forall d names,
            In (d, names) (or_empty (transfers Bench.two_tiles)) -> NoDup names).
  { intros d names [[= <- <-] | []]. constructor; [intros [] | constructor]. }
  destruct (transfers_waited_before_restart Bench.pluralize Bench.two_tiles
              (Bench.world Bench.quiet_state (repeat [] 200))
              Hd Hn eq_refl (fun _ _ => eq_refl)) as [H1 [H2 _]].
  split; [exact Hret |].
  split; [vm_compute; reflexivity |].
  split; [exact H1 |].
  exact (H2 Hret "cam0" ["robocopy"] "robocopy" (or_introl eq_refl)
           (or_introl eq_refl)).
Defined.

(** The file names the two starts of that run met. *)
Example transfer_started_with_tile_filename :
  let r := run Bench.pluralize Bench.two_tiles
             (Bench.world Bench.quiet_state (repeat [] 200)) in
  map (fun x => attrs (snd x) (TransferObj "cam0" "robocopy") "filename")
    (filter (fun x => match fst x with
                      | TransferStart _ _ => true
                      | _ => false
                      end) (log (snd r)))
  = [VStr "tile_0_ch_488_camera_cam0"; VStr "tile_0_ch_488_camera_cam0"].
Proof. vm_compute. reflexivity. Qed.

(* ===================================================================== *)
(** ** The order of start calls in a trigger cycle *)
(* ===================================================================== *)

Section Scanner.

(** A property of the log that is checked by running a small machine over
    its events. *)
Variable T : Type.
Variable step : T -> Event -> T.
Variable init : T.

Definition scan (l : list (Event * State)) : T :=
  fold_left step (map fst l) init.

Definition Scanned (P : T -> Prop) : World -> Prop := fun w => P (scan (log w)).

Lemma scan_snoc l x : scan (l ++ [x]) = step (scan l) (fst x).
Proof. unfold scan. rewrite map_app, fold_left_app. reflexivity. Qed.

Lemma scanned_atomic {A} (P Q Xp : T -> Prop) e eff (rd : State -> A) :
  (forall t, P t -> Q (step t e)) ->
  (forall t, P t -> Xp t) ->
  triple (Scanned P) (atomic e eff rd) (fun _ => Scanned Q) (Scanned Xp).
Proof.
  intros H HX. apply triple_atomic.
  - intros w b rest Hw _. unfold Scanned in *. cbn [log].
    rewrite scan_snoc. apply H, Hw.
  - intros w Hw. apply HX, Hw.
Qed.

Lemma scanned_exact {A} (Xp : T -> Prop) t0 e eff (rd : State -> A) :
  Xp t0 ->
  triple (Scanned (eq t0)) (atomic e eff rd)
    (fun _ => Scanned (eq (step t0 e))) (Scanned Xp).
Proof.
  intros HX. apply scanned_atomic.
  - intros t <-. reflexivity.
  - intros t <-. exact HX.
Qed.

Lemma scanned_same {A} (Xp : T -> Prop) t0 e eff (rd : State -> A) :
  step t0 e = t0 -> Xp t0 ->
  triple (Scanned (eq t0)) (atomic e eff rd)
    (fun _ => Scanned (eq t0)) (Scanned Xp).
Proof.
  intros E HX. apply scanned_atomic.
  - intros t <-. symmetry. exact E.
  - intros t <-. exact HX.
Qed.

Lemma scanned_modify (P Xp : T -> Prop) f :
  triple (Scanned P) (modify f) (fun _ => Scanned P) (Scanned Xp).
Proof. apply triple_modify. intros w Hw. exact Hw. Qed.

End Scanner.

Arguments scan {T} step init l.
Arguments Scanned {T} step init P w.
Arguments scan_snoc {T} step init l x.
Arguments scanned_atomic {T} step init {A} P Q Xp e eff rd.
Arguments scanned_exact {T} step init {A} Xp t0 e eff rd.
Arguments scanned_same {T} step init {A} Xp t0 e eff rd.
Arguments scanned_modify {T} step init P Xp f.

Definition task_eqb (a b : string * TaskKind) : bool :=
  String.eqb (fst a) (fst b) &&
  match snd a, snd b with
  | AO, AO | DO, DO | CO, CO => true
  | _, _ => false
  end.

Definition started_in (started : list (string * TaskKind))
  (t : string * TaskKind) : bool :=
  existsb (task_eqb t) started.

(** The waveform tasks of the instrument: the analog and digital output
    tasks its DAQs have. *)
Definition waveform_tasks (daqs : dict Daq) : list (string * TaskKind) :=
  flat_map (fun '(d, daq) =>
              (if ao_task daq then [(d, AO)] else []) ++
              (if do_task daq then [(d, DO)] else [])) daqs.

Definition last_is_master (started : list (string * TaskKind)) : bool :=
  match rev started with
  | [] => true
  | (_, CO) :: _ => true
  | _ => false
  end.

(** The machine for the start calls of a trigger cycle: it collects the
    tasks started since the last frame was grabbed, and remembers whether
    all is well so far.  A counter task started before every waveform task
    of the instrument has been started spoils the cycle, and so does a cycle
    whose last start is not a counter task's; a cycle is closed by the grab
    of its first frame. *)
Definition watch_start (daqs : dict Daq)
  (t : list (string * TaskKind) * bool) (e : Event)
  : list (string * TaskKind) * bool :=
  match e with
  | GrabFrame _ => ([], snd t && last_is_master (fst t))
  | TaskStart d CO =>
      (fst t ++ [(d, CO)],
       snd t && forallb (started_in (fst t)) (waveform_tasks daqs))
  | TaskStart d k => (fst t ++ [(d, k)], snd t)
  | _ => t
  end.

(** The claim as the specification words it, on the events of a run. *)
Definition master_started_last (daqs : dict Daq) (events : list Event) : bool :=
  snd (fold_left (watch_start daqs) events ([], true)).

Definition is_arming (e : Event) : bool :=
  match e with
  | DaqAddTask _ _ _ | DaqGenerateWaveforms _ _ _ | DaqWriteWaveforms _ _ => true
  | _ => false
  end.

Definition is_thread_event (e : Event) : bool :=
  match e with
  | ThreadCreate _ | ThreadStart _ => true
  | _ => false
  end.

(** The machine for one tile: it remembers whether a capture thread has been
    created or started, and whether all is well; arming or writing a task
    after that spoils the tile. *)
Definition watch_arming (t : bool * bool) (e : Event) : bool * bool :=
  if is_thread_event e then (true, snd t)
  else if is_arming e then (fst t, snd t && negb (fst t))
  else t.

Definition armed_before_threads (events : list Event) : bool :=
  snd (fold_left watch_arming events (false, true)).

Definition well (A : Type) (t : A * bool) : Prop := snd t = true.

Section SingleDaq.

(** An instrument with one DAQ. *)
Variable d : string.
Variable daq : Daq.

#[local] Abbreviation Calm :=
  (Scanned (watch_start [(d, daq)]) ([], true) (eq ([], true))).
#[local] Abbreviation Cycling :=
  (Scanned (watch_start [(d, daq)]) ([], true) (well (list (string * TaskKind)))).
#[local] Abbreviation Fired :=
  (Scanned (watch_start [(d, daq)]) ([], true)
     (fun t => snd t = true /\ last_is_master (fst t) = true)).

Lemma calm_cycling w : Calm w -> Cycling w.
Proof. intros H. unfold Scanned in *. rewrite <- H. reflexivity. Qed.

Ltac calm_prim :=
  intros;
  lazymatch goal with
  | |- triple _ (add_image _ _) _ _ =>
      unfold add_image; eapply triple_bind;
      [ apply scanned_same; reflexivity
      | intros [|]; [ apply keeps_ret | apply keeps_raise; exact calm_cycling ] ]
  | H : plain_call ?e = true |- triple _ (call ?e) _ _ =>
      destruct e; try discriminate H; apply scanned_same; reflexivity
  | |- triple _ _ _ _ => apply scanned_same; reflexivity
  end.

Lemma single_start_pulses num :
  triple Calm (start_pulses [(d, daq)] num) (fun _ => Fired) Cycling.
Proof.
  unfold start_pulses, start_tasks, start_task, call, act. cbn [for_each].
  destruct (co_task daq);
    [| intros w Hw; cbn; exact (calm_cycling _ Hw)].
  destruct (ao_task daq) eqn:Ea, (do_task daq) eqn:Eb;
    (eapply triple_conseq with (P' := Calm) (X' := Cycling);
     [ hseq; first [ apply scanned_exact; reflexivity | apply keeps_ret ]
     | auto
     | intros ? w Hw; unfold Scanned in *; rewrite <- Hw; cbn;
       rewrite ?Ea, ?Eb; cbn; unfold task_eqb; cbn;
       rewrite ?String.eqb_refl; cbn; auto
     | auto ]).
Qed.

Lemma calm_capture_frame c tile writers processes i :
  triple Calm (capture_frame [(d, daq)] c tile writers processes i)
    (fun _ => Calm) Cycling.
Proof.
  unfold capture_frame. cbv zeta.
  eapply triple_bind with (R := fun _ => Fired).
  { destruct (_ =? 0); [apply single_start_pulses |].
    apply triple_ret. intros w Hw. unfold Scanned in *. rewrite <- Hw.
    split; reflexivity. }
  intros ?. eapply triple_bind with (R := fun _ => Calm).
  { apply scanned_atomic.
    - intros [started ok] [Hok Hlast]. cbn in *. rewrite Hok, Hlast.
      reflexivity.
    - intros t [Hok _]. exact Hok. }
  intros ?. eapply triple_bind; [calm_prim | intros ?].
  eapply triple_bind.
  { apply keeps_for_each. intros [wn wr] _. calm_prim. }
  intros ?. eapply triple_bind with (R := fun _ => Calm).
  { destruct (_ || _); [| apply keeps_ret].
    apply keeps_dispatch_chunk; first [exact calm_cycling | calm_prim]. }
  intros ?. apply keeps_feed_processes; first [exact calm_cycling | calm_prim].
Qed.

Lemma calm_capture_loop c tile writers processes n i :
  triple Calm (capture_loop [(d, daq)] c tile writers processes n i)
    (fun _ => Calm) Cycling.
Proof.
  revert i. induction n as [| n IH]; intros i; cbn [capture_loop].
  - apply keeps_ret.
  - eapply triple_bind; [calm_prim |].
    intros [|]; [apply keeps_ret |].
    eapply triple_bind; [apply calm_capture_frame | intros ?; apply IH].
Qed.

Lemma calm_engine self tile filename camera writers processes :
  daqs (instrument self) = [(d, daq)] ->
  triple Calm (engine self tile filename camera writers processes)
    (fun _ => Calm) Cycling.
Proof.
  intros Hd. unfold engine. rewrite Hd.
  eapply triple_bind.
  { apply keeps_for_each. intros [wn wr] _.
    apply keeps_setup_writer; first [exact calm_cycling | calm_prim]. }
  intros ?. eapply triple_bind.
  { apply keeps_for_each. intros [pn ?] _.
    apply keeps_setup_process; first [exact calm_cycling | calm_prim]. }
  intros ?. eapply triple_bind.
  { apply keeps_start_devices; first [exact calm_cycling | calm_prim]. }
  intros ?. eapply triple_bind; [apply keeps_divisor; exact calm_cycling |].
  intros c. eapply triple_bind; [apply calm_capture_loop | intros ?].
  apply keeps_finish; first [exact calm_cycling | calm_prim].
Qed.

End SingleDaq.

#[local] Abbreviation Arming := (Scanned watch_arming (false, true) (eq (false, true))).
#[local] Abbreviation Armed := (Scanned watch_arming (false, true) (well bool)).

Lemma arming_armed w : Arming w -> Armed w.
Proof. intros H. unfold Scanned in *. rewrite <- H. reflexivity. Qed.

Ltac arming_prim :=
  intros;
  lazymatch goal with
  | H : run_call ?e = true |- triple _ (call ?e) _ _ =>
      destruct e; try discriminate H; apply scanned_same; reflexivity
  | |- triple _ _ _ _ => apply scanned_same; reflexivity
  end.

Ltac armed_prim :=
  intros;
  lazymatch goal with
  | H : Armed ?w |- Armed ?w => exact H
  | |- triple _ (modify _) _ _ => apply scanned_modify
  | |- triple _ _ _ _ =>
      apply scanned_atomic; [ intros [? ?] Ht; exact Ht | intros ? Ht; exact Ht ]
  end.

Lemma armed_device_object i device_type device_name :
  triple Armed (device_object i device_type device_name) (fun _ => Armed) Armed.
Proof. unfold device_object. keeps_go armed_prim. Qed.

Lemma armed_start_routines pluralize self filenames :
  triple Armed (start_routines pluralize self filenames) (fun _ => Armed) Armed.
Proof.
  unfold start_routines.
  apply keeps_for_each. intros [device_name names] _.
  eapply triple_bind; [apply keeps_getitem; armed_prim | intros device_type].
  apply keeps_for_each. intros routine_name _.
  eapply triple_bind; [apply armed_device_object | intros ?].
  keeps_go armed_prim.
Qed.

Lemma armed_acquire_tile pluralize self tile filenames :
  triple Arming (acquire_tile pluralize self tile filenames)
    (fun _ => Armed) Armed.
Proof.
  unfold acquire_tile.
  eapply triple_bind.
  { apply keeps_position_stages; first [exact arming_armed | arming_prim]. }
  intros ?. eapply triple_bind.
  { apply keeps_setup_channel; first [exact arming_armed | arming_prim]. }
  intros ?. eapply triple_bind with (R := fun _ => Armed).
  { eapply triple_conseq with (P' := Arming) (Q' := fun _ => Arming) (X' := Armed);
      [ apply keeps_arm_daqs; arming_prim
      | auto | intros ? w; apply arming_armed | auto ]. }
  intros ?. eapply triple_bind.
  { apply armed_start_routines. }
  intros ?. eapply triple_bind.
  { apply keeps_create_threads; armed_prim. }
  intros ?. eapply triple_bind.
  { apply keeps_run_threads; armed_prim. }
  intros ?. eapply triple_bind.
  { apply keeps_for_each. intros [daq_id ?] _. armed_prim. }
  intros ?. apply keeps_reconcile_transfers; armed_prim.
Qed.

(** *** What [run] has done on the DAQs when the capture threads begin *)

(** The calls of lines 114-124 on one DAQ: each waveform task the DAQ's
    configuration names is added, generated and written, the analog one
    first, and the counter task is added last. *)
Definition daq_arming_calls (daq_name : string) (daq : Daq) (channel_ : string)
  (pulse_count : option Z) : list Event :=
  (if mem "ao_task" (tasks daq)
   then [DaqAddTask daq_name AO None;
         DaqGenerateWaveforms daq_name AO channel_;
         DaqWriteWaveforms daq_name AO]
   else []) ++
  (if mem "do_task" (tasks daq)
   then [DaqAddTask daq_name DO None;
         DaqGenerateWaveforms daq_name DO channel_;
         DaqWriteWaveforms daq_name DO]
   else []) ++
  (if mem "co_task" (tasks daq)
   then [DaqAddTask daq_name CO pulse_count]
   else []).

Definition arming_calls (daqs : dict Daq) (channel_ : string)
  (pulse_count : option Z) : list Event :=
  flat_map (fun '(daq_name, daq) =>
              daq_arming_calls daq_name daq channel_ pulse_count) daqs.

(** Whenever a capture thread is created or started, the calls made on the
    DAQs so far are exactly [calls]. *)
Definition armed_when_threads (calls : list Event) (events : list Event) : Prop :=
  forall pre e post,
    events = pre ++ e :: post ->
    is_thread_event e = true ->
    filter is_arming pre = calls.

Definition Logged (P : list Event -> Prop) (w : World) : Prop :=
  P (map fst (log w)).

Lemma logged_atomic {A} (P Q Xp : list Event -> Prop) e eff (rd : State -> A) :
  (forall l, P l -> Q (l ++ [e])) ->
  (forall l, P l -> Xp l) ->
  triple (Logged P) (atomic e eff rd) (fun _ => Logged Q) (Logged Xp).
Proof.
  intros H HX. apply triple_atomic.
  - intros w b rest Hw _. unfold Logged in *. cbn [log].
    rewrite map_app. apply H, Hw.
  - intros w Hw. apply HX, Hw.
Qed.

(** No capture thread yet, and the calls on the DAQs so far are [L]. *)
Definition Before (L : list Event) (l : list Event) : Prop :=
  filter is_thread_event l = [] /\ filter is_arming l = L.

(** The calls on the DAQs are [calls], and they were when any thread was
    created or started. *)
Definition Ready (calls : list Event) (l : list Event) : Prop :=
  filter is_arming l = calls /\ armed_when_threads calls l.

Lemma before_armed_when calls L l : Before L l -> armed_when_threads calls l.
Proof.
  intros [Ht _] pre e post E He. exfalso.
  rewrite E, filter_app in Ht. cbn in Ht. rewrite He in Ht.
  destruct (filter is_thread_event pre); discriminate.
Qed.

Lemma before_other L l e :
  is_thread_event e = false -> is_arming e = false ->
  Before L l -> Before L (l ++ [e]).
Proof.
  intros H1 H2 [Ht Ha]. unfold Before. rewrite !filter_app. cbn.
  rewrite H1, H2, Ht, Ha. split; [reflexivity | apply app_nil_r].
Qed.

Lemma before_arming L l e :
  is_thread_event e = false -> is_arming e = true ->
  Before L l -> Before (L ++ [e]) (l ++ [e]).
Proof.
  intros H1 H2 [Ht Ha]. unfold Before. rewrite !filter_app. cbn.
  rewrite H1, H2, Ht, Ha. split; reflexivity.
Qed.

Lemma before_ready calls l : Before calls l -> Ready calls l.
Proof.
  intros H. split; [apply H | apply (before_armed_when calls calls l H)].
Qed.

Lemma ready_snoc calls l e :
  is_arming e = false -> Ready calls l -> Ready calls (l ++ [e]).
Proof.
  intros He [Ha Hw]. split.
  - rewrite filter_app. cbn. rewrite He, Ha. apply app_nil_r.
  - intros pre x post E Hx.
    destruct (exists_last (l := x :: post)) as [front [y Ey]]; [discriminate |].
    rewrite Ey, app_assoc in E. apply app_inj_tail in E. destruct E as [E _].
    destruct post as [| z post].
    + destruct front as [| f front]; [| destruct front; discriminate Ey].
      rewrite app_nil_r in E. subst l. exact Ha.
    + destruct front as [| f front]; [discriminate Ey |].
      injection Ey as <- Ey. apply (Hw pre x front); [| exact Hx].
      rewrite E. reflexivity.
Qed.

Section ArmedThenThreads.

Variable calls : list Event.

#[local] Abbreviation Met := (Logged (armed_when_threads calls)).

Ltac before_prim :=
  intros;
  lazymatch goal with
  | H : Logged (Before _) ?w |- Logged (armed_when_threads _) ?w =>
      exact (before_armed_when _ _ _ H)
  | |- triple _ _ _ _ =>
      apply logged_atomic;
      [ intros ? ?H; apply before_other; [reflexivity | reflexivity | exact H]
      | intros ? ?H; exact (before_armed_when _ _ _ H) ]
  end.

Ltac ready_prim :=
  intros;
  lazymatch goal with
  | H : Logged (Ready _) ?w |- Logged (armed_when_threads _) ?w =>
      exact (proj2 H)
  | |- triple ?P (modify ?f) _ ?X =>
      refine (triple_modify P f (fun _ => P) X _); intros ? ?H; exact H
  | |- triple _ _ _ _ =>
      apply logged_atomic;
      [ intros ? ?H; apply ready_snoc; [reflexivity | exact H]
      | intros ? ?H; exact (proj2 H) ]
  end.

Lemma before_call L e :
  is_thread_event e = false -> is_arming e = true ->
  triple (Logged (Before L)) (call e) (fun _ => Logged (Before (L ++ [e]))) Met.
Proof.
  intros H1 H2. apply logged_atomic.
  - intros l H. apply before_arming; assumption.
  - intros l H. exact (before_armed_when _ _ _ H).
Qed.

(** Lines 114-117 and 118-121: one waveform task is added, generated and
    written. *)
Lemma before_waveform L (present : bool) d k ch :
  triple (Logged (Before L))
    (if present
     then call (DaqAddTask d k None) ;;
          call (DaqGenerateWaveforms d k ch) ;;
          call (DaqWriteWaveforms d k)
     else ret tt)
    (fun _ => Logged
       (Before (L ++ if present
                     then [DaqAddTask d k None; DaqGenerateWaveforms d k ch;
                           DaqWriteWaveforms d k]
                     else [])))
    Met.
Proof.
  destruct present.
  - eapply triple_bind; [apply before_call; reflexivity | intros ?].
    eapply triple_bind; [apply before_call; reflexivity | intros ?].
    eapply triple_conseq;
      [ apply before_call; reflexivity
      | intros w H; exact H
      | intros ? w H; unfold Logged in *; rewrite <- !app_assoc in H; exact H
      | intros w H; exact H ].
  - apply triple_ret. intros w H. rewrite app_nil_r. exact H.
Qed.

Lemma before_arm_daqs self tile :
  triple (Logged (Before [])) (arm_daqs self tile)
    (fun _ => Logged
       (Before (arming_calls (daqs (instrument self)) (channel tile)
                  (self_chunk_count_px self))))
    Met.
Proof.
  unfold arm_daqs.
  apply (triple_for_each
           (fun done => Logged
              (Before (arming_calls done (channel tile)
                         (self_chunk_count_px self))))).
  intros done [d daq] rest _.
  set (L0 := arming_calls done (channel tile) (self_chunk_count_px self)).
  set (A := if mem "ao_task" (tasks daq)
            then [DaqAddTask d AO None; DaqGenerateWaveforms d AO (channel tile);
                  DaqWriteWaveforms d AO]
            else []).
  set (D := if mem "do_task" (tasks daq)
            then [DaqAddTask d DO None; DaqGenerateWaveforms d DO (channel tile);
                  DaqWriteWaveforms d DO]
            else []).
  set (C := if mem "co_task" (tasks daq)
            then [DaqAddTask d CO (self_chunk_count_px self)]
            else []).
  eapply triple_bind with (R := fun _ => Logged (Before (L0 ++ A)));
    [apply before_waveform | intros ?].
  eapply triple_bind with (R := fun _ => Logged (Before ((L0 ++ A) ++ D)));
    [apply before_waveform | intros ?].
  apply triple_conseq with
    (P' := Logged (Before ((L0 ++ A) ++ D)))
    (Q' := fun _ => Logged (Before (((L0 ++ A) ++ D) ++ C)))
    (X' := Met).
  - subst C. destruct (mem "co_task" (tasks daq)).
    + apply before_call; reflexivity.
    + apply triple_ret. intros w H. rewrite app_nil_r. exact H.
  - intros w H. exact H.
  - intros ? w H. unfold Logged in *. unfold arming_calls.
    rewrite flat_map_app. cbn [flat_map]. rewrite app_nil_r.
    unfold daq_arming_calls. fold A D C.
    fold (arming_calls done (channel tile) (self_chunk_count_px self)).
    fold L0. rewrite <- !app_assoc in H. exact H.
  - intros w H. exact H.
Qed.

Lemma ready_acquire_tile pluralize self tile filenames :
  calls = arming_calls (daqs (instrument self)) (channel tile)
            (self_chunk_count_px self) ->
  triple (Logged (Before [])) (acquire_tile pluralize self tile filenames)
    (fun _ => Logged (Ready calls)) Met.
Proof.
  intros Ec. unfold acquire_tile.
  eapply triple_bind with (R := fun _ => Logged (Before [])).
  { unfold position_stages, move_stage. walk before_prim. }
  intros ?. eapply triple_bind with (R := fun _ => Logged (Before [])).
  { unfold setup_channel, device_object. walk before_prim. }
  intros ?. eapply triple_bind with (R := fun _ => Logged (Ready calls)).
  { eapply triple_conseq;
      [ apply before_arm_daqs | intros w H; exact H
      | intros ? w H; apply before_ready; rewrite Ec; exact H
      | intros w H; exact H ]. }
  intros ?. eapply triple_bind with (R := fun _ => Logged (Ready calls)).
  { unfold start_routines, device_object. walk ready_prim. }
  intros ?. eapply triple_bind with (R := fun _ => Logged (Ready calls)).
  { unfold create_threads. walk ready_prim. }
  intros ?. eapply triple_bind with (R := fun _ => Logged (Ready calls)).
  { unfold run_threads, start_thread, join_thread. walk ready_prim. }
  intros ?. eapply triple_bind with (R := fun _ => Logged (Ready calls)).
  { walk ready_prim. }
  intros ?.
  unfold reconcile_transfers, wait_for_transfers, wait_if_alive, start_transfers.
  walk ready_prim.
Qed.

End ArmedThenThreads.

(** Every waveform task the engine starts on the DAQ is one that [run] has
    added, generated and written, when the task attributes of the DAQ are
    those of the tasks its configuration names. *)
Lemma waveforms_armed d daq ch pc :
  (ao_task daq = true -> mem "ao_task" (tasks daq) = true) ->
  (do_task daq = true -> mem "do_task" (tasks daq) = true) ->
  forall t, In t (waveform_tasks [(d, daq)]) ->
    In (DaqAddTask (fst t) (snd t) None) (arming_calls [(d, daq)] ch pc) /\
    In (DaqGenerateWaveforms (fst t) (snd t) ch) (arming_calls [(d, daq)] ch pc) /\
    In (DaqWriteWaveforms (fst t) (snd t)) (arming_calls [(d, daq)] ch pc).
Proof.
  intros Ha Hd t Ht. unfold waveform_tasks in Ht. cbn in Ht.
  rewrite app_nil_r in Ht. apply in_app_or in Ht.
  unfold arming_calls, daq_arming_calls. cbn [flat_map]. rewrite app_nil_r.
  destruct Ht as [Ht | Ht].
  - destruct (ao_task daq); [| destruct Ht]. destruct Ht as [<- | []].
    rewrite (Ha eq_refl). cbn. repeat split; auto 6.
  - destruct (do_task daq); [| destruct Ht]. destruct Ht as [<- | []].
    rewrite (Hd eq_refl). cbn [fst snd].
    repeat split; apply in_or_app; right; apply in_or_app; left; cbn; auto 6.
Qed.

(** *** The waveform tasks when the counter task is started *)

(** A schedule in which no other capture thread stops a DAQ. *)
Definition other_stop (a : EnvAct) : bool :=
  match a with
  | OtherDaqStop _ => true
  | _ => false
  end.

Definition no_other_stop (schedule : list (list EnvAct)) : bool :=
  forallb (forallb (fun a => negb (other_stop a))) schedule.

(** Without such a stop the environment takes no task away. *)
Lemma env_burst_still_running s b :
  forallb (fun a => negb (other_stop a)) b = true ->
  incl (running s) (running (env_burst s b)).
Proof.
  revert s. unfold env_burst.
  induction b as [| a b IH]; intros s Hb; cbn in *; [apply incl_refl |].
  apply andb_prop in Hb. destruct Hb as [Ha Hb].
  intros r Hr. apply (IH _ Hb).
  destruct a; try exact Hr; [| discriminate Ha].
  cbn. apply in_or_app. left. exact Hr.
Qed.

(** A counter task is started only in a state where the waveform tasks of
    the instrument are running. *)
Definition ok_master (daqs : dict Daq) (x : Event * State) : Prop :=
  match fst x with
  | TaskStart _ CO =>
      forall t, In t (waveform_tasks daqs) -> In t (running (snd x))
  | _ => True
  end.

Section MasterMeetsWaveforms.

Variable d : string.
Variable daq : Daq.

(** Every counter task so far was started on running waveform tasks; the
    tasks [L] are running now; and no other capture thread stops a DAQ from
    here on. *)
Definition Up (L : list (string * TaskKind)) (w : World) : Prop :=
  Forall (ok_master [(d, daq)]) (log w) /\
  incl L (running (st w)) /\
  no_other_stop (sched w) = true.

#[local] Abbreviation Low := (Safe (ok_master [(d, daq)])).

Lemma Up_Low L w : Up L w -> Low w.
Proof. intros [H _]. exact H. Qed.

Lemma up_atomic {A} L L' e eff (rd : State -> A) :
  (forall s, incl L (running s) ->
     ok_master [(d, daq)] (e, s) /\ incl L' (running (eff s))) ->
  triple (Up L) (atomic e eff rd) (fun _ => Up L') Low.
Proof.
  intros H. apply triple_atomic; [| apply Up_Low].
  intros w b rest [Hl [Hs Hq]] E. rewrite E in Hq. cbn in Hq.
  apply andb_prop in Hq. destruct Hq as [Hb Hq].
  destruct (H (env_burst (st w) b)) as [Hok Hs'].
  { intros r Hr. apply (env_burst_still_running _ _ Hb), Hs, Hr. }
  split; [| split]; cbn [log st sched]; auto.
  apply Forall_app. split; auto.
Qed.

Lemma up_start L daq_id k :
  (k = CO -> forall t, In t (waveform_tasks [(d, daq)]) -> In t L) ->
  triple (Up L) (start_task daq_id k) (fun _ => Up (L ++ [(daq_id, k)])) Low.
Proof.
  intros Hk. apply up_atomic. intros s Hs. split.
  - unfold ok_master. cbn [fst snd]. destruct k; try exact Logic.I.
    intros t Ht. apply Hs, (Hk eq_refl), Ht.
  - cbn. apply incl_app; [apply incl_appl, Hs | apply incl_appr, incl_refl].
Qed.

Lemma up_fewer {A} L (m : M A) L' :
  triple (Up L) m (fun _ => Up L') Low ->
  triple (Up L) m (fun _ => Up []) Low.
Proof.
  intros H. eapply triple_conseq;
    [exact H | intros w Hw; exact Hw | | intros w Hw; exact Hw].
  intros ? w [Hl [_ Hq]]. split; [exact Hl | split; [| exact Hq]].
  intros r [].
Qed.

(** A primitive of the engine other than a task start keeps [Up []]. *)
Ltac up_prim :=
  intros;
  lazymatch goal with
  | H : Up _ ?w |- Safe _ ?w => exact (Up_Low _ _ H)
  | |- triple _ (add_image _ _) _ _ =>
      unfold add_image; eapply triple_bind with (R := fun _ => Up []);
      [ apply up_atomic; intros ? _; split; [exact Logic.I | intros ? []]
      | intros [|]; [apply triple_ret; auto | apply triple_raise, Up_Low] ]
  | |- triple _ _ _ _ =>
      apply up_atomic; intros ? _;
      split;
      [ unfold ok_master; cbn;
        try lazymatch goal with
            | H : plain_call ?e = true |- _ => destruct e; try discriminate H
            end;
        exact Logic.I
      | intros ? [] ]
  end.

Lemma up_start_pulses num :
  triple (Up []) (start_pulses [(d, daq)] num) (fun _ => Up []) Low.
Proof.
  unfold start_pulses, start_tasks. cbn [for_each].
  eapply triple_bind with (R := fun _ => Up []); [| intros ?; apply triple_ret; auto].
  eapply triple_bind with (R := fun _ => Up []).
  { destruct (co_task daq); [up_prim | apply triple_raise, Up_Low]. }
  intros ?.
  eapply triple_bind with (R := fun _ => Up []); [| intros ?; apply triple_ret; auto].
  unfold waveform_tasks in *.
  eapply triple_bind with (R := fun _ => Up (if ao_task daq then [(d, AO)] else [])).
  { destruct (ao_task daq); [| apply triple_ret; auto].
    apply (up_start [] d AO). discriminate. }
  intros ?.
  eapply triple_bind
    with (R := fun _ => Up ((if ao_task daq then [(d, AO)] else [])
                            ++ (if do_task daq then [(d, DO)] else []))).
  { destruct (do_task daq).
    - apply up_start. discriminate.
    - apply triple_ret. intros w H. rewrite app_nil_r. exact H. }
  intros ?.
  eapply triple_bind with (R := fun _ => Up []); [| intros ?; apply triple_ret; auto].
  destruct (co_task daq);
    [| eapply up_fewer; apply triple_ret; intros w H; exact H].
  eapply up_fewer. apply up_start. intros _ t Ht.
  cbn in Ht. rewrite app_nil_r in Ht. exact Ht.
Qed.

Lemma up_engine self tile filename camera writers processes :
  daqs (instrument self) = [(d, daq)] ->
  triple (Up []) (engine self tile filename camera writers processes)
    (fun _ => Up []) Low.
Proof.
  intros E. apply keeps_engine; try up_prim.
  - intros wn wr _. apply keeps_setup_writer; up_prim.
  - rewrite E. apply up_start_pulses.
  - apply keeps_dispatch_chunk; up_prim.
  - intros f. apply keeps_feed_processes; up_prim.
Qed.

End MasterMeetsWaveforms.

(** The tasks started in a run, in the order of the start calls. *)
Definition started_tasks (events : list Event) : list (string * TaskKind) :=
  flat_map (fun e => match e with
                     | TaskStart d k => [(d, k)]
                     | _ => []
                     end) events.

(** With two DAQs the counter task of the first one is started before the
    waveform tasks of the second one: the run below returns, its first four
    start calls are those of AO, DO and CO on [daq0] and then of AO on
    [daq1], and the machine rejects it. *)
Lemma waveform_started_after_master :
  let r := Bench.capture Bench.two_daqs 2 4 (repeat (Bench.prompt ["w"] []) 200) in
  fst r = Ret tt /\
  firstn 4 (started_tasks (map fst (log (snd r)))) =
    [("daq0", AO); ("daq0", DO); ("daq0", CO); ("daq1", AO)] /\
  master_started_last (daqs Bench.two_daqs) (map fst (log (snd r))) = false.
Proof. vm_compute. repeat split; reflexivity. Qed.

(** C6 (as amended): on an instrument with one DAQ whose waveform task
    attributes are those of the tasks its configuration names.  In the pass
    of [run] over a tile, whenever a capture thread is created or started
    the calls made on the DAQ so far are exactly those that add, generate
    and write the analog and the digital waveform task and add the counter
    task, and no such call comes after a thread was created; every waveform
    task the engine starts is among the tasks so written.  In every trigger
    cycle of the engine the counter task is started only after the engine
    has started the waveform tasks, and its start is the engine's last
    start call of the cycle; as long as no other capture thread stops the
    DAQ meanwhile, the waveform tasks are running when the counter task is
    started. *)
Theorem master_started_after_waveforms
  pluralize self tile filenames filename camera writers processes d daq w w' :
  daqs (instrument self) = [(d, daq)] ->
  (ao_task daq = true -> mem "ao_task" (tasks daq) = true) ->
  (do_task daq = true -> mem "do_task" (tasks daq) = true) ->
  log w = [] -> log w' = [] ->
  let armed := arming_calls (daqs (instrument self)) (channel tile)
                 (self_chunk_count_px self) in
  let run_events :=
    map fst (log (snd (acquire_tile pluralize self tile filenames w))) in
  let engine_log :=
    log (snd (engine self tile filename camera writers processes w')) in
  armed_when_threads armed run_events /\
  armed_before_threads run_events = true /\
  (forall t, In t (waveform_tasks (daqs (instrument self))) ->
     In (DaqAddTask (fst t) (snd t) None) armed /\
     In (DaqGenerateWaveforms (fst t) (snd t) (channel tile)) armed /\
     In (DaqWriteWaveforms (fst t) (snd t)) armed) /\
  master_started_last (daqs (instrument self)) (map fst engine_log) = true /\
  (no_other_stop (sched w') = true ->
   forall daq_id s,
     In (TaskStart daq_id CO, s) engine_log ->
     forall t, In t (waveform_tasks (daqs (instrument self))) ->
       In t (running s)).
Proof.
  intros Hd Hao Hdo Hw Hw' armed run_events engine_log.
  split; [| split; [| split; [| split]]].
  - pose proof (ready_acquire_tile armed pluralize self tile filenames
                  eq_refl w) as H.
    assert (H0 : Logged (Before []) w).
    { unfold Logged. rewrite Hw. split; reflexivity. }
    specialize (H H0). subst run_events.
    destruct (fst (acquire_tile pluralize self tile filenames w));
      [exact (proj2 H) | exact H | exact H].
  - pose proof (armed_acquire_tile pluralize self tile filenames w) as H.
    unfold Scanned, scan, well in H.
    unfold armed_before_threads. subst run_events.
    destruct (fst (acquire_tile pluralize self tile filenames w));
      apply H; rewrite Hw; reflexivity.
  - subst armed. rewrite Hd. apply waveforms_armed; assumption.
  - pose proof (calm_engine d daq self tile filename camera writers processes
                  Hd w') as H.
    unfold Scanned, scan, well in H.
    unfold master_started_last. subst engine_log. rewrite Hd.
    destruct (fst (engine self tile filename camera writers processes w')).
    + rewrite <- H; [reflexivity | rewrite Hw'; reflexivity].
    + apply H. rewrite Hw'. reflexivity.
    + apply H. rewrite Hw'. reflexivity.
  - intros Hq daq_id s Hin.
    pose proof (up_engine d daq self tile filename camera writers processes
                  Hd w') as H.
    assert (H0 : Up d daq [] w').
    { split; [rewrite Hw'; constructor | split; [intros r [] | exact Hq]]. }
    specialize (H H0).
    assert (Hsafe : Safe (ok_master [(d, daq)])
                      (snd (engine self tile filename camera writers processes w'))).
    { destruct (fst (engine self tile filename camera writers processes w'));
        auto. apply (Up_Low _ _ _ _ H). }
    unfold Safe in Hsafe. rewrite Forall_forall in Hsafe.
    rewrite Hd. exact (Hsafe _ Hin).
Qed.

(** The theorem at one DAQ with all three tasks, ten frames in chunks of
    four. *)
Lemma master_started_after_waveforms_witness :
  let self := Bench.session Bench.one_daq 4 10 in
  let armed := arming_calls (daqs (instrument self)) "488" (Some 4) in
  let run_events :=
    map fst (log (snd (acquire_tile Bench.pluralize self (Bench.tile_of 10)
                         [("cam0", "tile_0_ch_488_camera_cam0")]
                         (Bench.world Bench.quiet_state (repeat [] 200))))) in
  let engine_log :=
    log (snd (engine self (Bench.tile_of 10) "tile_0_ch_488_camera_cam0"
                Bench.camera0 [("w", Bench.writer_of 4)] []
                (Bench.world Bench.quiet_state
                   (repeat (Bench.prompt ["w"] []) 200)))) in
  armed_when_threads armed run_events /\
  armed_before_threads run_events = true /\
  (forall t, In t (waveform_tasks (daqs (instrument self))) ->
     In (DaqAddTask (fst t) (snd t) None) armed /\
     In (DaqGenerateWaveforms (fst t) (snd t) "488") armed /\
     In (DaqWriteWaveforms (fst t) (snd t)) armed) /\
  master_started_last (daqs (instrument self)) (map fst engine_log) = true /\
  (no_other_stop (repeat (Bench.prompt ["w"] []) 200) = true ->
   forall daq_id s,
     In (TaskStart daq_id CO, s) engine_log ->
     forall t, In t (waveform_tasks (daqs (instrument self))) ->
       In t (running s)).
Proof.
  exact (master_started_after_waveforms Bench.pluralize
           (Bench.session Bench.one_daq 4 10) (Bench.tile_of 10)
           [("cam0", "tile_0_ch_488_camera_cam0")]
           "tile_0_ch_488_camera_cam0" Bench.camera0
           [("w", Bench.writer_of 4)] [] "daq0" Bench.daq_full
           (Bench.world Bench.quiet_state (repeat [] 200))
           (Bench.world Bench.quiet_state (repeat (Bench.prompt ["w"] []) 200))
           eq_refl (fun _ => eq_refl) (fun _ => eq_refl) eq_refl eq_refl).
Defined.

(** What [run] has called on the DAQ when it creates the capture thread of
    that tile. *)
Example armed_at_thread_creation :
  let r := acquire_tile Bench.pluralize (Bench.session Bench.one_daq 4 10)
             (Bench.tile_of 10) [("cam0", "tile_0_ch_488_camera_cam0")]
             (Bench.world Bench.quiet_state (repeat [] 200)) in
  filter (fun e => is_arming e || is_thread_event e) (map fst (log (snd r)))
  = [DaqAddTask "daq0" AO None; DaqGenerateWaveforms "daq0" AO "488";
     DaqWriteWaveforms "daq0" AO;
     DaqAddTask "daq0" DO None; DaqGenerateWaveforms "daq0" DO "488";
     DaqWriteWaveforms "daq0" DO;
     DaqAddTask "daq0" CO (Some 4);
     ThreadCreate "cam0"; ThreadStart "cam0"].
Proof. vm_compute. reflexivity. Qed.

(** A DAQ whose configuration names the counter task only, but whose
    [ao_task] attribute is set: [run] adds the counter task and writes no
    waveform, and the engine starts the analog task all the same. *)
Definition daq_with_stray_task : Instrument :=
  {| devices := [("cam0", "camera")];
     tiling_stages := []; scanning_stages := [];
     channels := [("488", [])]; collections := [];
     daqs := [("daq0", {| tasks := ["co_task"];
                          ao_task := true; do_task := false;
                          co_task := true |})];
     cameras := [("cam0", Bench.camera0)] |}.

Example stray_task_started_unwritten :
  let self := Bench.session daq_with_stray_task 4 4 in
  let r := acquire_tile Bench.pluralize self (Bench.tile_of 4)
             [("cam0", "tile_0_ch_488_camera_cam0")]
             (Bench.world Bench.quiet_state (repeat [] 200)) in
  let r' := Bench.capture daq_with_stray_task 4 4
              (repeat (Bench.prompt ["w"] []) 200) in
  filter is_arming (map fst (log (snd r))) = [DaqAddTask "daq0" CO (Some 4)] /\
  started_tasks (map fst (log (snd r'))) = [("daq0", AO); ("daq0", CO)].
Proof. vm_compute. split; reflexivity. Qed.

(** Another camera's capture thread stops the DAQ between this thread's
    start of the waveform tasks and its start of the counter task: the
    counter task is started with no waveform task running. *)
Example master_started_on_stopped_waveforms :
  let r := Bench.capture Bench.one_daq 4 4
             (repeat (Bench.prompt ["w"] []) 20 ++ [[OtherDaqStop "daq0"]]
              ++ repeat (Bench.prompt ["w"] []) 40) in
  fst r = Ret tt /\
  map (fun x => running (snd x))
    (filter (fun x => match fst x with
                      | TaskStart _ CO => true
                      | _ => false
                      end) (log (snd r)))
  = [[]].
Proof. vm_compute. split; reflexivity. Qed.

(** The start calls of that run: three cycles, each AO, DO, CO. *)
Example single_daq_start_calls :
  started_tasks
    (map fst (log (snd (Bench.capture Bench.one_daq 4 10
                          (repeat (Bench.prompt ["w"] []) 200))))) =
  [("daq0", AO); ("daq0", DO); ("daq0", CO);
   ("daq0", AO); ("daq0", DO); ("daq0", CO);
   ("daq0", AO); ("daq0", DO); ("daq0", CO)].
Proof. vm_compute. reflexivity. Qed.

(* ===================================================================== *)
(** ** Further properties: file names *)
(* ===================================================================== *)

Lemma dict_get_set_same {V} (d : dict V) k (v : V) :
  dict_get (dict_set d k v) k = Some v.
Proof.
  induction d as [| [k' v'] d IH]; cbn.
  - rewrite String.eqb_refl. reflexivity.
  - destruct (String.eqb_spec k' k) as [E | E]; cbn.
    + rewrite E, String.eqb_refl. reflexivity.
    + destruct (String.eqb_spec k' k); [contradiction | exact IH].
Qed.

Lemma dict_get_set_other {V} (d : dict V) k k' (v : V) :
  k <> k' -> dict_get (dict_set d k v) k' = dict_get d k'.
Proof.
  intros Hne. induction d as [| [k0 v0] d IH]; cbn.
  - destruct (String.eqb_spec k k'); [contradiction | reflexivity].
  - destruct (String.eqb_spec k0 k) as [E | E]; cbn.
    + subst k0. destruct (String.eqb_spec k k'); [contradiction | reflexivity].
    + destruct (String.eqb_spec k0 k'); [reflexivity | exact IH].
Qed.

Lemma build_filenames_other devs tile fs d :
  ~ In d (keys devs) ->
  dict_get (build_filenames devs tile fs) d = dict_get fs d.
Proof.
  unfold build_filenames. revert fs.
  induction devs as [| [d0 ty0] devs IH]; intros fs Hn; cbn; [reflexivity |].
  cbn in Hn. rewrite IH by tauto.
  apply dict_get_set_other. tauto.
Qed.

(** X1.  After the file names have been built for a tile, every device of
    the instrument's configuration has the name made of the tile's prefix,
    number and channel and the device's type and name, whatever the
    dictionary held for it before; the entry of any other key is the one the
    previous tile left. *)
Theorem filenames_rebuilt devs tile fs :
  NoDup (keys devs) ->
  (forall d ty, In (d, ty) devs ->
     dict_get (build_filenames devs tile fs) d = Some (filename_of tile ty d)) /\
  (forall d, ~ In d (keys devs) ->
     dict_get (build_filenames devs tile fs) d = dict_get fs d).
Proof.
  intros Hnd. split; [| intros d; apply build_filenames_other].
  unfold build_filenames. revert fs Hnd.
  induction devs as [| [d0 ty0] devs IH]; intros fs Hnd d ty Hin;
    [contradiction |].
  cbn in Hnd. inversion Hnd as [| ? ? Hfresh Hrest]; subst.
  cbn [fold_left fst snd]. destruct Hin as [[= -> ->] | Hin].
  - fold (build_filenames devs tile
            (dict_set fs d (filename_of tile ty d))).
    rewrite build_filenames_other by exact Hfresh.
    apply dict_get_set_same.
  - apply IH; assumption.
Qed.

Lemma filenames_rebuilt_witness :
  dict_get (build_filenames [("cam0", "camera"); ("stage_x", "tiling_stage")]
              (Bench.tile_of 4) [("cam0", "old"); ("gone", "kept")]) "cam0"
    = Some "tile_0_ch_488_camera_cam0" /\
  dict_get (build_filenames [("cam0", "camera"); ("stage_x", "tiling_stage")]
              (Bench.tile_of 4) [("cam0", "old"); ("gone", "kept")]) "gone"
    = Some "kept".
Proof.
  assert (Hnd : NoDup (keys [("cam0", "camera"); ("stage_x", "tiling_stage")])).
  { repeat constructor; cbn; intuition discriminate. }
  destruct (filenames_rebuilt [("cam0", "camera"); ("stage_x", "tiling_stage")]
              (Bench.tile_of 4) [("cam0", "old"); ("gone", "kept")] Hnd)
    as [H1 H2].
  split.
  - exact (H1 "cam0" "camera" (or_introl eq_refl)).
  - apply H2. cbn. intuition discriminate.
Defined.

Lemma string_app_inv_head (a b c : string) :
  (a ++ b)%string = (a ++ c)%string -> b = c.
Proof. induction a as [| x a IH]; cbn; intros H; [exact H |]. injection H. exact IH. Qed.

(** X2.  Within a tile, two devices of the same type get the same file name
    only if they have the same name. *)
Theorem filename_of_same_type tile ty d1 d2 :
  filename_of tile ty d1 = filename_of tile ty d2 -> d1 = d2.
Proof.
  unfold filename_of. intros H.
  repeat (apply string_app_inv_head in H). exact H.
Qed.

Lemma filename_of_same_type_witness :
  filename_of (Bench.tile_of 4) "camera" "cam0"
  = filename_of (Bench.tile_of 4) "camera" "cam0" /\ "cam0" = "cam0".
Proof.
  split; [reflexivity |].
  exact (filename_of_same_type (Bench.tile_of 4) "camera" "cam0" "cam0" eq_refl).
Defined.

(* ===================================================================== *)
(** ** Further properties: the scan-length check *)
(* ===================================================================== *)

Lemma check_writers_long tile (device : dict Writer) w :
  (forall x, In x (map snd device) -> chunk_count_px x <= steps tile) ->
  for_each device (fun '(_, writer) =>
    if steps tile <? chunk_count_px writer
    then raise (ValueError (too_short (steps tile) (chunk_count_px writer)))
    else ret tt) w
  = (Ret tt, w).
Proof.
  induction device as [| [name x] device IH]; intros Hall; [reflexivity |].
  cbn [for_each]. unfold bind.
  destruct (Z.ltb_spec (steps tile) (chunk_count_px x)) as [Hlt | _].
  - specialize (Hall x (or_introl eq_refl)). lia.
  - cbn. apply IH. intros y Hin. apply Hall. right. exact Hin.
Qed.

Lemma check_scan_length_long self tile w :
  (forall x, In x (all_writers (writers self)) -> chunk_count_px x <= steps tile) ->
  check_scan_length self tile w = (Ret tt, w).
Proof.
  unfold check_scan_length. generalize (writers self) as ws.
  induction ws as [| [name device] ws IH]; intros Hall; [reflexivity |].
  cbn [for_each]. unfold bind.
  unfold all_writers in Hall. cbn [flat_map snd] in Hall.
  rewrite check_writers_long
    by (intros x Hin; apply Hall, in_or_app; left; exact Hin).
  apply IH. intros x Hin. apply Hall, in_or_app. right. exact Hin.
Qed.

(** X3.  In a session built by [__init__], the check of lines 67-73 comes
    down to one comparison with the session's chunk size: a tile passes
    when it has at least that many frames, and is refused with the message
    of line 72 otherwise; with no writer at all every tile passes.  Either
    way the check makes no call and leaves the world as it was. *)
Theorem scan_length_check_by_chunk_size base i ts ws ps rs xs self tile w :
  init base i ts ws ps rs xs = Ret self ->
  check_scan_length self tile w
  = match self_chunk_count_px self with
    | Some c =>
        if steps tile <? c
        then (Raise (ValueError (too_short (steps tile) c)), w)
        else (Ret tt, w)
    | None => (Ret tt, w)
    end.
Proof.
  unfold init, _verify_acquisition. intros H.
  destruct base as [e |]; [discriminate |].
  destruct (verify_devices None ws) as [chunk | e |] eqn:E; try discriminate.
  assert (Es : self = {| instrument := i; tiles := ts; writers := ws;
                         processes := ps; routines := rs; transfers := xs;
                         self_chunk_count_px := chunk |}) by congruence.
  assert (Ew : writers self = ws) by (rewrite Es; reflexivity).
  assert (Ec : self_chunk_count_px self = chunk) by (rewrite Es; reflexivity).
  rewrite Ec. clear H Es.
  destruct (verify_devices_ret _ _ _ E) as (Hall & _ & Hnone).
  destruct chunk as [c |].
  - assert (Hc : forall x, In x (all_writers (writers self)) ->
                   chunk_count_px x = c).
    { rewrite Ew. intros x Hin. specialize (Hall x Hin). congruence. }
    destruct (Z.ltb_spec (steps tile) c) as [Hlt | Hge].
    + apply check_scan_length_short; auto.
      rewrite Ew. intros Hnil. specialize (Hnone eq_refl Hnil). discriminate.
    + apply check_scan_length_long. intros x Hin. rewrite (Hc x Hin). exact Hge.
  - apply check_scan_length_long. rewrite Ew. intros x Hin.
    specialize (Hall x Hin). discriminate.
Qed.

Lemma scan_length_check_by_chunk_size_witness :
  check_scan_length (Bench.session Bench.one_daq 4 10) (Bench.tile_of 10)
    (Bench.world Bench.quiet_state [])
  = (Ret tt, Bench.world Bench.quiet_state []) /\
  check_scan_length (Bench.session Bench.one_daq 4 10) (Bench.tile_of 3)
    (Bench.world Bench.quiet_state [])
  = (Raise (ValueError (too_short 3 4)), Bench.world Bench.quiet_state []).
Proof.
  split.
  - exact (scan_length_check_by_chunk_size None Bench.one_daq [Bench.tile_of 10]
             [("cam0", [("w", Bench.writer_of 4)])] None None None
             (Bench.session Bench.one_daq 4 10) (Bench.tile_of 10)
             (Bench.world Bench.quiet_state []) eq_refl).
  - exact (scan_length_check_by_chunk_size None Bench.one_daq [Bench.tile_of 10]
             [("cam0", [("w", Bench.writer_of 4)])] None None None
             (Bench.session Bench.one_daq 4 10) (Bench.tile_of 3)
             (Bench.world Bench.quiet_state []) eq_refl).
Defined.

(* ===================================================================== *)
(** ** Further properties: the frames the engine grabs *)
(* ===================================================================== *)

(** The indices of the frames grabbed, in the order of the calls. *)
Definition grabbed_frames (events : list Event) : list Z :=
  flat_map (fun e => match e with
                     | GrabFrame i => [i]
                     | _ => []
                     end) events.

(** [list(range(k))]. *)
Definition first_frames (k : nat) : list Z := map Z.of_nat (seq 0 k).

Definition is_grab (e : Event) : bool :=
  match e with
  | GrabFrame _ => true
  | _ => false
  end.

(** The frames grabbed so far are the first [k]. *)
Definition Grabbed (k : nat) (w : World) : Prop :=
  grabbed_frames (map fst (log w)) = first_frames k.

(** The capture loop is over: [k] frames were grabbed, all [N] of them
    unless the stop flag is set. *)
Definition Captured (N : nat) (w : World) : Prop :=
  exists k, (k <= N)%nat /\ Grabbed k w /\
            ((k < N)%nat -> stop_engine (st w) = true).

Definition SomeGrabbed (N : nat) (w : World) : Prop :=
  exists k, (k <= N)%nat /\ Grabbed k w.

Lemma grabbed_frames_snoc events e :
  grabbed_frames (events ++ [e])
  = grabbed_frames events ++ (match e with GrabFrame i => [i] | _ => [] end).
Proof.
  unfold grabbed_frames. rewrite flat_map_app. cbn. rewrite app_nil_r.
  reflexivity.
Qed.

Lemma first_frames_S k : first_frames (S k) = first_frames k ++ [Z.of_nat k].
Proof. unfold first_frames. rewrite seq_S, map_app. reflexivity. Qed.

Lemma stop_engine_burst s b :
  stop_engine s = true -> stop_engine (env_burst s b) = true.
Proof.
  revert s. unfold env_burst.
  induction b as [| a b IH]; intros s H; cbn; [exact H |].
  apply IH. destruct a; cbn; auto.
Qed.

Section FramesInOrder.

Variable N : nat.

Lemma grabbed_atomic {A} k e eff (rd : State -> A) :
  (k <= N)%nat -> is_grab e = false ->
  triple (Grabbed k) (atomic e eff rd) (fun _ => Grabbed k) (SomeGrabbed N).
Proof.
  intros Hk He. apply triple_atomic.
  - intros w b rest H _. unfold Grabbed in *. cbn [log].
    rewrite map_app; cbn [map fst]; rewrite grabbed_frames_snoc, H.
    destruct e; try discriminate He; apply app_nil_r.
  - intros w H. exists k. auto.
Qed.

Lemma grabbed_next k :
  (S k <= N)%nat ->
  triple (Grabbed k) (call (GrabFrame (Z.of_nat k))) (fun _ => Grabbed (S k))
    (SomeGrabbed N).
Proof.
  intros Hk. apply triple_atomic.
  - intros w b rest H _. unfold Grabbed in *. cbn [log].
    rewrite map_app; cbn [map fst]; rewrite grabbed_frames_snoc, H, first_frames_S.
    reflexivity.
  - intros w H. exists k. split; [lia | exact H].
Qed.

Lemma captured_atomic {A} e eff (rd : State -> A) :
  is_grab e = false ->
  (forall s, stop_engine s = true -> stop_engine (eff s) = true) ->
  triple (Captured N) (atomic e eff rd) (fun _ => Captured N) (SomeGrabbed N).
Proof.
  intros He Heff. apply triple_atomic.
  - intros w b rest (k & Hk & Hg & Hs) _. exists k. split; [exact Hk |].
    split.
    + unfold Grabbed in *. cbn [log].
      rewrite map_app; cbn [map fst]; rewrite grabbed_frames_snoc, Hg.
      destruct e; try discriminate He; apply app_nil_r.
    + intros Hlt. cbn [st]. apply Heff, stop_engine_burst, Hs, Hlt.
  - intros w (k & Hk & Hg & _). exists k. auto.
Qed.

Ltac grabbed_prim k_le :=
  intros;
  lazymatch goal with
  | H : Grabbed ?k ?w |- SomeGrabbed _ ?w => exists k; split; [k_le | exact H]
  | |- triple _ _ _ _ => apply grabbed_atomic; [ k_le | reflexivity ]
  end.

Ltac captured_prim :=
  intros;
  lazymatch goal with
  | H : Captured _ ?w |- SomeGrabbed _ ?w =>
      destruct H as (?k & ?Hk & ?Hg & _); eexists; split; eassumption
  | |- triple _ _ _ _ =>
      apply captured_atomic; [ reflexivity | intros ? ?; assumption ]
  end.

Lemma grabbed_capture_frame daqs c tile writers processes k :
  (S k <= N)%nat ->
  triple (Grabbed k)
    (capture_frame daqs c tile writers processes (Z.of_nat k))
    (fun _ => Grabbed (S k)) (SomeGrabbed N).
Proof.
  intros Hk. unfold capture_frame. cbv zeta.
  eapply triple_bind with (R := fun _ => Grabbed k).
  { unfold start_pulses, start_tasks. walk ltac:(grabbed_prim ltac:(lia)). }
  intros ?. eapply triple_bind; [apply grabbed_next, Hk | intros ?].
  unfold add_image, dispatch_chunk, dispatch_to_writer, feed_processes.
  walk ltac:(grabbed_prim ltac:(lia)).
Qed.

Lemma grabbed_capture_loop daqs c tile writers processes n :
  forall k, (k + n = N)%nat ->
    triple (Grabbed k)
      (capture_loop daqs c tile writers processes n (Z.of_nat k))
      (fun _ => Captured N) (SomeGrabbed N).
Proof.
  induction n as [| n IH]; intros k Hk; cbn [capture_loop].
  - apply triple_ret. intros w H. exists k. repeat split; [lia | exact H | lia].
  - eapply triple_bind
      with (R := fun b w => Grabbed k w /\
                            (b = true -> stop_engine (st w) = true)).
    + apply triple_atomic.
      * intros w b rest H _. split; [| auto].
        unfold Grabbed in *. cbn [log].
        rewrite map_app; cbn [map fst]; rewrite grabbed_frames_snoc, H.
        apply app_nil_r.
      * intros w H. exists k. split; [lia | exact H].
    + intros [|].
      * apply triple_ret. intros w [H Hs]. exists k. repeat split; auto. lia.
      * eapply triple_bind with (R := fun _ => Grabbed (S k)).
        { eapply triple_conseq;
            [ apply grabbed_capture_frame; lia | intros w [H _]; exact H
            | auto | auto ]. }
        intros ?. replace (Z.of_nat k + 1) with (Z.of_nat (S k)) by lia.
        apply IH. lia.
Qed.

Lemma captured_engine self tile filename camera writers processes :
  N = Z.to_nat (steps tile) ->
  triple (Grabbed 0) (engine self tile filename camera writers processes)
    (fun _ => Captured N) (SomeGrabbed N).
Proof.
  intros HN. unfold engine.
  eapply triple_bind with (R := fun _ => Grabbed 0).
  { unfold setup_writer. walk ltac:(grabbed_prim ltac:(lia)). }
  intros ?. eapply triple_bind with (R := fun _ => Grabbed 0).
  { unfold setup_process. walk ltac:(grabbed_prim ltac:(lia)). }
  intros ?. eapply triple_bind with (R := fun _ => Grabbed 0).
  { unfold start_devices. walk ltac:(grabbed_prim ltac:(lia)). }
  intros ?. eapply triple_bind with (R := fun _ => Grabbed 0).
  { unfold divisor. walk ltac:(grabbed_prim ltac:(lia)). }
  intros c. eapply triple_bind with (R := fun _ => Captured N).
  { rewrite <- HN. apply (grabbed_capture_loop _ _ _ _ _ N 0%nat). lia. }
  intros ?. unfold finish. walk captured_prim.
Qed.

End FramesInOrder.

(** X4.  The engine grabs the frames in index order, with no gap and no
    repeat: at any end (return, exception, or the other parties falling
    silent) the frames grabbed are 0, 1, ..., k-1 for some k up to the tile's
    [steps]; and when the engine returns without the stop flag set, it has
    grabbed all of them. *)
Theorem frames_grabbed_in_order
  self tile filename camera writers processes w :
  log w = [] ->
  let r := engine self tile filename camera writers processes w in
  exists k,
    (k <= Z.to_nat (steps tile))%nat /\
    grabbed_frames (map fst (log (snd r))) = first_frames k /\
    (fst r = Ret tt -> stop_engine (st (snd r)) = false ->
     k = Z.to_nat (steps tile)).
Proof.
  intros Hlog r.
  pose proof (captured_engine (Z.to_nat (steps tile)) self tile filename camera
                writers processes eq_refl w) as H.
  assert (H0 : Grabbed 0 w) by (unfold Grabbed; rewrite Hlog; reflexivity).
  specialize (H H0). fold r in H.
  destruct (fst r) as [[] | e |] eqn:E.
  - destruct H as (k & Hk & Hg & Hs). exists k. repeat split; auto.
    intros _ Hstop.
    destruct (Nat.eq_dec k (Z.to_nat (steps tile))) as [-> | Hne]; auto.
    rewrite Hs in Hstop by lia. discriminate.
  - destruct H as (k & Hk & Hg). exists k. repeat split; auto. discriminate.
  - destruct H as (k & Hk & Hg). exists k. repeat split; auto. discriminate.
Qed.

Lemma frames_grabbed_in_order_witness :
  exists k,
    (k <= Z.to_nat (steps (Bench.tile_of 10)))%nat /\
    grabbed_frames
      (map fst (log (snd (engine (Bench.session Bench.one_daq 4 10)
                            (Bench.tile_of 10) "tile_0_ch_488_camera_cam0"
                            Bench.camera0 [("w", Bench.writer_of 4)] []
                            (Bench.world Bench.quiet_state
                               (repeat (Bench.prompt ["w"] []) 200))))))
    = first_frames k /\
    (fst (engine (Bench.session Bench.one_daq 4 10)
            (Bench.tile_of 10) "tile_0_ch_488_camera_cam0"
            Bench.camera0 [("w", Bench.writer_of 4)] []
            (Bench.world Bench.quiet_state
               (repeat (Bench.prompt ["w"] []) 200))) = Ret tt ->
     stop_engine
       (st (snd (engine (Bench.session Bench.one_daq 4 10)
                   (Bench.tile_of 10) "tile_0_ch_488_camera_cam0"
                   Bench.camera0 [("w", Bench.writer_of 4)] []
                   (Bench.world Bench.quiet_state
                      (repeat (Bench.prompt ["w"] []) 200))))) = false ->
     k = Z.to_nat (steps (Bench.tile_of 10))).
Proof.
  exact (frames_grabbed_in_order (Bench.session Bench.one_daq 4 10)
           (Bench.tile_of 10) "tile_0_ch_488_camera_cam0"
           Bench.camera0 [("w", Bench.writer_of 4)] []
           (Bench.world Bench.quiet_state (repeat (Bench.prompt ["w"] []) 200))
           eq_refl).
Defined.

(** The frames of that run. *)
Example ten_frames_grabbed :
  let r := Bench.capture Bench.one_daq 4 10 (repeat (Bench.prompt ["w"] []) 200) in
  fst r = Ret tt /\ stop_engine (st (snd r)) = false /\
  grabbed_frames (map fst (log (snd r))) = [0; 1; 2; 3; 4; 5; 6; 7; 8; 9].
Proof. vm_compute. repeat split; reflexivity. Qed.

(* ===================================================================== *)
(** ** Further properties: where each frame goes *)
(* ===================================================================== *)

(** The calls that handle a frame: the grab, the hand-over to a writer's
    buffer and the copy into a process's image. *)
Definition is_frame_event (e : Event) : bool :=
  match e with
  | GrabFrame _ | AddImage _ _ | BufferImageWrite _ _ => true
  | _ => false
  end.

Definition frame_events (l : list (Event * State)) : list Event :=
  filter is_frame_event (map fst l).

(** What one pass of the capture loop does with frame [i]. *)
Definition frame_round (writers : dict Writer) (processes : dict Process)
  (i : Z) : list Event :=
  GrabFrame i
  :: map (fun wn => AddImage wn i) (keys writers)
  ++ map (fun pn => BufferImageWrite pn i) (keys processes).

Definition frame_rounds (writers : dict Writer) (processes : dict Process)
  (k : nat) : list Event :=
  flat_map (frame_round writers processes) (first_frames k).

Definition Frames (P : list Event -> Prop) : World -> Prop :=
  fun w => P (frame_events (log w)).

Definition anyhow (w : World) : Prop := True.

Lemma frame_events_snoc l e s :
  frame_events (l ++ [(e, s)])
  = frame_events l ++ (if is_frame_event e then [e] else []).
Proof.
  unfold frame_events. rewrite map_app, filter_app. cbn.
  destruct (is_frame_event e); reflexivity.
Qed.

Lemma frames_atomic {A} (P : list Event -> Prop) e eff (rd : State -> A) :
  is_frame_event e = false ->
  triple (Frames P) (atomic e eff rd) (fun _ => Frames P) anyhow.
Proof.
  intros He. apply triple_atomic; [| intros; exact Logic.I].
  intros w b rest H _. unfold Frames in *. cbn [log].
  rewrite frame_events_snoc, He, app_nil_r. exact H.
Qed.

Lemma frames_event {A} (P Q : list Event -> Prop) e eff (rd : State -> A) :
  is_frame_event e = true ->
  (forall l, P l -> Q (l ++ [e])) ->
  triple (Frames P) (atomic e eff rd) (fun _ => Frames Q) anyhow.
Proof.
  intros He H. apply triple_atomic; [| intros; exact Logic.I].
  intros w b rest Hw _. unfold Frames in *. cbn [log].
  rewrite frame_events_snoc, He. apply H, Hw.
Qed.

Ltac frames_prim :=
  intros;
  lazymatch goal with
  | |- triple _ _ _ _ => apply frames_atomic; reflexivity
  | |- anyhow _ => exact Logic.I
  end.

Section FrameRounds.

Variable writers : dict Writer.
Variable processes : dict Process.

(** The frame events so far: [k] full rounds and then [tail]. *)
Definition Rounds (k : nat) (tail : list Event) (l : list Event) : Prop :=
  l = frame_rounds writers processes k ++ tail.

Lemma frame_rounds_S k :
  frame_rounds writers processes (S k)
  = frame_rounds writers processes k
    ++ frame_round writers processes (Z.of_nat k).
Proof.
  unfold frame_rounds. rewrite first_frames_S, flat_map_app. cbn.
  rewrite app_nil_r. reflexivity.
Qed.

Lemma rounds_add_images k i :
  triple (Frames (Rounds k [GrabFrame i]))
    (for_each writers (fun '(writer_name, _) => add_image writer_name i))
    (fun _ => Frames (Rounds k (GrabFrame i
                                :: map (fun wn => AddImage wn i) (keys writers))))
    anyhow.
Proof.
  apply (triple_for_each
           (fun done => Frames (Rounds k (GrabFrame i
                                :: map (fun wn => AddImage wn i) (keys done))))).
  intros done [wn wr] rest _. unfold add_image.
  eapply triple_bind.
  - apply frames_event with
      (Q := Rounds k (GrabFrame i
              :: map (fun wn => AddImage wn i) (keys (done ++ [(wn, wr)]))));
      [reflexivity |].
    intros l Hl. unfold Rounds in *. rewrite Hl. unfold keys.
    rewrite map_app, map_app, <- app_assoc. reflexivity.
  - intros [|]; [apply keeps_ret | apply triple_raise; intros; exact Logic.I].
Qed.

Lemma rounds_feed_processes k i (tail : list Event) :
  triple (Frames (Rounds k tail)) (feed_processes processes i)
    (fun _ => Frames (Rounds k (tail ++ map (fun pn => BufferImageWrite pn i)
                                          (keys processes))))
    anyhow.
Proof.
  unfold feed_processes.
  eapply triple_conseq with
    (P' := Frames (Rounds k (tail ++ map (fun pn => BufferImageWrite pn i)
                                       (keys (@nil (string * Process))))))
    (X' := anyhow);
    [ | intros w H; cbn; rewrite app_nil_r; exact H | intros ? w H; exact H
      | auto ].
  apply (triple_for_each
           (fun done => Frames (Rounds k (tail ++ map (fun pn => BufferImageWrite pn i)
                                                    (keys done))))).
  intros done [pn p] rest _.
  eapply triple_bind; [walk frames_prim | intros ?].
  eapply triple_bind; [| intros ?; walk frames_prim].
  apply frames_event; [reflexivity |].
  intros l Hl. unfold Rounds in *. rewrite Hl. unfold keys.
  rewrite map_app, map_app, <- !app_assoc. reflexivity.
Qed.

Lemma rounds_capture_frame daqs c tile k :
  triple (Frames (Rounds k []))
    (capture_frame daqs c tile writers processes (Z.of_nat k))
    (fun _ => Frames (Rounds (S k) [])) anyhow.
Proof.
  unfold capture_frame. cbv zeta.
  eapply triple_bind with (R := fun _ => Frames (Rounds k [])).
  { unfold start_pulses, start_tasks. walk frames_prim. }
  intros ?. eapply triple_bind
    with (R := fun _ => Frames (Rounds k [GrabFrame (Z.of_nat k)])).
  { apply frames_event; [reflexivity |].
    intros l Hl. unfold Rounds in *. rewrite Hl, <- app_assoc. reflexivity. }
  intros ?. eapply triple_bind; [walk frames_prim | intros ?].
  eapply triple_bind; [apply rounds_add_images | intros ?].
  eapply triple_bind.
  { unfold dispatch_chunk, dispatch_to_writer. walk frames_prim. }
  intros ?. eapply triple_conseq;
    [ apply (rounds_feed_processes k (Z.of_nat k)
               (GrabFrame (Z.of_nat k)
                :: map (fun wn => AddImage wn (Z.of_nat k)) (keys writers)))
    | intros w H; exact H | | intros w H; exact H ].
  intros ? w H. unfold Frames, Rounds in *. rewrite H, frame_rounds_S.
  rewrite app_nil_r. reflexivity.
Qed.

Definition WholeRounds (l : list Event) : Prop :=
  exists k, l = frame_rounds writers processes k.

Lemma rounds_capture_loop daqs c tile n :
  forall k,
    triple (Frames (Rounds k []))
      (capture_loop daqs c tile writers processes n (Z.of_nat k))
      (fun _ => Frames WholeRounds) anyhow.
Proof.
  induction n as [| n IH]; intros k; cbn [capture_loop].
  - apply triple_ret. intros w H. exists k. unfold Frames, Rounds in H.
    rewrite H. apply app_nil_r.
  - eapply triple_bind; [walk frames_prim |].
    intros [|].
    + apply triple_ret. intros w H. exists k. unfold Frames, Rounds in H.
      rewrite H. apply app_nil_r.
    + eapply triple_bind; [apply rounds_capture_frame | intros ?].
      replace (Z.of_nat k + 1) with (Z.of_nat (S k)) by lia. apply IH.
Qed.

Lemma rounds_engine self tile filename camera :
  triple (Frames (Rounds 0 []))
    (engine self tile filename camera writers processes)
    (fun _ => Frames WholeRounds) anyhow.
Proof.
  unfold engine.
  eapply triple_bind with (R := fun _ => Frames (Rounds 0 [])).
  { unfold setup_writer. walk frames_prim. }
  intros ?. eapply triple_bind with (R := fun _ => Frames (Rounds 0 [])).
  { unfold setup_process. walk frames_prim. }
  intros ?. eapply triple_bind with (R := fun _ => Frames (Rounds 0 [])).
  { unfold start_devices. walk frames_prim. }
  intros ?. eapply triple_bind with (R := fun _ => Frames (Rounds 0 [])).
  { unfold divisor. walk frames_prim. }
  intros c. eapply triple_bind; [apply (rounds_capture_loop _ _ _ _ 0%nat) |].
  intros ?. unfold finish. walk frames_prim.
Qed.

Lemma grabbed_frame_rounds k :
  grabbed_frames (frame_rounds writers processes k) = first_frames k.
Proof.
  induction k as [| k IH]; [reflexivity |].
  rewrite frame_rounds_S, first_frames_S.
  unfold grabbed_frames in *. rewrite flat_map_app, IH. f_equal.
  unfold frame_round. cbn [flat_map]. rewrite flat_map_app.
  assert (E1 : forall l i,
            flat_map (fun e => match e with GrabFrame j => [j] | _ => [] end)
              (map (fun wn => AddImage wn i) l) = []).
  { induction l; intros; cbn; auto. }
  assert (E2 : forall l i,
            flat_map (fun e => match e with GrabFrame j => [j] | _ => [] end)
              (map (fun pn => BufferImageWrite pn i) l) = []).
  { induction l; intros; cbn; auto. }
  rewrite E1, E2. reflexivity.
Qed.

Lemma grabbed_frames_of_frame_events l :
  grabbed_frames (frame_events l) = grabbed_frames (map fst l).
Proof.
  unfold frame_events, grabbed_frames.
  induction (map fst l) as [| e es IH]; [reflexivity |].
  cbn [filter flat_map]. destruct e; cbn; rewrite ?IH; reflexivity.
Qed.

End FrameRounds.

Lemma first_frames_length k : List.length (first_frames k) = k.
Proof. unfold first_frames. rewrite length_map, length_seq. reflexivity. Qed.

(** X5.  When the engine returns, what it did with frames is, round after
    round: grab frame i, add it to the buffer of every writer, copy it into
    the image of every process, for i = 0, 1, ..., k-1; no frame skips a
    writer or a process, none reaches one twice, and frame i+1 is grabbed
    only after frame i has reached them all.  Unless the stop flag is set,
    k is the tile's [steps]. *)
Theorem every_frame_reaches_every_consumer
  self tile filename camera writers processes w :
  log w = [] ->
  let r := engine self tile filename camera writers processes w in
  fst r = Ret tt ->
  exists k,
    (k <= Z.to_nat (steps tile))%nat /\
    frame_events (log (snd r)) = frame_rounds writers processes k /\
    (stop_engine (st (snd r)) = false -> k = Z.to_nat (steps tile)).
Proof.
  intros Hlog r Hret.
  pose proof (rounds_engine writers processes self tile filename camera w) as H.
  assert (H0 : Frames (Rounds writers processes 0 []) w).
  { unfold Frames, Rounds. rewrite Hlog. reflexivity. }
  specialize (H H0). fold r in H. rewrite Hret in H.
  destruct H as (k & Hk). exists k.
  pose proof (captured_engine (Z.to_nat (steps tile)) self tile filename camera
                writers processes eq_refl w) as G.
  assert (G0 : Grabbed 0 w) by (unfold Grabbed; rewrite Hlog; reflexivity).
  specialize (G G0). fold r in G. rewrite Hret in G.
  destruct G as (k' & Hk' & Hg & Hs).
  assert (E : k = k').
  { unfold Grabbed in Hg.
    rewrite <- grabbed_frames_of_frame_events, Hk, grabbed_frame_rounds in Hg.
    apply (f_equal (@List.length Z)) in Hg.
    rewrite !first_frames_length in Hg. exact Hg. }
  subst k'. repeat split; auto.
  intros Hstop.
  destruct (Nat.eq_dec k (Z.to_nat (steps tile))) as [-> | Hne]; auto.
  rewrite Hs in Hstop by lia. discriminate.
Qed.

Lemma every_frame_reaches_every_consumer_witness :
  exists k,
    (k <= Z.to_nat (steps (Bench.tile_of 3)))%nat /\
    frame_events
      (log (snd (engine (Bench.session Bench.one_daq 2 3) (Bench.tile_of 3)
                   "tile_0_ch_488_camera_cam0" Bench.camera0
                   [("w", Bench.writer_of 2)]
                   [("p", {| process_data_type := "uint16" |})]
                   (Bench.world Bench.quiet_state
                      (repeat (Bench.prompt ["w"] ["p"]) 200)))))
    = frame_rounds [("w", Bench.writer_of 2)]
        [("p", {| process_data_type := "uint16" |})] k /\
    (stop_engine
       (st (snd (engine (Bench.session Bench.one_daq 2 3) (Bench.tile_of 3)
                   "tile_0_ch_488_camera_cam0" Bench.camera0
                   [("w", Bench.writer_of 2)]
                   [("p", {| process_data_type := "uint16" |})]
                   (Bench.world Bench.quiet_state
                      (repeat (Bench.prompt ["w"] ["p"]) 200))))) = false ->
     k = Z.to_nat (steps (Bench.tile_of 3))).
Proof.
  refine (every_frame_reaches_every_consumer
            (Bench.session Bench.one_daq 2 3) (Bench.tile_of 3)
            "tile_0_ch_488_camera_cam0" Bench.camera0
            [("w", Bench.writer_of 2)]
            [("p", {| process_data_type := "uint16" |})]
            (Bench.world Bench.quiet_state
               (repeat (Bench.prompt ["w"] ["p"]) 200)) eq_refl _).
  vm_compute. reflexivity.
Defined.

(** The frame events of that run. *)
Example three_frames_handed_over :
  frame_events
    (log (snd (engine (Bench.session Bench.one_daq 2 3) (Bench.tile_of 3)
                 "tile_0_ch_488_camera_cam0" Bench.camera0
                 [("w", Bench.writer_of 2)]
                 [("p", {| process_data_type := "uint16" |})]
                 (Bench.world Bench.quiet_state
                    (repeat (Bench.prompt ["w"] ["p"]) 200)))))
  = [GrabFrame 0; AddImage "w" 0; BufferImageWrite "p" 0;
     GrabFrame 1; AddImage "w" 1; BufferImageWrite "p" 1;
     GrabFrame 2; AddImage "w" 2; BufferImageWrite "p" 2].
Proof. vm_compute. reflexivity. Qed.

(* ===================================================================== *)
(** ** Further properties: the stop flag *)
(* ===================================================================== *)

(** The calls that capture: triggering, grabbing, handing frames over. *)
Definition is_capture (e : Event) : bool :=
  match e with
  | CfgImplicitTiming _ _ | TaskStart _ _ | GrabFrame _ | AddImage _ _
  | ToggleBuffers _ | BufferImageWrite _ _ => true
  | _ => false
  end.

(** The stop flag is set and nothing has been captured. *)
Definition Stopped (w : World) : Prop :=
  stop_engine (st w) = true /\
  Forall (fun x => is_capture (fst x) = false) (log w).

Lemma stopped_atomic {A} e eff (rd : State -> A) :
  is_capture e = false ->
  (forall s, stop_engine s = true -> stop_engine (eff s) = true) ->
  triple Stopped (atomic e eff rd) (fun _ => Stopped) Stopped.
Proof.
  intros He Heff. apply triple_atomic; [| auto].
  intros w b rest [Hs Hl] _. split; cbn [st log].
  - apply Heff, stop_engine_burst, Hs.
  - apply Forall_app. split; [exact Hl |]. constructor; [exact He | constructor].
Qed.

Lemma stopped_modify f :
  (forall s, stop_engine s = true -> stop_engine (f s) = true) ->
  triple Stopped (modify f) (fun _ => Stopped) Stopped.
Proof.
  intros Hf. apply triple_modify. intros w [Hs Hl]. split; cbn; auto.
Qed.

Ltac flag_kept :=
  intros ? ?; cbn;
  repeat match goal with
         | |- context [if ?c then _ else _] => destruct c
         end;
  cbn; assumption.

Ltac stopped_prim :=
  intros;
  lazymatch goal with
  | H : Stopped ?w |- Stopped ?w => exact H
  | |- triple _ (modify _) _ _ => apply stopped_modify; flag_kept
  | |- triple _ _ _ _ => apply stopped_atomic; [ reflexivity | flag_kept ]
  end.

Lemma stopped_capture_loop daqs c tile writers processes n i :
  triple Stopped (capture_loop daqs c tile writers processes n i)
    (fun _ => Stopped) Stopped.
Proof.
  destruct n as [| n]; cbn [capture_loop]; [apply keeps_ret |].
  eapply triple_bind with (R := fun b w => Stopped w /\ b = true).
  - apply triple_atomic; [| auto].
    intros w b rest [Hs Hl] _. cbn [st log].
    pose proof (stop_engine_burst _ b Hs) as Hb.
    repeat split; auto.
    apply Forall_app. split; [exact Hl |]. repeat constructor.
  - intros [|].
    + apply triple_ret. intros w [H _]. exact H.
    + intros w [_ H]. discriminate.
Qed.

Lemma stopped_engine self tile filename camera writers processes :
  triple Stopped (engine self tile filename camera writers processes)
    (fun _ => Stopped) Stopped.
Proof.
  unfold engine, setup_writer, setup_process, start_devices, divisor.
  eapply triple_bind; [walk stopped_prim | intros ?].
  eapply triple_bind; [walk stopped_prim | intros ?].
  eapply triple_bind; [walk stopped_prim | intros ?].
  eapply triple_bind; [walk stopped_prim | intros ?].
  eapply triple_bind; [apply stopped_capture_loop | intros ?].
  unfold finish. walk stopped_prim.
Qed.

Lemma stopped_run_tiles pluralize self ts :
  forall filenames,
    triple Stopped (run_tiles pluralize self filenames ts)
      (fun _ => Stopped) Stopped.
Proof.
  induction ts as [| tile ts IH]; intros filenames; cbn [run_tiles].
  - apply keeps_ret.
  - eapply triple_bind; [| intros ?; apply IH].
    unfold run_tile, check_scan_length, acquire_tile, position_stages,
      move_stage, setup_channel, device_object, arm_daqs, start_routines,
      device_object, create_threads, run_threads, start_thread, join_thread,
      reconcile_transfers, wait_for_transfers, wait_if_alive, start_transfers.
    cbv zeta. walk stopped_prim.
Qed.

Lemma stopped_run pluralize self :
  triple Stopped (run pluralize self) (fun _ => Stopped) Stopped.
Proof.
  unfold run. eapply triple_bind; [apply stopped_run_tiles | intros ?].
  unfold wait_for_transfers, wait_if_alive. walk stopped_prim.
Qed.

(** X6.  Nothing in [run] or in [engine] clears the stop flag: if it is set
    when either begins, it is set when that ends, however it ends.  And an
    engine that begins with the flag set captures nothing: it programs and
    starts no DAQ task, grabs no frame, fills and toggles no buffer, hands
    nothing to a process. *)
Theorem stop_flag_stays_set
  pluralize self tile filename camera writers processes w :
  stop_engine (st w) = true ->
  log w = [] ->
  stop_engine (st (snd (run pluralize self w))) = true /\
  stop_engine
    (st (snd (engine self tile filename camera writers processes w))) = true /\
  Forall (fun x => is_capture (fst x) = false)
    (log (snd (engine self tile filename camera writers processes w))).
Proof.
  intros Hs Hl.
  assert (H0 : Stopped w) by (split; [exact Hs | rewrite Hl; constructor]).
  pose proof (stopped_run pluralize self w H0) as Hr.
  pose proof (stopped_engine self tile filename camera writers processes w H0)
    as He.
  split.
  - destruct (fst (run pluralize self w)); apply Hr.
  - destruct (fst (engine self tile filename camera writers processes w));
      exact He.
Qed.

Lemma stop_flag_stays_set_witness :
  stop_engine
    (st (snd (run Bench.pluralize (Bench.session Bench.one_daq 4 10)
                (Bench.world (set_stop_engine true Bench.quiet_state)
                   (repeat [] 200))))) = true /\
  stop_engine
    (st (snd (engine (Bench.session Bench.one_daq 4 10) (Bench.tile_of 10)
                "tile_0_ch_488_camera_cam0" Bench.camera0
                [("w", Bench.writer_of 4)] []
                (Bench.world (set_stop_engine true Bench.quiet_state)
                   (repeat [] 200))))) = true /\
  Forall (fun x => is_capture (fst x) = false)
    (log (snd (engine (Bench.session Bench.one_daq 4 10) (Bench.tile_of 10)
                 "tile_0_ch_488_camera_cam0" Bench.camera0
                 [("w", Bench.writer_of 4)] []
                 (Bench.world (set_stop_engine true Bench.quiet_state)
                    (repeat [] 200))))).
Proof.
  exact (stop_flag_stays_set Bench.pluralize (Bench.session Bench.one_daq 4 10)
           (Bench.tile_of 10) "tile_0_ch_488_camera_cam0" Bench.camera0
           [("w", Bench.writer_of 4)] []
           (Bench.world (set_stop_engine true Bench.quiet_state) (repeat [] 200))
           eq_refl eq_refl).
Defined.

(** What the engine still does when it begins with the flag set: the writer
    and the camera are set up and started, the loop is left at once, and the
    clean-up runs. *)
Example stopped_engine_trace :
  let r := engine (Bench.session Bench.one_daq 4 10) (Bench.tile_of 10)
             "tile_0_ch_488_camera_cam0" Bench.camera0
             [("w", Bench.writer_of 4)] []
             (Bench.world (set_stop_engine true Bench.quiet_state)
                (repeat [] 200)) in
  fst r = Ret tt /\
  skipn 12 (map fst (log (snd r)))
  = [CameraPrepare; WriterPrepare "w"; WriterStart "w"; CameraStart;
     StopIsSet; WriterWaitToFinish "w"; CameraStop; BufferCloseAndUnlink "w"].
Proof. vm_compute. split; reflexivity. Qed.

(* ===================================================================== *)
(** ** Further properties: an engine without a usable chunk size *)
(* ===================================================================== *)

(** The calls that release what the engine set up. *)
Definition is_cleanup (e : Event) : bool :=
  match e with
  | WriterWaitToFinish _ | ProcessWaitToFinish _ | CameraStop
  | BufferCloseAndUnlink _ | ShmClose _ | ShmUnlink _ => true
  | _ => false
  end.

(** Nothing was captured and nothing released so far. *)
Definition Idle (w : World) : Prop :=
  Forall (fun x => is_capture (fst x) = false /\ is_cleanup (fst x) = false)
    (log w).

Definition Never (w : World) : Prop := False.

Lemma idle_atomic {A} e eff (rd : State -> A) :
  is_capture e = false -> is_cleanup e = false ->
  triple Idle (atomic e eff rd) (fun _ => Idle) Idle.
Proof.
  intros H1 H2. apply triple_atomic; [| auto].
  intros w b rest Hl _. unfold Idle in *. cbn [log].
  apply Forall_app. split; [exact Hl |]. repeat constructor; assumption.
Qed.

Ltac idle_prim :=
  intros;
  lazymatch goal with
  | H : Idle ?w |- Idle ?w => exact H
  | |- triple _ _ _ _ => apply idle_atomic; reflexivity
  end.

Lemma triple_never {A} (m : M A) Q X : triple Never m Q X.
Proof. intros w []. Qed.

Lemma idle_engine_without_chunk
  self tile filename camera writers processes :
  self_chunk_count_px self = None \/ self_chunk_count_px self = Some 0 ->
  triple Idle (engine self tile filename camera writers processes)
    (fun _ => Never) Idle.
Proof.
  intros Hc. unfold engine, setup_writer, setup_process, start_devices.
  eapply triple_bind; [walk idle_prim | intros ?].
  eapply triple_bind; [walk idle_prim | intros ?].
  eapply triple_bind; [walk idle_prim | intros ?].
  eapply triple_bind with (R := fun _ => Never); [| intros ?; apply triple_never].
  unfold divisor. destruct Hc as [-> | ->]; cbn; apply triple_raise; auto.
Qed.

(** X7.  An engine whose session has no chunk size (no writer was
    configured, so [self.chunk_count_px] is [None]) or the chunk size 0
    never returns: once the writers, the processes and the camera have been
    set up and started it fails at the chunk arithmetic of line 249, and
    whatever was started is left as it is: no frame is grabbed and none of
    the clean-up calls of lines 314-331 is made. *)
Theorem engine_needs_chunk_size
  self tile filename camera writers processes w :
  self_chunk_count_px self = None \/ self_chunk_count_px self = Some 0 ->
  log w = [] ->
  let r := engine self tile filename camera writers processes w in
  fst r <> Ret tt /\
  Forall (fun x => is_capture (fst x) = false /\ is_cleanup (fst x) = false)
    (log (snd r)).
Proof.
  intros Hc Hl r.
  pose proof (idle_engine_without_chunk self tile filename camera writers
                processes Hc w) as H.
  assert (H0 : Idle w) by (unfold Idle; rewrite Hl; constructor).
  specialize (H H0). fold r in H.
  destruct (fst r) as [[] | e |]; [destruct H | |]; split;
    solve [discriminate | exact H].
Qed.

Lemma engine_needs_chunk_size_witness :
  fst (engine {| instrument := Bench.one_daq; tiles := [Bench.tile_of 4];
                 writers := []; processes := None; routines := None;
                 transfers := None; self_chunk_count_px := None |}
         (Bench.tile_of 4) "tile_0_ch_488_camera_cam0" Bench.camera0 [] []
         (Bench.world Bench.quiet_state (repeat [] 50))) <> Ret tt /\
  Forall (fun x => is_capture (fst x) = false /\ is_cleanup (fst x) = false)
    (log (snd (engine {| instrument := Bench.one_daq; tiles := [Bench.tile_of 4];
                         writers := []; processes := None; routines := None;
                         transfers := None; self_chunk_count_px := None |}
                 (Bench.tile_of 4) "tile_0_ch_488_camera_cam0" Bench.camera0
                 [] [] (Bench.world Bench.quiet_state (repeat [] 50))))).
Proof.
  exact (engine_needs_chunk_size
           {| instrument := Bench.one_daq; tiles := [Bench.tile_of 4];
              writers := []; processes := None; routines := None;
              transfers := None; self_chunk_count_px := None |}
           (Bench.tile_of 4) "tile_0_ch_488_camera_cam0" Bench.camera0 [] []
           (Bench.world Bench.quiet_state (repeat [] 50))
           (or_introl eq_refl) eq_refl).
Defined.

(** That run: the camera is prepared and started, then the division fails. *)
Example engine_without_writers_trace :
  let r := engine {| instrument := Bench.one_daq; tiles := [Bench.tile_of 4];
                     writers := []; processes := None; routines := None;
                     transfers := None; self_chunk_count_px := None |}
             (Bench.tile_of 4) "tile_0_ch_488_camera_cam0" Bench.camera0 [] []
             (Bench.world Bench.quiet_state (repeat [] 50)) in
  fst r = Raise TypeError /\
  map fst (log (snd r)) = [CameraPrepare; CameraStart].
Proof. vm_compute. split; reflexivity. Qed.

(* ===================================================================== *)
(** ** Further properties: [stop_acquisition] *)
(* ===================================================================== *)

Lemma joins_end threads :
  forall w r,
    stop_engine (st w) = true ->
    for_each threads
      (fun '(camera_id, status) => join_thread camera_id status) w = r ->
    (fst r = Ret tt \/ fst r = Raise RuntimeError \/ fst r = Stalled) /\
    stop_engine (st (snd r)) = true.
Proof.
  induction threads as [| [id status] threads IH]; intros w r Hs <-;
    cbn [for_each].
  - cbn. auto.
  - unfold bind.
    destruct status; cbn [join_thread]; try (cbn; solve [auto]);
      unfold act, atomic;
      (destruct (sched w) as [| b rest]; [cbn; auto |]);
      (eapply IH; [| reflexivity]); cbn; apply stop_engine_burst, Hs.
Qed.

(** X8.  [stop_acquisition] never returns to its caller: whatever threads
    are registered and whatever state they are in, it ends with
    [RuntimeError] (also when joining a thread that was never started is what
    fails), unless the other parties fall silent first.  Once its first
    action is through, the stop flag is set when it ends. *)
Theorem stop_acquisition_never_returns w :
  sched w <> [] ->
  let r := stop_acquisition w in
  (fst r = Raise RuntimeError \/ fst r = Stalled) /\
  stop_engine (st (snd r)) = true.
Proof.
  intros Hsched r.
  assert (Er : r = stop_acquisition w) by reflexivity. clearbody r.
  unfold stop_acquisition, bind, act, atomic, gets in Er.
  destruct (sched w) as [| b rest]; [contradiction |].
  cbn [fst snd st] in Er.
  set (w1 := {| st := set_stop_engine true (env_burst (st w) b);
                sched := rest;
                log := log w ++ [(StopEngineSet, env_burst (st w) b)] |}) in Er.
  subst r.
  match goal with
  | |- context [for_each ?l ?f w1] =>
      destruct (for_each l f w1) as [[[] | e |] w2] eqn:E;
      destruct (joins_end l w1 _ eq_refl E) as [H Hs]
  end; cbn in *; (split; [| exact Hs]).
  - left. reflexivity.
  - destruct H as [H | [H | H]]; try discriminate.
    injection H as ->. left. reflexivity.
  - right. reflexivity.
Qed.

Lemma stop_acquisition_never_returns_witness :
  (fst (stop_acquisition
          (Bench.world (set_acquisition_threads
                          [("cam0", Created); ("cam1", Started)]
                          Bench.quiet_state) (repeat [] 5)))
   = Raise RuntimeError \/
   fst (stop_acquisition
          (Bench.world (set_acquisition_threads
                          [("cam0", Created); ("cam1", Started)]
                          Bench.quiet_state) (repeat [] 5)))
   = Stalled) /\
  stop_engine
    (st (snd (stop_acquisition
                (Bench.world (set_acquisition_threads
                                [("cam0", Created); ("cam1", Started)]
                                Bench.quiet_state) (repeat [] 5))))) = true.
Proof.
  refine (stop_acquisition_never_returns
            (Bench.world (set_acquisition_threads
                            [("cam0", Created); ("cam1", Started)]
                            Bench.quiet_state) (repeat [] 5)) _).
  discriminate.
Defined.

(** With a thread that was never started registered first, the join of that
    thread is what raises, and the started thread behind it is not joined. *)
Example stop_with_unstarted_thread :
  let r := stop_acquisition
             (Bench.world (set_acquisition_threads
                             [("cam0", Created); ("cam1", Started)]
                             Bench.quiet_state) (repeat [] 5)) in
  fst r = Raise RuntimeError /\ map fst (log (snd r)) = [StopEngineSet].
Proof. vm_compute. split; reflexivity. Qed.

(* ===================================================================== *)
(** ** Further properties: positioning the stages *)
(* ===================================================================== *)

(** The stages [ids] are at rest. *)
Definition Settled (ids : list string) (w : World) : Prop :=
  forall id, In id ids -> axis_moving (st w) id = false.

Lemma axis_at_rest_burst s b id :
  axis_moving s id = false -> axis_moving (env_burst s b) id = false.
Proof.
  revert s. unfold env_burst.
  induction b as [| a b IH]; intros s H; cbn; [exact H |].
  apply IH. destruct a; cbn; auto.
  unfold upd. destruct (String.eqb stage id); auto.
Qed.

Lemma settled_atomic {A} ids e eff (rd : State -> A) :
  (forall s id, In id ids -> axis_moving s id = false ->
                axis_moving (eff s) id = false) ->
  triple (Settled ids) (atomic e eff rd) (fun _ => Settled ids) anyhow.
Proof.
  intros Heff. apply triple_atomic; [| intros; exact Logic.I].
  intros w b rest H _ id Hin. cbn [st].
  apply Heff; [exact Hin |]. apply axis_at_rest_burst, H, Hin.
Qed.

Ltac settled_prim :=
  intros;
  lazymatch goal with
  | |- anyhow _ => exact Logic.I
  | |- triple _ _ _ _ =>
      apply settled_atomic; intros ? ? ?Hin ?;
      first [ solve [destruct Hin] | cbn; assumption ]
  end.

Lemma settled_wait_axis ids tile id stage fuel :
  triple (Settled ids) (wait_axis fuel tile id stage)
    (fun _ => Settled (ids ++ [id])) anyhow.
Proof.
  induction fuel as [| fuel IH]; cbn [wait_axis].
  - apply triple_stalled. intros; exact Logic.I.
  - eapply triple_bind
      with (R := fun b w => Settled ids w /\
                            (b = false -> axis_moving (st w) id = false)).
    + apply triple_atomic; [| intros; exact Logic.I].
      intros w b rest H _. split; [| cbn [st]; auto].
      intros id' Hin. cbn [st]. apply axis_at_rest_burst, H, Hin.
    + intros [|].
      * eapply triple_bind with (R := fun _ => Settled ids).
        { eapply triple_conseq with (P' := Settled ids) (X' := anyhow);
            [ apply keeps_getitem; intros; exact Logic.I
            | intros w [H _]; exact H | intros ? w H; exact H | auto ]. }
        intros ?. eapply triple_bind; [settled_prim | intros ?; exact IH].
      * apply triple_ret. intros w [H Hid] id' Hin.
        apply in_app_or in Hin. destruct Hin as [Hin | [<- | []]]; auto.
Qed.

Lemma settled_position_stages i tile :
  (forall id, In id (keys (tiling_stages i)) ->
              ~ In id (keys (scanning_stages i))) ->
  triple (Settled []) (position_stages i tile)
    (fun _ => Settled (keys (tiling_stages i))) anyhow.
Proof.
  intros Hdisjoint. unfold position_stages.
  eapply triple_bind with (R := fun _ => Settled []).
  { unfold move_stage. walk settled_prim. }
  intros ?. eapply triple_bind
    with (R := fun _ => Settled (keys (tiling_stages i))).
  { apply (triple_for_each (fun done => Settled (keys done))).
    intros done [id stage] rest _. unfold keys. rewrite map_app.
    apply triple_with_fuel. intros fuel. apply settled_wait_axis. }
  intros ?. apply keeps_for_each. intros [sid stage] Hin.
  unfold move_stage.
  eapply triple_bind; [apply keeps_getitem; intros; exact Logic.I | intros ?].
  apply settled_atomic. intros s id Hid Hrest. cbn. unfold upd.
  destruct (String.eqb_spec sid id) as [-> | _]; [| exact Hrest].
  exfalso. apply (Hdisjoint id Hid). unfold keys.
  change id with (fst (id, stage)). apply in_map, Hin.
Qed.

(** X9.  When the positioning of lines 76-99 returns, every tiling stage has
    been seen at rest after it was sent to the tile's position, and is at
    rest: the scanning stages are sent off last and are not waited for.
    (No stage is both a tiling and a scanning stage.) *)
Theorem tiling_stages_settled i tile w :
  (forall id, In id (keys (tiling_stages i)) ->
              ~ In id (keys (scanning_stages i))) ->
  let r := position_stages i tile w in
  fst r = Ret tt ->
  forall id, In id (keys (tiling_stages i)) ->
    axis_moving (st (snd r)) id = false.
Proof.
  intros Hdisjoint r Hret.
  pose proof (settled_position_stages i tile Hdisjoint w) as H.
  assert (H0 : Settled [] w) by (intros id []).
  specialize (H H0). fold r in H. rewrite Hret in H. exact H.
Qed.

Definition two_stages : Instrument :=
  {| devices := []; tiling_stages := [("stage_x", {| instrument_axis := "x" |})];
     scanning_stages := [("stage_z", {| instrument_axis := "z" |})];
     channels := []; collections := []; daqs := []; cameras := [] |}.

Lemma tiling_stages_settled_witness :
  axis_moving
    (st (snd (position_stages two_stages (Bench.tile_of 4)
                (Bench.world Bench.quiet_state
                   ([[]; []; []; [AxisSettled "stage_x"]; []; []]))))) "stage_x"
  = false.
Proof.
  refine (tiling_stages_settled two_stages (Bench.tile_of 4)
            (Bench.world Bench.quiet_state
               ([[]; []; []; [AxisSettled "stage_x"]; []; []])) _ _
            "stage_x" (or_introl eq_refl)).
  - intros id [<- | []] [E | []]. discriminate.
  - vm_compute. reflexivity.
Defined.

(** That run: the tiling stage is polled until it has settled, the scanning
    stage is sent off and left moving. *)
Example stages_positioned_trace :
  let r := position_stages two_stages (Bench.tile_of 4)
             (Bench.world Bench.quiet_state
                ([[]; []; []; [AxisSettled "stage_x"]; []; []])) in
  map fst (log (snd r))
  = [MoveAbsolute "stage_x" 0; IsAxisMoving "stage_x"; Sleep;
     IsAxisMoving "stage_x"; MoveAbsolute "stage_z" 0] /\
  axis_moving (st (snd r)) "stage_z" = true.
Proof. vm_compute. split; reflexivity. Qed.

(* ===================================================================== *)
(** ** Further properties: a tile on a channel the instrument lacks *)
(* ===================================================================== *)

Definition is_stage_call (e : Event) : bool :=
  match e with
  | MoveAbsolute _ _ | IsAxisMoving _ | Sleep => true
  | _ => false
  end.

(** Only the stages have been talked to. *)
Definition StagesOnly (w : World) : Prop :=
  Forall (fun x => is_stage_call (fst x) = true) (log w).

Lemma stages_only_atomic {A} e eff (rd : State -> A) :
  is_stage_call e = true ->
  triple StagesOnly (atomic e eff rd) (fun _ => StagesOnly) StagesOnly.
Proof.
  intros He. apply triple_atomic; [| auto].
  intros w b rest Hl _. unfold StagesOnly in *. cbn [log].
  apply Forall_app. split; [exact Hl |]. repeat constructor. exact He.
Qed.

Ltac stages_only_prim :=
  intros;
  lazymatch goal with
  | H : StagesOnly ?w |- StagesOnly ?w => exact H
  | |- triple _ _ _ _ => apply stages_only_atomic; reflexivity
  end.

Lemma stages_only_position_stages i tile :
  triple StagesOnly (position_stages i tile) (fun _ => StagesOnly) StagesOnly.
Proof. unfold position_stages, move_stage. walk stages_only_prim. Qed.

(** X10.  A tile whose channel is not among the instrument's channels is
    found out only after the stages have been sent to the tile's position:
    its pass never returns, it ends with [KeyError] on the channel once the
    stages are in place, and up to then only the stages have been talked to:
    no device is enabled or set, no DAQ armed, no thread created. *)
Theorem unknown_channel_fails_after_stages pluralize self tile filenames w :
  dict_get (channels (instrument self)) (channel tile) = None ->
  log w = [] ->
  let r := acquire_tile pluralize self tile filenames w in
  fst r <> Ret tt /\
  (fst (position_stages (instrument self) tile w) = Ret tt ->
   fst r = Raise (KeyError (channel tile))) /\
  Forall (fun x => is_stage_call (fst x) = true) (log (snd r)).
Proof.
  intros Hch Hlog r.
  assert (E : r = match position_stages (instrument self) tile w with
                  | (Ret _, w') => (Raise (KeyError (channel tile)), w')
                  | (Raise e, w') => (Raise e, w')
                  | (Stalled, w') => (Stalled, w')
                  end).
  { subst r. unfold acquire_tile, bind at 1.
    destruct (position_stages (instrument self) tile w) as [[[] | e |] w'];
      try reflexivity.
    unfold bind at 1, setup_channel, bind at 1, getitem. rewrite Hch.
    reflexivity. }
  pose proof (stages_only_position_stages (instrument self) tile w) as H.
  assert (H0 : StagesOnly w) by (unfold StagesOnly; rewrite Hlog; constructor).
  specialize (H H0). rewrite E.
  destruct (position_stages (instrument self) tile w) as [[[] | e |] w'];
    cbn in *; repeat split; try discriminate; auto.
Qed.

Lemma unknown_channel_fails_after_stages_witness :
  fst (acquire_tile Bench.pluralize (Bench.session two_stages 4 10)
         (Bench.tile_of 10) []
         (Bench.world Bench.quiet_state (repeat [AxisSettled "stage_x"] 9)))
  <> Ret tt /\
  (fst (position_stages (instrument (Bench.session two_stages 4 10))
          (Bench.tile_of 10)
          (Bench.world Bench.quiet_state (repeat [AxisSettled "stage_x"] 9)))
   = Ret tt ->
   fst (acquire_tile Bench.pluralize (Bench.session two_stages 4 10)
          (Bench.tile_of 10) []
          (Bench.world Bench.quiet_state (repeat [AxisSettled "stage_x"] 9)))
   = Raise (KeyError (channel (Bench.tile_of 10)))) /\
  Forall (fun x => is_stage_call (fst x) = true)
    (log (snd (acquire_tile Bench.pluralize (Bench.session two_stages 4 10)
                 (Bench.tile_of 10) []
                 (Bench.world Bench.quiet_state
                    (repeat [AxisSettled "stage_x"] 9))))).
Proof.
  exact (unknown_channel_fails_after_stages Bench.pluralize
           (Bench.session two_stages 4 10) (Bench.tile_of 10) []
           (Bench.world Bench.quiet_state (repeat [AxisSettled "stage_x"] 9))
           eq_refl eq_refl).
Defined.

(** That pass: both stages are moved, then the channel look-up fails. *)
Example unknown_channel_trace :
  let r := acquire_tile Bench.pluralize (Bench.session two_stages 4 10)
             (Bench.tile_of 10) []
             (Bench.world Bench.quiet_state (repeat [AxisSettled "stage_x"] 9)) in
  fst r = Raise (KeyError "488") /\
  map fst (log (snd r))
  = [MoveAbsolute "stage_x" 0; IsAxisMoving "stage_x"; MoveAbsolute "stage_z" 0].
Proof. vm_compute. split; reflexivity. Qed.

(* ===================================================================== *)
(** ** Further properties: the capture threads of a tile *)
(* ===================================================================== *)

(** [self.acquisition_threads] after lines 139-155. *)
Definition register (cams : dict Camera) (T : dict ThreadStatus)
  : dict ThreadStatus :=
  fold_left (fun t c => dict_set t (fst c) Created) cams T.

Definition all_status (v : ThreadStatus) (T : dict ThreadStatus)
  : dict ThreadStatus :=
  map (fun x => (fst x, v)) T.

Definition Threads (T : dict ThreadStatus) (w : World) : Prop :=
  acquisition_threads (st w) = T.

Lemma threads_atomic {A} T e eff (rd : State -> A) :
  (forall s, acquisition_threads (eff s) = acquisition_threads s) ->
  triple (Threads T) (atomic e eff rd) (fun _ => Threads T) anyhow.
Proof.
  intros Heff. apply triple_atomic; [| intros; exact Logic.I].
  intros w b rest H _. unfold Threads in *. cbn [st].
  rewrite Heff, env_burst_threads. exact H.
Qed.

Lemma threads_set {A} T id v e (rd : State -> A) :
  triple (Threads T) (atomic e (set_thread id v) rd)
    (fun _ => Threads (dict_set T id v)) anyhow.
Proof.
  apply triple_atomic; [| intros; exact Logic.I].
  intros w b rest H _. unfold Threads in *. cbn.
  rewrite env_burst_threads, H. reflexivity.
Qed.

Lemma threads_modify T f :
  (forall s, acquisition_threads (f s) = acquisition_threads s) ->
  triple (Threads T) (modify f) (fun _ => Threads T) anyhow.
Proof.
  intros Hf. apply triple_modify. intros w H. unfold Threads in *. cbn.
  rewrite Hf. exact H.
Qed.

Ltac threads_prim :=
  intros;
  lazymatch goal with
  | |- anyhow _ => exact Logic.I
  | |- triple _ (modify _) _ _ => apply threads_modify; intros; reflexivity
  | |- triple _ _ _ _ =>
      apply threads_atomic; intros; cbn;
      repeat match goal with
             | |- context [if ?c then _ else _] => destruct c
             end;
      reflexivity
  end.

Lemma keys_dict_set {V} (d : dict V) k (v : V) :
  keys (dict_set d k v) = if mem k (keys d) then keys d else keys d ++ [k].
Proof.
  induction d as [| [k' v'] d IH]; cbn; [reflexivity |].
  rewrite String.eqb_sym.
  destruct (String.eqb k k') eqn:E; cbn; [reflexivity |].
  unfold keys in *. rewrite IH. unfold mem.
  destruct (existsb (String.eqb k) (map fst d)); reflexivity.
Qed.

Lemma nodup_keys_dict_set {V} (d : dict V) k (v : V) :
  NoDup (keys d) -> NoDup (keys (dict_set d k v)).
Proof.
  intros H. rewrite keys_dict_set.
  destruct (mem k (keys d)) eqn:E; [exact H |].
  apply NoDup_app; [exact H | repeat constructor; intros [] |].
  intros x Hin [<- | []].
  apply mem_In in Hin. congruence.
Qed.

Lemma nodup_keys_register cams T :
  NoDup (keys T) -> NoDup (keys (register cams T)).
Proof.
  unfold register. revert T.
  induction cams as [| c cams IH]; intros T H; cbn; [exact H |].
  apply IH, nodup_keys_dict_set, H.
Qed.

Lemma register_has cams :
  forall T cam,
    In cam (keys cams) \/ In cam (keys T) -> In cam (keys (register cams T)).
Proof.
  unfold register.
  induction cams as [| [c x] cams IH]; intros T cam H; cbn.
  - destruct H as [[] | H]; exact H.
  - apply IH. rewrite keys_dict_set.
    destruct H as [[<- | H] | H]; auto; right.
    + cbn. destruct (mem c (keys T)) eqn:E;
        [apply mem_In, E | apply in_or_app; right; left; reflexivity].
    + destruct (mem c (keys T)); [exact H | apply in_or_app; left; exact H].
Qed.

Lemma dict_get_all_status v T k :
  In k (keys T) -> dict_get (all_status v T) k = Some v.
Proof.
  induction T as [| [k' v'] T IH]; cbn; [intros [] |].
  intros [-> | H]; [rewrite String.eqb_refl; reflexivity |].
  destruct (String.eqb k' k); [reflexivity | apply IH, H].
Qed.

Lemma keys_all_status v T : keys (all_status v T) = keys T.
Proof. unfold keys, all_status. rewrite map_map. reflexivity. Qed.

Lemma dict_set_middle {V} (pre post : dict V) k (v v' : V) :
  ~ In k (keys pre) ->
  dict_set (pre ++ (k, v) :: post) k v' = pre ++ (k, v') :: post.
Proof.
  induction pre as [| [k0 v0] pre IH]; cbn; intros H.
  - rewrite String.eqb_refl. reflexivity.
  - destruct (String.eqb_spec k0 k) as [E | _]; [tauto |].
    rewrite IH by tauto. reflexivity.
Qed.

Section Sweep.

(** A loop over the threads that leaves each in state [v], and goes through
    only for threads that are [good]. *)
Variable f : string -> ThreadStatus -> M unit.
Variable v : ThreadStatus.
Variable good : ThreadStatus -> Prop.
Hypothesis f_sets :
  forall id status T0,
    triple (Threads T0) (f id status)
      (fun _ w => Threads (dict_set T0 id v) w /\ good status) anyhow.

Lemma threads_sweep T :
  NoDup (keys T) ->
  triple (Threads T) (for_each T (fun '(id, status) => f id status))
    (fun _ w => Threads (all_status v T) w /\ Forall (fun x => good (snd x)) T)
    anyhow.
Proof.
  intros Hnd.
  eapply triple_conseq with
    (P' := (fun done w =>
              Threads (all_status v done ++ skipn (List.length done) T) w /\
              Forall (fun x => good (snd x)) done) [])
    (Q' := fun _ w =>
             Threads (all_status v T ++ skipn (List.length T) T) w /\
             Forall (fun x => good (snd x)) T)
    (X' := anyhow);
    [ | intros w H; split; [exact H | constructor]
      | intros ? w [H1 H2]; split; [| exact H2];
        rewrite skipn_all, app_nil_r in H1; exact H1
      | auto ].
  apply (triple_for_each
           (fun done w =>
              Threads (all_status v done ++ skipn (List.length done) T) w /\
              Forall (fun x => good (snd x)) done)).
  intros done [id status] rest E.
  assert (Hskip : skipn (List.length done) T = (id, status) :: rest).
  { rewrite E, skipn_app, skipn_all, Nat.sub_diag. reflexivity. }
  assert (Hskip' : skipn (List.length (done ++ [(id, status)])) T = rest).
  { rewrite E, length_app, skipn_app, skipn_all2 by (cbn; lia).
    cbn [List.length]. replace (_ - _)%nat with 1%nat by lia. reflexivity. }
  assert (Hfresh : ~ In id (keys (all_status v done))).
  { rewrite keys_all_status. rewrite E in Hnd. unfold keys in *.
    rewrite map_app in Hnd. apply NoDup_remove_2 in Hnd.
    intros Hin. apply Hnd, in_or_app. left. exact Hin. }
  rewrite Hskip, Hskip'.
  intros w [Hw Hg].
  pose proof (f_sets id status _ w Hw) as H.
  destruct (fst (f id status w)); [| exact Logic.I | exact Logic.I].
  destruct H as [H Hgood]. split.
  - unfold Threads in *. rewrite H, dict_set_middle by exact Hfresh.
    unfold all_status. rewrite map_app, <- app_assoc. reflexivity.
  - apply Forall_app. split; [exact Hg | repeat constructor; exact Hgood].
Qed.

End Sweep.

Lemma start_thread_sets id status T0 :
  triple (Threads T0) (start_thread id status)
    (fun _ w => Threads (dict_set T0 id Started) w /\ status = Created) anyhow.
Proof.
  destruct status; cbn [start_thread];
    [| apply triple_raise; intros; exact Logic.I
     | apply triple_raise; intros; exact Logic.I ].
  eapply triple_conseq with
    (P' := Threads T0) (Q' := fun _ => Threads (dict_set T0 id Started))
    (X' := anyhow);
    [ apply threads_set | intros w H; exact H
    | intros ? w H; split; [exact H | reflexivity] | intros w H; exact H ].
Qed.

Lemma join_thread_sets id status T0 :
  triple (Threads T0) (join_thread id status)
    (fun _ w => Threads (dict_set T0 id Finished) w /\ status <> Created)
    anyhow.
Proof.
  destruct status; cbn [join_thread];
    [ apply triple_raise; intros; exact Logic.I | | ];
    (eapply triple_conseq with
       (P' := Threads T0) (Q' := fun _ => Threads (dict_set T0 id Finished))
       (X' := anyhow);
     [ apply threads_set | intros w H; exact H
     | intros ? w H; split; [exact H | discriminate] | intros w H; exact H ]).
Qed.

(** Lines 158-165 go through only when every registered thread is fresh, and
    leave every one of them joined. *)
Lemma threads_run_threads T :
  NoDup (keys T) ->
  triple (Threads T) run_threads
    (fun _ w => Threads (all_status Finished T) w /\
                Forall (fun x => snd x = Created) T)
    anyhow.
Proof.
  intros Hnd. unfold run_threads.
  eapply triple_bind with (R := fun a w => Threads T w /\ a = T).
  { apply triple_gets. intros w H. split; [exact H | exact H]. }
  intros T1. eapply triple_bind
    with (R := fun _ w => Threads (all_status Started T) w /\
                          Forall (fun x => snd x = Created) T).
  { intros w [Hw ->].
    exact (threads_sweep start_thread Started (fun s => s = Created)
             start_thread_sets T Hnd w Hw). }
  intros ?. eapply triple_bind
    with (R := fun a w => (Threads (all_status Started T) w /\
                           Forall (fun x => snd x = Created) T) /\
                          a = all_status Started T).
  { apply triple_gets. intros w H. split; [exact H | apply H]. }
  intros T2. intros w [[Hw Hc] ->].
  assert (Hnd' : NoDup (keys (all_status Started T)))
    by (rewrite keys_all_status; exact Hnd).
  pose proof (threads_sweep join_thread Finished (fun s => s <> Created)
                join_thread_sets (all_status Started T) Hnd' w Hw) as H.
  destruct (fst _); [| exact Logic.I | exact Logic.I].
  destruct H as [H _]. split; [| exact Hc].
  unfold Threads, all_status in *. rewrite map_map in H. exact H.
Qed.

Lemma threads_create_threads self filenames T :
  triple (Threads T) (create_threads self filenames)
    (fun _ => Threads (register (cameras (instrument self)) T)) anyhow.
Proof.
  unfold create_threads.
  apply (triple_for_each (fun done => Threads (register done T))).
  intros done [cam x] rest _.
  replace (register (done ++ [(cam, x)]) T)
    with (dict_set (register done T) cam Created)
    by (unfold register; rewrite fold_left_app; reflexivity).
  eapply triple_bind; [apply keeps_getitem; intros; exact Logic.I | intros ?].
  eapply triple_bind; [apply keeps_getitem; intros; exact Logic.I | intros ?].
  eapply triple_bind with (R := fun _ => Threads (register done T)).
  { destruct (processes self);
      [apply keeps_getitem; intros; exact Logic.I | apply keeps_ret]. }
  intros ?. apply threads_set.
Qed.

Lemma threads_acquire_tile pluralize self tile filenames T :
  NoDup (keys T) ->
  triple (Threads T) (acquire_tile pluralize self tile filenames)
    (fun _ => Threads (all_status Finished
                         (register (cameras (instrument self)) T)))
    anyhow.
Proof.
  intros Hnd. unfold acquire_tile.
  eapply triple_bind with (R := fun _ => Threads T).
  { unfold position_stages, move_stage. walk threads_prim. }
  intros ?. eapply triple_bind with (R := fun _ => Threads T).
  { unfold setup_channel, device_object. walk threads_prim. }
  intros ?. eapply triple_bind with (R := fun _ => Threads T).
  { unfold arm_daqs. walk threads_prim. }
  intros ?. eapply triple_bind with (R := fun _ => Threads T).
  { unfold start_routines, device_object. walk threads_prim. }
  intros ?. eapply triple_bind; [apply threads_create_threads | intros ?].
  eapply triple_bind
    with (R := fun _ => Threads (all_status Finished
                                   (register (cameras (instrument self)) T))).
  { eapply triple_conseq with (X' := anyhow);
      [ apply threads_run_threads, nodup_keys_register, Hnd
      | intros w H; exact H | intros ? w [H _]; exact H | intros w H; exact H ]. }
  intros ?. eapply triple_bind; [walk threads_prim | intros ?].
  unfold reconcile_transfers, wait_for_transfers, wait_if_alive, start_transfers.
  walk threads_prim.
Qed.

(** X11.  When the pass over a tile returns, every camera of the instrument
    has a capture thread, and every registered thread, whichever it is, has
    been started and joined: no capture runs on into the next tile.
    ([self.acquisition_threads] is a dictionary: no key twice.) *)
Theorem capture_threads_joined pluralize self tile filenames w :
  NoDup (keys (acquisition_threads (st w))) ->
  let r := acquire_tile pluralize self tile filenames w in
  fst r = Ret tt ->
  (forall cam, In cam (keys (cameras (instrument self))) ->
     dict_get (acquisition_threads (st (snd r))) cam = Some Finished) /\
  (forall id status,
     In (id, status) (acquisition_threads (st (snd r))) -> status = Finished).
Proof.
  intros Hnd r Hret.
  pose proof (threads_acquire_tile pluralize self tile filenames _ Hnd w eq_refl)
    as H.
  fold r in H. rewrite Hret in H. unfold Threads in H. rewrite H. split.
  - intros cam Hin. apply dict_get_all_status, register_has. left. exact Hin.
  - intros id status Hin. unfold all_status in Hin.
    apply in_map_iff in Hin. destruct Hin as (x & [= _ <-] & _). reflexivity.
Qed.

Lemma capture_threads_joined_witness :
  (forall cam, In cam (keys (cameras (instrument (Bench.session Bench.one_daq 4 10)))) ->
     dict_get
       (acquisition_threads
          (st (snd (acquire_tile Bench.pluralize (Bench.session Bench.one_daq 4 10)
                      (Bench.tile_of 10) [("cam0", "tile_0_ch_488_camera_cam0")]
                      (Bench.world Bench.quiet_state (repeat [] 50)))))) cam
     = Some Finished) /\
  (forall id status,
     In (id, status)
        (acquisition_threads
           (st (snd (acquire_tile Bench.pluralize (Bench.session Bench.one_daq 4 10)
                       (Bench.tile_of 10) [("cam0", "tile_0_ch_488_camera_cam0")]
                       (Bench.world Bench.quiet_state (repeat [] 50)))))) ->
     status = Finished).
Proof.
  refine (capture_threads_joined Bench.pluralize (Bench.session Bench.one_daq 4 10)
            (Bench.tile_of 10) [("cam0", "tile_0_ch_488_camera_cam0")]
            (Bench.world Bench.quiet_state (repeat [] 50)) _ _).
  - constructor.
  - vm_compute. reflexivity.
Defined.

(* ===================================================================== *)
(** ** Further properties: start-up before the first frame *)
(* ===================================================================== *)

(** The calls that prepare and start the camera, the writers and the
    processes, and the grabs. *)
Definition is_device_event (e : Event) : bool :=
  match e with
  | CameraPrepare | WriterPrepare _ | WriterStart _ | CameraStart
  | ProcessStart _ | GrabFrame _ => true
  | _ => false
  end.

Definition device_events (l : list (Event * State)) : list Event :=
  filter is_device_event (map fst l).

Definition writers_up (names : list string) : list Event :=
  flat_map (fun wn => [WriterPrepare wn; WriterStart wn]) names.

(** Lines 238-244, as calls. *)
Definition startup_trace (writers : dict Writer) (processes : dict Process)
  : list Event :=
  CameraPrepare :: writers_up (keys writers)
  ++ CameraStart :: map ProcessStart (keys processes).

Section StartUp.

Variable writers : dict Writer.
Variable processes : dict Process.

(** Start-up is under way, or it is complete and only grabs have followed. *)
Definition Orderly (l : list Event) : Prop :=
  (exists q, startup_trace writers processes = l ++ q) \/
  (exists rest, l = startup_trace writers processes ++ rest /\
                Forall (fun e => is_grab e = true) rest).

Definition Running (l : list Event) : Prop :=
  exists rest, l = startup_trace writers processes ++ rest /\
               Forall (fun e => is_grab e = true) rest.

Definition Dev (P : list Event -> Prop) : World -> Prop :=
  fun w => P (device_events (log w)).

Lemma device_events_snoc l e s :
  device_events (l ++ [(e, s)])
  = device_events l ++ (if is_device_event e then [e] else []).
Proof.
  unfold device_events. rewrite map_app, filter_app. cbn.
  destruct (is_device_event e); reflexivity.
Qed.

Lemma dev_step {A} (P Q : list Event -> Prop) e eff (rd : State -> A) :
  (forall l, P l -> Q (l ++ (if is_device_event e then [e] else []))) ->
  (forall l, P l -> Orderly l) ->
  triple (Dev P) (atomic e eff rd) (fun _ => Dev Q) (Dev Orderly).
Proof.
  intros HQ HX. apply triple_atomic.
  - intros w b rest H _. unfold Dev in *. cbn [log].
    rewrite device_events_snoc. apply HQ, H.
  - intros w H. apply HX, H.
Qed.

(** The start-up has come as far as [p]. *)
Definition Upto (p : list Event) (l : list Event) : Prop := l = p.

Lemma upto_quiet {A} p q e eff (rd : State -> A) :
  startup_trace writers processes = p ++ q ->
  is_device_event e = false ->
  triple (Dev (Upto p)) (atomic e eff rd) (fun _ => Dev (Upto p)) (Dev Orderly).
Proof.
  intros Hp He. apply dev_step.
  - intros l ->. rewrite He, app_nil_r. reflexivity.
  - intros l ->. left. exists q. exact Hp.
Qed.

Lemma upto_next {A} p q e eff (rd : State -> A) :
  startup_trace writers processes = p ++ e :: q ->
  is_device_event e = true ->
  triple (Dev (Upto p)) (atomic e eff rd) (fun _ => Dev (Upto (p ++ [e])))
    (Dev Orderly).
Proof.
  intros Hp He. apply dev_step.
  - intros l ->. rewrite He. reflexivity.
  - intros l ->. left. exists (e :: q). exact Hp.
Qed.

Lemma running_atomic {A} e eff (rd : State -> A) :
  is_device_event e = false \/ is_grab e = true ->
  triple (Dev Running) (atomic e eff rd) (fun _ => Dev Running) (Dev Orderly).
Proof.
  intros He. apply dev_step.
  - intros l (rest & -> & Hg).
    destruct (is_device_event e) eqn:E.
    + destruct He as [He | He]; [discriminate |].
      exists (rest ++ [e]). rewrite app_assoc. split; [reflexivity |].
      apply Forall_app. split; [exact Hg | repeat constructor; exact He].
    + exists rest. rewrite app_nil_r. auto.
  - intros l H. right. exact H.
Qed.

Ltac upto_prim :=
  intros;
  lazymatch goal with
  | H : Dev (Upto []) ?w |- Dev Orderly ?w =>
      left; eexists; rewrite H; reflexivity
  | |- triple _ _ _ _ =>
      apply (upto_quiet [] (startup_trace writers processes));
      reflexivity
  end.

Ltac running_prim :=
  intros;
  lazymatch goal with
  | H : Dev Running ?w |- Dev Orderly ?w => right; exact H
  | |- triple _ _ _ _ =>
      apply running_atomic; first [ left; reflexivity | right; reflexivity ]
  end.

Lemma upto_start_devices :
  triple (Dev (Upto [])) (start_devices writers processes)
    (fun _ => Dev Running) (Dev Orderly).
Proof.
  unfold start_devices.
  eapply triple_bind with (R := fun _ => Dev (Upto [CameraPrepare])).
  { apply (upto_next [] (writers_up (keys writers)
                         ++ CameraStart :: map ProcessStart (keys processes)));
      reflexivity. }
  intros ?. eapply triple_bind
    with (R := fun _ => Dev (Upto (CameraPrepare :: writers_up (keys writers)))).
  { apply (triple_for_each
             (fun done => Dev (Upto (CameraPrepare :: writers_up (keys done))))).
    intros done [wn wr] rest E.
    assert (Hs : startup_trace writers processes
                 = (CameraPrepare :: writers_up (keys done))
                   ++ WriterPrepare wn :: WriterStart wn
                      :: writers_up (keys rest)
                      ++ CameraStart :: map ProcessStart (keys processes)).
    { unfold startup_trace, writers_up, keys. rewrite E, map_app, flat_map_app.
      cbn. rewrite <- app_assoc. reflexivity. }
    eapply triple_bind.
    - apply (upto_next _ _ _ _ _ Hs). reflexivity.
    - intros ?.
      replace (CameraPrepare :: writers_up (keys (done ++ [(wn, wr)])))
        with (((CameraPrepare :: writers_up (keys done)) ++ [WriterPrepare wn])
              ++ [WriterStart wn])
        by (unfold writers_up, keys; rewrite map_app, flat_map_app; cbn;
            rewrite <- !app_assoc; reflexivity).
      eapply upto_next; [| reflexivity].
      rewrite Hs, <- app_assoc. reflexivity. }
  intros ?. eapply triple_bind
    with (R := fun _ => Dev (Upto ((CameraPrepare :: writers_up (keys writers))
                                   ++ [CameraStart]))).
  { eapply upto_next; [| reflexivity]. unfold startup_trace. reflexivity. }
  intros ?. eapply triple_conseq with
    (P' := Dev (Upto ((CameraPrepare :: writers_up (keys writers))
                      ++ CameraStart
                         :: map ProcessStart (keys (@nil (string * Process))))))
    (Q' := fun _ => Dev (Upto ((CameraPrepare :: writers_up (keys writers))
                               ++ CameraStart
                                  :: map ProcessStart (keys processes))))
    (X' := Dev Orderly);
    [ | intros w H; exact H
      | intros ? w H; exists []; rewrite app_nil_r; split; [exact H | constructor]
      | intros w H; exact H ].
  apply (triple_for_each
           (fun done => Dev (Upto ((CameraPrepare :: writers_up (keys writers))
                                   ++ CameraStart
                                      :: map ProcessStart (keys done))))).
  intros done [pn p] rest E.
  replace ((CameraPrepare :: writers_up (keys writers))
           ++ CameraStart :: map ProcessStart (keys (done ++ [(pn, p)])))
    with (((CameraPrepare :: writers_up (keys writers))
           ++ CameraStart :: map ProcessStart (keys done)) ++ [ProcessStart pn])
    by (unfold keys; rewrite !map_app, <- !app_assoc; reflexivity).
  eapply upto_next; [| reflexivity].
  unfold startup_trace, keys. rewrite E, !map_app, <- !app_assoc. reflexivity.
Qed.

Lemma running_capture_loop daqs c tile n :
  forall i,
    triple (Dev Running) (capture_loop daqs c tile writers processes n i)
      (fun _ => Dev Running) (Dev Orderly).
Proof.
  induction n as [| n IH]; intros i; cbn [capture_loop]; [apply keeps_ret |].
  eapply triple_bind; [running_prim |].
  intros [|]; [apply keeps_ret |].
  eapply triple_bind; [| intros ?; apply IH].
  unfold capture_frame, start_pulses, start_tasks, add_image, dispatch_chunk,
    dispatch_to_writer, feed_processes.
  cbv zeta. walk running_prim.
Qed.

Lemma orderly_engine self tile filename camera :
  triple (Dev (Upto [])) (engine self tile filename camera writers processes)
    (fun _ => Dev Running) (Dev Orderly).
Proof.
  unfold engine.
  eapply triple_bind with (R := fun _ => Dev (Upto [])).
  { unfold setup_writer. walk upto_prim. }
  intros ?. eapply triple_bind with (R := fun _ => Dev (Upto [])).
  { unfold setup_process. walk upto_prim. }
  intros ?. eapply triple_bind; [apply upto_start_devices | intros ?].
  eapply triple_bind with (R := fun _ => Dev Running).
  { unfold divisor. walk running_prim. }
  intros c. eapply triple_bind; [apply running_capture_loop | intros ?].
  unfold finish. walk running_prim.
Qed.

End StartUp.

(** X12.  However the engine ends, its calls that prepare and start devices
    and its grabs come in this order: camera prepared; every writer, in
    turn, prepared and started; camera started; every process started; and
    only then frames are grabbed.  If the engine ends earlier, what it did
    is a beginning of that sequence: no frame is grabbed before the camera,
    every writer and every process have been started, and the camera is not
    started before every writer is. *)
Theorem started_before_first_frame
  self tile filename camera writers processes w :
  log w = [] ->
  let r := engine self tile filename camera writers processes w in
  (exists q, startup_trace writers processes = device_events (log (snd r)) ++ q) \/
  (exists rest,
     device_events (log (snd r)) = startup_trace writers processes ++ rest /\
     Forall (fun e => is_grab e = true) rest).
Proof.
  intros Hlog r.
  pose proof (orderly_engine writers processes self tile filename camera w) as H.
  assert (H0 : Dev (Upto []) w).
  { unfold Dev, Upto. rewrite Hlog. reflexivity. }
  specialize (H H0). fold r in H.
  destruct (fst r); [right; exact H | exact H | exact H].
Qed.

Lemma started_before_first_frame_witness :
  (exists q,
     startup_trace [("w", Bench.writer_of 2)]
       [("p", {| process_data_type := "uint16" |})]
     = device_events
         (log (snd (engine (Bench.session Bench.one_daq 2 3) (Bench.tile_of 3)
                      "tile_0_ch_488_camera_cam0" Bench.camera0
                      [("w", Bench.writer_of 2)]
                      [("p", {| process_data_type := "uint16" |})]
                      (Bench.world Bench.quiet_state
                         (repeat (Bench.prompt ["w"] ["p"]) 200))))) ++ q) \/
  (exists rest,
     device_events
       (log (snd (engine (Bench.session Bench.one_daq 2 3) (Bench.tile_of 3)
                    "tile_0_ch_488_camera_cam0" Bench.camera0
                    [("w", Bench.writer_of 2)]
                    [("p", {| process_data_type := "uint16" |})]
                    (Bench.world Bench.quiet_state
                       (repeat (Bench.prompt ["w"] ["p"]) 200)))))
     = startup_trace [("w", Bench.writer_of 2)]
         [("p", {| process_data_type := "uint16" |})] ++ rest /\
     Forall (fun e => is_grab e = true) rest).
Proof.
  exact (started_before_first_frame
           (Bench.session Bench.one_daq 2 3) (Bench.tile_of 3)
           "tile_0_ch_488_camera_cam0" Bench.camera0
           [("w", Bench.writer_of 2)]
           [("p", {| process_data_type := "uint16" |})]
           (Bench.world Bench.quiet_state
              (repeat (Bench.prompt ["w"] ["p"]) 200)) eq_refl).
Defined.

(** The device calls of that run. *)
Example startup_then_grabs :
  device_events
    (log (snd (engine (Bench.session Bench.one_daq 2 3) (Bench.tile_of 3)
                 "tile_0_ch_488_camera_cam0" Bench.camera0
                 [("w", Bench.writer_of 2)]
                 [("p", {| process_data_type := "uint16" |})]
                 (Bench.world Bench.quiet_state
                    (repeat (Bench.prompt ["w"] ["p"]) 200)))))
  = [CameraPrepare; WriterPrepare "w"; WriterStart "w"; CameraStart;
     ProcessStart "p"; GrabFrame 0; GrabFrame 1; GrabFrame 2].
Proof. vm_compute. reflexivity. Qed.

(* ===================================================================== *)
(** ** Further properties: the chunk locks *)
(* ===================================================================== *)

Definition held_is (writer_name : string) (held : option string) : bool :=
  match held with
  | Some w => String.eqb writer_name w
  | None => false
  end.

Definition is_free (held : option string) : bool :=
  match held with
  | None => true
  | Some _ => false
  end.

(** The machine for the chunk locks: it remembers whose lock is held and
    whether all is well.  A lock taken while one is held, a lock released
    that is not held, and a buffer toggled, a [shm_name] assigned or a
    [done_reading] cleared for a writer whose lock is not held spoil the
    run. *)
Definition watch_lock (t : option string * bool) (e : Event)
  : option string * bool :=
  match e with
  | LockAcquire w => (Some w, snd t && is_free (fst t))
  | LockRelease w => (None, snd t && held_is w (fst t))
  | ToggleBuffers w | DoneReadingClear w => (fst t, snd t && held_is w (fst t))
  | SetAttr (WriterObj w) a _ =>
      if String.eqb a "shm_name" then (fst t, snd t && held_is w (fst t)) else t
  | _ => t
  end.

Definition locks_respected (events : list Event) : bool :=
  snd (fold_left watch_lock events (None, true)).

Definition lock_held (events : list Event) : option string :=
  fst (fold_left watch_lock events (None, true)).

#[local] Abbreviation Free := (Scanned watch_lock (None, true) (eq (None, true))).
#[local] Abbreviation Fair := (Scanned watch_lock (None, true) (well (option string))).

Lemma free_fair w : Free w -> Fair w.
Proof. intros H. unfold Scanned in *. rewrite <- H. reflexivity. Qed.

Lemma held_step {A} wn e eff (rd : State -> A) :
  watch_lock (Some wn, true) e = (Some wn, true && held_is wn (Some wn)) ->
  triple (Scanned watch_lock (None, true) (eq (Some wn, true)))
    (atomic e eff rd)
    (fun _ => Scanned watch_lock (None, true) (eq (Some wn, true))) Fair.
Proof.
  intros He. apply scanned_atomic.
  - intros t <-. rewrite He. cbn. rewrite String.eqb_refl. reflexivity.
  - intros t <-. reflexivity.
Qed.

Lemma free_dispatch_to_writer wn wr :
  triple Free (dispatch_to_writer wn wr) (fun _ => Free) Fair.
Proof.
  unfold dispatch_to_writer.
  eapply triple_bind
    with (R := fun _ => Scanned watch_lock (None, true) (eq (Some wn, true))).
  { apply scanned_atomic; intros t <-; reflexivity. }
  intros ?. eapply triple_bind
    with (R := fun _ => Scanned watch_lock (None, true) (eq (Some wn, true))).
  { apply held_step. reflexivity. }
  intros half. eapply triple_bind
    with (R := fun _ => Scanned watch_lock (None, true) (eq (Some wn, true))).
  { destruct (path wr).
    - eapply triple_bind; [apply held_step; reflexivity | intros ?].
      apply held_step. reflexivity.
    - apply triple_ret. auto. }
  intros ?. apply scanned_atomic.
  - intros t <-. cbn. rewrite String.eqb_refl. reflexivity.
  - intros t <-. reflexivity.
Qed.

Ltac free_prim :=
  intros;
  lazymatch goal with
  | H : Free ?w |- Fair ?w => exact (free_fair _ H)
  | |- triple _ (dispatch_to_writer _ _) _ _ => apply free_dispatch_to_writer
  | |- triple _ _ _ _ => apply scanned_same; reflexivity
  end.

Lemma free_capture_loop daqs c tile writers processes n :
  forall i,
    triple Free (capture_loop daqs c tile writers processes n i)
      (fun _ => Free) Fair.
Proof.
  induction n as [| n IH]; intros i; cbn [capture_loop]; [apply keeps_ret |].
  eapply triple_bind; [free_prim |].
  intros [|]; [apply keeps_ret |].
  eapply triple_bind; [| intros ?; apply IH].
  unfold capture_frame, start_pulses, start_tasks, add_image, dispatch_chunk,
    feed_processes.
  cbv zeta. walk free_prim.
Qed.

Lemma free_engine self tile filename camera writers processes :
  triple Free (engine self tile filename camera writers processes)
    (fun _ => Free) Fair.
Proof.
  unfold engine, setup_writer, setup_process, start_devices, divisor.
  eapply triple_bind; [walk free_prim | intros ?].
  eapply triple_bind; [walk free_prim | intros ?].
  eapply triple_bind; [walk free_prim | intros ?].
  eapply triple_bind; [walk free_prim | intros ?].
  eapply triple_bind; [apply free_capture_loop | intros ?].
  unfold finish. walk free_prim.
Qed.

(** X13.  A writer's double buffer is toggled, its [shm_name] assigned and
    its [done_reading] cleared only while that writer's chunk lock is held;
    a lock is taken only when none is held and released only by its holder;
    and when the engine returns, no lock is held. *)
Theorem buffers_toggled_under_lock
  self tile filename camera writers processes w :
  log w = [] ->
  let r := engine self tile filename camera writers processes w in
  locks_respected (map fst (log (snd r))) = true /\
  (fst r = Ret tt -> lock_held (map fst (log (snd r))) = None).
Proof.
  intros Hlog r.
  pose proof (free_engine self tile filename camera writers processes w) as H.
  assert (H0 : Free w) by (unfold Scanned, scan; rewrite Hlog; reflexivity).
  specialize (H H0). fold r in H.
  unfold locks_respected, lock_held.
  destruct (fst r) as [[] | e |]; unfold Scanned, scan, well in H.
  - rewrite <- H. split; reflexivity.
  - split; [exact H | discriminate].
  - split; [exact H | discriminate].
Qed.

Lemma buffers_toggled_under_lock_witness :
  locks_respected
    (map fst (log (snd (engine (Bench.session Bench.one_daq 2 3) (Bench.tile_of 3)
                          "tile_0_ch_488_camera_cam0" Bench.camera0
                          [("w", Bench.writer_of 2)] []
                          (Bench.world Bench.quiet_state
                             (repeat (Bench.prompt ["w"] []) 200))))))
  = true /\
  (fst (engine (Bench.session Bench.one_daq 2 3) (Bench.tile_of 3)
          "tile_0_ch_488_camera_cam0" Bench.camera0
          [("w", Bench.writer_of 2)] []
          (Bench.world Bench.quiet_state
             (repeat (Bench.prompt ["w"] []) 200))) = Ret tt ->
   lock_held
     (map fst (log (snd (engine (Bench.session Bench.one_daq 2 3) (Bench.tile_of 3)
                           "tile_0_ch_488_camera_cam0" Bench.camera0
                           [("w", Bench.writer_of 2)] []
                           (Bench.world Bench.quiet_state
                              (repeat (Bench.prompt ["w"] []) 200))))))
   = None).
Proof.
  exact (buffers_toggled_under_lock
           (Bench.session Bench.one_daq 2 3) (Bench.tile_of 3)
           "tile_0_ch_488_camera_cam0" Bench.camera0
           [("w", Bench.writer_of 2)] []
           (Bench.world Bench.quiet_state (repeat (Bench.prompt ["w"] []) 200))
           eq_refl).
Defined.

(** The machine does tell a toggle outside the lock. *)
Example toggle_outside_lock_is_seen :
  locks_respected [LockAcquire "w"; LockRelease "w"; ToggleBuffers "w"] = false /\
  locks_respected [LockAcquire "w"; ToggleBuffers "w"; LockRelease "w"] = true.
Proof. split; reflexivity. Qed.

(* ===================================================================== *)
(** ** Further properties: the clean-up *)
(* ===================================================================== *)

Definition cleanup_events (l : list (Event * State)) : list Event :=
  filter is_cleanup (map fst l).

(** Lines 314-331, as calls. *)
Definition cleanup_trace (writers : dict Writer) (processes : dict Process)
  : list Event :=
  map WriterWaitToFinish (keys writers)
  ++ map ProcessWaitToFinish (keys processes)
  ++ CameraStop
  :: map BufferCloseAndUnlink (keys writers)
  ++ flat_map (fun pn => [ShmClose pn; ShmUnlink pn]) (keys processes).

(** The clean-up calls made so far are [p]. *)
Definition Released (p : list Event) (w : World) : Prop :=
  cleanup_events (log w) = p.

Lemma cleanup_events_snoc l e s :
  cleanup_events (l ++ [(e, s)])
  = cleanup_events l ++ (if is_cleanup e then [e] else []).
Proof.
  unfold cleanup_events. rewrite map_app, filter_app. cbn.
  destruct (is_cleanup e); reflexivity.
Qed.

Lemma released_quiet {A} p e eff (rd : State -> A) :
  is_cleanup e = false ->
  triple (Released p) (atomic e eff rd) (fun _ => Released p) (Released p).
Proof.
  intros He. apply triple_atomic; [| auto].
  intros w b rest H _. unfold Released in *. cbn [log].
  rewrite cleanup_events_snoc, He, app_nil_r. exact H.
Qed.

Lemma released_call p e :
  is_cleanup e = true ->
  triple (Released p) (call e) (fun _ => Released (p ++ [e])) anyhow.
Proof.
  intros He. apply triple_atomic; [| intros; exact Logic.I].
  intros w b rest H _. unfold Released in *. cbn [log].
  rewrite cleanup_events_snoc, He, H. reflexivity.
Qed.

Lemma released_loop {V} (d : dict V) (body : string -> M unit)
  (tr : string -> list Event) p :
  (forall k q, triple (Released q) (body k) (fun _ => Released (q ++ tr k)) anyhow) ->
  triple (Released p) (for_each d (fun '(k, _) => body k))
    (fun _ => Released (p ++ flat_map tr (keys d))) anyhow.
Proof.
  intros Hbody.
  eapply triple_conseq with
    (P' := Released (p ++ flat_map tr (keys (@nil (string * V)))))
    (Q' := fun _ => Released (p ++ flat_map tr (keys d))) (X' := anyhow);
    [ | intros w H; cbn; rewrite app_nil_r; exact H | auto | auto ].
  apply (triple_for_each (fun done => Released (p ++ flat_map tr (keys done)))).
  intros done [k x] rest _.
  replace (p ++ flat_map tr (keys (done ++ [(k, x)])))
    with ((p ++ flat_map tr (keys done)) ++ tr k)
    by (unfold keys; rewrite map_app, flat_map_app, <- app_assoc; cbn;
        rewrite app_nil_r; reflexivity).
  apply Hbody.
Qed.

Lemma flat_map_single {A B} (f : A -> B) l :
  flat_map (fun x => [f x]) l = map f l.
Proof. induction l; cbn; congruence. Qed.

Lemma released_finish writers processes :
  triple (Released []) (finish writers processes)
    (fun _ => Released (cleanup_trace writers processes)) anyhow.
Proof.
  unfold finish, cleanup_trace.
  rewrite <- !(flat_map_single WriterWaitToFinish),
          <- !(flat_map_single ProcessWaitToFinish),
          <- !(flat_map_single BufferCloseAndUnlink).
  eapply triple_bind.
  { apply (released_loop writers (fun k => call (WriterWaitToFinish k))
             (fun k => [WriterWaitToFinish k]) []).
    intros k q. apply released_call. reflexivity. }
  intros ?. eapply triple_bind.
  { apply (released_loop processes (fun k => call (ProcessWaitToFinish k))
             (fun k => [ProcessWaitToFinish k])).
    intros k q. apply released_call. reflexivity. }
  intros ?. eapply triple_bind; [apply released_call; reflexivity | intros ?].
  eapply triple_bind.
  { apply (released_loop writers (fun k => call (BufferCloseAndUnlink k))
             (fun k => [BufferCloseAndUnlink k])).
    intros k q. apply released_call. reflexivity. }
  intros ?. eapply triple_conseq with (X' := anyhow);
    [ apply (released_loop processes
               (fun k => call (ShmClose k) ;; call (ShmUnlink k))
               (fun k => [ShmClose k; ShmUnlink k]))
    | intros w H; exact H | | auto ].
  - intros k q. eapply triple_bind; [apply released_call; reflexivity |].
    intros ?. replace (q ++ [ShmClose k; ShmUnlink k])
      with ((q ++ [ShmClose k]) ++ [ShmUnlink k])
      by (rewrite <- app_assoc; reflexivity).
    apply released_call. reflexivity.
  - intros ? w H. unfold Released in *. rewrite H. cbn [app].
    rewrite <- !app_assoc. cbn [app]. reflexivity.
Qed.

(** The engine up to its clean-up. *)
Definition engine_capture (self : Acquisition) (tile : Tile) (filename : string)
  (camera : Camera) (writers : dict Writer) (processes : dict Process) : M unit :=
  for_each writers (fun '(writer_name, writer) =>
    setup_writer tile filename camera writer_name writer) ;;
  for_each processes (fun '(process_name, _) =>
    setup_process tile filename camera process_name) ;;
  start_devices writers processes ;;
  c <- divisor (self_chunk_count_px self) ;;
  capture_loop (daqs (instrument self)) c tile writers processes
    (Z.to_nat (steps tile)) 0.

Lemma engine_split self tile filename camera writers processes w :
  engine self tile filename camera writers processes w
  = bind (engine_capture self tile filename camera writers processes)
      (fun _ => finish writers processes) w.
Proof.
  unfold engine, engine_capture, bind.
  repeat match goal with
         | |- context [match ?m w with _ => _ end] =>
             destruct (m w) as [[[] | ? |] ?]; try reflexivity
         | |- context [match ?m ?w' with _ => _ end] =>
             destruct (m w') as [[? | ? |] ?]; try reflexivity
         end.
Qed.

Ltac released_prim :=
  intros;
  lazymatch goal with
  | H : Released ?p ?w |- Released ?p ?w => exact H
  | |- triple _ _ _ _ => apply released_quiet; reflexivity
  end.

Lemma released_capture_loop daqs c tile writers processes n :
  forall i,
    triple (Released []) (capture_loop daqs c tile writers processes n i)
      (fun _ => Released []) (Released []).
Proof.
  induction n as [| n IH]; intros i; cbn [capture_loop]; [apply keeps_ret |].
  eapply triple_bind; [released_prim |].
  intros [|]; [apply keeps_ret |].
  eapply triple_bind; [| intros ?; apply IH].
  unfold capture_frame, start_pulses, start_tasks, add_image, dispatch_chunk,
    dispatch_to_writer, feed_processes.
  cbv zeta. walk released_prim.
Qed.

Lemma released_engine_capture self tile filename camera writers processes :
  triple (Released [])
    (engine_capture self tile filename camera writers processes)
    (fun _ => Released []) (Released []).
Proof.
  unfold engine_capture, setup_writer, setup_process, start_devices, divisor.
  eapply triple_bind; [walk released_prim | intros ?].
  eapply triple_bind; [walk released_prim | intros ?].
  eapply triple_bind; [walk released_prim | intros ?].
  eapply triple_bind; [walk released_prim | intros ?].
  apply released_capture_loop.
Qed.

(** The clean-up itself raises nothing. *)
Lemma calls_raise_nothing {V} (d : dict V) (body : string -> M unit) :
  (forall k w e, fst (body k w) <> Raise e) ->
  forall w e, fst (for_each d (fun '(k, _) => body k) w) <> Raise e.
Proof.
  intros Hbody. induction d as [| [k x] d IH]; intros w e; cbn [for_each].
  - discriminate.
  - unfold bind. pose proof (Hbody k w) as H.
    destruct (body k w) as [[[] | e' |] w']; cbn in *;
      [apply IH | exfalso; exact (H e' eq_refl) | discriminate].
Qed.

Lemma call_raises_nothing ev w e : fst (call ev w) <> Raise e.
Proof. unfold call, atomic. destruct (sched w); discriminate. Qed.

Lemma seq_raises_nothing (m1 m2 : M unit) :
  (forall w e, fst (m1 w) <> Raise e) ->
  (forall w e, fst (m2 w) <> Raise e) ->
  forall w e, fst (bind m1 (fun _ => m2) w) <> Raise e.
Proof.
  intros H1 H2 w e. unfold bind. pose proof (H1 w) as H.
  destruct (m1 w) as [[[] | e' |] w']; cbn in *;
    [apply H2 | exfalso; exact (H e' eq_refl) | discriminate].
Qed.

Lemma finish_raises_nothing writers processes w e :
  fst (finish writers processes w) <> Raise e.
Proof.
  unfold finish.
  repeat (apply seq_raises_nothing; [| intros ? ?]);
    first [ apply call_raises_nothing
          | apply (calls_raise_nothing _ (fun k => call _));
            intros; apply call_raises_nothing
          | idtac ].
  apply (calls_raise_nothing processes
           (fun k => call (ShmClose k) ;; call (ShmUnlink k))).
  intros k. apply seq_raises_nothing; intros; apply call_raises_nothing.
Qed.

(** X14.  The engine releases what it set up only at its normal end.  When
    it returns, its clean-up calls are, in this order: wait for every
    writer, wait for every process, stop the camera, close and unlink every
    writer's double buffer, close and unlink every process's shared memory.
    When it ends with an exception, none of these calls has been made: the
    camera is left running and the buffers allocated. *)
Theorem cleanup_only_on_return
  self tile filename camera writers processes w :
  log w = [] ->
  let r := engine self tile filename camera writers processes w in
  (fst r = Ret tt ->
   cleanup_events (log (snd r)) = cleanup_trace writers processes) /\
  (forall e, fst r = Raise e -> cleanup_events (log (snd r)) = []).
Proof.
  intros Hlog r.
  assert (Er : r = bind (engine_capture self tile filename camera writers
                           processes)
                     (fun _ => finish writers processes) w)
    by apply engine_split.
  pose proof (released_engine_capture self tile filename camera writers
                processes w) as H.
  assert (H0 : Released [] w) by (unfold Released; rewrite Hlog; reflexivity).
  specialize (H H0). rewrite Er. unfold bind.
  destruct (engine_capture self tile filename camera writers processes w)
    as [[[] | e' |] w']; cbn [fst snd] in *.
  - pose proof (released_finish writers processes w' H) as Hf.
    pose proof (finish_raises_nothing writers processes w') as Hn.
    destruct (finish writers processes w') as [[[] | e' |] w'']; cbn in *.
    + split; [intros _; exact Hf | discriminate].
    + exfalso. exact (Hn e' eq_refl).
    + split; discriminate.
  - split; [discriminate | intros _ _; exact H].
  - split; discriminate.
Qed.

Lemma cleanup_only_on_return_witness :
  (fst (engine (Bench.session Bench.one_daq 2 3) (Bench.tile_of 3)
          "tile_0_ch_488_camera_cam0" Bench.camera0
          [("w", Bench.writer_of 2)]
          [("p", {| process_data_type := "uint16" |})]
          (Bench.world Bench.quiet_state
             (repeat (Bench.prompt ["w"] ["p"]) 200))) = Ret tt ->
   cleanup_events
     (log (snd (engine (Bench.session Bench.one_daq 2 3) (Bench.tile_of 3)
                  "tile_0_ch_488_camera_cam0" Bench.camera0
                  [("w", Bench.writer_of 2)]
                  [("p", {| process_data_type := "uint16" |})]
                  (Bench.world Bench.quiet_state
                     (repeat (Bench.prompt ["w"] ["p"]) 200)))))
   = cleanup_trace [("w", Bench.writer_of 2)]
       [("p", {| process_data_type := "uint16" |})]) /\
  (forall e,
     fst (engine (Bench.session Bench.one_daq 2 3) (Bench.tile_of 3)
            "tile_0_ch_488_camera_cam0" Bench.camera0
            [("w", Bench.writer_of 2)]
            [("p", {| process_data_type := "uint16" |})]
            (Bench.world Bench.quiet_state
               (repeat (Bench.prompt ["w"] ["p"]) 200))) = Raise e ->
     cleanup_events
       (log (snd (engine (Bench.session Bench.one_daq 2 3) (Bench.tile_of 3)
                    "tile_0_ch_488_camera_cam0" Bench.camera0
                    [("w", Bench.writer_of 2)]
                    [("p", {| process_data_type := "uint16" |})]
                    (Bench.world Bench.quiet_state
                       (repeat (Bench.prompt ["w"] ["p"]) 200)))))
     = []).
Proof.
  exact (cleanup_only_on_return
           (Bench.session Bench.one_daq 2 3) (Bench.tile_of 3)
           "tile_0_ch_488_camera_cam0" Bench.camera0
           [("w", Bench.writer_of 2)]
           [("p", {| process_data_type := "uint16" |})]
           (Bench.world Bench.quiet_state
              (repeat (Bench.prompt ["w"] ["p"]) 200)) eq_refl).
Defined.

(** The clean-up of that run, and a run that fails: a buffer that takes one
    frame only is handed a second one before the chunk is dispatched. *)
Example cleanup_traces :
  cleanup_events
    (log (snd (engine (Bench.session Bench.one_daq 2 3) (Bench.tile_of 3)
                 "tile_0_ch_488_camera_cam0" Bench.camera0
                 [("w", Bench.writer_of 2)]
                 [("p", {| process_data_type := "uint16" |})]
                 (Bench.world Bench.quiet_state
                    (repeat (Bench.prompt ["w"] ["p"]) 200)))))
  = [WriterWaitToFinish "w"; ProcessWaitToFinish "p"; CameraStop;
     BufferCloseAndUnlink "w"; ShmClose "p"; ShmUnlink "p"] /\
  (let r := engine (Bench.session Bench.one_daq 2 3) (Bench.tile_of 3)
              "tile_0_ch_488_camera_cam0" Bench.camera0
              [("w", Bench.writer_of 1)] []
              (Bench.world Bench.quiet_state
                 (repeat (Bench.prompt ["w"] []) 200)) in
   fst r = Raise (CapacityError "w") /\ cleanup_events (log (snd r)) = []).
Proof. vm_compute. repeat split; reflexivity. Qed.

(* ===================================================================== *)
(** ** Further properties: the file name of a routine *)
(* ===================================================================== *)

Lemma build_filenames_device devs tile fs d ty :
  NoDup (keys devs) -> dict_get devs d = Some ty ->
  dict_get (build_filenames devs tile fs) d = Some (filename_of tile ty d).
Proof.
  unfold build_filenames. revert fs.
  induction devs as [| [d0 ty0] devs IH]; intros fs Hnd Hget; [discriminate |].
  cbn in Hnd, Hget. inversion Hnd as [| ? ? Hfresh Hrest]; subst.
  cbn [fold_left fst snd].
  destruct (String.eqb_spec d0 d) as [-> | Hne].
  - injection Hget as ->.
    fold (build_filenames devs tile (dict_set fs d (filename_of tile ty d))).
    rewrite build_filenames_other by exact Hfresh.
    apply dict_get_set_same.
  - apply IH; assumption.
Qed.

Section RoutineNames.

Variable self : Acquisition.
Variable tile : Tile.
Variable filenames : dict string.

(** A routine is started with its [filename] attribute holding the file
    name of its device for this tile, followed by the routine's name. *)
Definition ok_routine (x : Event * State) : Prop :=
  match fst x with
  | RoutineStart d rn =>
      exists ty,
        dict_get (devices (instrument self)) d = Some ty /\
        attrs (snd x) (RoutineObj d rn) "filename"
        = VStr (filename_of tile ty d ++ "_" ++ rn)
  | _ => True
  end.

Definition routine_named (d rn f : string) (s : State) : Prop :=
  attrs s (RoutineObj d rn) "filename" = VStr (f ++ "_" ++ rn).

Lemma stable_routine_named d rn f : stable (routine_named d rn f).
Proof. intros s a H. unfold routine_named. destruct a; exact H. Qed.

#[local] Abbreviation Routed := (Inv ok_routine anything).

Ltac routed_prim :=
  intros;
  lazymatch goal with
  | H : Inv _ _ ?w |- Safe _ ?w => exact (Inv_Safe _ _ _ H)
  | |- triple _ (modify _) _ _ =>
      apply (inv_modify ok_routine anything anything); intros; exact Logic.I
  | |- triple _ _ _ _ =>
      apply (inv_atomic ok_routine anything stable_anything);
      intros; exact Logic.I
  end.

Hypothesis devices_dict : NoDup (keys (devices (instrument self))).

Lemma routed_start_routines pluralize :
  triple Routed
    (start_routines pluralize self
       (build_filenames (devices (instrument self)) tile filenames))
    (fun _ => Routed) (Safe ok_routine).
Proof.
  unfold start_routines.
  apply keeps_for_each. intros [d names] _.
  unfold getitem at 1.
  destruct (dict_get (devices (instrument self)) d) as [ty |] eqn:E;
    [| intros w Hw; cbn; exact (Inv_Safe _ _ _ Hw)].
  apply triple_bind_ret.
  apply keeps_for_each. intros rn _.
  eapply triple_bind; [unfold device_object; walk routed_prim | intros ?].
  unfold getitem.
  rewrite (build_filenames_device _ tile filenames d ty devices_dict E).
  apply triple_bind_ret.
  eapply triple_bind
    with (R := fun _ => Inv ok_routine
                          (routine_named d rn (filename_of tile ty d))).
  - apply (hoare_atomic ok_routine anything _ _ _
             (fun _ => routine_named d rn (filename_of tile ty d))).
    + apply stable_anything.
    + intros s' _. split; [exact Logic.I |].
      unfold routine_named. cbn. unfold upd_attr. cbn.
      rewrite !String.eqb_refl. reflexivity.
  - intros ?.
    apply (hoare_atomic ok_routine (routine_named d rn (filename_of tile ty d))
             _ _ _ (fun _ => anything)).
    + apply stable_routine_named.
    + intros s' Hs. split; [| exact Logic.I].
      exists ty. split; [exact E | exact Hs].
Qed.

Lemma routed_run_tile pluralize :
  triple Routed (run_tile pluralize self filenames tile) (fun _ => Routed)
    (Safe ok_routine).
Proof.
  unfold run_tile. cbv zeta.
  eapply triple_bind; [unfold check_scan_length; walk routed_prim | intros ?].
  eapply triple_bind; [| intros ?; apply keeps_ret].
  unfold acquire_tile.
  eapply triple_bind.
  { unfold position_stages, move_stage. walk routed_prim. }
  intros ?. eapply triple_bind.
  { unfold setup_channel, device_object. walk routed_prim. }
  intros ?. eapply triple_bind; [unfold arm_daqs; walk routed_prim | intros ?].
  eapply triple_bind; [apply routed_start_routines | intros ?].
  unfold create_threads, run_threads, start_thread, join_thread,
    reconcile_transfers, wait_for_transfers, wait_if_alive, start_transfers.
  walk routed_prim.
Qed.

End RoutineNames.

(** X15.  In the pass over a tile, every routine is started with its
    [filename] attribute already set to the tile's file name of its device
    followed by the routine's name:
    [<prefix>_<tile number>_ch_<channel>_<type>_<device>_<routine>].
    (The devices of the configuration form a dictionary.) *)
Theorem routines_started_with_filename pluralize self filenames tile w :
  NoDup (keys (devices (instrument self))) ->
  log w = [] ->
  Forall (ok_routine self tile)
    (log (snd (run_tile pluralize self filenames tile w))).
Proof.
  intros Hnd Hlog.
  pose proof (routed_run_tile self tile filenames Hnd pluralize w) as H.
  assert (H0 : Inv (ok_routine self tile) anything w).
  { split; [rewrite Hlog; constructor | exact Logic.I]. }
  specialize (H H0).
  destruct (fst (run_tile pluralize self filenames tile w));
    [exact (Inv_Safe _ _ _ H) | exact H | exact H].
Qed.

(** A camera with a flat-field routine. *)
Definition with_routine : Acquisition :=
  {| instrument :=
       {| devices := [("cam0", "camera")];
          tiling_stages := []; scanning_stages := [];
          channels := [("488", [])]; collections := [("cameras", ["cam0"])];
          daqs := [("daq0", Bench.daq_full)];
          cameras := [("cam0", Bench.camera0)] |};
     tiles := [Bench.tile_of 4];
     writers := [("cam0", [("w", Bench.writer_of 4)])];
     processes := None; routines := Some [("cam0", ["flatfield"])];
     transfers := None; self_chunk_count_px := Some 4 |}.

Lemma routines_started_with_filename_witness :
  Forall (ok_routine with_routine (Bench.tile_of 4))
    (log (snd (run_tile Bench.pluralize with_routine [] (Bench.tile_of 4)
                 (Bench.world Bench.quiet_state (repeat [] 50))))).
Proof.
  refine (routines_started_with_filename Bench.pluralize with_routine []
            (Bench.tile_of 4) (Bench.world Bench.quiet_state (repeat [] 50))
            _ eq_refl).
  repeat constructor. intros [].
Defined.

(** The file name that routine met. *)
Example routine_filename_met :
  let r := run_tile Bench.pluralize with_routine [] (Bench.tile_of 4)
             (Bench.world Bench.quiet_state (repeat [] 50)) in
  fst r = Ret [("cam0", "tile_0_ch_488_camera_cam0")] /\
  map (fun x => attrs (snd x) (RoutineObj "cam0" "flatfield") "filename")
    (filter (fun x => match fst x with
                      | RoutineStart _ _ => true
                      | _ => false
                      end) (log (snd r)))
  = [VStr "tile_0_ch_488_camera_cam0_flatfield"].
Proof. vm_compute. split; reflexivity. Qed.

(* ===================================================================== *)
(** ** Further properties: the writers' attributes *)
(* ===================================================================== *)

(** The calls by which writers and camera are put to work. *)
Definition is_put_to_work (e : Event) : bool :=
  match e with
  | CameraPrepare | WriterPrepare _ | WriterStart _ | CameraStart
  | GrabFrame _ => true
  | _ => false
  end.

Section WriterAttributes.

Variable tile : Tile.
Variable filename : string.
Variable camera : Camera.
Variables x y z : Q.

(** What lines 205-215 assign to a writer. *)
Definition writer_attrs : list (string * pyval) :=
  [("row_count_px", VInt (height_px camera));
   ("column_count_px", VInt (width_px camera));
   ("frame_count_px", VInt (steps tile));
   ("x_pos_mm", VNum x); ("y_pos_mm", VNum y); ("z_pos_mm", VNum z);
   ("x_voxel_size_um", VNum 0.748); ("y_voxel_size_um", VNum 0.748);
   ("z_voxel_size_um", VNum (step_size tile));
   ("filename", VStr filename); ("channel", VStr (channel tile))].

(** Writer [wn] carries those values in the attributes [names]. *)
Definition configured_upto (names : list string) (wn : string) (s : State)
  : Prop :=
  forall a v, In a names -> In (a, v) writer_attrs ->
    attrs s (WriterObj wn) a = v.

Definition configured (wn : string) (s : State) : Prop :=
  forall a v, In (a, v) writer_attrs -> attrs s (WriterObj wn) a = v.

(** An assignment that does not spoil one of those attributes. *)
Definition fits (a : string) (v : pyval) : Prop :=
  forall v', In (a, v') writer_attrs -> v = v'.

Lemma configured_set_attr wn o a v s :
  (forall wn', o = WriterObj wn' -> fits a v) ->
  configured wn s -> configured wn (set_attr o a v s).
Proof.
  intros Ha H a' v' Hin. cbn. unfold upd_attr.
  destruct (obj_eqb o (WriterObj wn) && String.eqb a a') eqn:E;
    [| apply H, Hin].
  apply andb_true_iff in E. destruct E as [Eo Ea].
  apply String.eqb_eq in Ea. subst a'.
  destruct o; try discriminate. apply (Ha _ eq_refl), Hin.
Qed.

Lemma configured_upto_attr names wn a v s :
  fits a v ->
  configured_upto names wn s ->
  configured_upto (a :: names) wn (set_attr (WriterObj wn) a v s).
Proof.
  intros Ha H a' v' Hin Hv. cbn. unfold upd_attr.
  destruct (obj_eqb (WriterObj wn) (WriterObj wn) && String.eqb a a') eqn:E.
  - apply andb_true_iff in E. destruct E as [_ Ea].
    apply String.eqb_eq in Ea. subst a'. apply Ha, Hv.
  - destruct Hin as [-> | Hin]; [| apply H; auto].
    cbn [obj_eqb] in E. rewrite !String.eqb_refl in E. discriminate.
Qed.

Variable the_writers : dict Writer.

Definition ok_configured (e : Event * State) : Prop :=
  is_put_to_work (fst e) = true ->
  forall wn, In wn (keys the_writers) -> configured wn (snd e).

(** The writers in [done] are configured, and so are the attributes [names]
    of writer [wn]. *)
Definition configuring (done : list string) (names : list string) (wn : string)
  (s : State) : Prop :=
  (forall wn', In wn' done -> configured wn' s) /\ configured_upto names wn s.

Lemma stable_configuring done names wn : stable (configuring done names wn).
Proof.
  intros s a H. unfold configuring, configured, configured_upto in *.
  destruct a; exact H.
Qed.

Lemma configuring_setattr done names wn a v :
  fits a v ->
  triple (Inv ok_configured (configuring done names wn))
    (setattr (WriterObj wn) a v)
    (fun _ => Inv ok_configured (configuring done (a :: names) wn))
    (Safe ok_configured).
Proof.
  intros Ha. apply hoare_atomic; [apply stable_configuring |].
  intros s [H1 H2]. split; [intros Hc; discriminate |].
  split.
  - intros wn' Hin. apply configured_set_attr; auto.
  - apply configured_upto_attr; auto.
Qed.

Ltac fits_here :=
  unfold fits, writer_attrs;
  let H := fresh "Hfit" in
  intros ? H; cbn in H;
  repeat (destruct H as [H | H];
          [ first [ discriminate H | injection H as <-; reflexivity ] |]);
  destruct H.

Hypothesis x_given : dict_get (position_mm tile) "x" = Some x.
Hypothesis y_given : dict_get (position_mm tile) "y" = Some y.
Hypothesis z_given : dict_get (position_mm tile) "z" = Some z.

Lemma configuring_writer done wn wr :
  triple (Inv ok_configured (configuring done [] wn))
    (setup_writer tile filename camera wn wr)
    (fun _ => Inv ok_configured (configuring (done ++ [wn]) [] wn))
    (Safe ok_configured).
Proof.
  unfold setup_writer, getitem. rewrite x_given, y_given, z_given.
  repeat first
    [ apply triple_bind_ret
    | eapply triple_bind; [apply configuring_setattr; fits_here | intros ?] ].
  apply hoare_atomic; [apply stable_configuring |].
  intros s [H1 H2]. split; [intros Hc; discriminate |].
  split; [| intros a' v' []].
  intros wn' Hin. apply in_app_or in Hin. destruct Hin as [Hin | [<- | []]].
  - intros attr val Ha. cbn. apply H1; assumption.
  - intros attr val Ha. cbn. apply H2; [| exact Ha].
    unfold writer_attrs in Ha. cbn in Ha.
    repeat (destruct Ha as [Ha | Ha];
            [injection Ha as <- _; cbn; auto 15 |]).
    destruct Ha.
Qed.

Definition all_configured (s : State) : Prop :=
  forall wn, In wn (keys the_writers) -> configured wn s.

Lemma stable_all_configured : stable all_configured.
Proof.
  intros s a H. unfold all_configured, configured in *. destruct a; exact H.
Qed.

Lemma configuring_writers :
  triple (Inv ok_configured anything)
    (for_each the_writers (fun '(writer_name, writer) =>
       setup_writer tile filename camera writer_name writer))
    (fun _ => Inv ok_configured all_configured) (Safe ok_configured).
Proof.
  apply triple_conseq with
    (P' := Inv ok_configured
             (fun s => forall wn, In wn (keys (@nil (string * Writer))) ->
                                  configured wn s))
    (Q' := fun _ => Inv ok_configured
                      (fun s => forall wn, In wn (keys the_writers) ->
                                           configured wn s))
    (X' := Safe ok_configured); auto.
  2:{ intros w [Hl _]. split; auto. intros wn []. }
  apply (triple_for_each
           (fun done => Inv ok_configured
              (fun s => forall wn, In wn (keys done) -> configured wn s))
           (Safe ok_configured)).
  intros done [wn wr] rest E.
  eapply triple_conseq;
    [apply (configuring_writer (keys done) wn wr) | | | auto].
  - intros w [Hl Hs]. split; auto. split; auto. intros a v [].
  - intros ? w [Hl [Hs _]]. split; auto.
    unfold keys. rewrite map_app. exact Hs.
Qed.

#[local] Abbreviation Configured := (Inv ok_configured all_configured).

Lemma configured_atomic {A} e eff (rd : State -> A) :
  (forall s, all_configured s -> all_configured (eff s)) ->
  triple Configured (atomic e eff rd) (fun _ => Configured)
    (Safe ok_configured).
Proof.
  intros Heff. apply inv_atomic; [apply stable_all_configured | | exact Heff].
  intros s Hs _. exact Hs.
Qed.

Lemma all_configured_other o a v s :
  (forall wn, o = WriterObj wn -> a = "shm_name") ->
  all_configured s -> all_configured (set_attr o a v s).
Proof.
  intros Ho H wn Hin. apply configured_set_attr; [| apply H, Hin].
  intros wn' E. rewrite (Ho _ E). fits_here.
Qed.

Ltac configured_prim :=
  intros;
  lazymatch goal with
  | H : Inv _ _ ?w |- Safe _ ?w => exact (Inv_Safe _ _ _ H)
  | |- triple _ (setattr _ _ _) _ _ =>
      apply configured_atomic; intros ? ?;
      apply all_configured_other; [intros ? ?E; first [discriminate E | reflexivity] | assumption]
  | |- triple _ _ _ _ =>
      apply configured_atomic; intros ? ?Hs; cbn;
      repeat match goal with
             | |- context [if ?c then _ else _] => destruct c
             end;
      exact Hs
  end.

Lemma configured_capture_loop daqs c processes n :
  forall i,
    triple Configured (capture_loop daqs c tile the_writers processes n i)
      (fun _ => Configured) (Safe ok_configured).
Proof.
  induction n as [| n IH]; intros i; cbn [capture_loop]; [apply keeps_ret |].
  eapply triple_bind; [configured_prim |].
  intros [|]; [apply keeps_ret |].
  eapply triple_bind; [| intros ?; apply IH].
  unfold capture_frame, start_pulses, start_tasks, add_image, dispatch_chunk,
    dispatch_to_writer, feed_processes.
  cbv zeta. walk configured_prim.
Qed.

Lemma configured_engine self processes :
  triple (Inv ok_configured anything)
    (engine self tile filename camera the_writers processes)
    (fun _ => Configured) (Safe ok_configured).
Proof.
  unfold engine. eapply triple_bind; [apply configuring_writers | intros ?].
  eapply triple_bind; [unfold setup_process; walk configured_prim | intros ?].
  eapply triple_bind; [unfold start_devices; walk configured_prim | intros ?].
  eapply triple_bind; [unfold divisor; walk configured_prim | intros ?].
  eapply triple_bind; [apply configured_capture_loop | intros ?].
  unfold finish. walk configured_prim.
Qed.

End WriterAttributes.

(** X16.  Whenever the camera or a writer is prepared or started, and
    whenever a frame is grabbed, every writer of the camera carries what
    lines 205-215 assign for this tile: the camera's row and column counts,
    the tile's frame count, its x, y and z positions, the voxel sizes, the
    file name and the channel.  (The tile gives its position on x, y and
    z.) *)
Theorem writers_configured_before_use
  self tile filename camera writers processes x y z w :
  dict_get (position_mm tile) "x" = Some x ->
  dict_get (position_mm tile) "y" = Some y ->
  dict_get (position_mm tile) "z" = Some z ->
  log w = [] ->
  Forall (ok_configured tile filename camera x y z writers)
    (log (snd (engine self tile filename camera writers processes w))).
Proof.
  intros Hx Hy Hz Hlog.
  pose proof (configured_engine tile filename camera x y z writers Hx Hy Hz
                self processes w) as H.
  assert (H0 : Inv (ok_configured tile filename camera x y z writers)
                 anything w).
  { split; [rewrite Hlog; constructor | exact Logic.I]. }
  specialize (H H0).
  destruct (fst (engine self tile filename camera writers processes w));
    [exact (Inv_Safe _ _ _ H) | exact H | exact H].
Qed.

Lemma writers_configured_before_use_witness :
  Forall (ok_configured (Bench.tile_of 3) "tile_0_ch_488_camera_cam0"
            Bench.camera0 0 0 0 [("w", Bench.writer_of 2)])
    (log (snd (engine (Bench.session Bench.one_daq 2 3) (Bench.tile_of 3)
                 "tile_0_ch_488_camera_cam0" Bench.camera0
                 [("w", Bench.writer_of 2)] []
                 (Bench.world Bench.quiet_state
                    (repeat (Bench.prompt ["w"] []) 200))))).
Proof.
  exact (writers_configured_before_use
           (Bench.session Bench.one_daq 2 3) (Bench.tile_of 3)
           "tile_0_ch_488_camera_cam0" Bench.camera0
           [("w", Bench.writer_of 2)] [] 0 0 0
           (Bench.world Bench.quiet_state (repeat (Bench.prompt ["w"] []) 200))
           eq_refl eq_refl eq_refl eq_refl).
Defined.

(** What the writer of that run carries when the camera is prepared. *)
Example writer_attributes_at_prepare :
  let l := log (snd (engine (Bench.session Bench.one_daq 2 3) (Bench.tile_of 3)
                       "tile_0_ch_488_camera_cam0" Bench.camera0
                       [("w", Bench.writer_of 2)] []
                       (Bench.world Bench.quiet_state
                          (repeat (Bench.prompt ["w"] []) 200)))) in
  fst (nth 12 l (Sleep, Bench.quiet_state)) = CameraPrepare /\
  map (attrs (snd (nth 12 l (Sleep, Bench.quiet_state))) (WriterObj "w"))
    ["row_count_px"; "column_count_px"; "frame_count_px"; "filename"; "channel"]
  = [VInt 2; VInt 2; VInt 3; VStr "tile_0_ch_488_camera_cam0"; VStr "488"].
Proof. vm_compute. split; reflexivity. Qed.

(* ===================================================================== *)
(** ** Further properties: a tile without a position *)
(* ===================================================================== *)

(** Nothing has been put to work so far. *)
Definition NotAtWork (w : World) : Prop :=
  Forall (fun x => is_put_to_work (fst x) = false) (log w).

Lemma not_at_work_atomic {A} e eff (rd : State -> A) :
  is_put_to_work e = false ->
  triple NotAtWork (atomic e eff rd) (fun _ => NotAtWork) NotAtWork.
Proof.
  intros He. apply triple_atomic; [| auto].
  intros w b rest Hl _. unfold NotAtWork in *. cbn [log].
  apply Forall_app. split; [exact Hl |]. repeat constructor. exact He.
Qed.

Ltac not_at_work_prim :=
  intros;
  lazymatch goal with
  | H : NotAtWork ?w |- NotAtWork ?w => exact H
  | |- triple _ _ _ _ => apply not_at_work_atomic; reflexivity
  end.

Lemma setup_writer_without_position tile filename camera wn wr :
  dict_get (position_mm tile) "x" = None \/
  dict_get (position_mm tile) "y" = None \/
  dict_get (position_mm tile) "z" = None ->
  triple NotAtWork (setup_writer tile filename camera wn wr)
    (fun _ => Never) NotAtWork.
Proof.
  intros Hpos. unfold setup_writer, getitem.
  eapply triple_bind; [not_at_work_prim | intros ?].
  eapply triple_bind; [not_at_work_prim | intros ?].
  eapply triple_bind; [not_at_work_prim | intros ?].
  destruct (dict_get (position_mm tile) "x") as [x |];
    [apply triple_bind_ret | intros w Hw; exact Hw].
  eapply triple_bind; [not_at_work_prim | intros ?].
  destruct (dict_get (position_mm tile) "y") as [y |];
    [apply triple_bind_ret | intros w Hw; exact Hw].
  eapply triple_bind; [not_at_work_prim | intros ?].
  destruct (dict_get (position_mm tile) "z") as [z |];
    [| intros w Hw; exact Hw].
  destruct Hpos as [H | [H | H]]; discriminate.
Qed.

(** X17.  With a writer to set up and a tile that lacks its position on x,
    y or z, the engine never returns: it fails with [KeyError] while it sets
    up the first writer, before the camera or any writer is prepared or
    started and before any frame is grabbed. *)
Theorem tile_without_position_fails_early
  self tile filename camera writers processes w :
  writers <> [] ->
  dict_get (position_mm tile) "x" = None \/
  dict_get (position_mm tile) "y" = None \/
  dict_get (position_mm tile) "z" = None ->
  log w = [] ->
  let r := engine self tile filename camera writers processes w in
  fst r <> Ret tt /\
  Forall (fun x => is_put_to_work (fst x) = false) (log (snd r)).
Proof.
  intros Hne Hpos Hlog r.
  assert (H : triple NotAtWork
                (engine self tile filename camera writers processes)
                (fun _ => Never) NotAtWork).
  { unfold engine. destruct writers as [| [wn wr] rest]; [contradiction |].
    cbn [for_each].
    eapply triple_bind with (R := fun _ => Never);
      [| intros ?; apply triple_never].
    eapply triple_bind with (R := fun _ => Never);
      [| intros ?; apply triple_never].
    apply setup_writer_without_position, Hpos. }
  assert (H0 : NotAtWork w) by (unfold NotAtWork; rewrite Hlog; constructor).
  specialize (H w H0). fold r in H.
  destruct (fst r) as [[] | e |]; [destruct H | |]; split;
    solve [discriminate | exact H].
Qed.

Definition tile_without_z : Tile :=
  {| tile_number := 0; channel := "488"; prefix := "tile";
     steps := 4; step_size := 1.5;
     position_mm := [("x", 0%Q); ("y", 0%Q)];
     device_settings := [] |}.

Lemma tile_without_position_fails_early_witness :
  fst (engine (Bench.session Bench.one_daq 2 4) tile_without_z
         "tile_0_ch_488_camera_cam0" Bench.camera0
         [("w", Bench.writer_of 2)] []
         (Bench.world Bench.quiet_state (repeat [] 50))) <> Ret tt /\
  Forall (fun x => is_put_to_work (fst x) = false)
    (log (snd (engine (Bench.session Bench.one_daq 2 4) tile_without_z
                 "tile_0_ch_488_camera_cam0" Bench.camera0
                 [("w", Bench.writer_of 2)] []
                 (Bench.world Bench.quiet_state (repeat [] 50))))).
Proof.
  refine (tile_without_position_fails_early
            (Bench.session Bench.one_daq 2 4) tile_without_z
            "tile_0_ch_488_camera_cam0" Bench.camera0
            [("w", Bench.writer_of 2)] []
            (Bench.world Bench.quiet_state (repeat [] 50)) _
            (or_intror (or_intror eq_refl)) eq_refl).
  discriminate.
Defined.

(** That run: five attributes are assigned, then the look-up of the z
    position fails. *)
Example tile_without_z_trace :
  let r := engine (Bench.session Bench.one_daq 2 4) tile_without_z
             "tile_0_ch_488_camera_cam0" Bench.camera0
             [("w", Bench.writer_of 2)] []
             (Bench.world Bench.quiet_state (repeat [] 50)) in
  fst r = Raise (KeyError "z") /\ List.length (log (snd r)) = 5%nat.
Proof. vm_compute. split; reflexivity. Qed.

(* ===================================================================== *)
(** ** Further properties: a camera without a writer *)
(* ===================================================================== *)

Definition is_thread_run (e : Event) : bool :=
  match e with
  | ThreadStart _ | ThreadJoin _ => true
  | _ => false
  end.

(** No capture thread has been started so far. *)
Definition NoneStarted (w : World) : Prop :=
  Forall (fun x => is_thread_run (fst x) = false) (log w).

Lemma none_started_atomic {A} e eff (rd : State -> A) :
  is_thread_run e = false ->
  triple NoneStarted (atomic e eff rd) (fun _ => NoneStarted) NoneStarted.
Proof.
  intros He. apply triple_atomic; [| auto].
  intros w b rest Hl _. unfold NoneStarted in *. cbn [log].
  apply Forall_app. split; [exact Hl |]. repeat constructor. exact He.
Qed.

Ltac none_started_prim :=
  intros;
  lazymatch goal with
  | H : NoneStarted ?w |- NoneStarted ?w => exact H
  | |- triple _ _ _ _ => apply none_started_atomic; reflexivity
  end.

Lemma create_threads_without_writer self filenames cam :
  In cam (keys (cameras (instrument self))) ->
  dict_get (writers self) cam = None ->
  triple NoneStarted (create_threads self filenames) (fun _ => Never)
    NoneStarted.
Proof.
  intros Hcam Hnone. unfold create_threads.
  eapply triple_conseq with
    (P' := (fun done w => NoneStarted w /\ ~ In cam (keys done)) [])
    (Q' := fun _ w => NoneStarted w /\
                      ~ In cam (keys (cameras (instrument self))))
    (X' := NoneStarted);
    [ | intros w H; split; [exact H | intros []]
      | intros ? w [_ H]; exact (H Hcam) | auto ].
  apply (triple_for_each
           (fun done w => NoneStarted w /\ ~ In cam (keys done))).
  intros done [c x] rest _. unfold getitem.
  destruct (dict_get filenames c);
    [apply triple_bind_ret | intros w [Hw _]; exact Hw].
  destruct (dict_get (writers self) c) eqn:E;
    [apply triple_bind_ret | intros w [Hw _]; exact Hw].
  assert (Hne : c <> cam) by (intros ->; congruence).
  assert (Hstep : triple (fun w => NoneStarted w /\ ~ In cam (keys done))
                    (act (ThreadCreate c) (set_thread c Created))
                    (fun _ w => NoneStarted w /\
                                ~ In cam (keys (done ++ [(c, x)])))
                    NoneStarted).
  { intros w [Hw Hd].
    pose proof (none_started_atomic (ThreadCreate c) (set_thread c Created)
                  (fun _ => tt) eq_refl w Hw) as H.
    unfold act. destruct (fst _); [| exact H | exact H].
    split; [exact H |]. unfold keys. rewrite map_app. intros Hin.
    apply in_app_or in Hin. destruct Hin as [Hin | [Hin | []]]; auto. }
  destruct (processes self) as [ps |].
  - destruct (dict_get ps c);
      [apply triple_bind_ret; exact Hstep | intros w [Hw _]; exact Hw].
  - apply triple_bind_ret. exact Hstep.
Qed.

(** X18.  When a camera of the instrument has no entry in [self.writers],
    the pass over a tile never returns: it fails when the capture threads
    are created (lines 139-155), after stages, channel, DAQs and routines
    have been dealt with, and no capture thread is started or joined, not
    even those of the cameras that come before it. *)
Theorem camera_without_writer_fails pluralize self tile filenames cam w :
  In cam (keys (cameras (instrument self))) ->
  dict_get (writers self) cam = None ->
  log w = [] ->
  let r := acquire_tile pluralize self tile filenames w in
  fst r <> Ret tt /\
  Forall (fun x => is_thread_run (fst x) = false) (log (snd r)).
Proof.
  intros Hcam Hnone Hlog r.
  assert (H : triple NoneStarted (acquire_tile pluralize self tile filenames)
                (fun _ => Never) NoneStarted).
  { unfold acquire_tile.
    eapply triple_bind with (R := fun _ => NoneStarted).
    { unfold position_stages, move_stage. walk none_started_prim. }
    intros ?. eapply triple_bind with (R := fun _ => NoneStarted).
    { unfold setup_channel, device_object. walk none_started_prim. }
    intros ?. eapply triple_bind with (R := fun _ => NoneStarted).
    { unfold arm_daqs. walk none_started_prim. }
    intros ?. eapply triple_bind with (R := fun _ => NoneStarted).
    { unfold start_routines, device_object. walk none_started_prim. }
    intros ?. eapply triple_bind with (R := fun _ => Never);
      [| intros ?; apply triple_never].
    apply (create_threads_without_writer self filenames cam Hcam Hnone). }
  assert (H0 : NoneStarted w) by (unfold NoneStarted; rewrite Hlog; constructor).
  specialize (H w H0). fold r in H.
  destruct (fst r) as [[] | e |]; [destruct H | |]; split;
    solve [discriminate | exact H].
Qed.

(** Two cameras, a writer for the first one only. *)
Definition second_camera_bare : Acquisition :=
  {| instrument :=
       {| devices := [("cam0", "camera"); ("cam1", "camera")];
          tiling_stages := []; scanning_stages := [];
          channels := [("488", [])]; collections := [];
          daqs := [("daq0", Bench.daq_full)];
          cameras := [("cam0", Bench.camera0); ("cam1", Bench.camera0)] |};
     tiles := [Bench.tile_of 4];
     writers := [("cam0", [("w", Bench.writer_of 4)])];
     processes := None; routines := None; transfers := None;
     self_chunk_count_px := Some 4 |}.

Lemma camera_without_writer_fails_witness :
  fst (acquire_tile Bench.pluralize second_camera_bare (Bench.tile_of 4)
         [("cam0", "a"); ("cam1", "b")]
         (Bench.world Bench.quiet_state (repeat [] 50))) <> Ret tt /\
  Forall (fun x => is_thread_run (fst x) = false)
    (log (snd (acquire_tile Bench.pluralize second_camera_bare (Bench.tile_of 4)
                 [("cam0", "a"); ("cam1", "b")]
                 (Bench.world Bench.quiet_state (repeat [] 50))))).
Proof.
  refine (camera_without_writer_fails Bench.pluralize second_camera_bare
            (Bench.tile_of 4) [("cam0", "a"); ("cam1", "b")] "cam1"
            (Bench.world Bench.quiet_state (repeat [] 50)) _ eq_refl eq_refl).
  right. left. reflexivity.
Defined.

(** That pass: the DAQ is armed, the first camera's thread is created, the
    second camera's writer is missed. *)
Example camera_without_writer_trace :
  let r := acquire_tile Bench.pluralize second_camera_bare (Bench.tile_of 4)
             [("cam0", "a"); ("cam1", "b")]
             (Bench.world Bench.quiet_state (repeat [] 50)) in
  fst r = Raise (KeyError "cam1") /\
  skipn 7 (map fst (log (snd r))) = [ThreadCreate "cam0"].
Proof. vm_compute. split; reflexivity. Qed.

(* ===================================================================== *)
(** ** Further properties: validation without writers *)
(* ===================================================================== *)

(** X19.  Validation leaves [self.chunk_count_px] at [None] exactly when no
    device has any writer: a configuration without writers is accepted, and
    with one writer or more an accepted configuration always has a chunk
    size. *)
Theorem no_chunk_size_iff_no_writers ws :
  _verify_acquisition None ws = Ret None <-> all_writers ws = [].
Proof.
  unfold _verify_acquisition. split.
  - intros H. destruct (verify_devices_ret _ _ _ H) as (Hall & _ & _).
    destruct (all_writers ws) as [| x l]; [reflexivity |].
    specialize (Hall x (or_introl eq_refl)). discriminate.
  - intros H.
    rewrite (verify_devices_same 0 ws) by (rewrite ?H; auto; intros x []).
    rewrite H. reflexivity.
Qed.

Lemma no_chunk_size_iff_no_writers_witness :
  _verify_acquisition None [("cam0", [])] = Ret None.
Proof.
  apply (proj2 (no_chunk_size_iff_no_writers [("cam0", [])])). reflexivity.
Defined.

(* ===================================================================== *)
(** ** Further properties: the DAQ tasks at the end of a capture *)
(* ===================================================================== *)

Section TasksStopped.

Variable the_daqs : dict Daq.

(** Only tasks of the instrument's DAQs run. *)
Definition among (l : list (string * TaskKind)) : Prop :=
  forall r, In r l -> In (fst r) (keys the_daqs).

(** [P] holds of the running tasks, and no other capture thread starts a
    task from here on. *)
Definition Run (P : list (string * TaskKind) -> Prop) (w : World) : Prop :=
  P (running (st w)) /\ no_other_start (sched w) = true.

(** A property of the running tasks that stays true when tasks are taken
    away. *)
Definition shrinks (P : list (string * TaskKind) -> Prop) : Prop :=
  forall l l', incl l' l -> P l -> P l'.

Lemma shrinks_among : shrinks among.
Proof. intros l l' Hi H r Hr. apply H, Hi, Hr. Qed.

Lemma shrinks_nil : shrinks (eq []).
Proof. intros l l' Hi <-. symmetry. apply incl_l_nil, Hi. Qed.

Lemma shrinks_among_if (c : Prop) :
  shrinks (fun l => among l /\ (c -> l = [])).
Proof.
  intros l l' Hi [Ha Hc]. split; [exact (shrinks_among l l' Hi Ha) |].
  intros H. apply incl_l_nil. rewrite <- (Hc H). exact Hi.
Qed.

Lemma shrinks_among_but done :
  shrinks (fun l => among l /\ forall r, In r l -> ~ In (fst r) done).
Proof.
  intros l l' Hi [Ha Hd]. split; [exact (shrinks_among l l' Hi Ha) |].
  intros r Hr. apply Hd, Hi, Hr.
Qed.

Lemma run_step {A} (P Q : list (string * TaskKind) -> Prop) e eff
  (rd : State -> A) :
  shrinks P ->
  (forall s, P (running s) -> Q (running (eff s))) ->
  triple (Run P) (atomic e eff rd) (fun _ => Run Q) anyhow.
Proof.
  intros HP Heff. apply triple_atomic; [| intros; exact Logic.I].
  intros w b rest [H Hq] E. rewrite E in Hq. cbn in Hq.
  apply andb_prop in Hq. destruct Hq as [Hb Hq].
  unfold Run. cbn [st sched]. split; [| exact Hq].
  apply Heff. apply (HP (running (st w))); [| exact H].
  apply env_burst_running, Hb.
Qed.

Lemma run_atomic {A} P e eff (rd : State -> A) :
  shrinks P ->
  (forall s, running (eff s) = running s) ->
  triple (Run P) (atomic e eff rd) (fun _ => Run P) anyhow.
Proof.
  intros HP Heff. apply run_step; [exact HP |].
  intros s H. rewrite Heff. exact H.
Qed.

Ltac run_prim :=
  intros;
  lazymatch goal with
  | |- anyhow _ => exact Logic.I
  | |- triple _ _ _ _ =>
      apply run_atomic;
      [ first [ apply shrinks_among | apply shrinks_nil
              | apply shrinks_among_if | apply shrinks_among_but ]
      | intros; cbn;
        repeat match goal with
               | |- context [if ?c then _ else _] => destruct c
               end;
        reflexivity ]
  end.

Lemma among_start_pulses num :
  triple (Run among) (start_pulses the_daqs num) (fun _ => Run among) anyhow.
Proof.
  unfold start_pulses. apply keeps_for_each. intros [d daq] _.
  eapply triple_bind; [walk run_prim | intros ?].
  apply keeps_for_each. intros [d' daq'] Hin.
  unfold start_tasks. apply keeps_for_each. intros [k present] _.
  destruct present; [| apply keeps_ret].
  apply run_step; [apply shrinks_among |]. intros s H r Hr. cbn in Hr.
  apply in_app_or in Hr. destruct Hr as [Hr | [<- | []]]; [apply H, Hr |].
  unfold keys. change (fst (d', k)) with (fst (d', daq')).
  apply in_map, Hin.
Qed.

Lemma among_stopped :
  triple (Run among)
    (for_each the_daqs (fun '(daq_name, _) => stop_daq daq_name))
    (fun _ => Run (eq [])) anyhow.
Proof.
  eapply triple_conseq with
    (P' := Run (fun l => among l /\
                         forall r, In r l ->
                           ~ In (fst r) (keys (@nil (string * Daq)))))
    (Q' := fun _ => Run (fun l => among l /\
                           forall r, In r l -> ~ In (fst r) (keys the_daqs)))
    (X' := anyhow);
    [ | intros w [H Hq]; split; [| exact Hq];
        split; [exact H | intros r _ Hf; destruct Hf]
      | | auto ].
  - apply (triple_for_each
             (fun done => Run (fun l => among l /\
                                 forall r, In r l -> ~ In (fst r) (keys done)))).
    intros done [d daq] rest _. apply run_step; [apply shrinks_among_but |].
    intros s [Ha Hd]. cbn. split.
    + intros r Hr. apply filter_In in Hr. apply Ha, Hr.
    + intros r Hr. apply filter_In in Hr. destruct Hr as [Hr Hne].
      unfold keys. rewrite map_app. intros Hin.
      apply in_app_or in Hin. destruct Hin as [Hin | [Hin | []]].
      * exact (Hd r Hr Hin).
      * cbn in Hin. rewrite <- Hin, String.eqb_refl in Hne. discriminate.
  - intros ? w [[Ha Hd] Hq]. split; [| exact Hq].
    destruct (running (st w)) as [| r l]; [reflexivity |].
    exfalso. apply (Hd r (or_introl eq_refl)), Ha. left. reflexivity.
Qed.

Lemma among_nil : among [].
Proof. intros r []. Qed.

(** After the pass for frame [k] the tasks are stopped if [k] was the last
    frame. *)
Lemma stopped_after_last_frame c tile writers processes k :
  triple (Run among)
    (capture_frame the_daqs c tile writers processes (Z.of_nat k))
    (fun _ => Run (fun l => among l /\
                            (Z.of_nat k = steps tile - 1 -> l = [])))
    anyhow.
Proof.
  unfold capture_frame. cbv zeta.
  eapply triple_bind with (R := fun _ => Run among).
  { destruct (_ =? 0); [apply among_start_pulses | apply keeps_ret]. }
  intros ?. eapply triple_bind; [walk run_prim | intros ?].
  eapply triple_bind; [walk run_prim | intros ?].
  eapply triple_bind; [unfold add_image; walk run_prim | intros ?].
  eapply triple_bind
    with (R := fun _ => Run (fun l => among l /\
                               (Z.of_nat k = steps tile - 1 -> l = []))).
  { destruct (Z.eqb_spec (Z.of_nat k) (steps tile - 1)) as [E | E].
    - rewrite orb_true_r. unfold dispatch_chunk.
      eapply triple_bind; [apply among_stopped | intros ?].
      eapply triple_conseq with
        (P' := Run (eq [])) (Q' := fun _ => Run (eq [])) (X' := anyhow);
        [ unfold dispatch_to_writer; walk run_prim | auto | | auto ].
      intros ? w [H Hq]. split; [| exact Hq]. rewrite <- H.
      split; [apply among_nil | reflexivity].
    - eapply triple_conseq with
        (P' := Run among) (Q' := fun _ => Run among) (X' := anyhow);
        [ | auto
          | intros ? w [H Hq]; split; [| exact Hq];
            split; [exact H | contradiction]
          | auto ].
      destruct (_ || _); [| apply keeps_ret].
      unfold dispatch_chunk.
      eapply triple_bind with (R := fun _ => Run among).
      { apply keeps_for_each. intros [d daq] _.
        apply run_step; [apply shrinks_among |].
        intros s H r Hr. cbn in Hr. apply filter_In in Hr. apply H, Hr. }
      intros ?. unfold dispatch_to_writer. walk run_prim. }
  intros ?. unfold feed_processes. walk run_prim.
Qed.

(** The tasks are stopped unless the stop flag is set. *)
Definition StoppedUnlessFlag (w : World) : Prop :=
  among (running (st w)) /\
  (stop_engine (st w) = false -> running (st w) = []) /\
  no_other_start (sched w) = true.

Lemma stop_engine_burst_false s b :
  stop_engine (env_burst s b) = false -> stop_engine s = false.
Proof.
  intros H. destruct (stop_engine s) eqn:E; [| reflexivity].
  rewrite (stop_engine_burst s b E) in H. discriminate.
Qed.

Lemma stopped_unless_flag_call e :
  triple StoppedUnlessFlag (call e) (fun _ => StoppedUnlessFlag) anyhow.
Proof.
  apply triple_atomic; [| intros; exact Logic.I].
  intros w b rest [Ha [Hs Hq]] E. rewrite E in Hq. cbn in Hq.
  apply andb_prop in Hq. destruct Hq as [Hb Hq].
  unfold StoppedUnlessFlag. cbn [st sched].
  pose proof (env_burst_running (st w) b Hb) as Hi.
  split; [exact (shrinks_among _ _ Hi Ha) | split; [| exact Hq]].
  intros H. apply incl_l_nil.
  rewrite <- (Hs (stop_engine_burst_false _ b H)). exact Hi.
Qed.

Lemma stopped_capture_loop_end c tile writers processes n :
  forall k,
    Z.of_nat (k + n) = steps tile \/ (steps tile <= 0 /\ (k + n = 0)%nat) ->
    triple (Run (fun l => among l /\ (n = 0%nat -> l = [])))
      (capture_loop the_daqs c tile writers processes n (Z.of_nat k))
      (fun _ => StoppedUnlessFlag) anyhow.
Proof.
  induction n as [| n IH]; intros k Hk; cbn [capture_loop].
  - apply triple_ret. intros w [[Ha Hq] Hs]. split; [exact Ha |].
    split; [| exact Hs]. intros _. apply Hq. reflexivity.
  - eapply triple_bind
      with (R := fun b w => Run among w /\
                            (b = true -> stop_engine (st w) = true)).
    + apply triple_atomic; [| intros; exact Logic.I].
      intros w b rest [[Ha _] Hq] E. rewrite E in Hq. cbn in Hq.
      apply andb_prop in Hq. destruct Hq as [Hb Hq].
      unfold Run. cbn [st sched]. split; [| auto].
      split; [| exact Hq].
      exact (shrinks_among _ _ (env_burst_running (st w) b Hb) Ha).
    + intros [|].
      * apply triple_ret. intros w [[Ha Hq] Hs]. split; [exact Ha |].
        split; [| exact Hq].
        intros Hf. rewrite Hs in Hf by reflexivity. discriminate.
      * eapply triple_bind
          with (R := fun _ => Run (fun l => among l /\ (n = 0%nat -> l = []))).
        { eapply triple_conseq with (X' := anyhow);
            [ apply stopped_after_last_frame | intros w [H _]; exact H
            | | auto ].
          intros ? w [[Ha Hq] Hs]. split; [| exact Hs]. split; [exact Ha |].
          intros ->. apply Hq. lia. }
        intros ?. replace (Z.of_nat k + 1) with (Z.of_nat (S k)) by lia.
        apply IH. lia.
Qed.

Lemma stopped_engine_end self tile filename camera writers processes :
  the_daqs = daqs (instrument self) ->
  triple (Run (eq []))
    (engine self tile filename camera writers processes)
    (fun _ => StoppedUnlessFlag) anyhow.
Proof.
  intros Hd. unfold engine. rewrite <- Hd.
  eapply triple_bind with (R := fun _ => Run (eq [])).
  { unfold setup_writer. walk run_prim. }
  intros ?. eapply triple_bind with (R := fun _ => Run (eq [])).
  { unfold setup_process. walk run_prim. }
  intros ?. eapply triple_bind with (R := fun _ => Run (eq [])).
  { unfold start_devices. walk run_prim. }
  intros ?. eapply triple_bind with (R := fun _ => Run (eq [])).
  { unfold divisor. walk run_prim. }
  intros c. eapply triple_bind with (R := fun _ => StoppedUnlessFlag).
  { eapply triple_conseq with (X' := anyhow);
      [ apply (stopped_capture_loop_end c tile writers processes
                 (Z.to_nat (steps tile)) 0%nat)
      | | intros ? w H; exact H | auto ].
    - destruct (Z.le_gt_cases (steps tile) 0); [right | left]; lia.
    - intros w [H Hq]. split; [| exact Hq]. rewrite <- H.
      split; [apply among_nil | reflexivity]. }
  intros ?. unfold finish.
  walk ltac:(intros;
             lazymatch goal with
             | |- anyhow _ => exact Logic.I
             | |- triple _ _ _ _ => apply stopped_unless_flag_call
             end).
Qed.

End TasksStopped.

(** X20.  On its own with the DAQs (no task is running when the engine
    begins and no other capture thread starts one meanwhile, as on an
    instrument with one camera), the engine leaves no DAQ task running when
    it returns with the stop flag unset: every task it started was stopped
    at the boundary of its chunk, the last chunk's at the last frame. *)
Theorem tasks_stopped_at_return
  self tile filename camera writers processes w :
  running (st w) = [] ->
  no_other_start (sched w) = true ->
  let r := engine self tile filename camera writers processes w in
  fst r = Ret tt ->
  stop_engine (st (snd r)) = false ->
  running (st (snd r)) = [].
Proof.
  intros Hrun Hq r Hret Hstop.
  pose proof (stopped_engine_end (daqs (instrument self)) self tile filename
                camera writers processes eq_refl) as H.
  specialize (H w (conj (eq_sym Hrun) Hq)). fold r in H. rewrite Hret in H.
  apply H, Hstop.
Qed.

Lemma tasks_stopped_at_return_witness :
  running
    (st (snd (engine (Bench.session Bench.one_daq 4 10) (Bench.tile_of 10)
                "tile_0_ch_488_camera_cam0" Bench.camera0
                [("w", Bench.writer_of 4)] []
                (Bench.world Bench.quiet_state
                   (repeat (Bench.prompt ["w"] []) 200))))) = [].
Proof.
  refine (tasks_stopped_at_return
            (Bench.session Bench.one_daq 4 10) (Bench.tile_of 10)
            "tile_0_ch_488_camera_cam0" Bench.camera0
            [("w", Bench.writer_of 4)] []
            (Bench.world Bench.quiet_state (repeat (Bench.prompt ["w"] []) 200))
            eq_refl eq_refl _ _); vm_compute; reflexivity.
Defined.

(** A stop in the middle of a chunk leaves the tasks of that chunk running
    when the engine returns. *)
Example tasks_running_after_stop :
  let r := Bench.capture Bench.one_daq 4 10
             (repeat (Bench.prompt ["w"] []) 25 ++ [[StopRequested]]
              ++ repeat (Bench.prompt ["w"] []) 40) in
  fst r = Ret tt /\ stop_engine (st (snd r)) = true /\
  grabbed_frames (map fst (log (snd r))) = [0; 1] /\
  running (st (snd r)) = [("daq0", AO); ("daq0", DO); ("daq0", CO)].
Proof. vm_compute. repeat split; reflexivity. Qed.

(** With a second camera the tasks may be running at the return although no
    stop was requested: the other capture thread started them after this
    one's last [daq.stop()]. *)
Example tasks_running_for_other_camera :
  let r := Bench.capture Bench.one_daq 4 4 other_camera_starts in
  fst r = Ret tt /\ stop_engine (st (snd r)) = false /\
  running (st (snd r)) = [("daq0", AO); ("daq0", DO); ("daq0", CO)].
Proof. vm_compute. repeat split; reflexivity. Qed.

(* ===================================================================== *)
(** ** Further properties: the chunk buffers always have room *)
(* ===================================================================== *)

Section BufferRoom.

Variable c : Z.
Hypothesis c_pos : 0 < c.
Variable writers : dict Writer.
Hypothesis writers_chunk :
  forall wn wr, In (wn, wr) writers -> chunk_count_px wr = c.
Hypothesis writers_dict : NoDup (keys writers).

(** [add_image] of frame [f] meets a buffer that takes [c] frames and holds
    [f mod c] of them. *)
Definition ok_room (x : Event * State) : Prop :=
  match fst x with
  | AddImage wn f =>
      capacity (img_buffers (snd x) wn) = c /\
      filled (img_buffers (snd x) wn) = f mod c
  | _ => True
  end.

(** The buffers of the writers [names] take [c] frames and hold [g] of
    them. *)
Definition bufs (names : list string) (g : string -> Z) (s : State) : Prop :=
  forall wn, In wn names ->
    capacity (img_buffers s wn) = c /\ filled (img_buffers s wn) = g wn.

Definition filled_all (f : Z) : State -> Prop :=
  bufs (keys writers) (fun _ => f).

#[local] Abbreviation Room := (Inv ok_room).
#[local] Abbreviation Tight := (Safe ok_room).

(** An invariant that reads the buffers only is kept by the environment and
    by every action of the engine that leaves the buffers alone. *)
Ltac room_prim :=
  intros;
  lazymatch goal with
  | H : Inv _ _ ?w |- Safe _ ?w => exact (Inv_Safe _ _ _ H)
  | |- triple (Inv _ ?J) _ _ _ =>
      apply (inv_atomic ok_room J);
      [ let ea := fresh "ea" in
        let HJ := fresh "HJ" in
        intros ? ea HJ; destruct ea; exact HJ
      | intros ? ?; exact Logic.I
      | let HJ := fresh "HJ" in intros ? HJ; exact HJ ]
  end.

Lemma stable_bufs names g : stable (bufs names g).
Proof. intros s a H. destruct a; exact H. Qed.

Lemma room_setup_writers tile filename camera :
  triple (Room (bufs [] (fun _ => 0)))
    (for_each writers (fun '(writer_name, writer) =>
       setup_writer tile filename camera writer_name writer))
    (fun _ => Room (filled_all 0)) Tight.
Proof.
  apply (triple_for_each (fun done => Room (bufs (keys done) (fun _ => 0)))).
  intros done [wn wr] rest E. unfold setup_writer. cbv zeta.
  repeat (eapply triple_bind
            with (R := fun _ => Room (bufs (keys done) (fun _ => 0)));
          [walk room_prim | intros ?]).
  apply hoare_atomic; [apply stable_bufs |].
  intros s Hs. split; [exact Logic.I |].
  intros wn' Hin. cbn.
  destruct (String.eqb_spec wn wn') as [<- | Hne];
    [rewrite upd_same | rewrite upd_other by exact Hne].
  - cbn. split; [| reflexivity].
    apply (writers_chunk wn). rewrite E. apply in_elt.
  - apply Hs. unfold keys in *. rewrite map_app in Hin.
    apply in_app_or in Hin. destruct Hin as [Hin | [Hin | []]]; [exact Hin |].
    cbn in Hin. contradiction.
Qed.

Lemma fresh_writer (done rest : dict Writer) wn wr :
  writers = done ++ (wn, wr) :: rest ->
  mem wn (keys done) = false /\ In wn (keys writers).
Proof.
  intros E. split.
  - destruct (mem wn (keys done)) eqn:Em; [| reflexivity].
    apply mem_In in Em. exfalso.
    pose proof writers_dict as Hnd. rewrite E in Hnd. unfold keys in *.
    rewrite map_app in Hnd. apply NoDup_remove_2 in Hnd.
    apply Hnd, in_or_app. left. exact Em.
  - rewrite E. unfold keys. rewrite map_app. apply in_or_app. right.
    left. reflexivity.
Qed.

(** Line 281: every buffer takes one more frame, and has room for it. *)
Lemma room_add_images i :
  triple (Room (filled_all (i mod c)))
    (for_each writers (fun '(writer_name, _) => add_image writer_name i))
    (fun _ => Room (filled_all (i mod c + 1))) Tight.
Proof.
  assert (Hmod : 0 <= i mod c < c) by (apply Z.mod_pos_bound; lia).
  apply triple_conseq with
    (P' := Room (bufs (keys writers)
                   (fun x => if mem x (keys (@nil (string * Writer)))
                             then i mod c + 1 else i mod c)))
    (Q' := fun _ => Room (bufs (keys writers)
                            (fun x => if mem x (keys writers)
                                      then i mod c + 1 else i mod c)))
    (X' := Tight).
  - apply (triple_for_each
             (fun done => Room (bufs (keys writers)
                                  (fun x => if mem x (keys done)
                                            then i mod c + 1 else i mod c)))).
    intros done [wn wr] rest E.
    destruct (fresh_writer done rest wn wr E) as [Hfresh Hin].
    unfold add_image.
    eapply triple_bind
      with (R := fun ok => Room (fun s =>
                   ok = true /\
                   bufs (keys writers)
                     (fun x => if mem x (keys (done ++ [(wn, wr)]))
                               then i mod c + 1 else i mod c) s)).
    + apply hoare_atomic; [apply stable_bufs |].
      intros s Hs. destruct (Hs wn Hin) as [Hc Hg]. rewrite Hfresh in Hg.
      split; [split; assumption |].
      rewrite Hc, Hg. destruct (Z.ltb_spec (i mod c) c) as [_ | Hge]; [| lia].
      split; [reflexivity |].
      intros x Hx. cbn.
      destruct (String.eqb_spec wn x) as [<- | Hne];
        [rewrite upd_same | rewrite upd_other by exact Hne].
      * unfold keys. rewrite map_app. cbn. rewrite mem_snoc_same. auto.
      * unfold keys. rewrite map_app. cbn.
        rewrite mem_snoc_other by exact Hne. apply Hs, Hx.
    + intros [|].
      * apply triple_ret. intros w [Hl [_ Hs]]. split; assumption.
      * intros w [_ [Hf _]]. discriminate Hf.
  - intros w H. exact H.
  - intros ? w [Hl Hs]. split; [exact Hl |].
    intros wn Hin. destruct (Hs wn Hin) as [Hc Hg].
    apply mem_In in Hin. rewrite Hin in Hg. auto.
  - intros w H. exact H.
Qed.

(** Lines 290-303: every buffer is toggled and is empty again. *)
Lemma room_toggles f :
  triple (Room (filled_all f))
    (for_each writers (fun '(writer_name, writer) =>
       dispatch_to_writer writer_name writer))
    (fun _ => Room (filled_all 0)) Tight.
Proof.
  apply triple_conseq with
    (P' := Room (bufs (keys writers)
                   (fun x => if mem x (keys (@nil (string * Writer)))
                             then 0 else f)))
    (Q' := fun _ => Room (bufs (keys writers)
                            (fun x => if mem x (keys writers) then 0 else f)))
    (X' := Tight).
  - apply (triple_for_each
             (fun done => Room (bufs (keys writers)
                                  (fun x => if mem x (keys done) then 0 else f)))).
    intros done [wn wr] rest E. unfold dispatch_to_writer.
    eapply triple_bind; [room_prim | intros ?].
    eapply triple_bind
      with (R := fun _ => Room (bufs (keys writers)
                                  (fun x => if mem x (keys (done ++ [(wn, wr)]))
                                            then 0 else f))).
    + apply hoare_atomic; [apply stable_bufs |].
      intros s Hs. split; [exact Logic.I |].
      intros x Hx. cbn.
      destruct (String.eqb_spec wn x) as [<- | Hne];
        [rewrite upd_same | rewrite upd_other by exact Hne].
      * unfold keys. rewrite map_app. cbn. rewrite mem_snoc_same.
        split; [apply Hs, Hx | reflexivity].
      * unfold keys. rewrite map_app. cbn.
        rewrite mem_snoc_other by exact Hne. apply Hs, Hx.
    + intros half. walk room_prim.
  - intros w H. exact H.
  - intros ? w [Hl Hs]. split; [exact Hl |].
    intros wn Hin. destruct (Hs wn Hin) as [Hc Hg].
    apply mem_In in Hin. rewrite Hin in Hg. auto.
  - intros w H. exact H.
Qed.

Variable the_daqs : dict Daq.

Lemma room_dispatch_chunk f :
  triple (Room (filled_all f)) (dispatch_chunk the_daqs writers)
    (fun _ => Room (filled_all 0)) Tight.
Proof.
  unfold dispatch_chunk, stop_daq.
  eapply triple_bind with (R := fun _ => Room (filled_all f));
    [walk room_prim | intros ?].
  eapply triple_bind with (R := fun _ => Room (filled_all f));
    [walk room_prim | intros ?].
  apply room_toggles.
Qed.

(** One pass of the loop: the buffers hold [i mod c] frames before it and
    [(i + 1) mod c] after it, unless it was the last pass. *)
Lemma room_capture_frame tile processes i :
  triple (Room (filled_all (i mod c)))
    (capture_frame the_daqs c tile writers processes i)
    (fun _ => Room (fun s => i = steps tile - 1 \/
                             filled_all ((i + 1) mod c) s))
    Tight.
Proof.
  unfold capture_frame. cbv zeta.
  assert (Hmod : 0 <= i mod c < c) by (apply Z.mod_pos_bound; lia).
  eapply triple_bind with (R := fun _ => Room (filled_all (i mod c))).
  { destruct (_ =? 0); [| apply triple_ret; auto].
    unfold start_pulses, start_tasks, start_task. walk room_prim. }
  intros ?. eapply triple_bind with (R := fun _ => Room (filled_all (i mod c)));
    [room_prim | intros ?].
  eapply triple_bind with (R := fun _ => Room (filled_all (i mod c)));
    [room_prim | intros ?].
  eapply triple_bind; [apply room_add_images | intros ?].
  eapply triple_bind
    with (R := fun _ => Room (fun s => i = steps tile - 1 \/
                                       filled_all ((i + 1) mod c) s)).
  { destruct (Z.eqb_spec (i mod c + 1) c) as [E | E]; cbn [orb].
    - eapply triple_conseq;
        [ apply room_dispatch_chunk | intros w H; exact H
        | | intros w H; exact H ].
      intros ? w [Hl Hs]. split; [exact Hl | right].
      replace ((i + 1) mod c) with 0; [exact Hs |].
      apply (Z.mod_unique (i + 1) c (i / c + 1) 0); [left; lia |].
      pose proof (Z.div_mod i c). lia.
    - destruct (Z.eqb_spec i (steps tile - 1)) as [El | El].
      + eapply triple_conseq;
          [ apply room_dispatch_chunk | intros w H; exact H
          | | intros w H; exact H ].
        intros ? w [Hl Hs]. split; [exact Hl | left; exact El].
      + apply triple_ret. intros w [Hl Hs]. split; [exact Hl | right].
        replace ((i + 1) mod c) with (i mod c + 1); [exact Hs |].
        apply (Z.mod_unique (i + 1) c (i / c) (i mod c + 1)); [left; lia |].
        pose proof (Z.div_mod i c). lia. }
  intros ?. unfold feed_processes. walk room_prim.
Qed.

Lemma room_capture_loop tile processes n :
  forall k,
    k + Z.of_nat n = steps tile ->
    triple (Room (fun s => n = 0%nat \/ filled_all (k mod c) s))
      (capture_loop the_daqs c tile writers processes n k)
      (fun _ => Room anything) Tight.
Proof.
  induction n as [| n IH]; intros k Hk; cbn [capture_loop].
  - apply triple_ret. intros w [Hl _]. split; [exact Hl | exact Logic.I].
  - eapply triple_bind
      with (R := fun _ => Room (fun s => S n = 0%nat \/ filled_all (k mod c) s));
      [room_prim | intros stop].
    destruct stop.
    { apply triple_ret. intros w [Hl _]. split; [exact Hl | exact Logic.I]. }
    eapply triple_bind
      with (R := fun _ => Room (fun s => n = 0%nat \/
                                         filled_all ((k + 1) mod c) s)).
    + eapply triple_conseq;
        [ apply room_capture_frame
        | intros w [Hl [Hs | Hs]]; [discriminate Hs | split; [exact Hl | exact Hs]]
        | | intros w H; exact H ].
      intros ? w [Hl [Hs | Hs]]; (split; [exact Hl |]); [left; lia | right; exact Hs].
    + intros ?. apply IH. lia.
Qed.

Lemma room_engine self tile filename camera processes :
  self_chunk_count_px self = Some c ->
  the_daqs = daqs (instrument self) ->
  triple (Room (bufs [] (fun _ => 0)))
    (engine self tile filename camera writers processes)
    (fun _ => Room anything) Tight.
Proof.
  intros Hc Hd. unfold engine. rewrite <- Hd, Hc. unfold divisor.
  destruct (Z.eqb_spec c 0) as [E | _]; [lia |].
  eapply triple_bind; [apply room_setup_writers | intros ?].
  eapply triple_bind with (R := fun _ => Room (filled_all 0)).
  { unfold setup_process. walk room_prim. }
  intros ?. eapply triple_bind with (R := fun _ => Room (filled_all 0)).
  { unfold start_devices. walk room_prim. }
  intros ?. apply triple_bind_ret.
  eapply triple_bind with (R := fun _ => Room anything).
  - destruct (Z.to_nat (steps tile)) as [| n] eqn:En.
    + cbn [capture_loop]. apply triple_ret.
      intros w [Hl _]. split; [exact Hl | exact Logic.I].
    + eapply triple_conseq;
        [ apply (room_capture_loop tile processes (S n) 0); lia
        | | intros ? w H; exact H | intros w H; exact H ].
      intros w [Hl Hs]. split; [exact Hl | right].
      rewrite Z.mod_0_l by lia. exact Hs.
  - intros ?. unfold finish. walk room_prim.
Qed.

End BufferRoom.

(** X21.  The chunk buffers always have room.  When every writer of the
    camera has the chunk size [c > 0] that is also [self.chunk_count_px]
    (what [_verify_acquisition] establishes for the writers of a session),
    every [add_image] call of the engine, for frame [f], meets a buffer
    that takes [c] frames and holds [f mod c] of them, hence fewer than it
    takes: the toggles at the chunk boundaries empty each buffer before it
    is full.  This holds for every behaviour of the other parties and
    wherever the run ends. *)
Theorem chunk_buffers_have_room
  self tile filename camera writers processes c w :
  self_chunk_count_px self = Some c ->
  0 < c ->
  (forall wn wr, In (wn, wr) writers -> chunk_count_px wr = c) ->
  NoDup (keys writers) ->
  log w = [] ->
  forall writer_name f s,
    In (AddImage writer_name f, s)
       (log (snd (engine self tile filename camera writers processes w))) ->
    capacity (img_buffers s writer_name) = c /\
    filled (img_buffers s writer_name) = f mod c /\
    filled (img_buffers s writer_name) < capacity (img_buffers s writer_name).
Proof.
  intros Hc Hpos Hw Hnd Hlog wn f s Hin.
  pose proof (room_engine c Hpos writers Hw Hnd (daqs (instrument self))
                self tile filename camera processes Hc eq_refl w) as H.
  assert (H0 : Inv (ok_room c) (bufs c [] (fun _ => 0)) w).
  { split; [rewrite Hlog; constructor | intros ? []]. }
  specialize (H H0).
  assert (Hsafe : Safe (ok_room c)
                    (snd (engine self tile filename camera writers processes w))).
  { destruct (fst (engine self tile filename camera writers processes w));
      auto. apply (Inv_Safe _ _ _ H). }
  unfold Safe in Hsafe. rewrite Forall_forall in Hsafe.
  destruct (Hsafe _ Hin) as [H1 H2]. cbn [fst snd] in H1, H2.
  split; [exact H1 | split; [exact H2 |]].
  rewrite H1, H2. apply Z.mod_pos_bound. exact Hpos.
Qed.

Lemma chunk_buffers_have_room_witness :
  let r := engine (Bench.session Bench.one_daq 4 10) (Bench.tile_of 10)
             "tile_0_ch_488_camera_cam0" Bench.camera0
             [("w", Bench.writer_of 4)] []
             (Bench.world Bench.quiet_state
                (repeat (Bench.prompt ["w"] []) 200)) in
  NoDup (keys [("w", Bench.writer_of 4)]) /\
  List.length (filter (fun x => match fst x with
                                | AddImage _ _ => true
                                | _ => false
                                end) (log (snd r))) = 10%nat /\
  forall writer_name f s,
    In (AddImage writer_name f, s) (log (snd r)) ->
    capacity (img_buffers s writer_name) = 4 /\
    filled (img_buffers s writer_name) = f mod 4 /\
    filled (img_buffers s writer_name) < capacity (img_buffers s writer_name).
Proof.
  assert (Hnd : NoDup (keys [("w", Bench.writer_of 4)])).
  { constructor; [intros [] | constructor]. }
  split; [exact Hnd |].
  split; [vm_compute; reflexivity |].
  refine (chunk_buffers_have_room
            (Bench.session Bench.one_daq 4 10) (Bench.tile_of 10)
            "tile_0_ch_488_camera_cam0" Bench.camera0
            [("w", Bench.writer_of 4)] [] 4
            (Bench.world Bench.quiet_state (repeat (Bench.prompt ["w"] []) 200))
            eq_refl eq_refl _ Hnd eq_refl).
  intros wn wr [[= <- <-] | []]. reflexivity.
Defined.

(** The fill counts the ten [add_image] calls of that run meet. *)
Example fill_counts_met :
  let r := Bench.capture Bench.one_daq 4 10
             (repeat (Bench.prompt ["w"] []) 200) in
  flat_map (fun x => match fst x with
                     | AddImage wn _ => [filled (img_buffers (snd x) wn)]
                     | _ => []
                     end) (log (snd r))
  = [0; 1; 2; 3; 0; 1; 2; 3; 0; 1].
Proof. vm_compute. reflexivity. Qed.

(** A writer whose own chunk size is smaller than the session's: its buffer
    is full before the first chunk boundary, and the engine ends there. *)
Example small_buffer_overfilled :
  let r := engine (Bench.session Bench.one_daq 4 10) (Bench.tile_of 10)
             "tile_0_ch_488_camera_cam0" Bench.camera0
             [("w", Bench.writer_of 2)] []
             (Bench.world Bench.quiet_state
                (repeat (Bench.prompt ["w"] []) 200)) in
  fst r = Raise (CapacityError "w") /\
  grabbed_frames (map fst (log (snd r))) = [0; 1; 2].
Proof. vm_compute. split; reflexivity. Qed.
